(** * Atenea assistant: the retrieval-augmented prompt assembly and relay pipeline

    A shallow embedding of [src/server.js] (the Express server) and of
    [src/pages/api/chat.js] (the Next.js route), and the properties of the
    pipeline: validation, moderation, similarity ranking, prompt assembly,
    the buffered relay and the streaming relay.

    Conventions of the embedding.
    - A JavaScript string is a [string]: a sequence of code units, taken in
      the range 0..255.  Constants of the program text are written as they
      stand in the source files.
    - A JavaScript number is a binary64 [float]; [Math.sqrt] and the four
      arithmetic operators are the IEEE 754 ones of [PrimFloat].
    - Values that come out of [JSON.parse] are [jsval]s.
    - The handlers run in a monad that records every observable effect
      (network calls, log lines, writes to the response) in a trace and
      that can raise a JavaScript exception. *)

From Stdlib Require Import String Ascii List ZArith Lia Bool Arith.
From Stdlib Require Import DecimalString Floats Reals Lra Permutation Sorted.
Import ListNotations.
Open Scope string_scope.

(* ===================================================================== *)
(** * Strings: the [String.prototype] methods the program calls *)
(* ===================================================================== *)

Module JsString.

(** White space and line terminators (what [trim] removes and what the
    regular expression class [\s] matches) among the code units 0..255:
    TAB, LF, VT, FF, CR, SPACE and NBSP. *)
Definition is_ws (c : ascii) : bool :=
  match nat_of_ascii c with
  | 9 | 10 | 11 | 12 | 13 | 32 | 160 => true
  | _ => false
  end.

Definition LF : ascii := ascii_of_nat 10.
Definition CR : ascii := ascii_of_nat 13.

Definition is_empty (s : string) : bool :=
  match s with EmptyString => true | _ => false end.

(** [s.trimStart()] *)
Fixpoint trim_start (s : string) : string :=
  match s with
  | EmptyString => EmptyString
  | String c r => if is_ws c then trim_start r else s
  end.

(** [s.trimEnd()] *)
Fixpoint trim_end (s : string) : string :=
  match s with
  | EmptyString => EmptyString
  | String c r =>
      let r' := trim_end r in
      if is_ws c && is_empty r' then EmptyString else String c r'
  end.

(** [s.trim()] *)
Definition trim (s : string) : string := trim_end (trim_start s).

(** [s.startsWith(p)] *)
Definition startsWith (s p : string) : bool := prefix p s.

(** [s.slice(n)] for [0 <= n] *)
Fixpoint drop (n : nat) (s : string) : string :=
  match n, s with
  | O, _ => s
  | S n', String _ r => drop n' r
  | S _, EmptyString => EmptyString
  end.

(** [s.split(/\r?\n/)]: the separator is a line feed, together with the
    carriage return that immediately precedes it when there is one.  The
    result is never empty: a string without separator is its own single
    piece. *)
Fixpoint split_lines (s : string) : list string :=
  match s with
  | EmptyString => [EmptyString]
  | String c r =>
      if Ascii.eqb c LF then EmptyString :: split_lines r
      else if Ascii.eqb c CR && startsWith r (String LF EmptyString)
      then split_lines r
      else match split_lines r with
           | [] => [String c EmptyString]
           | l :: ls => String c l :: ls
           end
  end.

(** [xs.filter(Boolean)] on an array of strings: the empty string is the
    only falsy string. *)
Definition filter_Boolean (xs : list string) : list string :=
  filter (fun l => negb (is_empty l)) xs.

(** [line.replace(/^data:\s*/, "")] *)
Definition strip_data_prefix (line : string) : string :=
  if startsWith line "data:" then trim_start (drop 5 line) else line.

Definition hex_digit (n : nat) : ascii :=
  ascii_of_nat (if Nat.ltb n 10 then 48 + n else 87 + n).

(** One code unit inside [JSON.stringify] of a string (QuoteJSONString). *)
Definition quote_char (c : ascii) : string :=
  let n := nat_of_ascii c in
  match n with
  | 8 => "\b"
  | 9 => "\t"
  | 10 => "\n"
  | 12 => "\f"
  | 13 => "\r"
  | 34 => String "\" (String (ascii_of_nat 34) EmptyString)
  | 92 => "\\"
  | _ =>
      if Nat.ltb n 32
      then "\u00" ++ String (hex_digit (n / 16)) (String (hex_digit (n mod 16)) EmptyString)
      else String c EmptyString
  end.

Fixpoint quote_body (s : string) : string :=
  match s with
  | EmptyString => EmptyString
  | String c r => quote_char c ++ quote_body r
  end.

Definition dquote : string := String (ascii_of_nat 34) EmptyString.

(** [JSON.stringify(s)] for a string [s] *)
Definition JSON_stringify (s : string) : string :=
  dquote ++ quote_body s ++ dquote.

End JsString.

(* ===================================================================== *)
(** * JSON values and the conversions applied to them *)
(* ===================================================================== *)

Module Json.

(** A value produced by [JSON.parse], or [undefined] (the result of
    reading a property that is absent).  An object inherits [toString]
    and [valueOf] from [Object.prototype] unless it has a property named
    [toString] of its own, which JSON cannot make callable: converting such
    an object to a string or to a number throws a TypeError
    ([String_throws] below). *)
#[warnings="-register-all"] Inductive jsval : Type :=
| VUndefined
| VNull
| VBool (b : bool)
| VNum (f : float)
| VStr (s : string)
| VArr (xs : list jsval)
| VObj (fields : list (string * jsval)).

(** Two built-ins of the runtime are left abstract.  [Number_toString] is
    ECMAScript's [Number::toString]: no property of the pipeline depends
    on how a number is printed.  [coerced_cosineSim a b] is what
    [cosineSim(a, b)] evaluates to when [a] or [b] is not a numeric
    array (a non-empty string, an object, an array with a non-empty
    string, an array or an object among its entries): the multiplications
    then go through the conversion of strings and objects to numbers
    (ToPrimitive, StringToNumber), which gives a number or throws a
    TypeError ([None]). *)
Class Runtime : Type := {
  Number_toString : float -> string;
  coerced_cosineSim : jsval -> jsval -> option float
}.

(** [ToBoolean]: the falsy values are [undefined], [null], [false],
    [+0], [-0], [NaN] and the empty string. *)
Definition truthy (v : jsval) : bool :=
  match v with
  | VUndefined | VNull => false
  | VBool b => b
  | VNum f => negb (PrimFloat.is_zero f || PrimFloat.is_nan f)
  | VStr s => negb (JsString.is_empty s)
  | VArr _ | VObj _ => true
  end.

Fixpoint lookup (k : string) (fields : list (string * jsval)) : jsval :=
  match fields with
  | [] => VUndefined
  | (k', v) :: rest => if String.eqb k k' then v else lookup k rest
  end.

(** [v.k] on a value that is neither [undefined] nor [null], for the
    property names the program reads ([message], [history], [role],
    [content], [id], [text], [embedding], [results], [flagged],
    [choices], [data]): none of them is inherited, so only an object
    has them. *)
Definition get_key (v : jsval) (k : string) : jsval :=
  match v with
  | VObj fields => lookup k fields
  | _ => VUndefined
  end.

(** [v?.k] *)
Definition opt_key (v : jsval) (k : string) : jsval :=
  match v with
  | VUndefined | VNull => VUndefined
  | _ => get_key v k
  end.

(** [v?.[0]] *)
Definition opt_first (v : jsval) : jsval :=
  match v with
  | VArr (x :: _) => x
  | VStr (String c _) => VStr (String c EmptyString)
  | VObj fields => lookup "0" fields
  | _ => VUndefined
  end.

Definition nullish (v : jsval) : bool :=
  match v with VUndefined | VNull => true | _ => false end.

(** [Array.isArray(v) ? v : []] *)
Definition array_or_empty (v : jsval) : list jsval :=
  match v with VArr xs => xs | _ => [] end.

(** The object has a property named [k] of its own. *)
Definition has_own (k : string) (fields : list (string * jsval)) : bool :=
  existsb (fun kv => String.eqb (fst kv) k) fields.

(** [String(v)], [`${v}`], [v.toString()] and the conversion of [v] to a
    number throw a TypeError: [v] is an object with a [toString] of its
    own (the value, not callable, hides [Object.prototype.toString], and
    [valueOf] returns the object), or an array that holds such a value
    (an array converts by joining the conversions of its entries,
    [undefined] and [null] apart). *)
Fixpoint String_throws (v : jsval) : bool :=
  match v with
  | VObj fields => has_own "toString" fields
  | VArr xs =>
      (fix any (ys : list jsval) : bool :=
         match ys with
         | [] => false
         | y :: rest => String_throws y || any rest
         end) xs
  | _ => false
  end.

Section Conversions.
Context {rt : Runtime}.

(** [String(v)], which is also [`${v}`] and, on a value other than
    [undefined] and [null], [v.toString()]: the string the conversion
    returns when it returns, that is unless [String_throws v].  An array
    prints its elements separated by commas, [undefined] and [null]
    elements as nothing. *)
Fixpoint ToString (v : jsval) : string :=
  match v with
  | VUndefined => "undefined"
  | VNull => "null"
  | VBool true => "true"
  | VBool false => "false"
  | VNum f => Number_toString f
  | VStr s => s
  | VArr xs =>
      (fix join (ys : list jsval) : string :=
         match ys with
         | [] => EmptyString
         | y :: rest =>
             let e := match y with
                      | VUndefined | VNull => EmptyString
                      | _ => ToString y
                      end in
             match rest with
             | [] => e
             | _ :: _ => e ++ "," ++ join rest
             end
         end) xs
  | VObj _ => "[object Object]"
  end.

End Conversions.

End Json.

(* ===================================================================== *)
(** * Similarity engine: [dot], [norm], [cosineSim] *)
(* ===================================================================== *)

Module Similarity.

(** The arithmetic the three functions use.  The server runs them on
    binary64 numbers; the same text read over the real numbers gives the
    exact value of the formula. *)
Class Num (T : Type) : Type := {
  zero : T;
  add : T -> T -> T;
  mul : T -> T -> T;
  div : T -> T -> T;
  sqrt : T -> T;
  (** [x === 0] *)
  is0 : T -> bool;
  (** [!x]: zero of either sign and NaN *)
  falsy : T -> bool
}.

#[global] Instance float_num : Num float := {
  zero := 0%float;
  add := PrimFloat.add;
  mul := PrimFloat.mul;
  div := PrimFloat.div;
  sqrt := PrimFloat.sqrt;
  is0 := fun x => PrimFloat.eqb x 0%float;
  falsy := fun x => PrimFloat.is_zero x || PrimFloat.is_nan x
}.

Definition R_is0 (x : R) : bool := if Req_dec_T x 0%R then true else false.

#[global] Instance real_num : Num R := {
  zero := 0%R;
  add := Rplus;
  mul := Rmult;
  div := Rdiv;
  sqrt := R_sqrt.sqrt;
  is0 := R_is0;
  falsy := R_is0
}.

Section Engine.
Context {T : Type} {num : Num T}.

(** A numeric array; [None] is an entry that is [undefined], [null]
    or a hole. *)
Definition vector : Type := list (option T).

(** [a[i]] *)
Definition at_index (a : vector) (i : nat) : option T :=
  match nth_error a i with
  | Some x => x
  | None => None
  end.

(** [x || 0] *)
Definition or0 (x : option T) : T :=
  match x with
  | Some f => if falsy f then zero else f
  | None => zero
  end.

(** [function dot(a, b)]: the loop runs over the indices of [a]. *)
Definition dot (a b : vector) : T :=
  fold_left (fun s i => add s (mul (or0 (at_index a i)) (or0 (at_index b i))))
            (seq 0 (length a)) zero.

(** [function norm(a)] *)
Definition norm (a : vector) : T := sqrt (dot a a).

(** What [cosineSim] does once the product of the norms is known:
    it returns the constant 0, or it performs one division. *)
Inductive outcome : Type :=
| ReturnZero
| Divide (numerator denominator : T).

Definition cosineSim_outcome (a b : vector) : outcome :=
  let n := mul (norm a) (norm b) in
  if is0 n then ReturnZero else Divide (dot a b) n.

Definition value_of (o : outcome) : T :=
  match o with
  | ReturnZero => zero
  | Divide x y => div x y
  end.

(** [function cosineSim(a, b)] *)
Definition cosineSim (a b : vector) : T :=
  let n := mul (norm a) (norm b) in
  if is0 n then zero else div (dot a b) n.

(** [a] cut or extended with absent entries to [n] entries. *)
Definition resize (n : nat) (a : vector) : vector :=
  (firstn n a ++ repeat None (n - length a))%list.

(** Every entry replaced by the number the loop reads at it. *)
Definition zero_filled (a : vector) : vector :=
  map (fun x => Some (or0 x)) a.

End Engine.

End Similarity.

(* ===================================================================== *)
(** * Embedding store: the load of [vectors.json] at startup *)
(* ===================================================================== *)

Module Store.
Import Json.

(** What [fs.readFileSync] followed by [JSON.parse] yields: either call
    throws, or a value is parsed. *)
Inductive source : Type :=
| Unreadable
| Unparsable
| Parsed (j : jsval).

(** [{ id: v.id, text: v.text, embedding: v.embedding }] *)
Record rag_record : Type := { id : jsval; text : jsval; embedding : jsval }.

Inductive log_line : Type :=
| LogLoaded (n : nat)
| WarnNotAnArray
| WarnNotFoundOrInvalid.

(** The callback of [parsed.map]: reading a property of [null] throws a
    TypeError ([None]); on any other value an absent property reads as
    [undefined]. *)
Definition record_of (v : jsval) : option rag_record :=
  match v with
  | VUndefined | VNull => None
  | _ => Some {| id := get_key v "id";
                 text := get_key v "text";
                 embedding := get_key v "embedding" |}
  end.

Fixpoint map_records (vs : list jsval) : option (list rag_record) :=
  match vs with
  | [] => Some []
  | v :: rest =>
      match record_of v with
      | None => None
      | Some r =>
          match map_records rest with
          | None => None
          | Some rs => Some (r :: rs)
          end
      end
  end.

(** The startup block: the value of [RAG_VECTORS] when it ends, and the
    lines it logs.  It has no way to fail: every exception is caught. *)
Definition load (RAG_ENABLED : bool) (src : source) : list rag_record * list log_line :=
  if RAG_ENABLED then
    match src with
    | Unreadable | Unparsable => ([], [WarnNotFoundOrInvalid])
    | Parsed (VArr vs) =>
        match map_records vs with
        | Some rs => (rs, [LogLoaded (length rs)])
        | None => ([], [WarnNotFoundOrInvalid])
        end
    | Parsed _ => ([], [WarnNotAnArray])
    end
  else ([], []).

End Store.

(* ===================================================================== *)
(** * Ranking: the retrieval block of the two Express handlers *)
(* ===================================================================== *)

Module Ranking.
Import Json Store.

(** [{ ...v, sim: cosineSim(qemb, v.embedding) }] *)
Record ranked : Type := { doc : rag_record; sim : float }.

(** The entries [x] for which [(x || 0)] multiplies as a number without
    any conversion of a string or an object: numbers, booleans, [null],
    [undefined] and the empty string (which is falsy). *)
Definition numeric_entry (x : jsval) : bool :=
  match x with
  | VStr s => JsString.is_empty s
  | VArr _ | VObj _ => false
  | _ => true
  end.

(** An entry of a numeric array as [dot] reads it: a number is itself,
    [true] multiplies as 1, and [undefined], [null], [false] and the empty
    string are falsy, hence absent. *)
Definition as_entry (x : jsval) : option float :=
  match x with
  | VNum f => Some f
  | VBool true => Some 1%float
  | _ => None
  end.

(** A JSON value read as a numeric array, when it is one.  An array
    is one when its entries are numeric.  A number or a boolean has an
    undefined [length] and the empty string has length 0, so the loop of
    [dot] does not run over them and reading an index of them gives
    [undefined]: they read as the empty array. *)
Definition as_vector (v : jsval) : option (@Similarity.vector float) :=
  match v with
  | VArr xs => if forallb numeric_entry xs then Some (map as_entry xs) else None
  | VNum _ | VBool _ => Some []
  | VStr s => if JsString.is_empty s then Some [] else None
  | _ => None
  end.

Section Rank.
Context {rt : Runtime}.

(** [cosineSim(a, b)] on values, [None] when it throws a TypeError.
    [norm(a)] reads [a.length], then [norm(b)] reads [b.length]: on
    [undefined] and [null] that read throws.  Both norms are computed
    before anything else, and each multiplies every entry of its array
    with itself: an entry that cannot be converted to a number throws,
    whichever array holds it. *)
Definition cosineSim_js (a b : jsval) : option float :=
  if nullish a || nullish b then None
  else if existsb String_throws (array_or_empty a ++ array_or_empty b) then None
  else match as_vector a, as_vector b with
       | Some va, Some vb => Some (Similarity.cosineSim va vb)
       | _, _ => coerced_cosineSim a b
       end.

(** [RAG_VECTORS.map(v => ({ ...v, sim: cosineSim(qemb, v.embedding) }))] *)
Fixpoint similarities (qemb : jsval) (vs : list rag_record) : option (list ranked) :=
  match vs with
  | [] => Some []
  | v :: rest =>
      match cosineSim_js qemb (embedding v) with
      | None => None
      | Some s =>
          match similarities qemb rest with
          | None => None
          | Some rs => Some ({| doc := v; sim := s |} :: rs)
          end
      end
  end.

End Rank.

(** The comparator [(a, b) => b.sim - a.sim]. *)
Definition comparator (a b : ranked) : float := (sim b - sim a)%float.

(** [b] must come before [a]: the comparator is positive.  A NaN
    comparator counts as zero, as [Array.prototype.sort] reads it. *)
Definition comes_after (a b : ranked) : bool := (0 <? comparator a b)%float.

(** [sims.sort(comparator)].  The sort is stable; on a consistent
    comparator every stable sort returns the same array, which is the one
    this insertion sort builds.  The comparator is consistent when no
    similarity is NaN, and also when it makes a tie of every pair; when it
    is not consistent the language leaves the order to the
    implementation. *)
Fixpoint insert (x : ranked) (l : list ranked) : list ranked :=
  match l with
  | [] => [x]
  | y :: l' => if comes_after x y then y :: insert x l' else x :: l
  end.

Fixpoint sort (l : list ranked) : list ranked :=
  match l with
  | [] => []
  | x :: l' => insert x (sort l')
  end.

(** [xs.slice(0, k)] for an integer [k] (the configured number as
    [slice] truncates it): a negative [k] counts from the end of the
    array. *)
Definition slice0 {A : Type} (k : Z) (xs : list A) : list A :=
  if (k <? 0)%Z
  then firstn (Z.to_nat (Z.max (Z.of_nat (length xs) + k) 0)) xs
  else firstn (Z.to_nat k) xs.

Section Retrieve.
Context {rt : Runtime}.

(** The ranking step proper, once the query embedding is there:
    [sims], sorted, cut to [RAG_TOP_K]. *)
Definition rank (qemb : jsval) (vs : list rag_record) : option (list ranked) :=
  match similarities qemb vs with
  | Some sims => Some (sort sims)
  | None => None
  end.

Definition top_docs (RAG_TOP_K : Z) (qemb : jsval) (vs : list rag_record) : option (list ranked) :=
  match rank qemb vs with
  | Some sorted => Some (slice0 RAG_TOP_K sorted)
  | None => None
  end.

End Retrieve.

End Ranking.

(* ===================================================================== *)
(** * Prompt assembler: [buildMessagesWithRAG] *)
(* ===================================================================== *)

Module Prompt.
Import Json Store Ranking.

Record message : Type := { role : string; content : string }.

(** A history entry as the assembler reads it: [h.role] and [h.content]. *)
Record hentry : Type := { h_role : jsval; h_content : jsval }.

Definition nl : string := String JsString.LF EmptyString.

(** [`${n}`] for a positive integer *)
Definition decimal (n : nat) : string := NilEmpty.string_of_uint (Nat.to_uint n).

(** [xs.map((d, i) => f(d, i))] *)
Fixpoint mapi_from {A B : Type} (i : nat) (f : A -> nat -> B) (xs : list A) : list B :=
  match xs with
  | [] => []
  | x :: rest => f x i :: mapi_from (S i) f rest
  end.

Definition mapi {A B : Type} (f : A -> nat -> B) (xs : list A) : list B := mapi_from 0 f xs.

Section Assemble.
Context {rt : Runtime}.

(** [`Documento ${i + 1}:\n${d.text}`] *)
Definition document_block (d : ranked) (i : nat) : string :=
  "Documento " ++ decimal (i + 1) ++ ":" ++ nl ++ ToString (text (doc d)).

Definition documents_header : string := nl ++ nl ++ "Documentos relevantes:" ++ nl.

Definition documents_footer : string :=
  nl ++ nl ++ "Usa esta información cuando sea pertinente y cita la fuente si es necesario.".

Definition ragSystem (systemPrompt : string) (topDocs : list ranked) : string :=
  if (0 <? length topDocs)%nat
  then systemPrompt ++ documents_header
       ++ String.concat (nl ++ nl) (mapi document_block topDocs)
       ++ documents_footer
  else systemPrompt.

(** [h => ({ role: h.role === "assistant" ? "assistant" : "user",
             content: String(h.content) })] *)
Definition history_message (h : hentry) : message :=
  {| role := match h_role h with
             | VStr r => if String.eqb r "assistant" then "assistant" else "user"
             | _ => "user"
             end;
     content := ToString (h_content h) |}.

Definition buildMessagesWithRAG (systemPrompt : string) (history : list hentry)
    (userMessage : string) (topDocs : list ranked) : list message :=
  ({| role := "system"; content := ragSystem systemPrompt topDocs |}
   :: map history_message history
   ++ [ {| role := "user"; content := userMessage |} ])%list.

End Assemble.

End Prompt.

(* ===================================================================== *)
(** * Effects: network calls, log lines and the HTTP response *)
(* ===================================================================== *)

Module Effects.
Import Json Prompt.

(** What a handler can throw or see thrown. *)
Inductive exn : Type :=
| TypeError
| FetchRejected
| BodyRejected
| EmbeddingsError (status : nat) (txt : string)
| ReadRejected
| ResponseClosed.

(** The request [fetch] sends: the endpoint and what the body carries
    (the model name and the sampling parameters are configuration). *)
Inductive fetch_request : Type :=
| ModerationsReq (input : string)
| EmbeddingsReq (input : string)
| CompletionsReq (messages : list message) (stream : bool).

(** The body of an upstream streaming response as [reader.read()]
    delivers it: the chunks, already decoded to text, then either the end
    of the stream or a rejected read. *)
Record upstream_body : Type := { chunks : list string; closes_cleanly : bool }.

(** A response of [fetch]: [text] and [json] are what [res.text()] and
    [res.json()] resolve to, [None] when they reject. *)
Record response : Type := {
  ok : bool;
  status : nat;
  text : option string;
  json : option jsval;
  body : option upstream_body
}.

Inductive fetch_outcome : Type :=
| Rejects
| Resolves (r : response).

Inductive logged : Type :=
| LNum (n : nat)
| LText (s : string)
| LJson (v : jsval)
| LExn (e : exn).

(** The JSON body of a buffered response. *)
Inductive json_body : Type :=
| ErrorBody (error : string)
| ReplyBody (reply : string).

Inductive event : Type :=
| Fetch (req : fetch_request)
| ConsoleError (label : string) (args : list logged)
| ConsoleWarn (label : string) (args : list logged)
(** [res.status(code).json(body)]: status line, headers, body, end *)
| Respond (code : nat) (b : json_body)
| SetHeader (name value : string)
(** [res.flushHeaders()]: the status line (200) and the headers leave *)
| FlushHeaders
| Write (data : string)
| EndResponse.

Inductive result (A : Type) : Type :=
| Ok (a : A)
| Throw (e : exn).
Arguments Ok {A} a.
Arguments Throw {A} e.

(** A computation reads the trace so far (latest event first), extends
    it, and returns or throws. *)
Definition M (A : Type) : Type := list event -> result A * list event.

Definition ret {A : Type} (a : A) : M A := fun tr => (Ok a, tr).

Definition bind {A B : Type} (c : M A) (k : A -> M B) : M B :=
  fun tr =>
    match c tr with
    | (Ok a, tr') => k a tr'
    | (Throw e, tr') => (Throw e, tr')
    end.

Definition throw {A : Type} (e : exn) : M A := fun tr => (Throw e, tr).

(** [try { c } catch (err) { handler(err) }] *)
Definition try_catch {A : Type} (c : M A) (handler : exn -> M A) : M A :=
  fun tr =>
    match c tr with
    | (Ok a, tr') => (Ok a, tr')
    | (Throw e, tr') => handler e tr'
    end.

Definition emit (e : event) : M unit := fun tr => (Ok tt, e :: tr).

(** The events of a run, in the order they happened. *)
Definition events {A : Type} (c : M A) : list event := rev (snd (c [])).

(** How the run ended: normally, or with an exception nobody caught. *)
Definition completion {A : Type} (c : M A) : result A := fst (c []).

End Effects.

Declare Scope js_scope.
Delimit Scope js_scope with js.
Notation "x <- c ;; k" := (Effects.bind c (fun x => k))
  (at level 61, c at next level, right associativity) : js_scope.
Notation "c ;;; k" := (Effects.bind c (fun _ => k))
  (at level 61, right associativity) : js_scope.

(* ===================================================================== *)
(** * The Express server: [src/server.js] *)
(* ===================================================================== *)

Module Server.
Import Json Store Ranking Prompt Effects.
Local Open Scope js_scope.

(** Everything outside the handler that one request depends on: the
    configuration, the store, what each external service answers to the
    one call the request may make to it, and whether the connection to the
    caller still takes a write (asked with the events so far, in order). *)
Record world : Type := {
  OPENAI_KEY : option string;
  SYSTEM_PROMPT : string;
  RAG_ENABLED : bool;
  RAG_TOP_K : Z;
  RAG_VECTORS : list rag_record;
  moderations : fetch_outcome;
  embeddings : fetch_outcome;
  completions : fetch_outcome;
  write_throws : list event -> bool
}.

(** [function validateMessageText(text)]; [None] is [null]. *)
Definition validateMessageText (text : jsval) : option string :=
  match text with
  | VStr s =>
      if JsString.is_empty s then Some "El mensaje está vacío o no es válido."
      else if Nat.eqb (String.length (JsString.trim s)) 0 then Some "El mensaje está vacío."
      else if (8000 <? Z.of_nat (String.length s))%Z then Some "Mensaje demasiado largo."
      else None
  | _ => Some "El mensaje está vacío o no es válido."
  end.

(** [xs.slice(-n)] *)
Definition last_n {A : Type} (n : nat) (xs : list A) : list A :=
  skipn (length xs - n) xs.

(** The callback of [history.map] reads [h.role] and [h.content], which
    throws on [null] and [undefined], and converts the content with
    [String(h.content)], which throws on a content that cannot be
    converted; [None] is the TypeError thrown in either case. *)
Definition entry_of (h : jsval) : option hentry :=
  match h with
  | VUndefined | VNull => None
  | _ => if String_throws (get_key h "content") then None
         else Some {| h_role := get_key h "role"; h_content := get_key h "content" |}
  end.

Definition policy_message : string :=
  "El contenido del mensaje ha sido bloqueado por políticas de seguridad.".

Definition sse_frame (payload : string) : string :=
  "data: " ++ payload ++ nl ++ nl.

(** [`event: error\ndata: ${JSON.stringify({ error: msg })}\n\n`] *)
Definition sse_error (msg : string) : string :=
  "event: error" ++ nl ++ "data: {" ++ JsString.JSON_stringify "error" ++ ":"
  ++ JsString.JSON_stringify msg ++ "}" ++ nl ++ nl.

Definition sse_done : string := "event: done" ++ nl ++ "data: [DONE]" ++ nl ++ nl.

Section Handlers.
Context {rt : Runtime} (w : world).

(** [!OPENAI_KEY] *)
Definition key_missing : bool :=
  match OPENAI_KEY w with
  | Some k => JsString.is_empty k
  | None => true
  end.

Definition fetch (req : fetch_request) (answer : fetch_outcome) : M response :=
  emit (Fetch req) ;;;
  match answer with
  | Rejects => throw FetchRejected
  | Resolves r => ret r
  end.

(** [await res.json()] *)
Definition res_json (r : response) : M jsval :=
  match json r with
  | Some j => ret j
  | None => throw BodyRejected
  end.

(** [await res.text().catch(() => "")] *)
Definition text_or_empty (r : response) : string :=
  match text r with
  | Some t => t
  | None => EmptyString
  end.

Definition res_write (data : string) : M unit :=
  fun tr => if write_throws w (rev tr) then (Throw ResponseClosed, tr)
            else (Ok tt, Write data :: tr).

Definition res_end : M unit :=
  fun tr => if write_throws w (rev tr) then (Throw ResponseClosed, tr)
            else (Ok tt, EndResponse :: tr).

(** [async function getEmbedding(text)] *)
Definition getEmbedding (input : string) : M jsval :=
  res <- fetch (EmbeddingsReq input) (embeddings w) ;;
  if negb (ok res) then throw (EmbeddingsError (status res) (text_or_empty res))
  else
    j <- res_json res ;;
    ret (opt_key (opt_first (opt_key j "data")) "embedding").

Record verdict : Type := { flagged : bool; raw_result : jsval }.

Definition not_flagged : verdict := {| flagged := false; raw_result := VUndefined |}.

(** [async function runModerationCheck(content)] *)
Definition runModerationCheck (content : string) : M verdict :=
  if key_missing then ret not_flagged
  else
    try_catch
      (res <- fetch (ModerationsReq content) (moderations w) ;;
       if negb (ok res) then
         emit (ConsoleError "Moderation API error status:" [LNum (status res)]) ;;;
         ret not_flagged
       else
         j <- res_json res ;;
         let r := opt_first (opt_key j "results") in
         ret {| flagged := truthy (opt_key r "flagged"); raw_result := r |})
      (fun err =>
         emit (ConsoleError "Moderation failed:" [LExn err]) ;;;
         ret not_flagged).

(** The moderation stage of both handlers; [true] when the handler
    has answered and returns. *)
Definition moderation_stage (userMessage : string) : M bool :=
  try_catch
    (mod_ <- runModerationCheck userMessage ;;
     if flagged mod_ then
       emit (Respond 400 (ErrorBody policy_message)) ;;; ret true
     else ret false)
    (fun e => emit (ConsoleWarn "Moderation step failed:" [LExn e]) ;;; ret false).

(** The retrieval stage of both handlers: the value of [topDocs]. *)
Definition retrieval_stage (userMessage : string) : M (list ranked) :=
  if RAG_ENABLED w && (0 <? length (RAG_VECTORS w))%nat then
    try_catch
      (qemb <- getEmbedding userMessage ;;
       match top_docs (RAG_TOP_K w) qemb (RAG_VECTORS w) with
       | Some docs => ret docs
       | None => throw TypeError
       end)
      (fun e => emit (ConsoleError "RAG embedding error:" [LExn e]) ;;; ret [])
  else ret [].

(** [(body.message || "").toString()] with [body = req.body || {}]: the
    text of the message.  (The conversion returns unless
    [String_throws] holds of the message; the handlers below are those of
    a request whose message has a text.) *)
Definition user_message (req_body : jsval) : string :=
  let body := if truthy req_body then req_body else VObj [] in
  let m := get_key body "message" in
  ToString (if truthy m then m else VStr EmptyString).

(** [Array.isArray(body.history) ? body.history.slice(-n) : []] *)
Definition client_history (n : nat) (req_body : jsval) : list jsval :=
  let body := if truthy req_body then req_body else VObj [] in
  last_n n (array_or_empty (get_key body "history")).

(** The call of [buildMessagesWithRAG]: its [history.map] reads and
    converts every entry, and throws on the first one that cannot be
    read or converted. *)
Fixpoint read_history (hs : list jsval) : M (list hentry) :=
  match hs with
  | [] => ret []
  | h :: rest =>
      match entry_of h with
      | None => throw TypeError
      | Some e => es <- read_history rest ;; ret (e :: es)
      end
  end.

Definition assemble (clientHistory : list jsval) (userMessage : string)
    (topDocs : list ranked) : M (list message) :=
  history <- read_history clientHistory ;;
  ret (buildMessagesWithRAG (SYSTEM_PROMPT w) history userMessage topDocs).

(** [async function callOpenAIChat(payload)] *)
Definition callOpenAIChat (messages : list message) : M response :=
  fetch (CompletionsReq messages false) (completions w).

(** The last [try] block of [POST /api/chat]. *)
Definition buffered_relay (messages : list message) : M unit :=
  try_catch
    (openaiRes <- callOpenAIChat messages ;;
     if negb (ok openaiRes) then
       emit (ConsoleError "OpenAI chat error:"
               [LNum (status openaiRes); LText (text_or_empty openaiRes)]) ;;;
       emit (Respond 502 (ErrorBody "Error comunicándose con el servicio de IA."))
     else
       data <- res_json openaiRes ;;
       let reply := opt_key (opt_key (opt_first (opt_key data "choices")) "message") "content" in
       if negb (truthy reply) then
         emit (ConsoleError "OpenAI unexpected response shape:" [LJson data]) ;;;
         emit (Respond 502 (ErrorBody "Respuesta inesperada del servicio de IA."))
       else
         match reply with
         | VStr s => emit (Respond 200 (ReplyBody (JsString.trim s)))
         | _ => throw TypeError
         end)
    (fun err =>
       emit (ConsoleError "Error in /api/chat:" [LExn err]) ;;;
       emit (Respond 500 (ErrorBody "Error del servidor al procesar la solicitud."))).

(** [app.post("/api/chat", ...)] *)
Definition chat (req_body : jsval) : M unit :=
  let userMessage := user_message req_body in
  let clientHistory := client_history 20 req_body in
  match validateMessageText (VStr userMessage) with
  | Some v => emit (Respond 400 (ErrorBody v))
  | None =>
      returned <- moderation_stage userMessage ;;
      if returned : bool then ret tt
      else
        topDocs <- retrieval_stage userMessage ;;
        messages <- assemble clientHistory userMessage topDocs ;;
        if key_missing then
          emit (Respond 500 (ErrorBody "OpenAI API key not configured."))
        else buffered_relay messages
  end.

(** The body of [for (const line of lines)]. *)
Definition forward_line (line : string) : M unit :=
  if JsString.is_empty (JsString.trim line) then ret tt
  else if JsString.startsWith line "data:" then
    res_write (sse_frame (JsString.strip_data_prefix line))
  else res_write (sse_frame (JsString.JSON_stringify line)).

Fixpoint forward_lines (lines : list string) : M unit :=
  match lines with
  | [] => ret tt
  | line :: rest => forward_line line ;;; forward_lines rest
  end.

(** [chunk.split(/\r?\n/).filter(Boolean)] *)
Definition lines_of_chunk (chunk : string) : list string :=
  JsString.filter_Boolean (JsString.split_lines chunk).

(** [while (!done)]: one [reader.read()] per turn. *)
Fixpoint read_loop (pending : list string) (closes_cleanly : bool) : M unit :=
  match pending with
  | [] => if closes_cleanly then ret tt else throw ReadRejected
  | chunk :: rest =>
      forward_lines (lines_of_chunk chunk) ;;; read_loop rest closes_cleanly
  end.

(** The [try] block of [POST /api/chat/stream], entered once the
    headers are flushed. *)
Definition streaming_relay (messages : list message) : M unit :=
  try_catch
    (openaiRes <- fetch (CompletionsReq messages true) (completions w) ;;
     match ok openaiRes, body openaiRes with
     | true, Some b =>
         read_loop (chunks b) (closes_cleanly b) ;;;
         res_write sse_done ;;;
         res_end
     | _, _ =>
         emit (ConsoleError "OpenAI streaming error:"
                 [LNum (status openaiRes); LText (text_or_empty openaiRes)]) ;;;
         res_write (sse_error "Error en streaming desde OpenAI") ;;;
         res_end
     end)
    (fun err =>
       emit (ConsoleError "Streaming endpoint error:" [LExn err]) ;;;
       try_catch
         (res_write (sse_error "Error en el servidor durante el streaming.") ;;;
          res_end)
         (fun _ => ret tt)).

Definition sse_headers : M unit :=
  emit (SetHeader "Content-Type" "text/event-stream; charset=utf-8") ;;;
  emit (SetHeader "Cache-Control" "no-cache, no-transform") ;;;
  emit (SetHeader "Connection" "keep-alive") ;;;
  emit FlushHeaders.

(** [app.post("/api/chat/stream", ...)] *)
Definition chat_stream (req_body : jsval) : M unit :=
  let userMessage := user_message req_body in
  let clientHistory := client_history 20 req_body in
  match validateMessageText (VStr userMessage) with
  | Some v => emit (Respond 400 (ErrorBody v))
  | None =>
      returned <- moderation_stage userMessage ;;
      if returned : bool then ret tt
      else
        topDocs <- retrieval_stage userMessage ;;
        messages <- assemble clientHistory userMessage topDocs ;;
        if key_missing then
          emit (Respond 500 (ErrorBody "OpenAI API key not configured."))
        else
          sse_headers ;;;
          streaming_relay messages
  end.

End Handlers.

(** [history.map(h => ...)] as a value: the entries read, or [None]
    when the callback throws. *)
Fixpoint entries_of (hs : list jsval) : option (list hentry) :=
  match hs with
  | [] => Some []
  | h :: rest =>
      match entry_of h with
      | None => None
      | Some e =>
          match entries_of rest with
          | None => None
          | Some es => Some (e :: es)
          end
      end
  end.

(** [function buildMessagesWithRAG(systemPrompt, history, userMessage,
    topDocs)] on the values a handler passes it: the messages, or [None]
    when the call throws, which it does with a TypeError when the
    template literal converts the text of a document that cannot be
    converted, and when its [history.map] throws.
    [Prompt.buildMessagesWithRAG] is the array it returns once every
    entry is read. *)
Definition buildMessagesWithRAG {rt : Runtime} (systemPrompt : string)
    (history : list jsval) (userMessage : string) (topDocs : list ranked)
  : option (list message) :=
  if existsb (fun d => String_throws (Store.text (doc d))) topDocs then None
  else match entries_of history with
       | None => None
       | Some entries =>
           Some (Prompt.buildMessagesWithRAG systemPrompt entries userMessage topDocs)
       end.

End Server.

(* ===================================================================== *)
(** * The Next.js route: [src/pages/api/chat.js] *)
(* ===================================================================== *)

Module NextApi.
Import Json Prompt Effects.
Local Open Scope js_scope.

Section Handler.
Context {rt : Runtime} (w : Server.world).

Definition default_system_prompt : string :=
  "Eres Atenea, un asistente virtual profesional, amable y servicial para empresas hispanas."
  ++ nl ++ "Responde en español de forma clara, concisa y profesional."
  ++ nl ++ "No des consejos médicos, legales o financieros específicos; sugiere consultar a un especialista.".

(** [process.env.SYSTEM_PROMPT || `...`]; for this route the field
    [SYSTEM_PROMPT] of the world is the environment variable, empty when
    it is not set. *)
Definition systemPrompt : string :=
  if JsString.is_empty (Server.SYSTEM_PROMPT w) then default_system_prompt
  else Server.SYSTEM_PROMPT w.

(** The [messages] array literal of the route. *)
Definition messages_of (history : list hentry) (userMessage : string) : list message :=
  ({| role := "system"; content := systemPrompt |}
   :: map history_message history
   ++ [ {| role := "user"; content := userMessage |} ])%list.

(** The [try] block of the route. *)
Definition relay (messages : list message) : M unit :=
  try_catch
    (openaiRes <- Server.fetch (CompletionsReq messages false) (Server.completions w) ;;
     if negb (ok openaiRes) then
       emit (ConsoleError "OpenAI API error:"
               [LNum (status openaiRes); LText (Server.text_or_empty openaiRes)]) ;;;
       emit (Respond 502 (ErrorBody "Error comunicándose con el servicio de IA."))
     else
       data <- Server.res_json openaiRes ;;
       let reply := opt_key (opt_key (opt_first (opt_key data "choices")) "message") "content" in
       if negb (truthy reply) then
         emit (ConsoleError "OpenAI returned unexpected response:" [LJson data]) ;;;
         emit (Respond 502 (ErrorBody "Respuesta inesperada del servicio de IA."))
       else
         match reply with
         | VStr s => emit (Respond 200 (ReplyBody (JsString.trim s)))
         | _ => throw TypeError
         end)
    (fun err =>
       emit (ConsoleError "API handler error:" [LExn err]) ;;;
       emit (Respond 500 (ErrorBody "Error del servidor al procesar la solicitud."))).

(** [export default async function handler(req, res)] *)
Definition handler (method : string) (req_body : jsval) : M unit :=
  if negb (String.eqb method "POST") then
    emit (SetHeader "Allow" "POST") ;;;
    emit (Respond 405 (ErrorBody "Método no permitido"))
  else if Server.key_missing w then
    emit (Respond 500 (ErrorBody "OpenAI API key no configurada."))
  else
    let userMessage := Server.user_message req_body in
    let clientHistory := Server.client_history 10 req_body in
    if JsString.is_empty userMessage
       || Nat.eqb (String.length (JsString.trim userMessage)) 0 then
      emit (Respond 400 (ErrorBody "El mensaje está vacío."))
    else if (8000 <? Z.of_nat (String.length userMessage))%Z then
      emit (Respond 400 (ErrorBody "Mensaje demasiado largo."))
    else
      history <- Server.read_history clientHistory ;;
      relay (messages_of history userMessage).

End Handler.

End NextApi.

(* ===================================================================== *)
(** * Values on the wire: [JSON.stringify] followed by [JSON.parse] *)
(* ===================================================================== *)

Module Wire.
Import Json.

(** [JSON.parse(JSON.stringify(v))] for an array or an object [v], and
    for what it holds: the value that arrives when [v] travels as a JSON
    text (a request body, the file [vectors.json]).  A property whose
    value is [undefined] is left out, an [undefined] array entry becomes
    [null], a number that is not finite becomes [null], a zero loses its
    sign; every other number is printed so that it reads back as
    itself. *)
Fixpoint sent (v : jsval) : jsval :=
  match v with
  | VUndefined => VNull
  | VNum f =>
      if PrimFloat.is_finite f
      then (if PrimFloat.is_zero f then VNum 0%float else VNum f)
      else VNull
  | VArr xs =>
      VArr ((fix entries (ys : list jsval) : list jsval :=
               match ys with
               | [] => []
               | y :: rest => sent y :: entries rest
               end) xs)
  | VObj fields =>
      VObj ((fix properties (gs : list (string * jsval)) : list (string * jsval) :=
               match gs with
               | [] => []
               | (k, VUndefined) :: rest => properties rest
               | (k, x) :: rest => (k, sent x) :: properties rest
               end) fields)
  | _ => v
  end.

End Wire.

(* ===================================================================== *)
(** * The chat page: [src/pages/index.js] *)
(* ===================================================================== *)

Module Client.
Import Json.

(** [while (next.length > limit) next.shift()] *)
Fixpoint shift_while_longer {A : Type} (limit : nat) (next : list A) : list A :=
  match next with
  | [] => []
  | _ :: rest => if (limit <? length next)%nat then shift_while_longer limit rest else next
  end.

(** [[...prev]]: an array spreads to its entries and a string to its
    code units; any other value is not iterable and the spread throws a
    TypeError ([None]). *)
Fixpoint units (s : string) : list jsval :=
  match s with
  | EmptyString => []
  | String c r => VStr (String c EmptyString) :: units r
  end.

Definition spread (v : jsval) : option (list jsval) :=
  match v with
  | VArr xs => Some xs
  | VStr s => Some (units s)
  | _ => None
  end.

(** [{ role, content, ts: Date.now() }] *)
Definition entry (role : string) (content : jsval) (now : float) : jsval :=
  VObj [("role", VStr role); ("content", content); ("ts", VNum now)].

(** The updater [pushHistory(role, content)] hands to [setHistory]:
    from the state [prev] to the next state, [now] being what [Date.now()]
    returns. *)
Definition pushHistory (role : string) (content : jsval) (now : float) (prev : jsval)
  : option (list jsval) :=
  match spread prev with
  | Some entries => Some (shift_while_longer 200 (entries ++ [entry role content now]))
  | None => None
  end.

(** What [localStorage.getItem("atenea_history_v1")] holds, as
    [JSON.parse(... || "[]")] reads it: nothing (or the empty string), a
    text that is not JSON, or a JSON value. *)
Inductive storage : Type :=
| NoItem
| BadItem
| Item (j : jsval).

(** [h => ({ role: h.role, content: h.content })]; reading a property
    of [null] throws. *)
Definition outgoing_entry (h : jsval) : option jsval :=
  match h with
  | VUndefined | VNull => None
  | _ => Some (VObj [("role", get_key h "role"); ("content", get_key h "content")])
  end.

Fixpoint outgoing_entries (hs : list jsval) : option (list jsval) :=
  match hs with
  | [] => Some []
  | h :: rest =>
      match outgoing_entry h with
      | None => None
      | Some e =>
          match outgoing_entries rest with
          | None => None
          | Some es => Some (e :: es)
          end
      end
  end.

(** [JSON.parse(localStorage.getItem(...) || "[]").slice(-10).map(...)]:
    [None] when it throws, which it does on a text that is not JSON, on a
    value that is not an array (no [slice], or a [slice] whose result has
    no [map]) and on a [null] entry among the last ten. *)
Definition last_entries (stored : storage) : option (list jsval) :=
  match stored with
  | NoItem => Some []
  | BadItem => None
  | Item (VArr xs) => outgoing_entries (Server.last_n 10 xs)
  | Item _ => None
  end.

(** The initial state of the history:
    [JSON.parse(localStorage.getItem(...) || "[]")], and [[]] when that
    throws. *)
Definition restore (stored : storage) : jsval :=
  match stored with
  | NoItem | BadItem => VArr []
  | Item j => j
  end.

(** [localStorage.setItem("atenea_history_v1", JSON.stringify(history))]
    for a state that is an array: what the storage holds afterwards. *)
Definition persist (history : list jsval) : storage := Item (Wire.sent (VArr history)).

(** What [fetch("/api/chat", ...)] resolves to, as [send] reads it. *)
Record reply : Type := {
  ok : bool;
  statusText : string;
  (** [await res.json()], [None] when it rejects *)
  json : option jsval
}.

Inductive answer : Type :=
| Unreachable
| Answered (r : reply).

(** The calls [send] makes, in order. *)
Inductive call : Type :=
| PushHistory (role : string) (content : jsval)
| SetInput (value : string)
| SetIsWaiting (waiting : bool)
(** [fetch("/api/chat", { method: "POST", body: JSON.stringify({ message, history }) })] *)
| PostChat (message : string) (history : list jsval)
| LogError.

Definition connection_error : jsval :=
  VStr "⚠️ Error de conexión. Por favor intenta nuevamente.".

Definition no_reply : jsval := VStr "Lo siento, no obtuve respuesta.".

Section Send.
Context {rt : Runtime}.

(** ["⚠️ Error del servidor: " + (err?.error || res.statusText)] with
    [err = await res.json().catch(() => ({ error: res.statusText }))];
    [error], like [reply] below, is a property only an object has. *)
Definition server_error (r : reply) : jsval :=
  let err := match json r with
             | Some j => j
             | None => VObj [("error", VStr (statusText r))]
             end in
  let shown := if truthy (opt_key err "error") then opt_key err "error"
               else VStr (statusText r) in
  VStr ("⚠️ Error del servidor: " ++ ToString shown).

(** The [try] block of [send] with its [catch] and [finally]. *)
Definition receive (server : answer) : list call :=
  match server with
  | Unreachable => [LogError; PushHistory "assistant" connection_error; SetIsWaiting false]
  | Answered r =>
      if negb (ok r) then
        [PushHistory "assistant" (server_error r); SetIsWaiting false; SetIsWaiting false]
      else
        match json r with
        | None => [LogError; PushHistory "assistant" connection_error; SetIsWaiting false]
        | Some data =>
            let reply := if truthy (opt_key data "reply") then opt_key data "reply"
                         else no_reply in
            [PushHistory "assistant" reply; SetIsWaiting false]
        end
  end.

(** [const send = async () => ...]: the calls it makes and whether
    it returns ([true]) or ends with an exception ([false]). *)
Definition send (input : string) (isWaiting : bool) (stored : storage) (server : answer)
  : list call * bool :=
  let text := JsString.trim input in
  if JsString.is_empty text || isWaiting then ([], true)
  else
    let started := [PushHistory "user" (VStr text); SetInput EmptyString; SetIsWaiting true] in
    match last_entries stored with
    | None => (started, false)
    | Some last => ((started ++ PostChat text last :: receive server)%list, true)
    end.

End Send.

(** The request body as the server parses it. *)
Definition request_body (message : string) (history : list jsval) : jsval :=
  Wire.sent (VObj [("message", VStr message); ("history", VArr history)]).

(** [res.status(code).json(body)] as the page receives it: [res.ok] is
    a status from 200 to 299. *)
Definition body_value (b : Effects.json_body) : jsval :=
  match b with
  | Effects.ErrorBody m => VObj [("error", VStr m)]
  | Effects.ReplyBody r => VObj [("reply", VStr r)]
  end.

Definition received (code : nat) (b : Effects.json_body) (status_text : string) : reply :=
  {| ok := (200 <=? code)%nat && (code <=? 299)%nat;
     statusText := status_text;
     json := Some (body_value b) |}.

End Client.

(* ===================================================================== *)
(** * The embedding script: [embed_docs.js] *)
(* ===================================================================== *)

Module EmbedDocs.
Import Json.

(** What [fs.statSync] and [fs.readFileSync] find at a name of the
    [docs] directory. *)
Inductive found : Type :=
| StatThrows
| NotAFile
| Unreadable
| File (text : string).

Record dir_entry : Type := { name : string; at_path : found }.

(** Everything the script depends on: the key, the directory
    ([None] when [fs.readdirSync] throws), what the embeddings service
    answers to each call in turn, and whether [vectors.json] can be
    written. *)
Record world : Type := {
  OPENAI_KEY : option string;
  listing : option (list dir_entry);
  answers : nat -> Effects.fetch_outcome;
  write_throws : bool
}.

Inductive failure : Type :=
| ReaddirFailed
| StatFailed (name : string)
| ReadFailed (name : string)
| FetchRejected
| EmbeddingFailed (status : nat) (txt : string)
| BodyRejected
| WriteFailed.

Inductive event : Type :=
| KeyNotSet
(** [console.log("Embedding:", f)] *)
| Embedding (name : string)
(** The call of the embeddings service, with its [input]. *)
| Embed (input : string)
(** [await new Promise(r => setTimeout(r, 200))] *)
| Pause
(** [fs.writeFileSync(OUT_FILE, JSON.stringify(out, null, 2), "utf8")] *)
| WriteVectors (out : list jsval)
| Wrote
(** [console.error("embed_docs error:", err)] *)
| Failed (err : failure)
(** [process.exit(code)] *)
| Exit (code : nat).

(** [s.slice(0, n)] *)
Fixpoint take (n : N) (s : string) : string :=
  match s with
  | EmptyString => EmptyString
  | String c r => if (n =? 0)%N then EmptyString else String c (take (N.pred n) r)
  end.

(** [{ id: f, text: text.slice(0, 10000), embedding }] *)
Definition record (f : string) (text : string) (embedding : jsval) : jsval :=
  VObj [("id", VStr f); ("text", VStr (take 10000 text)); ("embedding", embedding)].

Section Script.
Context (w : world).

(** [!OPENAI_KEY] *)
Definition key_missing : bool :=
  match OPENAI_KEY w with
  | Some k => JsString.is_empty k
  | None => true
  end.

(** [async function embedText(text)], on the call number [n]: the
    embedding, or what it throws. *)
Definition embedText (n : nat) : failure + jsval :=
  match answers w n with
  | Effects.Rejects => inl FetchRejected
  | Effects.Resolves res =>
      if negb (Effects.ok res)
      then inl (EmbeddingFailed (Effects.status res) (Server.text_or_empty res))
      else match Effects.json res with
           | None => inl BodyRejected
           | Some j => inr (opt_key (opt_first (opt_key j "data")) "embedding")
           end
  end.

(** [for (const f of files)], from the call number [n] and the records
    [out] gathered so far: the events, and the records at the end or the
    exception that ends the loop. *)
Fixpoint embed_files (files : list dir_entry) (n : nat) (out : list jsval)
  : list event * (failure + list jsval) :=
  match files with
  | [] => ([], inr out)
  | f :: rest =>
      match at_path f with
      | StatThrows => ([], inl (StatFailed (name f)))
      | NotAFile => embed_files rest n out
      | Unreadable => ([], inl (ReadFailed (name f)))
      | File text =>
          match embedText n with
          | inl err => ([Embedding (name f); Embed text], inl err)
          | inr embedding =>
              let (evs, r) := embed_files rest (S n) (out ++ [record (name f) text embedding]) in
              (Embedding (name f) :: Embed text :: Pause :: evs, r)
          end
      end
  end.

(** [fs.readdirSync(DOCS_DIR).filter(f => !f.startsWith("."))] *)
Definition visible (entries : list dir_entry) : list dir_entry :=
  filter (fun f => negb (JsString.startsWith (name f) ".")) entries.

(** The script from its first statement: the key check, then [main]. *)
Definition run : list event :=
  if key_missing then [KeyNotSet; Exit 1]
  else
    match listing w with
    | None => [Failed ReaddirFailed; Exit 1]
    | Some entries =>
        let (evs, r) := embed_files (visible entries) 0 [] in
        (evs ++ match r with
                | inl err => [Failed err; Exit 1]
                | inr out =>
                    if write_throws w then [Failed WriteFailed; Exit 1]
                    else [WriteVectors out; Wrote]
                end)%list
    end.

End Script.

(** [vectors.json] as the server reads it back. *)
Definition vectors_file (out : list jsval) : Store.source :=
  Store.Parsed (Wire.sent (VArr out)).

End EmbedDocs.

(* ===================================================================== *)
(** * Vocabulary of the properties *)
(* ===================================================================== *)

Section EventVocabulary.
Import Effects.

Definition is_fetch (e : event) : bool :=
  match e with Fetch _ => true | _ => false end.

Definition is_embeddings_fetch (e : event) : bool :=
  match e with Fetch (EmbeddingsReq _) => true | _ => false end.

Definition is_completions_fetch (e : event) : bool :=
  match e with Fetch (CompletionsReq _ _) => true | _ => false end.

Definition is_respond (e : event) : bool :=
  match e with Respond _ _ => true | _ => false end.

(** The answer that blocks a request for a policy violation. *)
Definition is_policy_block (e : event) : bool :=
  match e with
  | Respond _ (ErrorBody m) => String.eqb m Server.policy_message
  | _ => false
  end.

Definition not_policy_block (e : event) : bool := negb (is_policy_block e).

Definition not_embeddings_fetch (e : event) : bool := negb (is_embeddings_fetch e).

(** Events of the moderation call itself: its fetch and its log lines. *)
Definition is_moderation_event (e : event) : bool :=
  match e with
  | Fetch (ModerationsReq _) | ConsoleError _ _ | ConsoleWarn _ _ => true
  | _ => false
  end.

(** Events before the response starts: calls to the moderation and
    embeddings services and log lines. *)
Definition is_prelude_event (e : event) : bool :=
  match e with
  | Fetch (ModerationsReq _) | Fetch (EmbeddingsReq _)
  | ConsoleError _ _ | ConsoleWarn _ _ => true
  | _ => false
  end.

(** Events of the stream once the upstream call is made: log lines,
    writes to the response and its end.  None of them sets a status. *)
Definition is_stream_event (e : event) : bool :=
  match e with
  | ConsoleError _ _ | Write _ | EndResponse => true
  | _ => false
  end.

(** A write that carries an error event. *)
Definition is_error_event (e : event) : bool :=
  match e with
  | Write data => JsString.startsWith data "event: error"
  | _ => false
  end.

Definition sse_header_events : list event :=
  [ SetHeader "Content-Type" "text/event-stream; charset=utf-8";
    SetHeader "Cache-Control" "no-cache, no-transform";
    SetHeader "Connection" "keep-alive";
    FlushHeaders ].

(** The status line the caller receives: that of the first event that
    sends one. *)
Fixpoint http_status (evs : list event) : option nat :=
  match evs with
  | [] => None
  | Respond code _ :: _ => Some code
  | FlushHeaders :: _ => Some 200
  | _ :: rest => http_status rest
  end.

(** [emits_only P c]: whatever the trace before it, [c] only adds events,
    and every event it adds satisfies [P]. *)
Definition emits_only (P : event -> bool) {A : Type} (c : M A) : Prop :=
  forall tr, exists evs, snd (c tr) = (evs ++ tr)%list /\ forallb P evs = true.

(** [framed c]: [c] behaves the same whatever the trace before it. *)
Definition framed {A : Type} (c : M A) : Prop :=
  forall tr, c tr = (fst (c []), (snd (c []) ++ tr)%list).

End EventVocabulary.

Section LineVocabulary.
Import JsString.

Definition LFs : string := String LF EmptyString.

(** The whole text an upstream body delivers. *)
Definition whole_text (chunks : list string) : string :=
  fold_right String.append EmptyString chunks.

(** A chunk ends at a line boundary: it is empty or its last code unit
    is a line feed. *)
Definition ends_at_line_boundary (chunk : string) : Prop :=
  chunk = EmptyString \/ exists s, chunk = s ++ LFs.

(** A line the loop forwards: it is not made of white space only (the
    empty line is such a line). *)
Definition non_blank (line : string) : bool := negb (is_empty (trim line)).

(** The frame written for a forwarded line. *)
Definition frame_of (line : string) : string :=
  if startsWith line "data:"
  then Server.sse_frame (trim_start (drop 5 line))
  else Server.sse_frame (JSON_stringify line).

(** The frames written for a sequence of lines. *)
Definition frames_of (lines : list string) : list string :=
  map frame_of (filter non_blank lines).

End LineVocabulary.

Section TrimVocabulary.
Import JsString.

(** Every code unit of the string is white space. *)
Fixpoint all_ws (s : string) : bool :=
  match s with
  | EmptyString => true
  | String c r => is_ws c && all_ws r
  end.

Definition starts_with_ws (s : string) : bool :=
  match s with
  | EmptyString => false
  | String c _ => is_ws c
  end.

Fixpoint ends_with_ws (s : string) : bool :=
  match s with
  | EmptyString => false
  | String c EmptyString => is_ws c
  | String _ r => ends_with_ws r
  end.

(** [t] is [s] without its surrounding white space: what was removed on
    either side is white space only, and [t] neither starts nor ends with
    white space. *)
Definition trimmed_of (s t : string) : Prop :=
  exists before after,
    s = before ++ t ++ after
    /\ all_ws before = true /\ all_ws after = true
    /\ starts_with_ws t = false /\ ends_with_ws t = false.

End TrimVocabulary.

Section RequestVocabulary.
Import Json Store Ranking Prompt Effects.
Local Open Scope js_scope.
Context {rt : Runtime} (w : Server.world).

Definition count_role (r : string) (ms : list message) : nat :=
  length (filter (fun m => String.eqb (role m) r) ms).

Definition closed_roles : list string := ["system"; "user"; "assistant"].

(** [body.message] with [body = req.body || {}] *)
Definition message_of (req_body : jsval) : jsval :=
  get_key (if truthy req_body then req_body else VObj []) "message".

(** The three messages [validateMessageText] can return. *)
Definition validation_errors : list string :=
  ["El mensaje está vacío o no es válido."; "El mensaje está vacío."; "Mensaje demasiado largo."].

(** The messages the validation stage turns down: a falsy one (absent,
    [null], [false], zero, the empty string), one whose text is blank, one
    whose text is longer than 8000 code units.  The text of a message
    that is not a string is its conversion to a string. *)
Inductive rejected_message (m : jsval) : Prop :=
| rejected_falsy : truthy m = false -> rejected_message m
| rejected_blank : JsString.trim (ToString m) = EmptyString -> rejected_message m
| rejected_long : (8000 < Z.of_nat (String.length (ToString m)))%Z -> rejected_message m.

(** The ways the moderation call can fail: no API key, a rejected
    fetch, a non-success status, a body that is not JSON, a JSON body in
    which [results[0].flagged] is absent or falsy. *)
Inductive moderation_failure : Prop :=
| mf_no_api_key : Server.key_missing w = true -> moderation_failure
| mf_network_error : Server.moderations w = Rejects -> moderation_failure
| mf_status (r : response) :
    Server.moderations w = Resolves r -> ok r = false -> moderation_failure
| mf_unparsable (r : response) :
    Server.moderations w = Resolves r -> json r = None -> moderation_failure
| mf_malformed (r : response) (j : jsval) :
    Server.moderations w = Resolves r -> json r = Some j ->
    truthy (opt_key (opt_first (opt_key j "results")) "flagged") = false ->
    moderation_failure.

(** Both handlers run validation, moderation, retrieval, assembly and
    the credential check in the same words, and differ by what they do
    with the assembled messages. *)
Definition pipeline (relay : list message -> M unit) (req_body : jsval) : M unit :=
  let userMessage := Server.user_message req_body in
  let clientHistory := Server.client_history 20 req_body in
  match Server.validateMessageText (VStr userMessage) with
  | Some v => emit (Respond 400 (ErrorBody v))
  | None =>
      returned <- Server.moderation_stage w userMessage ;;
      if returned : bool then ret tt
      else
        topDocs <- Server.retrieval_stage w userMessage ;;
        messages <- Server.assemble w clientHistory userMessage topDocs ;;
        if Server.key_missing w then
          emit (Respond 500 (ErrorBody "OpenAI API key not configured."))
        else relay messages
  end.

(** How a request runs through the common stages. *)
Inductive pipeline_result (relay : list message -> M unit) (req_body : jsval)
  : result unit * list event -> Prop :=
| invalid_request (v : string) :
    In v validation_errors ->
    pipeline_result relay req_body (Ok tt, [Respond 400 (ErrorBody v)])
| blocked_request (pre : list event) :
    forallb is_prelude_event pre = true ->
    pipeline_result relay req_body
      (Ok tt, Respond 400 (ErrorBody Server.policy_message) :: pre)
| broken_history (pre : list event) :
    forallb is_prelude_event pre = true ->
    pipeline_result relay req_body (Throw TypeError, pre)
| no_credential (pre : list event) :
    forallb is_prelude_event pre = true ->
    pipeline_result relay req_body
      (Ok tt, Respond 500 (ErrorBody "OpenAI API key not configured.") :: pre)
| relayed (pre : list event) (messages : list message) :
    forallb is_prelude_event pre = true ->
    Server.key_missing w = false ->
    pipeline_result relay req_body (relay messages pre).

(** [data?.choices?.[0]?.message?.content] *)
Definition content_of (data : jsval) : jsval :=
  opt_key (opt_key (opt_first (opt_key data "choices")) "message") "content".

Definition upstream_error_body : json_body :=
  ErrorBody "Error comunicándose con el servicio de IA.".

Definition unexpected_shape_body : json_body :=
  ErrorBody "Respuesta inesperada del servicio de IA.".

Definition server_error_body : json_body :=
  ErrorBody "Error del servidor al procesar la solicitud.".

(** What a buffered relay [run] owes its caller, whatever the upstream
    does; the three labels are those of its log lines. *)
Definition relay_contract (run : M unit) (messages : list message)
    (status_label shape_label exception_label : string) : Prop :=
  let call := Fetch (CompletionsReq messages false) in
  completion run = Ok tt
  /\ filter is_fetch (events run) = [call]
  /\ length (filter is_respond (events run)) = 1
  /\ (forall r, Server.completions w = Resolves r -> ok r = false ->
        events run
        = [call;
           ConsoleError status_label [LNum (status r); LText (Server.text_or_empty r)];
           Respond 502 upstream_error_body])
  /\ (forall r data, Server.completions w = Resolves r -> ok r = true ->
        json r = Some data -> truthy (content_of data) = false ->
        events run
        = [call; ConsoleError shape_label [LJson data]; Respond 502 unexpected_shape_body])
  /\ (Server.completions w = Rejects ->
        events run
        = [call; ConsoleError exception_label [LExn FetchRejected];
           Respond 500 server_error_body])
  /\ (forall r, Server.completions w = Resolves r -> ok r = true -> json r = None ->
        events run
        = [call; ConsoleError exception_label [LExn BodyRejected];
           Respond 500 server_error_body])
  /\ (forall r data s, Server.completions w = Resolves r -> ok r = true ->
        json r = Some data -> content_of data = VStr s -> s <> EmptyString ->
        events run = [call; Respond 200 (ReplyBody (JsString.trim s))]).

(** The gates a request passes before the stream starts: validation,
    a verdict that is not flagged, a history whose entries can be read,
    a credential. *)
Definition passes_gates (req_body : jsval) (history : list hentry) : Prop :=
  Server.validateMessageText (VStr (Server.user_message req_body)) = None
  /\ (exists v, completion (Server.runModerationCheck w (Server.user_message req_body)) = Ok v
                /\ Server.flagged v = false)
  /\ completion (Server.read_history (Server.client_history 20 req_body)) = Ok history
  /\ Server.key_missing w = false.

(** What the streaming endpoint owes a request that passed the gates. *)
Definition stream_commitment (req_body : jsval) (history : list hentry) : Prop :=
  exists docs pre post,
    let messages := buildMessagesWithRAG (Server.SYSTEM_PROMPT w) history
                      (Server.user_message req_body) docs in
    let run := events (Server.chat_stream w req_body) in
    forallb is_prelude_event pre = true
    /\ run = (pre ++ sse_header_events
                  ++ Fetch (CompletionsReq messages true) :: post)%list
    /\ forallb is_stream_event post = true
    /\ completion (Server.chat_stream w req_body) = Ok tt
    /\ http_status run = Some 200
    /\ filter is_respond run = []
    /\ ((forall tr, Server.write_throws w tr = false) ->
        (Server.completions w = Rejects ->
           post = [ConsoleError "Streaming endpoint error:" [LExn FetchRejected];
                   Write (Server.sse_error "Error en el servidor durante el streaming.");
                   EndResponse])
        /\ (forall r, Server.completions w = Resolves r ->
              ok r = false \/ body r = None ->
              post = [ConsoleError "OpenAI streaming error:"
                        [LNum (status r); LText (Server.text_or_empty r)];
                      Write (Server.sse_error "Error en streaming desde OpenAI");
                      EndResponse])
        /\ (forall r b, Server.completions w = Resolves r ->
              ok r = true -> body r = Some b -> closes_cleanly b = false ->
              post = (map Write (frames_of (flat_map Server.lines_of_chunk (chunks b)))
                      ++ [ConsoleError "Streaming endpoint error:" [LExn ReadRejected];
                          Write (Server.sse_error "Error en el servidor durante el streaming.");
                          EndResponse])%list)
        /\ ((Server.completions w = Rejects
             \/ (exists r, Server.completions w = Resolves r
                           /\ (ok r = false \/ body r = None
                               \/ exists b, body r = Some b /\ closes_cleanly b = false))) ->
            length (filter is_error_event post) = 1
            /\ last post FlushHeaders = EndResponse)).

End RequestVocabulary.

Section StoreVocabulary.
Import Json Store.

(** The sources the startup block turns down as a whole: a file that
    cannot be read, text that is not JSON, a JSON value that is not an
    array, an array with a [null] record in it. *)
Inductive rejected_source : source -> Prop :=
| rejected_unreadable : rejected_source Unreadable
| rejected_unparsable : rejected_source Unparsable
| rejected_not_array (j : jsval) :
    (forall vs, j <> VArr vs) -> rejected_source (Parsed j)
| rejected_null_record (vs : list jsval) :
    In VNull vs -> rejected_source (Parsed (VArr vs)).

(** The record made of a value that is not [null]: the three
    properties as they read, [undefined] when absent. *)
Definition fields_of (v : jsval) : rag_record :=
  {| Store.id := get_key v "id";
     Store.text := get_key v "text";
     Store.embedding := get_key v "embedding" |}.

End StoreVocabulary.

Section EngineVocabulary.
Import Similarity.
Context {T : Type} {num : Num T}.

(** A zero vector: every entry is a number that compares equal to 0. *)
Definition zero_vector (z : @vector T) : Prop :=
  Forall (fun x => exists f : T, x = Some f /\ is0 f = true) z.

End EngineVocabulary.

Section CosineFormula.
Local Open Scope R_scope.

(** The cosine of the angle between two vectors of real numbers, as
    the contract of the similarity function words it: the dot product
    divided by the product of the Euclidean norms. *)
Fixpoint dot_product (x y : list R) : R :=
  match x, y with
  | p :: x', q :: y' => p * q + dot_product x' y'
  | _, _ => 0
  end.

Definition euclidean_norm (x : list R) : R := R_sqrt.sqrt (dot_product x x).

Definition cosine_of_angle (x y : list R) : R :=
  dot_product x y / (euclidean_norm x * euclidean_norm y).

(** A vector of real numbers with an entry that is not 0. *)
Definition nonzero_vector (x : list R) : Prop := Exists (fun r => r <> 0) x.

End CosineFormula.

Section Binary64Vocabulary.
Local Open Scope Z_scope.

Definition signed_result (sx : bool) (r : spec_float) : Prop :=
  r = S754_infinity sx \/ exists m e, r = S754_finite sx m e.

(** An integer that orders the numbers as [SFcompare] does. *)
Definition key (x : spec_float) : Z :=
  match x with
  | S754_zero _ => 0
  | S754_infinity s => cond_Zopp s (2 ^ 2100)
  | S754_nan => 0
  | S754_finite s m e => cond_Zopp s (Zpos m * 2 ^ (e + 1074))
  end.

(** The integer that stands for a number in comparisons. *)
Definition fkey (x : float) : Z := key (Prim2SF x).

(** A number that is not NaN and whose sign bit is clear: +0, a
    positive finite number or +Infinity. *)
Definition not_negative (r : spec_float) : Prop :=
  match r with
  | S754_zero s | S754_infinity s | S754_finite s _ _ => s = false
  | S754_nan => False
  end.

End Binary64Vocabulary.

Section RoundingVocabulary.
Local Open Scope R_scope.

(** The real number a binary64 number stands for (0 for what is not
    finite). *)
Definition SF2R (x : spec_float) : R :=
  match x with
  | S754_finite s m e => (if s then -1 else 1) * IZR (Zpos m) * powerRZ 2 e
  | _ => 0
  end.

Definition float_value (x : float) : R := SF2R (Prim2SF x).

(** [1 - 2^-50 <= x && x <= 1 + 2^-50]: within eight units of roundoff
    of 1. *)
Definition near_one (x : float) : bool :=
  (PrimFloat.leb (1 - 0x1p-50)%float x && PrimFloat.leb x (1 + 0x1p-50)%float)%bool.

(** Where a real number lies between two neighbours at a given
    exponent, as the round and sticky bits of a shifted mantissa tell
    it. *)
Definition offset_in (r s : bool) (t : R) : Prop :=
  match r, s with
  | false, false => t = 0
  | false, true => 0 < t < / 2
  | true, false => t = / 2
  | true, true => / 2 < t < 1
  end.

Definition located (x : R) (mrs : shr_record) (e : Z) : Prop :=
  exists t : R,
    x = (IZR (shr_m mrs) + t) * powerRZ 2 e
    /\ offset_in (shr_r mrs) (shr_s mrs) t.

End RoundingVocabulary.

Section RankingVocabulary.
Import Json Store Ranking.

(** A value that reads as a numeric array. *)
Definition is_vector (v : jsval) : Prop := exists q, as_vector v = Some q.

Definition no_nan (l : list ranked) : Prop :=
  Forall (fun r => PrimFloat.is_nan (sim r) = false) l.

(** Every entry is at least as similar as every entry after it. *)
Definition non_increasing (l : list ranked) : Prop :=
  StronglySorted (fun a b => (sim b <=? sim a)%float = true) l.

(** The entries of any one similarity stand in the same order in both
    lists. *)
Definition same_ties (out inp : list ranked) : Prop :=
  forall s : float,
    filter (fun r => (sim r =? s)%float) out = filter (fun r => (sim r =? s)%float) inp.

(** Order on entries without NaN, through the keys. *)
Definition key_desc (a b : ranked) : Prop :=
  PrimFloat.is_nan (sim a) = false /\ PrimFloat.is_nan (sim b) = false
  /\ (fkey (sim b) <= fkey (sim a))%Z.

End RankingVocabulary.

Section FrameVocabulary.
Import JsString.

(** The string holds a line feed. *)
Fixpoint has_LF (s : string) : bool :=
  match s with
  | EmptyString => false
  | String c r => Ascii.eqb c LF || has_LF r
  end.

(** The string holds a control character (a code unit below 32). *)
Fixpoint has_control (s : string) : bool :=
  match s with
  | EmptyString => false
  | String c r => Nat.ltb (nat_of_ascii c) 32 || has_control r
  end.

(** [s] is a text without line feed followed by two line feeds. *)
Fixpoint ends_its_only_line (s : string) : bool :=
  match s with
  | EmptyString => false
  | String c r =>
      if Ascii.eqb c LF then String.eqb r (String LF EmptyString)
      else ends_its_only_line r
  end.

(** A data frame of one line: "data: ", a payload without line feed,
    and the blank line that ends the event. *)
Definition one_line_frame (data : string) : bool :=
  startsWith data "data: " && ends_its_only_line (drop 6 data).

(** What the streaming handler may write: a data frame of one line, the
    done event, an error event. *)
Definition is_stream_write (e : Effects.event) : bool :=
  match e with
  | Effects.Write data =>
      one_line_frame data || String.eqb data Server.sse_done
      || is_error_event (Effects.Write data)
  | _ => true
  end.

End FrameVocabulary.

Section GateVocabulary.
Import Json Store Ranking Prompt Effects.

Definition is_moderation_fetch (e : event) : bool :=
  match e with Fetch (ModerationsReq _) => true | _ => false end.

(** Events of the retrieval stage: its call and its log line. *)
Definition is_retrieval_event (e : event) : bool :=
  match e with
  | Fetch (EmbeddingsReq _) | ConsoleError _ _ => true
  | _ => false
  end.

(** Events that belong to an event stream: its headers, their flush,
    the writes and the end of the response. *)
Definition is_stream_output (e : event) : bool :=
  match e with
  | SetHeader _ _ | FlushHeaders | Write _ | EndResponse => true
  | _ => false
  end.

Definition key_not_configured : json_body := ErrorBody "OpenAI API key not configured.".

(** [j?.data?.[0]?.embedding] *)
Definition embedding_of (j : jsval) : jsval :=
  opt_key (opt_first (opt_key j "data")) "embedding".

(** Events of a request that is answered or dropped before any relay:
    those of the moderation and retrieval stages, and the answer. *)
Definition is_gate_event (e : event) : bool := is_prelude_event e || is_respond e.

(** The text every upstream call of a request carries. *)
Definition carries (userMessage : string) (e : event) : bool :=
  match e with
  | Fetch (ModerationsReq input) | Fetch (EmbeddingsReq input) => String.eqb input userMessage
  | _ => true
  end.

Section Retrieval.
Context {rt : Runtime} (w : Server.world).

(** The ways the retrieval stage can fail, with what is thrown: the
    embeddings call is rejected, answers with a non-success status, or
    with a body that is not JSON; or the similarity reads the length of an
    embedding that is [undefined] or [null], that of the query or that of
    a record. *)
Inductive retrieval_failure : exn -> Prop :=
| rf_network_error :
    Server.embeddings w = Rejects -> retrieval_failure FetchRejected
| rf_status (r : response) :
    Server.embeddings w = Resolves r -> ok r = false ->
    retrieval_failure (EmbeddingsError (status r) (Server.text_or_empty r))
| rf_unparsable (r : response) :
    Server.embeddings w = Resolves r -> ok r = true -> json r = None ->
    retrieval_failure BodyRejected
| rf_no_embedding (r : response) (j : jsval) :
    Server.embeddings w = Resolves r -> ok r = true -> json r = Some j ->
    nullish (embedding_of j) = true
    \/ Exists (fun v => nullish (embedding v) = true) (Server.RAG_VECTORS w) ->
    retrieval_failure TypeError.

(** The retrieval stage is entered: retrieval is enabled and the store
    holds a record. *)
Definition retrieval_on : Prop :=
  Server.RAG_ENABLED w = true /\ Server.RAG_VECTORS w <> [].

(** What the upstream services see of a request, [evs] being the
    events of a handler that cuts the history to [n] entries: no call is
    made unless the message text passed validation, the moderation and
    embeddings calls carry that text, and a completions request is the
    system message, the entries of the cut history and the text as the
    last, user, message. *)
Definition sends_validated_text (n : nat) (req_body : jsval) (evs : list event) : Prop :=
  let userMessage := Server.user_message req_body in
  (filter is_fetch evs <> [] ->
   Server.validateMessageText (VStr userMessage) = None)
  /\ forallb (carries userMessage) evs = true
  /\ (forall messages stream,
        In (Fetch (CompletionsReq messages stream)) evs ->
        exists history docs,
          completion (Server.read_history (Server.client_history n req_body)) = Ok history
          /\ messages = buildMessagesWithRAG (Server.SYSTEM_PROMPT w) history userMessage docs
          /\ length history <= n
          /\ length messages <= n + 2
          /\ last messages {| role := ""; content := "" |}
             = {| role := "user"; content := userMessage |}).

End Retrieval.

(** The moderation service flags the message: there is a key, the call
    answers with a success status and a JSON body whose
    [results[0].flagged] is truthy. *)
Definition moderation_flags (w : Server.world) : Prop :=
  Server.key_missing w = false
  /\ exists r j,
       Server.moderations w = Resolves r /\ ok r = true /\ json r = Some j
       /\ truthy (opt_key (opt_first (opt_key j "results")) "flagged") = true.

(** The log labels of the Next.js route, for those of [POST /api/chat]. *)
Definition next_label (label : string) : string :=
  if String.eqb label "OpenAI chat error:" then "OpenAI API error:"
  else if String.eqb label "OpenAI unexpected response shape:"
       then "OpenAI returned unexpected response:"
  else if String.eqb label "Error in /api/chat:" then "API handler error:"
  else label.

Definition relabel (e : event) : event :=
  match e with
  | ConsoleError label args => ConsoleError (next_label label) args
  | _ => e
  end.

(** The two messages of the validation of the Next.js route. *)
Definition next_validation_errors : list string :=
  ["El mensaje está vacío."; "Mensaje demasiado largo."].

(** [body.history], when it is an array. *)
Definition history_of (req_body : jsval) : list jsval :=
  array_or_empty (get_key (if truthy req_body then req_body else VObj []) "history").

(** A history entry the assembler reads without exception: it is
    neither [null] nor [undefined] and its content converts to a
    string. *)
Definition readable_entry (h : jsval) : bool :=
  negb (nullish h) && negb (String_throws (get_key h "content")).

End GateVocabulary.

Section ClientVocabulary.
Import Json Effects.

Definition is_assistant_push (c : Client.call) : bool :=
  match c with
  | Client.PushHistory role _ => String.eqb role "assistant"
  | _ => false
  end.

Definition is_post (c : Client.call) : bool :=
  match c with Client.PostChat _ _ => true | _ => false end.

(** An entry of the history the page posts: an object with the two
    properties [role] and [content]. *)
Definition role_and_content (v : jsval) : Prop :=
  exists r c, v = VObj [("role", r); ("content", c)].

(** The answers the routes give: 200 with a reply, or a status
    outside 200..299 with an error message that is not empty. *)
Definition is_answer (e : event) : bool :=
  match e with
  | Respond code (ReplyBody _) => Nat.eqb code 200
  | Respond code (ErrorBody m) =>
      negb ((200 <=? code)%nat && (code <=? 299)%nat) && negb (JsString.is_empty m)
  | _ => true
  end.

(** What the page shows for an answer of the route. *)
Definition shown (b : json_body) : jsval :=
  match b with
  | ErrorBody m => VStr ("⚠️ Error del servidor: " ++ m)
  | ReplyBody r => if JsString.is_empty r then Client.no_reply else VStr r
  end.

(** An entry as the page makes it for a text: a role, the text, and a
    time stamp that is a finite number other than zero. *)
Definition page_entry (v : jsval) : Prop :=
  exists role text now,
    v = Client.entry role (VStr text) now
    /\ PrimFloat.is_finite now = true /\ PrimFloat.is_zero now = false.

(** Any answer but the one for an empty message. *)
Definition not_empty_message_answer (e : event) : bool :=
  match e with
  | Respond _ (ErrorBody m) => negb (String.eqb m "El mensaje está vacío.")
  | _ => true
  end.

End ClientVocabulary.

Section EmbedVocabulary.
Import Json EmbedDocs.

Definition is_write (e : event) : bool :=
  match e with WriteVectors _ => true | _ => false end.

Definition is_exit (e : event) : bool :=
  match e with Exit _ => true | _ => false end.

Definition is_failure (e : event) : bool :=
  match e with KeyNotSet | Failed _ => true | _ => false end.

(** The events of the loop over the files. *)
Definition is_loop_event (e : event) : bool :=
  match e with Embedding _ | Embed _ | Pause => true | _ => false end.

(** The texts sent to the embeddings service, in order. *)
Fixpoint embedded_texts (evs : list event) : list string :=
  match evs with
  | [] => []
  | Embed input :: rest => input :: embedded_texts rest
  | _ :: rest => embedded_texts rest
  end.

(** The names and texts of the entries that are files, in order. *)
Fixpoint regular_files (entries : list dir_entry) : list (string * string) :=
  match entries with
  | [] => []
  | f :: rest =>
      match at_path f with
      | File text => (name f, text) :: regular_files rest
      | _ => regular_files rest
      end
  end.

(** A record as the server loads it from [vectors.json]: an embedding
    that was [undefined] is absent from the file. *)
Definition loaded (v : jsval) : Store.rag_record :=
  {| Store.id := get_key v "id";
     Store.text := get_key v "text";
     Store.embedding := match get_key v "embedding" with
                        | VUndefined => VUndefined
                        | e => Wire.sent e
                        end |}.

End EmbedVocabulary.

(* ===================================================================== *)
(** * Sample data for the worked examples *)
(* ===================================================================== *)

Module Samples.
Import Json Store Effects.

(** The examples below print no number and hold no vector that is not
    numeric. *)
Definition runtime : Runtime :=
  {| Number_toString := fun _ => "0"; coerced_cosineSim := fun _ _ => Some nan |}.

Definition moderation_clear : response :=
  {| ok := true; status := 200; text := None;
     json := Some (VObj [("results", VArr [VObj [("flagged", VBool false)]])]);
     body := None |}.

Definition moderation_flagged : response :=
  {| ok := true; status := 200; text := None;
     json := Some (VObj [("results", VArr [VObj [("flagged", VBool true)]])]);
     body := None |}.

Definition completion_hola : response :=
  {| ok := true; status := 200; text := None;
     json := Some (VObj [("choices",
               VArr [VObj [("message", VObj [("role", VStr "assistant");
                                             ("content", VStr " hola ")])]])]);
     body := None |}.

Definition world : Server.world :=
  {| Server.OPENAI_KEY := Some "sk-test";
     Server.SYSTEM_PROMPT := "Eres Atenea.";
     Server.RAG_ENABLED := false;
     Server.RAG_TOP_K := 3;
     Server.RAG_VECTORS := [];
     Server.moderations := Resolves moderation_clear;
     Server.embeddings := Rejects;
     Server.completions := Resolves completion_hola;
     Server.write_throws := fun _ => false |}.

Definition with_completions (w : Server.world) (c : fetch_outcome) : Server.world :=
  {| Server.OPENAI_KEY := Server.OPENAI_KEY w;
     Server.SYSTEM_PROMPT := Server.SYSTEM_PROMPT w;
     Server.RAG_ENABLED := Server.RAG_ENABLED w;
     Server.RAG_TOP_K := Server.RAG_TOP_K w;
     Server.RAG_VECTORS := Server.RAG_VECTORS w;
     Server.moderations := Server.moderations w;
     Server.embeddings := Server.embeddings w;
     Server.completions := c;
     Server.write_throws := Server.write_throws w |}.

Definition with_moderations (w : Server.world) (c : fetch_outcome) : Server.world :=
  {| Server.OPENAI_KEY := Server.OPENAI_KEY w;
     Server.SYSTEM_PROMPT := Server.SYSTEM_PROMPT w;
     Server.RAG_ENABLED := Server.RAG_ENABLED w;
     Server.RAG_TOP_K := Server.RAG_TOP_K w;
     Server.RAG_VECTORS := Server.RAG_VECTORS w;
     Server.moderations := c;
     Server.embeddings := Server.embeddings w;
     Server.completions := Server.completions w;
     Server.write_throws := Server.write_throws w |}.

(** [{ "message": m }] *)
Definition body_with_message (m : jsval) : jsval := VObj [("message", m)].

End Samples.

Module StreamSamples.
Import Json Effects.

Definition LFs2 : string := LFs ++ LFs.

(** A streaming response made of the given chunks. *)
Definition streaming_body (chunks : list string) (clean : bool) : upstream_body :=
  {| Effects.chunks := chunks; closes_cleanly := clean |}.

Definition streaming_response (chunks : list string) (clean : bool) : response :=
  {| ok := true; status := 200; text := None; json := None;
     body := Some (streaming_body chunks clean) |}.

Definition streaming (chunks : list string) (clean : bool) : fetch_outcome :=
  Resolves (streaming_response chunks clean).

Definition three_chunks : list string :=
  [("data: uno" ++ LFs2)%string;
   ("data: dos" ++ LFs2 ++ "data: tres" ++ LFs2)%string].

(** Three data lines in two chunks, then a clean close. *)
Definition three_lines : Server.world :=
  Samples.with_completions Samples.world (streaming three_chunks true).

(** One data line, then the connection drops. *)
Definition dropped : Server.world :=
  Samples.with_completions Samples.world (streaming [("data: uno" ++ LFs2)%string] false).

(** One line made of a single space, then a clean close. *)
Definition blank_line : Server.world :=
  Samples.with_completions Samples.world (streaming [(" " ++ LFs)%string] true).

(** One data line cut in two by a chunk boundary, then a clean close. *)
Definition split_line : Server.world :=
  Samples.with_completions Samples.world
    (streaming ["data: ho"%string; ("la" ++ LFs)%string] true).

Definition hola : jsval := Samples.body_with_message (VStr "hola").

Definition hola_messages : list Prompt.message :=
  [ {| Prompt.role := "system"; Prompt.content := "Eres Atenea." |};
    {| Prompt.role := "user"; Prompt.content := "hola" |} ].

End StreamSamples.

Module RankingSamples.
Import Json Store Ranking.

Definition record (name : string) (v : list float) : rag_record :=
  {| id := VStr name; text := VStr name; embedding := VArr (map VNum v) |}.

Definition east : rag_record := record "east" [1%float; 0%float].
Definition north : rag_record := record "north" [0%float; 1%float].
Definition north_east : rag_record := record "north-east" [1%float; 1%float].
Definition east_again : rag_record := record "east-again" [2%float; 0%float].

Definition query_east : jsval := VArr [VNum 1%float; VNum 0%float].

(** Vectors of one entry: 0, 2^530 (its square overflows), and 2^500. *)
Definition null_doc : rag_record := record "null" [0%float].
Definition huge_doc : rag_record := record "huge" [0x1p530%float].
Definition same_doc : rag_record := record "same" [0x1p500%float].

Definition query_large : jsval := VArr [VNum 0x1p500%float].

End RankingSamples.

Module GateSamples.
Import Json Effects.

(** The sample world without its key. *)
Definition no_key : Server.world :=
  {| Server.OPENAI_KEY := None;
     Server.SYSTEM_PROMPT := Server.SYSTEM_PROMPT Samples.world;
     Server.RAG_ENABLED := Server.RAG_ENABLED Samples.world;
     Server.RAG_TOP_K := Server.RAG_TOP_K Samples.world;
     Server.RAG_VECTORS := Server.RAG_VECTORS Samples.world;
     Server.moderations := Server.moderations Samples.world;
     Server.embeddings := Server.embeddings Samples.world;
     Server.completions := Server.completions Samples.world;
     Server.write_throws := Server.write_throws Samples.world |}.

(** The sample world with retrieval enabled over a store. *)
Definition with_store (vectors : list Store.rag_record) (top_k : Z)
    (embeddings : fetch_outcome) : Server.world :=
  {| Server.OPENAI_KEY := Server.OPENAI_KEY Samples.world;
     Server.SYSTEM_PROMPT := Server.SYSTEM_PROMPT Samples.world;
     Server.RAG_ENABLED := true;
     Server.RAG_TOP_K := top_k;
     Server.RAG_VECTORS := vectors;
     Server.moderations := Server.moderations Samples.world;
     Server.embeddings := embeddings;
     Server.completions := Server.completions Samples.world;
     Server.write_throws := Server.write_throws Samples.world |}.

(** The embeddings service answers with the vector (1, 0). *)
Definition embedding_east : response :=
  {| ok := true; status := 200; text := None;
     json := Some (VObj [("data", VArr [VObj [("embedding", RankingSamples.query_east)]])]);
     body := None |}.

Definition four_directions : list Store.rag_record :=
  [RankingSamples.north; RankingSamples.east; RankingSamples.north_east;
   RankingSamples.east_again].

(** Retrieval over the four directions, two documents kept. *)
Definition retrieving : Server.world :=
  with_store four_directions 2 (Resolves embedding_east).

(** The same with the embeddings service out of reach. *)
Definition retrieval_down : Server.world := with_store four_directions 2 Rejects.

End GateSamples.

Module EmbedSamples.
Import Json Effects EmbedDocs.

(** A directory with a hidden file, a sub-directory and two files. *)
Definition docs : list dir_entry :=
  [ {| name := ".keep"; at_path := File "" |};
    {| name := "a.txt"; at_path := File "uno" |};
    {| name := "img"; at_path := NotAFile |};
    {| name := "b.txt"; at_path := File "dos" |} ].

Definition embedding_north : response :=
  {| ok := true; status := 200; text := None;
     json := Some (VObj [("data", VArr [VObj [("embedding",
                     VArr [VNum 0%float; VNum 1%float])]])]);
     body := None |}.

(** The service answers (1, 0) first, then (0, 1). *)
Definition two_answers (n : nat) : fetch_outcome :=
  match n with
  | 0 => Resolves GateSamples.embedding_east
  | _ => Resolves embedding_north
  end.

Definition world : EmbedDocs.world :=
  {| OPENAI_KEY := Some "sk-test";
     listing := Some docs;
     answers := two_answers;
     write_throws := false |}.

End EmbedSamples.

(* ===================================================================== *)
(** * Properties of the prompt assembler *)
(* ===================================================================== *)

Section PromptFacts.
Import Json Store Ranking Prompt.
Context {rt : Runtime}.

Lemma history_message_role (h : hentry) :
  role (history_message h) = "assistant" \/ role (history_message h) = "user".
Proof.
  unfold history_message; simpl.
  destruct (h_role h); auto.
  destruct (String.eqb s "assistant"); auto.
Qed.

Lemma history_message_assistant (h : hentry) :
  role (history_message h) = "assistant" <-> h_role h = VStr "assistant".
Proof.
  unfold history_message; simpl.
  destruct (h_role h) as [| | b | f | s | xs | fs]; try (split; discriminate).
  destruct (String.eqb s "assistant") eqn:E.
  - apply String.eqb_eq in E. subst. split; reflexivity.
  - split; [discriminate|]. intros H. injection H as ->.
    rewrite String.eqb_refl in E. discriminate.
Qed.

Lemma history_roles_not_system (hs : list hentry) :
  filter (fun m => String.eqb (role m) "system") (map history_message hs) = [].
Proof.
  induction hs as [|h hs IH]; [reflexivity|].
  cbn [map filter].
  destruct (history_message_role h) as [E|E]; rewrite E; exact IH.
Qed.

Lemma mapi_from_nth {A B : Type} (f : A -> nat -> B) (xs : list A) :
  forall k i x, nth_error xs i = Some x ->
    nth_error (mapi_from k f xs) i = Some (f x (k + i)).
Proof.
  induction xs as [|y ys IH]; intros k i x H.
  - destruct i; discriminate.
  - destruct i as [|i]; simpl in *.
    + injection H as ->. rewrite Nat.add_0_r. reflexivity.
    + rewrite (IH (S k) i x H). f_equal. f_equal. lia.
Qed.

Lemma mapi_from_length {A B : Type} (f : A -> nat -> B) (xs : list A) :
  forall k, length (mapi_from k f xs) = length xs.
Proof. induction xs; intros; simpl; auto. Qed.

Lemma entry_of_readable (h : jsval) :
  readable_entry h = true <-> exists e, Server.entry_of h = Some e.
Proof.
  unfold readable_entry, Server.entry_of.
  destruct h; cbn [nullish negb andb];
    try (split; [discriminate|intros [e H]; discriminate H]);
    destruct (String_throws _); cbn [negb];
    (split; [try discriminate; intros _; eexists; reflexivity
            |try reflexivity; intros [e H]; discriminate H]).
Qed.

Lemma entry_of_fields (h : jsval) (e : hentry) :
  Server.entry_of h = Some e ->
  e = {| h_role := get_key h "role"; h_content := get_key h "content" |}.
Proof.
  unfold Server.entry_of.
  destruct h; try discriminate; destruct (String_throws _); try discriminate;
    intros H; injection H as <-; reflexivity.
Qed.

(** [history.map] throws exactly when an entry cannot be read. *)
Lemma entries_of_none (hs : list jsval) :
  Server.entries_of hs = None <-> Exists (fun h => readable_entry h = false) hs.
Proof.
  induction hs as [|h hs IH]; cbn [Server.entries_of].
  - split; [discriminate|intros H; inversion H].
  - destruct (Server.entry_of h) as [e|] eqn:E.
    + pose proof (proj2 (entry_of_readable h) (ex_intro _ e E)) as R.
      destruct (Server.entries_of hs) as [es|].
      * split; [discriminate|]. intros H. inversion H as [? ? Hh|? ? Ht]; subst.
        -- rewrite R in Hh. discriminate Hh.
        -- apply IH in Ht. discriminate Ht.
      * split; [intros _; apply Exists_cons_tl, IH; reflexivity|reflexivity].
    + split; [|reflexivity]. intros _. apply Exists_cons_hd.
      destruct (readable_entry h) eqn:R; [|reflexivity].
      apply entry_of_readable in R as [e' R]. congruence.
Qed.

(** When it returns, the entries are those of the history, in order. *)
Lemma entries_of_some (hs : list jsval) (es : list hentry) :
  Server.entries_of hs = Some es ->
  es = map (fun h => {| h_role := get_key h "role"; h_content := get_key h "content" |}) hs.
Proof.
  revert es. induction hs as [|h hs IH]; intros es; cbn [Server.entries_of].
  - intros H. injection H as <-. reflexivity.
  - destruct (Server.entry_of h) as [e|] eqn:E; [|discriminate].
    destruct (Server.entries_of hs) as [es'|]; [|discriminate].
    intros H. injection H as <-. cbn [map].
    rewrite (entry_of_fields h e E), (IH es' eq_refl). reflexivity.
Qed.

(** [read_history] is [entries_of] with its exception, and logs
    nothing. *)
Lemma read_history_is_entries_of (hs : list jsval) (tr : list Effects.event) :
  Server.read_history hs tr
  = (match Server.entries_of hs with
     | Some es => Effects.Ok es
     | None => Effects.Throw Effects.TypeError
     end, tr).
Proof.
  induction hs as [|h hs IH]; [reflexivity|].
  cbn [Server.read_history Server.entries_of].
  destruct (Server.entry_of h) as [e|]; [|reflexivity].
  unfold Effects.bind. rewrite IH.
  destruct (Server.entries_of hs) as [es|]; reflexivity.
Qed.

Lemma documents_throw (topDocs : list ranked) :
  existsb (fun d => String_throws (Store.text (doc d))) topDocs = true
  <-> Exists (fun d => String_throws (Store.text (doc d)) = true) topDocs.
Proof.
  rewrite existsb_exists, Exists_exists. reflexivity.
Qed.

End PromptFacts.

(** C5, as the code has it.  [buildMessagesWithRAG] throws a TypeError
    exactly when a history entry cannot be read (it is [null] or
    [undefined], or its content cannot be converted to a string) or the
    text of a retrieved document cannot be converted.  For every other
    system prompt, history, user message and list of retrieved documents
    it returns: one leading [system] message, which is the system prompt
    alone when no document was retrieved and the prompt followed by the
    header, the numbered blocks "Documento i:" with each document's text
    (i from 1, in decimal, in order) and the closing instruction
    otherwise; then one message per history entry, in the original order,
    whose role is [assistant] exactly when the entry's role is the string
    "assistant" and [user] in every other case, and whose content is the
    entry's content converted to a string; then the current user message,
    with role [user], as the last element whatever its text.  No other
    message has the role [system] and every role lies in the closed set.
    The handlers call it on the history they cut, and end with its
    exception. *)
Theorem C5_buildMessagesWithRAG_shape :
  forall (rt : Json.Runtime) (systemPrompt : string) (history : list Json.jsval)
         (userMessage : string) (topDocs : list Ranking.ranked),
    let call := Server.buildMessagesWithRAG systemPrompt history userMessage topDocs in
    let last_message := {| Prompt.role := "user"; Prompt.content := userMessage |} in
    (call = None <->
       Exists (fun h => readable_entry h = false) history
       \/ Exists (fun d => Json.String_throws (Store.text (Ranking.doc d)) = true) topDocs)
    /\ (forall out, call = Some out ->
          length out = length history + 2
          /\ (exists system_text,
                hd_error out
                = Some {| Prompt.role := "system"; Prompt.content := system_text |}
                /\ (topDocs = [] -> system_text = systemPrompt)
                /\ (topDocs <> [] ->
                    exists blocks,
                      system_text
                      = systemPrompt ++ Prompt.nl ++ Prompt.nl ++ "Documentos relevantes:"
                        ++ Prompt.nl ++ String.concat (Prompt.nl ++ Prompt.nl) blocks
                        ++ Prompt.nl ++ Prompt.nl
                        ++ "Usa esta información cuando sea pertinente y cita la fuente si es necesario."
                      /\ length blocks = length topDocs
                      /\ forall i d, nth_error topDocs i = Some d ->
                           exists label,
                             nth_error blocks i
                             = Some ("Documento " ++ label ++ ":" ++ Prompt.nl
                                     ++ Json.ToString (Store.text (Ranking.doc d)))
                             /\ NilEmpty.uint_of_string label
                                = Some (Nat.to_uint (i + 1))))
          /\ (forall i h, nth_error history i = Some h ->
                exists m, nth_error out (S i) = Some m
                  /\ Prompt.content m = Json.ToString (Json.get_key h "content")
                  /\ (Json.get_key h "role" = Json.VStr "assistant" ->
                      Prompt.role m = "assistant")
                  /\ (Json.get_key h "role" <> Json.VStr "assistant" ->
                      Prompt.role m = "user"))
          /\ last out {| Prompt.role := ""; Prompt.content := "" |} = last_message
          /\ count_role "system" out = 1
          /\ Forall (fun m => In (Prompt.role m) closed_roles) out)
    /\ (forall w : Server.world,
          Forall (fun d => Json.String_throws (Store.text (Ranking.doc d)) = false) topDocs ->
          Effects.completion (Server.assemble w history userMessage topDocs)
          = match Server.buildMessagesWithRAG (Server.SYSTEM_PROMPT w) history
                    userMessage topDocs with
            | Some out => Effects.Ok out
            | None => Effects.Throw Effects.TypeError
            end).
Proof.
  intros rt systemPrompt history userMessage topDocs call last_message.
  subst call last_message. unfold Server.buildMessagesWithRAG.
  split; [|split].
  - destruct (existsb _ topDocs) eqn:D.
    + split; [intros _; right; apply documents_throw; exact D|reflexivity].
    + destruct (Server.entries_of history) as [es|] eqn:E.
      * split; [discriminate|]. intros [H|H].
        -- apply entries_of_none in H. congruence.
        -- apply documents_throw in H. congruence.
      * split; [intros _; left; apply entries_of_none; exact E|reflexivity].
  - intros out. destruct (existsb _ topDocs); [discriminate|].
    destruct (Server.entries_of history) as [es|] eqn:E; [|discriminate].
    intros H. injection H as <-. apply entries_of_some in E. subst es.
    unfold Prompt.buildMessagesWithRAG.
    split; [cbn [length]; rewrite length_app, !length_map; simpl; lia|].
    split.
    { exists (Prompt.ragSystem systemPrompt topDocs). split; [reflexivity|].
      unfold Prompt.ragSystem. split; [intros ->; reflexivity|].
      intros Hne. destruct topDocs as [|d ds]; [congruence|].
      exists (Prompt.mapi Prompt.document_block (d :: ds)).
      split; [reflexivity|].
      split; [apply mapi_from_length|].
      intros i d' Hd. exists (Prompt.decimal (i + 1)). unfold Prompt.mapi.
      rewrite (mapi_from_nth Prompt.document_block (d :: ds) 0 i d' Hd).
      split; [reflexivity|apply NilEmpty.usu]. }
    split.
    { intros i h Hh.
      exists (Prompt.history_message
                {| Prompt.h_role := Json.get_key h "role";
                   Prompt.h_content := Json.get_key h "content" |}).
      split; [|split; [reflexivity|split]].
      - cbn [nth_error]. rewrite nth_error_app1.
        + rewrite !nth_error_map, Hh. reflexivity.
        + rewrite !length_map. apply nth_error_Some. congruence.
      - intros R. apply history_message_assistant. exact R.
      - intros R.
        destruct (history_message_role
                    {| Prompt.h_role := Json.get_key h "role";
                       Prompt.h_content := Json.get_key h "content" |}) as [A|A]; [|exact A].
        apply history_message_assistant in A. contradiction. }
    split; [rewrite app_comm_cons; apply last_last|].
    split.
    { unfold count_role. cbn [filter Prompt.role]. simpl String.eqb. cbn [length]. f_equal.
      rewrite filter_app, history_roles_not_system. reflexivity. }
    constructor; [simpl; auto|].
    apply Forall_app. split.
    + apply Forall_forall. intros m Hm. apply in_map_iff in Hm as [h [<- _]].
      destruct (history_message_role h) as [R|R]; rewrite R; simpl; auto.
    + constructor; [simpl; auto|constructor].
  - intros w T. unfold Server.assemble, Effects.completion, Effects.bind.
    rewrite read_history_is_entries_of.
    replace (existsb (fun d => Json.String_throws (Store.text (Ranking.doc d))) topDocs)
      with false.
    + destruct (Server.entries_of history); reflexivity.
    + symmetry. apply not_true_is_false. intros E. apply documents_throw in E.
      apply Exists_exists in E as [d [Hd E]]. rewrite Forall_forall in T.
      rewrite (T d Hd) in E. discriminate E.
Qed.

(** A call with two documents and a history of three entries: an
    assistant's, one that claims the role [system] with a [null] content,
    and one without role whose content is an array. *)
Lemma C5_witness_two_documents_three_entries :
  Server.buildMessagesWithRAG (rt := Samples.runtime) "Eres Atenea."
    [ Json.VObj [("role", Json.VStr "assistant"); ("content", Json.VStr "hola")];
      Json.VObj [("role", Json.VStr "system"); ("content", Json.VNull)];
      Json.VObj [("content", Json.VArr [Json.VStr "a"; Json.VNull; Json.VStr "b"])] ]
    " y ahora? "
    [ {| Ranking.doc := RankingSamples.east; Ranking.sim := 1%float |};
      {| Ranking.doc := RankingSamples.north; Ranking.sim := 0%float |} ]
  = Some [ {| Prompt.role := "system";
              Prompt.content :=
                "Eres Atenea." ++ Prompt.nl ++ Prompt.nl ++ "Documentos relevantes:"
                ++ Prompt.nl ++ "Documento 1:" ++ Prompt.nl ++ "east"
                ++ Prompt.nl ++ Prompt.nl ++ "Documento 2:" ++ Prompt.nl ++ "north"
                ++ Prompt.nl ++ Prompt.nl
                ++ "Usa esta información cuando sea pertinente y cita la fuente si es necesario." |};
           {| Prompt.role := "assistant"; Prompt.content := "hola" |};
           {| Prompt.role := "user"; Prompt.content := "null" |};
           {| Prompt.role := "user"; Prompt.content := "a,,b" |};
           {| Prompt.role := "user"; Prompt.content := " y ahora? " |} ]
  /\ count_role "system"
       [ {| Prompt.role := "system";
            Prompt.content :=
              "Eres Atenea." ++ Prompt.nl ++ Prompt.nl ++ "Documentos relevantes:"
              ++ Prompt.nl ++ "Documento 1:" ++ Prompt.nl ++ "east"
              ++ Prompt.nl ++ Prompt.nl ++ "Documento 2:" ++ Prompt.nl ++ "north"
              ++ Prompt.nl ++ Prompt.nl
              ++ "Usa esta información cuando sea pertinente y cita la fuente si es necesario." |};
         {| Prompt.role := "assistant"; Prompt.content := "hola" |};
         {| Prompt.role := "user"; Prompt.content := "null" |};
         {| Prompt.role := "user"; Prompt.content := "a,,b" |};
         {| Prompt.role := "user"; Prompt.content := " y ahora? " |} ] = 1.
Proof.
  split; [reflexivity|].
  destruct (C5_buildMessagesWithRAG_shape Samples.runtime "Eres Atenea."
              [ Json.VObj [("role", Json.VStr "assistant"); ("content", Json.VStr "hola")];
                Json.VObj [("role", Json.VStr "system"); ("content", Json.VNull)];
                Json.VObj [("content", Json.VArr [Json.VStr "a"; Json.VNull; Json.VStr "b"])] ]
              " y ahora? "
              [ {| Ranking.doc := RankingSamples.east; Ranking.sim := 1%float |};
                {| Ranking.doc := RankingSamples.north; Ranking.sim := 0%float |} ])
    as (_ & H & _).
  destruct (H _ eq_refl) as (_ & _ & _ & _ & C & _). exact C.
Defined.

(** C5 as stated fails on a history that holds [null], and on one that
    holds an entry whose content is an object with a [toString] property
    of its own: the call throws and returns nothing.  [POST /api/chat]
    then ends with the TypeError, right after its moderation call. *)
Lemma C5_counterexample_history_that_cannot_be_read :
  Server.buildMessagesWithRAG (rt := Samples.runtime) "Eres Atenea."
    [Json.VNull] "hola" [] = None
  /\ Server.buildMessagesWithRAG (rt := Samples.runtime) "Eres Atenea."
       [Json.VObj [("role", Json.VStr "user");
                   ("content", Json.VObj [("toString", Json.VNum 1)])]] "hola" [] = None
  /\ Effects.completion
       (Server.chat (rt := Samples.runtime) Samples.world
          (Json.VObj [("message", Json.VStr "hola"); ("history", Json.VArr [Json.VNull])]))
     = Effects.Throw Effects.TypeError
  /\ Effects.events
       (Server.chat (rt := Samples.runtime) Samples.world
          (Json.VObj [("message", Json.VStr "hola"); ("history", Json.VArr [Json.VNull])]))
     = [Effects.Fetch (Effects.ModerationsReq "hola")].
Proof. repeat split. Qed.

(* ===================================================================== *)
(** * Validation stage of [POST /api/chat] *)
(* ===================================================================== *)

Section ValidationFacts.
Import Json Effects.
Context {rt : Runtime}.

Lemma user_message_falsy (req_body : jsval) :
  truthy (message_of req_body) = false -> Server.user_message req_body = EmptyString.
Proof.
  unfold Server.user_message, message_of. intros H. rewrite H. reflexivity.
Qed.

Lemma user_message_truthy (req_body : jsval) :
  truthy (message_of req_body) = true ->
  Server.user_message req_body = ToString (message_of req_body).
Proof.
  unfold Server.user_message, message_of. intros H. rewrite H. reflexivity.
Qed.

Lemma validate_rejected (req_body : jsval) :
  rejected_message (message_of req_body) ->
  exists v, In v validation_errors
    /\ Server.validateMessageText (VStr (Server.user_message req_body)) = Some v.
Proof.
  intros H. unfold Server.validateMessageText, validation_errors.
  destruct (truthy (message_of req_body)) eqn:T.
  - rewrite (user_message_truthy _ T).
    destruct (JsString.is_empty (ToString (message_of req_body))) eqn:E;
      [eexists; split; [|reflexivity]; simpl; auto|].
    destruct H as [H|H|H].
    + congruence.
    + rewrite H. simpl. eexists; split; [|reflexivity]; simpl; auto.
    + destruct (Nat.eqb _ 0); [eexists; split; [|reflexivity]; simpl; auto|].
      apply Z.ltb_lt in H. rewrite H.
      eexists; split; [|reflexivity]; simpl; auto.
  - rewrite (user_message_falsy _ T). simpl.
    eexists; split; [|reflexivity]; simpl; auto.
Qed.

End ValidationFacts.




(* ===================================================================== *)
(** * Reasoning about traces *)
(* ===================================================================== *)

Section TraceFacts.
Import Effects.

Variable P : event -> bool.

Lemma emits_only_ret {A : Type} (a : A) : emits_only P (ret a).
Proof. intros tr. exists []. split; reflexivity. Qed.

Lemma emits_only_throw {A : Type} (e : exn) : emits_only P (@throw A e).
Proof. intros tr. exists []. split; reflexivity. Qed.

Lemma emits_only_emit (e : event) : P e = true -> emits_only P (emit e).
Proof. intros H tr. exists [e]. split; [reflexivity|]. simpl. rewrite H. reflexivity. Qed.

Lemma emits_only_bind {A B : Type} (c : M A) (k : A -> M B) :
  emits_only P c -> (forall a, emits_only P (k a)) -> emits_only P (bind c k).
Proof.
  intros Hc Hk tr. unfold bind.
  destruct (Hc tr) as [evs [E F]].
  destruct (c tr) as [[a|e] tr'] eqn:R; simpl in E; subst tr'.
  - destruct (Hk a (evs ++ tr)%list) as [evs' [E' F']].
    exists (evs' ++ evs)%list. rewrite E', app_assoc, forallb_app, F, F'. auto.
  - exists evs. auto.
Qed.

Lemma emits_only_try_catch {A : Type} (c : M A) (h : exn -> M A) :
  emits_only P c -> (forall e, emits_only P (h e)) -> emits_only P (try_catch c h).
Proof.
  intros Hc Hh tr. unfold try_catch.
  destruct (Hc tr) as [evs [E F]].
  destruct (c tr) as [[a|e] tr'] eqn:R; simpl in E; subst tr'.
  - exists evs. auto.
  - destruct (Hh e (evs ++ tr)%list) as [evs' [E' F']].
    exists (evs' ++ evs)%list. rewrite E', app_assoc, forallb_app, F, F'. auto.
Qed.

Lemma emits_only_events {A : Type} (c : M A) :
  emits_only P c -> forallb P (events c) = true.
Proof.
  intros H. unfold events. destruct (H []) as [evs [E F]].
  rewrite E, app_nil_r. rewrite forallb_forall in *.
  intros x Hx. apply F. apply in_rev. exact Hx.
Qed.

Lemma forallb_negb_filter {A : Type} (q : A -> bool) (l : list A) :
  forallb (fun x => negb (q x)) l = true -> filter q l = [].
Proof.
  induction l as [|x l IH]; simpl; [reflexivity|].
  intros H. apply andb_prop in H as [Hx Hl].
  destruct (q x); [discriminate|]. auto.
Qed.

Lemma framed_ret {A : Type} (a : A) : framed (ret a).
Proof. intros tr. reflexivity. Qed.

Lemma framed_throw {A : Type} (e : exn) : framed (@throw A e).
Proof. intros tr. reflexivity. Qed.

Lemma framed_emit (e : event) : framed (emit e).
Proof. intros tr. reflexivity. Qed.

Lemma framed_bind {A B : Type} (c : M A) (k : A -> M B) :
  framed c -> (forall a, framed (k a)) -> framed (bind c k).
Proof.
  intros Hc Hk tr. unfold bind. rewrite (Hc tr).
  destruct (c []) as [[a|e] tr0]; simpl.
  - rewrite (Hk a (tr0 ++ tr)%list), (Hk a tr0). simpl.
    rewrite app_assoc. reflexivity.
  - reflexivity.
Qed.

Lemma framed_try_catch {A : Type} (c : M A) (h : exn -> M A) :
  framed c -> (forall e, framed (h e)) -> framed (try_catch c h).
Proof.
  intros Hc Hh tr. unfold try_catch. rewrite (Hc tr).
  destruct (c []) as [[a|e] tr0]; simpl.
  - reflexivity.
  - rewrite (Hh e (tr0 ++ tr)%list), (Hh e tr0). simpl.
    rewrite app_assoc. reflexivity.
Qed.

(** Sequencing after a framed computation that returns. *)
Lemma bind_framed_run {A B : Type} (c : M A) (k : A -> M B) (a : A) :
  framed c -> fst (c []) = Ok a ->
  forall tr, bind c k tr = k a (snd (c []) ++ tr)%list.
Proof.
  intros Hc Ha tr. unfold bind. rewrite (Hc tr), Ha. reflexivity.
Qed.

End TraceFacts.

Ltac emits_step :=
  first
    [ apply emits_only_ret
    | apply emits_only_throw
    | apply emits_only_emit; reflexivity
    | apply emits_only_bind; [|intros ?]
    | apply emits_only_try_catch; [|intros ?]
    | match goal with
      | |- emits_only _ (match ?x with _ => _ end) => destruct x
      | |- emits_only _ (if ?x then _ else _) => destruct x
      end ].

Ltac framed_step :=
  first
    [ apply framed_ret
    | apply framed_throw
    | apply framed_emit
    | apply framed_bind; [|intros ?]
    | apply framed_try_catch; [|intros ?]
    | match goal with
      | |- framed (match ?x with _ => _ end) => destruct x
      | |- framed (if ?x then _ else _) => destruct x
      end ].

(* ===================================================================== *)
(** * The stages of the handlers, one by one *)
(* ===================================================================== *)


Section StageFacts.
Import Json Store Ranking Prompt Effects.
Context {rt : Runtime} (w : Server.world).

Lemma framed_fetch (req : fetch_request) (answer : fetch_outcome) :
  framed (Server.fetch req answer).
Proof. unfold Server.fetch. repeat framed_step. Qed.

Lemma framed_res_json (r : response) : framed (Server.res_json r).
Proof. unfold Server.res_json. repeat framed_step. Qed.

Lemma framed_getEmbedding (input : string) : framed (Server.getEmbedding w input).
Proof.
  unfold Server.getEmbedding.
  apply framed_bind; [apply framed_fetch|intros r].
  destruct (negb (ok r)); [apply framed_throw|].
  apply framed_bind; [apply framed_res_json|intros j]. apply framed_ret.
Qed.

Lemma framed_runModerationCheck (content : string) :
  framed (Server.runModerationCheck w content).
Proof.
  unfold Server.runModerationCheck.
  destruct (Server.key_missing w); [apply framed_ret|].
  apply framed_try_catch; [|intros e; repeat framed_step].
  apply framed_bind; [apply framed_fetch|intros r].
  destruct (negb (ok r)); [repeat framed_step|].
  apply framed_bind; [apply framed_res_json|intros j]. apply framed_ret.
Qed.

Lemma framed_moderation_stage (userMessage : string) :
  framed (Server.moderation_stage w userMessage).
Proof.
  unfold Server.moderation_stage.
  apply framed_try_catch; [|intros e; repeat framed_step].
  apply framed_bind; [apply framed_runModerationCheck|intros v].
  repeat framed_step.
Qed.

Lemma framed_retrieval_stage (userMessage : string) :
  framed (Server.retrieval_stage w userMessage).
Proof.
  unfold Server.retrieval_stage.
  destruct (_ && _); [|apply framed_ret].
  apply framed_try_catch; [|intros e; repeat framed_step].
  apply framed_bind; [apply framed_getEmbedding|intros q].
  repeat framed_step.
Qed.

(** Reading the history emits nothing: it returns the entries, or it
    throws a TypeError at the first [null] entry. *)
Lemma read_history_run (hs : list jsval) (tr : list event) :
  Server.read_history hs tr
  = (match Server.read_history hs [] with
     | (r, _) => r
     end, tr).
Proof.
  induction hs as [|h hs IH]; [reflexivity|].
  simpl. destruct (Server.entry_of h) as [e|]; [|reflexivity].
  unfold bind. rewrite IH.
  destruct (Server.read_history hs []) as [[es|x] tr0]; reflexivity.
Qed.

Lemma framed_read_history (hs : list jsval) : framed (Server.read_history hs).
Proof.
  intros tr. rewrite (read_history_run hs tr), (read_history_run hs []).
  destruct (Server.read_history hs []) as [r tr0]. reflexivity.
Qed.

Lemma read_history_silent (hs : list jsval) : snd (Server.read_history hs []) = [].
Proof. rewrite (read_history_run hs []). reflexivity. Qed.

Lemma framed_assemble (hs : list jsval) (userMessage : string) (topDocs : list ranked) :
  framed (Server.assemble w hs userMessage topDocs).
Proof.
  unfold Server.assemble.
  apply framed_bind; [apply framed_read_history|intros es]. apply framed_ret.
Qed.

Lemma framed_buffered_relay (messages : list message) :
  framed (Server.buffered_relay w messages).
Proof.
  unfold Server.buffered_relay, Server.callOpenAIChat.
  apply framed_try_catch; [|intros e; repeat framed_step].
  apply framed_bind; [apply framed_fetch|intros r].
  destruct (negb (ok r)); [repeat framed_step|].
  apply framed_bind; [apply framed_res_json|intros j].
  repeat framed_step.
Qed.

(** Every event of the moderation check is its own fetch or a log line. *)
Lemma runModerationCheck_emits (content : string) :
  emits_only is_moderation_event (Server.runModerationCheck w content).
Proof.
  unfold Server.runModerationCheck, Server.fetch, Server.res_json.
  repeat emits_step.
Qed.

(** The moderation check always returns a verdict: it never throws. *)
Lemma runModerationCheck_returns (content : string) (tr : list event) :
  exists v, fst (Server.runModerationCheck w content tr) = Ok v.
Proof.
  unfold Server.runModerationCheck, Server.fetch, Server.res_json,
    try_catch, bind, emit, ret, throw.
  destruct (Server.key_missing w); [eexists; reflexivity|].
  destruct (Server.moderations w) as [|r]; [eexists; reflexivity|].
  destruct (ok r); simpl; [|eexists; reflexivity].
  destruct (json r); eexists; reflexivity.
Qed.

End StageFacts.

Section MoreTraceFacts.
Import Json Store Ranking Prompt Effects.

Lemma emits_only_weaken (P Q : event -> bool) {A : Type} (c : M A) :
  (forall e, P e = true -> Q e = true) -> emits_only P c -> emits_only Q c.
Proof.
  intros HPQ Hc tr. destruct (Hc tr) as [evs [E F]]. exists evs. split; [exact E|].
  rewrite forallb_forall in *. auto.
Qed.

(** Sequencing, when something is known of the value the first part
    returns. *)
Lemma emits_only_bind_value (P : event -> bool) {A B : Type} (Q : A -> Prop)
    (c : M A) (k : A -> M B) :
  emits_only P c ->
  (forall tr a, fst (c tr) = Ok a -> Q a) ->
  (forall a, Q a -> emits_only P (k a)) ->
  emits_only P (bind c k).
Proof.
  intros Hc HQ Hk tr. unfold bind.
  destruct (Hc tr) as [evs [E F]]. specialize (HQ tr).
  destruct (c tr) as [[a|e] tr'] eqn:R; simpl in E; subst tr'.
  - destruct (Hk a (HQ a eq_refl) (evs ++ tr)%list) as [evs' [E' F']].
    exists (evs' ++ evs)%list. rewrite E', app_assoc, forallb_app, F, F'. auto.
  - exists evs. auto.
Qed.

Context {rt : Runtime} (w : Server.world).

Lemma read_history_emits (P : event -> bool) (hs : list jsval) :
  emits_only P (Server.read_history hs).
Proof.
  intros tr. exists []. rewrite (read_history_run hs tr). split; reflexivity.
Qed.

Lemma validate_is_validation_error (t : jsval) (v : string) :
  Server.validateMessageText t = Some v -> In v validation_errors.
Proof.
  unfold Server.validateMessageText, validation_errors.
  destruct t; try (intros H; injection H as <-; simpl; auto).
  destruct (JsString.is_empty s); [intros H; injection H as <-; simpl; auto|].
  destruct (Nat.eqb _ 0); [intros H; injection H as <-; simpl; auto|].
  destruct (_ <? _)%Z; [intros H; injection H as <-; simpl; auto|discriminate].
Qed.

Lemma validation_error_not_policy (v : string) :
  In v validation_errors -> String.eqb v Server.policy_message = false.
Proof.
  unfold validation_errors. simpl.
  intros [<-|[<-|[<-|[]]]]; reflexivity.
Qed.

Lemma moderation_failure_not_flagged :
  moderation_failure w ->
  forall content tr v,
    fst (Server.runModerationCheck w content tr) = Ok v -> Server.flagged v = false.
Proof.
  intros F content tr v.
  unfold Server.runModerationCheck, Server.fetch, Server.res_json,
    try_catch, bind, emit, ret, throw.
  destruct (Server.key_missing w) eqn:K; [intros H; injection H as <-; reflexivity|].
  destruct (Server.moderations w) as [|r] eqn:Mo; [intros H; injection H as <-; reflexivity|].
  destruct (ok r) eqn:O; simpl; [|intros H; injection H as <-; reflexivity].
  destruct (json r) as [j|] eqn:J; simpl; [|intros H; injection H as <-; reflexivity].
  intros H; injection H as <-. simpl.
  destruct F as [F|F|r' F1 F2|r' F1 F2|r' j' F1 F2 F3]; congruence.
Qed.

End MoreTraceFacts.

Section ModerationFacts.
Import Json Store Ranking Prompt Effects.
Context {rt : Runtime} (w : Server.world).

Lemma forallb_filter_nil {A : Type} (p q : A -> bool) (l : list A) :
  (forall x, p x = true -> q x = false) -> forallb p l = true -> filter q l = [].
Proof.
  intros Hpq. induction l as [|x l IH]; simpl; [reflexivity|].
  intros H. apply andb_prop in H as [Hx Hl]. rewrite (Hpq x Hx). auto.
Qed.

Lemma retrieval_stage_emits (P : event -> bool) (userMessage : string) :
  (forall input, P (Fetch (EmbeddingsReq input)) = true) ->
  (forall label args, P (ConsoleError label args) = true) ->
  emits_only P (Server.retrieval_stage w userMessage).
Proof.
  intros HF HC.
  unfold Server.retrieval_stage, Server.getEmbedding, Server.fetch, Server.res_json.
  destruct (_ && _); [|apply emits_only_ret].
  apply emits_only_try_catch.
  - apply emits_only_bind.
    + apply emits_only_bind; [|intros r].
      * apply emits_only_bind; [apply emits_only_emit, HF|intros _].
        destruct (Server.embeddings w); repeat emits_step.
      * repeat emits_step.
    + intros q. repeat emits_step.
  - intros e. apply emits_only_bind; [apply emits_only_emit, HC|intros _].
    apply emits_only_ret.
Qed.

Lemma assemble_emits (P : event -> bool) (hs : list jsval) (userMessage : string)
    (topDocs : list ranked) :
  emits_only P (Server.assemble w hs userMessage topDocs).
Proof.
  unfold Server.assemble.
  apply emits_only_bind; [apply read_history_emits|intros es]. apply emits_only_ret.
Qed.

Lemma buffered_relay_never_blocks (messages : list message) :
  emits_only not_policy_block (Server.buffered_relay w messages).
Proof.
  unfold Server.buffered_relay, Server.callOpenAIChat, Server.fetch, Server.res_json.
  repeat emits_step.
Qed.

(** A failed moderation call never blocks the request. *)
Lemma chat_never_blocks_on_failure (req_body : jsval) :
  moderation_failure w -> emits_only not_policy_block (Server.chat w req_body).
Proof.
  intros F. unfold Server.chat.
  destruct (Server.validateMessageText _) as [v|] eqn:V.
  - apply emits_only_emit. unfold not_policy_block. simpl.
    rewrite (validation_error_not_policy v (validate_is_validation_error _ _ V)).
    reflexivity.
  - apply emits_only_bind.
    + unfold Server.moderation_stage.
      apply emits_only_try_catch; [|intros e; repeat emits_step].
      apply emits_only_bind_value with (Q := fun v => Server.flagged v = false).
      * apply emits_only_weaken with (P := is_moderation_event);
          [|apply runModerationCheck_emits].
        intros [ [ | | ] | | | | | | | ]; simpl; intros H; try discriminate H; reflexivity.
      * intros tr v. apply moderation_failure_not_flagged. exact F.
      * intros v ->. apply emits_only_ret.
    + intros [|]; [apply emits_only_ret|].
      apply emits_only_bind; [apply retrieval_stage_emits; reflexivity|intros docs].
      apply emits_only_bind; [apply assemble_emits|intros ms].
      destruct (Server.key_missing w); [apply emits_only_emit; reflexivity|].
      apply buffered_relay_never_blocks.
Qed.

(** A flagged verdict ends the request at once. *)
Lemma chat_flagged_run (req_body : jsval) (v : Server.verdict) :
  Server.validateMessageText (VStr (Server.user_message req_body)) = None ->
  fst (Server.runModerationCheck w (Server.user_message req_body) []) = Ok v ->
  Server.flagged v = true ->
  Server.chat w req_body []
  = (Ok tt, Respond 400 (ErrorBody Server.policy_message)
            :: snd (Server.runModerationCheck w (Server.user_message req_body) [])).
Proof.
  intros V R Fl. unfold Server.chat. rewrite V.
  unfold bind at 1. unfold Server.moderation_stage, try_catch. unfold bind at 1.
  destruct (Server.runModerationCheck w (Server.user_message req_body) [])
    as [[v'|e] tr]; simpl in R; [|discriminate].
  injection R as ->. rewrite Fl. reflexivity.
Qed.

End ModerationFacts.



(* ===================================================================== *)
(** * The stages common to the two Express handlers *)
(* ===================================================================== *)

Section Pipeline.
Import Json Store Ranking Prompt Effects.
Local Open Scope js_scope.
Context {rt : Runtime} (w : Server.world).

Lemma chat_is_pipeline (req_body : jsval) :
  Server.chat w req_body = pipeline w (Server.buffered_relay w) req_body.
Proof. reflexivity. Qed.

Lemma chat_stream_is_pipeline (req_body : jsval) :
  Server.chat_stream w req_body
  = pipeline w (fun messages => Server.sse_headers ;;; Server.streaming_relay w messages)
             req_body.
Proof. reflexivity. Qed.

(** The moderation stage: the events of the check, then either nothing
    (the request goes on) or the policy answer (the handler returns). *)
Lemma moderation_stage_run (userMessage : string) :
  exists v tr,
    Server.runModerationCheck w userMessage [] = (Ok v, tr)
    /\ forallb is_moderation_event tr = true
    /\ Server.moderation_stage w userMessage []
       = if Server.flagged v
         then (Ok true, Respond 400 (ErrorBody Server.policy_message) :: tr)
         else (Ok false, tr).
Proof.
  destruct (runModerationCheck_returns w userMessage []) as [v Hv].
  destruct (runModerationCheck_emits w userMessage []) as [evs [E F]].
  rewrite app_nil_r in E.
  destruct (Server.runModerationCheck w userMessage []) as [r tr] eqn:R.
  simpl in Hv, E. subst r tr.
  exists v, evs. split; [reflexivity|]. split; [exact F|].
  unfold Server.moderation_stage, try_catch. unfold bind at 1. rewrite R.
  destruct (Server.flagged v); reflexivity.
Qed.

(** The retrieval stage always returns a list of documents: its
    failures are caught and leave the list empty. *)
Lemma retrieval_stage_run (userMessage : string) :
  exists docs tr,
    Server.retrieval_stage w userMessage [] = (Ok docs, tr)
    /\ forallb is_prelude_event tr = true.
Proof.
  destruct (retrieval_stage_emits w is_prelude_event userMessage
              (fun _ => eq_refl) (fun _ _ => eq_refl) []) as [evs [E F]].
  rewrite app_nil_r in E.
  assert (R : exists docs, fst (Server.retrieval_stage w userMessage []) = Ok docs).
  { unfold Server.retrieval_stage.
    destruct (_ && _); [|eexists; reflexivity].
    unfold try_catch.
    destruct (bind _ _ []) as [[docs|e] tr']; eexists; reflexivity. }
  destruct R as [docs R].
  destruct (Server.retrieval_stage w userMessage []) as [r tr]. simpl in *. subst.
  exists docs, evs. auto.
Qed.

Lemma moderation_is_prelude (tr : list event) :
  forallb is_moderation_event tr = true -> forallb is_prelude_event tr = true.
Proof.
  rewrite !forallb_forall. intros H e He. specialize (H e He).
  destruct e as [ [ | | ] | | | | | | | ]; simpl in *; congruence.
Qed.

Lemma read_history_cases (hs : list jsval) :
  (exists es, Server.read_history hs [] = (Ok es, []))
  \/ Server.read_history hs [] = (Throw TypeError, []).
Proof.
  induction hs as [|h hs IH]; [left; eexists; reflexivity|].
  simpl. destruct (Server.entry_of h) as [e|]; [|right; reflexivity].
  unfold bind. destruct IH as [[es ->]| ->]; [left; eexists; reflexivity|right; reflexivity].
Qed.

Lemma pipeline_cases (relay : list message -> M unit) (req_body : jsval) :
  pipeline_result w relay req_body (pipeline w relay req_body []).
Proof.
  unfold pipeline.
  destruct (Server.validateMessageText _) as [v|] eqn:V.
  - apply invalid_request. exact (validate_is_validation_error _ _ V).
  - destruct (moderation_stage_run (Server.user_message req_body)) as [v [tr1 [_ [F1 R1]]]].
    apply moderation_is_prelude in F1.
    unfold bind at 1. rewrite R1.
    destruct (Server.flagged v); [apply blocked_request; exact F1|].
    destruct (retrieval_stage_run (Server.user_message req_body)) as [docs [tr2 [R2 F2]]].
    rewrite (bind_framed_run _ _ docs (framed_retrieval_stage w _)) by (rewrite R2; reflexivity).
    rewrite R2. simpl snd.
    assert (F : forallb is_prelude_event (tr2 ++ tr1) = true)
      by (rewrite forallb_app, F1, F2; reflexivity).
    unfold Server.assemble, bind.
    rewrite read_history_run.
    destruct (read_history_cases (Server.client_history 20 req_body)) as [[es ->]| ->].
    + unfold ret. destruct (Server.key_missing w) eqn:K.
      * apply no_credential. exact F.
      * apply relayed; assumption.
    + apply broken_history. exact F.
Qed.

(** A request that passes every gate reaches the relay, with nothing in
    the trace but calls to the moderation and embeddings services and log
    lines. *)
Lemma pipeline_pass (relay : list message -> M unit) (req_body : jsval)
    (v : Server.verdict) (history : list hentry) :
  Server.validateMessageText (VStr (Server.user_message req_body)) = None ->
  completion (Server.runModerationCheck w (Server.user_message req_body)) = Ok v ->
  Server.flagged v = false ->
  completion (Server.read_history (Server.client_history 20 req_body)) = Ok history ->
  Server.key_missing w = false ->
  exists docs pre,
    forallb is_prelude_event pre = true
    /\ pipeline w relay req_body []
       = relay (buildMessagesWithRAG (Server.SYSTEM_PROMPT w) history
                  (Server.user_message req_body) docs) pre.
Proof.
  intros V Mo Fl H K. unfold pipeline. rewrite V.
  destruct (moderation_stage_run (Server.user_message req_body)) as [v' [tr1 [R0 [F1 R1]]]].
  unfold completion in Mo. rewrite R0 in Mo. simpl in Mo. injection Mo as ->.
  rewrite Fl in R1. apply moderation_is_prelude in F1.
  unfold bind at 1. rewrite R1.
  destruct (retrieval_stage_run (Server.user_message req_body)) as [docs [tr2 [R2 F2]]].
  rewrite (bind_framed_run _ _ docs (framed_retrieval_stage w _)) by (rewrite R2; reflexivity).
  rewrite R2. simpl snd.
  exists docs, (tr2 ++ tr1)%list. split; [rewrite forallb_app, F1, F2; reflexivity|].
  unfold Server.assemble, bind. rewrite read_history_run.
  unfold completion in H.
  destruct (Server.read_history _ []) as [r tr0]. simpl in H. subst r.
  unfold ret. rewrite K. reflexivity.
Qed.

End Pipeline.

(* ===================================================================== *)
(** * The buffered relay *)
(* ===================================================================== *)

Section BufferedRelay.
Import Json Store Ranking Prompt Effects.
Context {rt : Runtime} (w : Server.world).

Ltac relay_finish :=
  intros;
  unfold upstream_error_body, unexpected_shape_body, server_error_body in *;
  repeat match goal with
         | H : Resolves _ = Resolves _ |- _ => injection H as <-
         | H1 : json ?r = Some ?a, H2 : json ?r = Some ?b |- _ =>
             rewrite H1 in H2; injection H2 as <-
         end;
  try congruence;
  try match goal with
      | T : truthy (content_of ?d) = _, H : content_of ?d = VStr ?s |- _ =>
          rewrite H in T; destruct s; simpl in T; congruence
      end.

Ltac relay_cases :=
  unfold relay_contract, events, completion, Server.buffered_relay, NextApi.relay,
    Server.callOpenAIChat, Server.fetch, Server.res_json, try_catch, bind, emit, ret, throw;
  destruct (Server.completions w) as [|r] eqn:C; simpl;
  [ repeat split; try reflexivity; relay_finish
  | destruct (ok r) eqn:O; simpl;
    [ destruct (json r) as [data|] eqn:J; simpl;
      [ change (opt_key (opt_key (opt_first (opt_key data "choices")) "message") "content")
          with (content_of data);
        destruct (truthy (content_of data)) eqn:T; simpl;
        [ destruct (content_of data) as [| | b | f | s | xs | fs] eqn:Co; simpl;
          repeat split; try reflexivity; relay_finish
        | repeat split; try reflexivity; relay_finish ]
      | repeat split; try reflexivity; relay_finish ]
    | repeat split; try reflexivity; relay_finish ] ].

Lemma buffered_relay_contract (messages : list message) :
  relay_contract w (Server.buffered_relay w messages) messages
    "OpenAI chat error:" "OpenAI unexpected response shape:" "Error in /api/chat:".
Proof. relay_cases. Qed.

Lemma next_relay_contract (messages : list message) :
  relay_contract w (NextApi.relay w messages) messages
    "OpenAI API error:" "OpenAI returned unexpected response:" "API handler error:".
Proof. relay_cases. Qed.

End BufferedRelay.

Section EndpointFacts.
Import Json Store Ranking Prompt Effects.
Context {rt : Runtime} (w : Server.world).

Lemma prelude_has_no_respond (pre : list event) :
  forallb is_prelude_event pre = true -> filter is_respond (rev pre) = [].
Proof.
  intros F. apply (forallb_filter_nil is_prelude_event).
  - intros [ [ | | ] | | | | | | | ]; simpl; intros H; try discriminate H; reflexivity.
  - rewrite forallb_forall in *. intros e He. apply F. apply in_rev. exact He.
Qed.

Lemma prelude_has_no_completions_fetch (pre : list event) :
  forallb is_prelude_event pre = true -> filter is_completions_fetch (rev pre) = [].
Proof.
  intros F. apply (forallb_filter_nil is_prelude_event).
  - intros [ [ | | ] | | | | | | | ]; simpl; intros H; try discriminate H; reflexivity.
  - rewrite forallb_forall in *. intros e He. apply F. apply in_rev. exact He.
Qed.

Lemma filter_completions_of_fetches (l : list event) :
  filter is_completions_fetch l = filter is_completions_fetch (filter is_fetch l).
Proof.
  induction l as [|e l IH]; [reflexivity|].
  destruct e as [ [ | | ] | | | | | | | ]; simpl; rewrite <- ?IH; reflexivity.
Qed.

(** [POST /api/chat] answers at most once and calls the completions
    service at most once. *)
Lemma chat_single_response (req_body : jsval) :
  length (filter is_respond (events (Server.chat w req_body))) <= 1
  /\ length (filter is_completions_fetch (events (Server.chat w req_body))) <= 1.
Proof.
  rewrite chat_is_pipeline. unfold events.
  destruct (pipeline_cases w (Server.buffered_relay w) req_body)
    as [v Hv|pre F|pre F|pre F|pre messages F K].
  - simpl. lia.
  - simpl. rewrite !filter_app, prelude_has_no_respond,
      prelude_has_no_completions_fetch by assumption. simpl. lia.
  - simpl. rewrite prelude_has_no_respond, prelude_has_no_completions_fetch by assumption.
    simpl. lia.
  - simpl. rewrite !filter_app, prelude_has_no_respond,
      prelude_has_no_completions_fetch by assumption. simpl. lia.
  - rewrite (framed_buffered_relay w messages pre). simpl snd.
    rewrite rev_app_distr, !filter_app, prelude_has_no_respond,
      prelude_has_no_completions_fetch by assumption. simpl.
    destruct (buffered_relay_contract w messages) as (_ & Hf & Hr & _).
    unfold events in Hf, Hr. rewrite Hr.
    rewrite filter_completions_of_fetches, Hf. simpl. lia.
Qed.

(** The Next.js route answers at most once and calls the completions
    service at most once. *)
Lemma next_single_response (method : string) (req_body : jsval) :
  length (filter is_respond (events (NextApi.handler w method req_body))) <= 1
  /\ length (filter is_completions_fetch (events (NextApi.handler w method req_body))) <= 1.
Proof.
  unfold NextApi.handler, events.
  destruct (negb (String.eqb method "POST")); [simpl; lia|].
  destruct (Server.key_missing w); [simpl; lia|].
  destruct (_ || _); [simpl; lia|].
  destruct (_ <? _)%Z; [simpl; lia|].
  unfold bind.
  destruct (read_history_cases (Server.client_history 10 req_body)) as [[es ->]| ->];
    [|simpl; lia].
  destruct (next_relay_contract w (NextApi.messages_of w es (Server.user_message req_body)))
    as (_ & Hf & Hr & _).
  unfold events in Hf, Hr. rewrite Hr.
  rewrite filter_completions_of_fetches, Hf. simpl. lia.
Qed.

End EndpointFacts.

Section TrimFacts.
Import JsString.

Lemma trim_start_split (s : string) :
  exists before,
    s = before ++ trim_start s
    /\ all_ws before = true /\ starts_with_ws (trim_start s) = false.
Proof.
  induction s as [|c r (before & E & A & S)]; [exists EmptyString; repeat split|].
  cbn [trim_start]. destruct (is_ws c) eqn:W.
  - exists (String c before). cbn [append all_ws]. rewrite <- E, W, A. repeat split. exact S.
  - exists EmptyString. cbn [append all_ws starts_with_ws]. repeat split. exact W.
Qed.

Lemma trim_end_split (t : string) :
  exists after,
    t = trim_end t ++ after
    /\ all_ws after = true /\ ends_with_ws (trim_end t) = false.
Proof.
  induction t as [|c r (after & E & A & S)]; [exists EmptyString; repeat split|].
  cbn [trim_end]. destruct (is_ws c && is_empty (trim_end r)) eqn:W.
  - apply andb_true_iff in W as [Wc We].
    destruct (trim_end r) as [|c' r'] eqn:T; [|discriminate We].
    cbn [append] in E. subst r.
    exists (String c after). cbn [append all_ws]. rewrite Wc, A. repeat split.
  - exists after. cbn [append]. rewrite <- E. split; [reflexivity|]. split; [exact A|].
    destruct (trim_end r) as [|c' r'] eqn:T.
    + cbn [ends_with_ws]. cbn [is_empty] in W. rewrite andb_true_r in W. exact W.
    + exact S.
Qed.

Lemma trim_end_keeps_head (t : string) :
  starts_with_ws t = false -> starts_with_ws (trim_end t) = false.
Proof.
  destruct t as [|c r]; [reflexivity|]. cbn [starts_with_ws trim_end]. intros W.
  rewrite W. cbn [andb starts_with_ws]. exact W.
Qed.

(** [trim] removes the surrounding white space, and nothing else. *)
Lemma trim_is_trimmed (s : string) : trimmed_of s (trim s).
Proof.
  destruct (trim_start_split s) as (before & E1 & A1 & S1).
  destruct (trim_end_split (trim_start s)) as (after & E2 & A2 & S2).
  exists before, after. unfold trim.
  split; [rewrite <- E2; exact E1|].
  split; [exact A1|]. split; [exact A2|].
  split; [apply trim_end_keeps_head; exact S1|exact S2].
Qed.

End TrimFacts.

Section RelayOnOtherContents.
Import Json Store Ranking Prompt Effects.
Local Open Scope js_scope.
Context {rt : Runtime} (w : Server.world).

(** A content that is truthy and not a string has no [trim]: the call
    throws inside the [try] block, and the answer is that of an
    exception. *)
Lemma relay_content_not_a_string (messages : list message) (r : response) (data : jsval) :
  Server.completions w = Resolves r -> ok r = true -> json r = Some data ->
  truthy (content_of data) = true -> (forall s, content_of data <> VStr s) ->
  events (Server.buffered_relay w messages)
  = [Fetch (CompletionsReq messages false);
     ConsoleError "Error in /api/chat:" [LExn TypeError];
     Respond 500 server_error_body]
  /\ events (NextApi.relay w messages)
     = [Fetch (CompletionsReq messages false);
        ConsoleError "API handler error:" [LExn TypeError];
        Respond 500 server_error_body].
Proof.
  intros C O J T N.
  unfold events, Server.buffered_relay, NextApi.relay, Server.callOpenAIChat, Server.fetch,
    Server.res_json, try_catch, bind, emit, ret, throw.
  rewrite C. cbn. rewrite O. cbn. rewrite J. cbn.
  change (opt_key (opt_key (opt_first (opt_key data "choices")) "message") "content")
    with (content_of data).
  rewrite T. cbn.
  destruct (content_of data) as [| | b | f | s | xs | fs] eqn:Co;
    try (split; reflexivity).
  exfalso. exact (N s eq_refl).
Qed.

End RelayOnOtherContents.




(* ===================================================================== *)
(** * What the handlers can emit *)
(* ===================================================================== *)

Section EmissionFacts.
Import Json Store Ranking Prompt Effects.
Local Open Scope js_scope.
Context {rt : Runtime} (w : Server.world).
Variable P : event -> bool.

Lemma res_write_emits (data : string) :
  P (Write data) = true -> emits_only P (Server.res_write w data).
Proof.
  intros H tr. unfold Server.res_write.
  destruct (Server.write_throws w (rev tr)).
  - exists []. split; reflexivity.
  - exists [Write data]. split; [reflexivity|]. simpl. rewrite H. reflexivity.
Qed.

Lemma res_end_emits : P EndResponse = true -> emits_only P (Server.res_end w).
Proof.
  intros H tr. unfold Server.res_end.
  destruct (Server.write_throws w (rev tr)).
  - exists []. split; reflexivity.
  - exists [EndResponse]. split; [reflexivity|]. simpl. rewrite H. reflexivity.
Qed.

Hypothesis P_write : forall data, P (Write data) = true.
Hypothesis P_end : P EndResponse = true.
Hypothesis P_error : forall label args, P (ConsoleError label args) = true.

Lemma forward_lines_emits (lines : list string) :
  emits_only P (Server.forward_lines w lines).
Proof.
  induction lines as [|line rest IH]; [apply emits_only_ret|].
  simpl. apply emits_only_bind; [|intros _; exact IH].
  unfold Server.forward_line.
  destruct (JsString.is_empty _); [apply emits_only_ret|].
  destruct (JsString.startsWith _ _); apply res_write_emits, P_write.
Qed.

Lemma read_loop_emits (pending : list string) (clean : bool) :
  emits_only P (Server.read_loop w pending clean).
Proof.
  induction pending as [|chunk rest IH]; simpl.
  - destruct clean; [apply emits_only_ret|apply emits_only_throw].
  - apply emits_only_bind; [apply forward_lines_emits|intros _; exact IH].
Qed.

Lemma streaming_relay_emits (messages : list message) :
  P (Fetch (CompletionsReq messages true)) = true ->
  emits_only P (Server.streaming_relay w messages).
Proof.
  intros HF. unfold Server.streaming_relay.
  apply emits_only_try_catch.
  - apply emits_only_bind.
    + unfold Server.fetch. apply emits_only_bind; [apply emits_only_emit, HF|intros _].
      destruct (Server.completions w); [apply emits_only_throw|apply emits_only_ret].
    + intros r.
      assert (E : emits_only P
                    (emit (ConsoleError "OpenAI streaming error:"
                             [LNum (status r); LText (Server.text_or_empty r)]) ;;;
                     Server.res_write w (Server.sse_error "Error en streaming desde OpenAI") ;;;
                     Server.res_end w)).
      { apply emits_only_bind; [apply emits_only_emit, P_error|intros _].
        apply emits_only_bind; [apply res_write_emits, P_write|intros _].
        apply res_end_emits, P_end. }
      destruct (ok r); [|exact E].
      destruct (body r) as [b|]; [|exact E].
      apply emits_only_bind; [apply read_loop_emits|intros _].
      apply emits_only_bind; [apply res_write_emits, P_write|intros _].
      apply res_end_emits, P_end.
  - intros e.
    apply emits_only_bind; [apply emits_only_emit, P_error|intros _].
    apply emits_only_try_catch; [|intros _; apply emits_only_ret].
    apply emits_only_bind; [apply res_write_emits, P_write|intros _].
    apply res_end_emits, P_end.
Qed.

End EmissionFacts.

Section PipelineEmission.
Import Json Store Ranking Prompt Effects.
Local Open Scope js_scope.
Context {rt : Runtime} (w : Server.world).
Variable P : event -> bool.
Hypothesis P_respond : forall code b, P (Respond code b) = true.
Hypothesis P_moderation : forall input, P (Fetch (ModerationsReq input)) = true.
Hypothesis P_error : forall label args, P (ConsoleError label args) = true.
Hypothesis P_warn : forall label args, P (ConsoleWarn label args) = true.

Lemma moderation_stage_emits (userMessage : string) :
  emits_only P (Server.moderation_stage w userMessage).
Proof.
  unfold Server.moderation_stage, Server.runModerationCheck, Server.fetch, Server.res_json.
  apply emits_only_try_catch.
  - apply emits_only_bind.
    + destruct (Server.key_missing w); [apply emits_only_ret|].
      apply emits_only_try_catch.
      * apply emits_only_bind.
        -- apply emits_only_bind; [apply emits_only_emit, P_moderation|intros _].
           destruct (Server.moderations w); [apply emits_only_throw|apply emits_only_ret].
        -- intros r. destruct (negb (ok r)).
           ++ apply emits_only_bind; [apply emits_only_emit, P_error|intros _].
              apply emits_only_ret.
           ++ apply emits_only_bind; [|intros j; apply emits_only_ret].
              destruct (json r); [apply emits_only_ret|apply emits_only_throw].
      * intros e. apply emits_only_bind; [apply emits_only_emit, P_error|intros _].
        apply emits_only_ret.
    + intros v. destruct (Server.flagged v); [|apply emits_only_ret].
      apply emits_only_bind; [apply emits_only_emit, P_respond|intros _].
      apply emits_only_ret.
  - intros e. apply emits_only_bind; [apply emits_only_emit, P_warn|intros _].
    apply emits_only_ret.
Qed.

Lemma pipeline_emits (relay : list message -> M unit) (req_body : jsval) :
  emits_only P (Server.retrieval_stage w (Server.user_message req_body)) ->
  (forall messages, emits_only P (relay messages)) ->
  emits_only P (pipeline w relay req_body).
Proof.
  intros HR Hrelay. unfold pipeline.
  destruct (Server.validateMessageText _); [apply emits_only_emit, P_respond|].
  apply emits_only_bind; [apply moderation_stage_emits|intros [|]];
    [apply emits_only_ret|].
  apply emits_only_bind; [exact HR|intros docs].
  apply emits_only_bind; [apply assemble_emits|intros ms].
  destruct (Server.key_missing w); [apply emits_only_emit, P_respond|].
  apply Hrelay.
Qed.

End PipelineEmission.

(* ===================================================================== *)
(** * The embedding store *)
(* ===================================================================== *)

Section StoreFacts.
Import Json Store Ranking Prompt Effects.
Local Open Scope js_scope.

Lemma map_records_null (vs : list jsval) : In VNull vs -> map_records vs = None.
Proof.
  induction vs as [|v vs IH]; [intros []|].
  intros [->|H]; [reflexivity|].
  simpl. destruct (record_of v); [|reflexivity]. rewrite (IH H). reflexivity.
Qed.

Lemma map_records_all (vs : list jsval) :
  forallb (fun v => negb (nullish v)) vs = true ->
  map_records vs = Some (map fields_of vs).
Proof.
  induction vs as [|v vs IH]; [reflexivity|].
  simpl. intros H. apply andb_prop in H as [Hv Hvs].
  rewrite (IH Hvs). destruct v; try discriminate Hv; reflexivity.
Qed.

Lemma load_rejected (enabled : bool) (src : source) :
  rejected_source src -> load enabled src = ([], if enabled
                                                  then match src with
                                                       | Parsed (VArr _) | Unreadable | Unparsable =>
                                                           [WarnNotFoundOrInvalid]
                                                       | Parsed _ => [WarnNotAnArray]
                                                       end
                                                  else []).
Proof.
  intros R. unfold load. destruct enabled; [|reflexivity].
  destruct R as [| |j Hj|vs Hvs]; try reflexivity.
  - destruct j; try reflexivity. exfalso. exact (Hj xs eq_refl).
  - rewrite (map_records_null vs Hvs). reflexivity.
Qed.

Context {rt : Runtime} (w : Server.world).

Lemma retrieval_disabled (userMessage : string) :
  Server.RAG_VECTORS w = [] -> Server.retrieval_stage w userMessage = ret [].
Proof.
  intros E. unfold Server.retrieval_stage. rewrite E. simpl.
  rewrite andb_false_r. reflexivity.
Qed.

Lemma empty_store_no_retrieval (relay : list message -> M unit) (req_body : jsval) :
  Server.RAG_VECTORS w = [] ->
  (forall messages, emits_only not_embeddings_fetch (relay messages)) ->
  filter is_embeddings_fetch (events (pipeline w relay req_body)) = [].
Proof.
  intros E Hrelay. apply forallb_negb_filter.
  apply (emits_only_events not_embeddings_fetch).
  apply pipeline_emits; try reflexivity.
  - rewrite (retrieval_disabled _ E). apply emits_only_ret.
  - exact Hrelay.
Qed.

End StoreFacts.

(** C9, as the code has it.  The startup block never fails.  A source
    that cannot be read, that is not JSON, that is not an array, or that
    holds a [null] record leaves the store empty: the load is turned down
    as a whole, not record by record.  No field is checked: when every
    element of the array is a non-null value, each one becomes a record
    with the [id], [text] and [embedding] it has, [undefined] for those it
    lacks.  With retrieval disabled the store is empty too.  And with an
    empty store neither Express handler ever calls the embeddings service,
    whatever the request. *)
Theorem C9_load_all_or_nothing_and_empty_store_disables_retrieval :
  forall (enabled : bool) (src : Store.source),
    (exists store logs, Store.load enabled src = (store, logs))
    /\ (rejected_source src -> fst (Store.load enabled src) = [])
    /\ (enabled = false -> Store.load enabled src = ([], []))
    /\ (forall vs,
          src = Store.Parsed (Json.VArr vs) -> enabled = true ->
          forallb (fun v => negb (Json.nullish v)) vs = true ->
          Store.load enabled src = (map fields_of vs, [Store.LogLoaded (length vs)]))
    /\ (forall (rt : Json.Runtime) (w : Server.world) (req_body : Json.jsval),
          Server.RAG_VECTORS w = fst (Store.load enabled src) ->
          fst (Store.load enabled src) = [] ->
          filter is_embeddings_fetch (Effects.events (Server.chat w req_body)) = []
          /\ filter is_embeddings_fetch (Effects.events (Server.chat_stream w req_body)) = []).
Proof.
  intros enabled src. split; [|split; [|split; [|split]]].
  - destruct (Store.load enabled src) as [store logs]. exists store, logs. reflexivity.
  - intros R. rewrite (load_rejected enabled src R). reflexivity.
  - intros ->. reflexivity.
  - intros vs -> -> H. unfold Store.load. rewrite (map_records_all vs H).
    rewrite length_map. reflexivity.
  - intros rt w req_body E1 E2. rewrite E2 in E1. split.
    + rewrite chat_is_pipeline. apply empty_store_no_retrieval; [exact E1|].
      intros ms.
      unfold Server.buffered_relay, Server.callOpenAIChat, Server.fetch, Server.res_json.
      repeat emits_step.
    + rewrite chat_stream_is_pipeline. apply empty_store_no_retrieval; [exact E1|].
      intros ms. apply emits_only_bind.
      * unfold Server.sse_headers. repeat emits_step.
      * intros _. apply streaming_relay_emits; reflexivity.
Qed.

(** A source that is missing: the store is empty and a request is
    served without any retrieval call. *)
Lemma C9_witness_missing_file :
  fst (Store.load true Store.Unreadable) = []
  /\ filter is_embeddings_fetch
       (Effects.events (Server.chat (rt := Samples.runtime) Samples.world
                          (Samples.body_with_message (Json.VStr "hola")))) = [].
Proof.
  destruct (C9_load_all_or_nothing_and_empty_store_disables_retrieval true Store.Unreadable)
    as (_ & H1 & _ & _ & H2).
  split.
  - apply H1. constructor.
  - apply (H2 Samples.runtime Samples.world); reflexivity.
Defined.

(** C9 as stated fails on a record without text and without vector: the
    load is not turned down, the record enters the store as it is. *)
Lemma C9_counterexample_record_without_text_and_vector :
  Store.load true (Store.Parsed (Json.VArr [Json.VObj [("id", Json.VStr "doc-1")]]))
  = ([ {| Store.id := Json.VStr "doc-1";
          Store.text := Json.VUndefined;
          Store.embedding := Json.VUndefined |} ],
     [Store.LogLoaded 1]).
Proof. unfold Store.load. simpl. reflexivity. Qed.

(* ===================================================================== *)
(** * Lines of a chunk and lines of the whole stream *)
(* ===================================================================== *)

Section LineFacts.
Import JsString.

Lemma append_assoc (a b c : string) : (a ++ b) ++ c = a ++ (b ++ c).
Proof. induction a as [|x a IH]; simpl; [reflexivity|]. rewrite IH. reflexivity. Qed.

Lemma startsWith_LF_app (r d : string) :
  startsWith ((r ++ LFs) ++ d) LFs = startsWith (r ++ LFs) LFs.
Proof.
  unfold startsWith, LFs. destruct r as [|a r]; cbn [append prefix].
  - destruct (ascii_dec LF LF); [|reflexivity]. destruct d; reflexivity.
  - destruct (ascii_dec LF a); [|reflexivity].
    destruct ((r ++ String LF "") ++ d), (r ++ String LF ""); reflexivity.
Qed.

(** Splitting a text that continues after a line feed: the pieces
    before that line feed, then the pieces of the continuation. *)
Lemma split_lines_after_LF (s d : string) :
  exists l ls,
    split_lines (s ++ LFs) = (l :: ls ++ [EmptyString])%list
    /\ split_lines ((s ++ LFs) ++ d) = (l :: ls ++ split_lines d)%list.
Proof.
  induction s as [|c r IH].
  - exists EmptyString, []. split; reflexivity.
  - destruct IH as [l [ls [E1 E2]]].
    change ((String c r ++ LFs) ++ d) with (String c ((r ++ LFs) ++ d)).
    change (String c r ++ LFs) with (String c (r ++ LFs)).
    cbn [split_lines]. change (String LF EmptyString) with LFs.
    destruct (Ascii.eqb c LF).
    + exists EmptyString, (l :: ls). rewrite E1, E2. split; reflexivity.
    + rewrite startsWith_LF_app.
      destruct (Ascii.eqb c CR && startsWith (r ++ LFs) LFs).
      * exists l, ls. split; assumption.
      * rewrite E1, E2. exists (String c l), ls. split; reflexivity.
Qed.

Lemma is_empty_blank (line : string) : is_empty line = true -> non_blank line = false.
Proof. destruct line; [reflexivity|discriminate]. Qed.

(** Dropping the empty pieces first changes nothing for the loop, which
    skips the blank ones. *)
Lemma non_blank_filter_Boolean (lines : list string) :
  filter non_blank (filter_Boolean lines) = filter non_blank lines.
Proof.
  unfold filter_Boolean. induction lines as [|l ls IH]; [reflexivity|].
  simpl. destruct (is_empty l) eqn:E; simpl.
  - rewrite (is_empty_blank l E). exact IH.
  - rewrite IH. reflexivity.
Qed.

(** When every chunk ends at a line boundary, the lines forwarded chunk
    by chunk are the lines of the whole text. *)
Lemma forwarded_lines_of_aligned_chunks (chunks : list string) :
  Forall ends_at_line_boundary chunks ->
  filter non_blank (flat_map Server.lines_of_chunk chunks)
  = filter non_blank (split_lines (whole_text chunks)).
Proof.
  induction 1 as [|c chunks Hc _ IH]; [reflexivity|].
  cbn [flat_map whole_text fold_right].
  rewrite filter_app, IH. unfold Server.lines_of_chunk.
  rewrite non_blank_filter_Boolean.
  destruct Hc as [->|[s ->]]; [reflexivity|].
  destruct (split_lines_after_LF s (whole_text chunks)) as [l [ls [E1 E2]]].
  unfold whole_text in E2. rewrite E1, E2.
  rewrite !app_comm_cons, !filter_app. simpl. rewrite app_nil_r. reflexivity.
Qed.

End LineFacts.

(* ===================================================================== *)
(** * The streaming relay *)
(* ===================================================================== *)

Section StreamFacts.
Import Json Store Ranking Prompt Effects.
Local Open Scope js_scope.
Context {rt : Runtime} (w : Server.world).

Lemma try_catch_returns {A : Type} (c : M A) (h : exn -> M A) :
  (forall e tr, exists a, fst (h e tr) = Ok a) ->
  forall tr, exists a, fst (try_catch c h tr) = Ok a.
Proof.
  intros Hh tr. unfold try_catch.
  destruct (c tr) as [[a|e] tr']; [exists a; reflexivity|apply Hh].
Qed.

(** The streaming relay never throws, and after its call to the
    completions service it only logs, writes and ends. *)
Lemma streaming_relay_shape (messages : list message) (tr : list event) :
  exists post,
    forallb is_stream_event post = true
    /\ Server.streaming_relay w messages tr
       = (Ok tt, (post ++ Fetch (CompletionsReq messages true) :: tr)%list).
Proof.
  unfold Server.streaming_relay, Server.fetch.
  match goal with
  | |- context [try_catch (bind (bind (emit ?e) (fun _ => ?X)) ?k) ?h tr] =>
      change (try_catch (bind (bind (emit e) (fun _ => X)) k) h tr)
        with (try_catch (bind X k) h (e :: tr));
      assert (E : emits_only is_stream_event (try_catch (bind X k) h));
      [|assert (R : exists a, fst (try_catch (bind X k) h (e :: tr)) = Ok a);
        [|destruct (E (e :: tr)) as [post [Es Fs]];
          destruct R as [[] R];
          destruct (try_catch (bind X k) h (e :: tr)) as [res tr'];
          simpl in Es, R; subst; exists post; split; [exact Fs|reflexivity]]]
  end.
  - apply emits_only_try_catch.
    + apply emits_only_bind.
      * destruct (Server.completions w); [apply emits_only_throw|apply emits_only_ret].
      * intros r.
        destruct (ok r); [destruct (body r) as [b|]|].
        -- apply emits_only_bind;
             [apply read_loop_emits; reflexivity|intros _].
           apply emits_only_bind; [apply res_write_emits; reflexivity|intros _].
           apply res_end_emits; reflexivity.
        -- apply emits_only_bind; [apply emits_only_emit; reflexivity|intros _].
           apply emits_only_bind; [apply res_write_emits; reflexivity|intros _].
           apply res_end_emits; reflexivity.
        -- apply emits_only_bind; [apply emits_only_emit; reflexivity|intros _].
           apply emits_only_bind; [apply res_write_emits; reflexivity|intros _].
           apply res_end_emits; reflexivity.
    + intros e.
      apply emits_only_bind; [apply emits_only_emit; reflexivity|intros _].
      apply emits_only_try_catch; [|intros _; apply emits_only_ret].
      apply emits_only_bind; [apply res_write_emits; reflexivity|intros _].
      apply res_end_emits; reflexivity.
  - apply try_catch_returns. intros e tr0.
    unfold bind at 1. unfold emit at 1.
    apply try_catch_returns. intros e' tr1. exists tt. reflexivity.
Qed.

Hypothesis healthy : forall tr, Server.write_throws w tr = false.

Lemma res_write_run (data : string) (tr : list event) :
  Server.res_write w data tr = (Ok tt, Write data :: tr).
Proof. unfold Server.res_write. rewrite healthy. reflexivity. Qed.

Lemma res_end_run (tr : list event) : Server.res_end w tr = (Ok tt, EndResponse :: tr).
Proof. unfold Server.res_end. rewrite healthy. reflexivity. Qed.

Lemma frames_of_app (a b : list string) :
  frames_of (a ++ b) = (frames_of a ++ frames_of b)%list.
Proof. unfold frames_of. rewrite filter_app, map_app. reflexivity. Qed.

Lemma forward_line_run (line : string) (tr : list event) :
  Server.forward_line w line tr
  = (Ok tt, ((if non_blank line then [Write (frame_of line)] else []) ++ tr)%list).
Proof.
  unfold Server.forward_line, non_blank, frame_of, JsString.strip_data_prefix.
  destruct (JsString.is_empty (JsString.trim line)); [reflexivity|].
  destruct (JsString.startsWith line "data:"); rewrite res_write_run; reflexivity.
Qed.

Lemma forward_lines_run (lines : list string) (tr : list event) :
  Server.forward_lines w lines tr
  = (Ok tt, (rev (map Write (frames_of lines)) ++ tr)%list).
Proof.
  revert tr. induction lines as [|line rest IH]; intros tr; [reflexivity|].
  cbn [Server.forward_lines]. unfold bind. rewrite forward_line_run, IH.
  unfold frames_of. cbn [filter].
  destruct (non_blank line); [|reflexivity].
  cbn [map rev]. rewrite <- app_assoc. reflexivity.
Qed.

Lemma read_loop_run (pending : list string) (clean : bool) (tr : list event) :
  Server.read_loop w pending clean tr
  = (if clean then Ok tt else Throw ReadRejected,
     (rev (map Write (frames_of (flat_map Server.lines_of_chunk pending))) ++ tr)%list).
Proof.
  revert tr. induction pending as [|chunk rest IH]; intros tr.
  - destruct clean; reflexivity.
  - cbn [Server.read_loop flat_map]. unfold bind.
    rewrite forward_lines_run, IH, frames_of_app, map_app, rev_app_distr, <- app_assoc.
    reflexivity.
Qed.

(** The runs of the streaming relay over a connection that takes every
    write. *)
Lemma streaming_relay_clean (messages : list message) (r : response) (b : upstream_body)
    (tr : list event) :
  Server.completions w = Resolves r -> ok r = true -> body r = Some b ->
  closes_cleanly b = true ->
  Server.streaming_relay w messages tr
  = (Ok tt,
     (rev (Fetch (CompletionsReq messages true)
           :: map Write (frames_of (flat_map Server.lines_of_chunk (chunks b)))
           ++ [Write Server.sse_done; EndResponse]) ++ tr)%list).
Proof.
  intros C O B Cl.
  unfold Server.streaming_relay, Server.fetch, try_catch, bind, emit, ret.
  rewrite C, O, B, read_loop_run, Cl, res_write_run, res_end_run.
  cbn [rev]. rewrite rev_app_distr. cbn [rev app]. rewrite <- !app_assoc. reflexivity.
Qed.

Lemma streaming_relay_dropped (messages : list message) (r : response) (b : upstream_body)
    (tr : list event) :
  Server.completions w = Resolves r -> ok r = true -> body r = Some b ->
  closes_cleanly b = false ->
  Server.streaming_relay w messages tr
  = (Ok tt,
     (rev (Fetch (CompletionsReq messages true)
           :: map Write (frames_of (flat_map Server.lines_of_chunk (chunks b)))
           ++ [ConsoleError "Streaming endpoint error:" [LExn ReadRejected];
               Write (Server.sse_error "Error en el servidor durante el streaming.");
               EndResponse]) ++ tr)%list).
Proof.
  intros C O B Cl.
  unfold Server.streaming_relay, Server.fetch, try_catch, bind, emit, ret.
  rewrite C, O, B, read_loop_run, Cl, res_write_run, res_end_run.
  cbn [rev]. rewrite rev_app_distr. cbn [rev app]. rewrite <- !app_assoc. reflexivity.
Qed.

Lemma streaming_relay_refused (messages : list message) (r : response) (tr : list event) :
  Server.completions w = Resolves r ->
  (ok r = false \/ body r = None) ->
  Server.streaming_relay w messages tr
  = (Ok tt,
     (rev [Fetch (CompletionsReq messages true);
           ConsoleError "OpenAI streaming error:"
             [LNum (status r); LText (Server.text_or_empty r)];
           Write (Server.sse_error "Error en streaming desde OpenAI");
           EndResponse] ++ tr)%list).
Proof.
  intros C H.
  unfold Server.streaming_relay, Server.fetch, try_catch, bind, emit, ret.
  rewrite C.
  destruct H as [O|B].
  - rewrite O, res_write_run, res_end_run. reflexivity.
  - rewrite B. destruct (ok r); rewrite res_write_run, res_end_run; reflexivity.
Qed.

Lemma streaming_relay_unreachable (messages : list message) (tr : list event) :
  Server.completions w = Rejects ->
  Server.streaming_relay w messages tr
  = (Ok tt,
     (rev [Fetch (CompletionsReq messages true);
           ConsoleError "Streaming endpoint error:" [LExn FetchRejected];
           Write (Server.sse_error "Error en el servidor durante el streaming.");
           EndResponse] ++ tr)%list).
Proof.
  intros C.
  unfold Server.streaming_relay, Server.fetch, try_catch, bind, emit, ret, throw.
  rewrite C, res_write_run, res_end_run. reflexivity.
Qed.

End StreamFacts.

Section StreamEndpoint.
Import Json Store Ranking Prompt Effects.
Local Open Scope js_scope.
Context {rt : Runtime} (w : Server.world).

Lemma prelude_status (pre rest : list event) :
  forallb is_prelude_event pre = true -> http_status (pre ++ rest) = http_status rest.
Proof.
  induction pre as [|e pre IH]; [reflexivity|].
  simpl. intros H. apply andb_prop in H as [He Hp].
  destruct e as [ [ | | ] | | | | | | | ]; simpl in He; try discriminate He; auto.
Qed.

Lemma stream_events_no_respond (post : list event) :
  forallb is_stream_event post = true -> filter is_respond post = [].
Proof.
  apply forallb_filter_nil.
  intros [ [ | | ] | | | | | | | ]; simpl; intros H; try discriminate H; reflexivity.
Qed.

Lemma prelude_no_respond (pre : list event) :
  forallb is_prelude_event pre = true -> filter is_respond pre = [].
Proof.
  apply forallb_filter_nil.
  intros [ [ | | ] | | | | | | | ]; simpl; intros H; try discriminate H; reflexivity.
Qed.

Lemma forallb_rev {A : Type} (p : A -> bool) (l : list A) :
  forallb p (rev l) = forallb p l.
Proof.
  induction l as [|x l IH]; [reflexivity|].
  simpl. rewrite forallb_app, IH. simpl. rewrite andb_true_r. apply andb_comm.
Qed.

Lemma frame_is_not_error_event (line : string) :
  is_error_event (Write (frame_of line)) = false.
Proof.
  unfold frame_of, Server.sse_frame.
  destruct (JsString.startsWith line "data:"); reflexivity.
Qed.

Lemma frames_hold_no_error_event (lines : list string) :
  filter is_error_event (map Write (frames_of lines)) = [].
Proof.
  unfold frames_of. induction (filter non_blank lines) as [|l ls IH]; [reflexivity|].
  cbn [map filter]. rewrite frame_is_not_error_event. exact IH.
Qed.

(** Past the gates, the streaming handler is the streaming relay run
    after the header events. *)
Lemma chat_stream_pass (req_body : jsval) (history : list hentry) :
  passes_gates w req_body history ->
  exists docs pre,
    forallb is_prelude_event pre = true
    /\ Server.chat_stream w req_body []
       = Server.streaming_relay w
           (buildMessagesWithRAG (Server.SYSTEM_PROMPT w) history
              (Server.user_message req_body) docs)
           (rev sse_header_events ++ rev pre)%list.
Proof.
  intros (V & (v & Mo & Fl) & H & K).
  destruct (pipeline_pass w (fun ms => Server.sse_headers ;;; Server.streaming_relay w ms)
              req_body v history V Mo Fl H K) as [docs [pre [F R]]].
  exists docs, (rev pre). split; [rewrite forallb_rev; exact F|].
  rewrite chat_stream_is_pipeline, R, rev_involutive. reflexivity.
Qed.

End StreamEndpoint.

Section StreamCommitment.
Import Json Store Ranking Prompt Effects.
Local Open Scope js_scope.
Context {rt : Runtime} (w : Server.world).

Lemma same_run_same_post (messages : list message) (tr post_rev rest : list event) :
  Server.streaming_relay w messages tr
    = (Ok tt, (post_rev ++ Fetch (CompletionsReq messages true) :: tr)%list) ->
  Server.streaming_relay w messages tr
    = (Ok tt, (rev (Fetch (CompletionsReq messages true) :: rest) ++ tr)%list) ->
  rev post_rev = rest.
Proof.
  intros E1 E2. rewrite E1 in E2. injection E2 as E.
  cbn [rev] in E. rewrite <- app_assoc in E. cbn [app] in E.
  apply app_inv_tail in E. subst post_rev. apply rev_involutive.
Qed.

Lemma last_three {A : Type} (l : list A) (a b c d : A) :
  last (l ++ [a; b; c]) d = c.
Proof.
  change [a; b; c] with ([a; b] ++ [c])%list. rewrite app_assoc. apply last_last.
Qed.


End StreamCommitment.


Section StreamForwarding.
Import Json Store Ranking Prompt Effects.
Local Open Scope js_scope.
Context {rt : Runtime} (w : Server.world).


End StreamForwarding.

Lemma sample_gates (w : Server.world) :
  Server.OPENAI_KEY w = Some "sk-test" ->
  Server.moderations w = Effects.Resolves Samples.moderation_clear ->
  passes_gates (rt := Samples.runtime) w StreamSamples.hola [].
Proof.
  intros K Mo. unfold passes_gates. split; [reflexivity|]. split; [|split].
  - unfold Effects.completion, Server.runModerationCheck, Server.key_missing.
    rewrite K, Mo. eexists. split; reflexivity.
  - reflexivity.
  - unfold Server.key_missing. rewrite K. reflexivity.
Defined.



(** Without the hypothesis on chunk boundaries the lines are those of
    each chunk: a line cut by a boundary is forwarded as two frames. *)
Example stream_line_cut_by_chunk_boundary :
  Effects.events (Server.chat_stream (rt := Samples.runtime)
                    StreamSamples.split_line StreamSamples.hola)
  = (Effects.Fetch (Effects.ModerationsReq "hola")
     :: sse_header_events
     ++ [ Effects.Fetch (Effects.CompletionsReq StreamSamples.hola_messages true);
          Effects.Write ("data: ho" ++ StreamSamples.LFs2);
          Effects.Write ("data: " ++ JsString.dquote ++ "la" ++ JsString.dquote
                         ++ StreamSamples.LFs2);
          Effects.Write Server.sse_done;
          Effects.EndResponse ])%list.
Proof. reflexivity. Qed.


Example stream_dropped_events :
  Effects.events (Server.chat_stream (rt := Samples.runtime)
                    StreamSamples.dropped StreamSamples.hola)
  = (Effects.Fetch (Effects.ModerationsReq "hola")
     :: sse_header_events
     ++ [ Effects.Fetch (Effects.CompletionsReq StreamSamples.hola_messages true);
          Effects.Write ("data: uno" ++ StreamSamples.LFs2);
          Effects.ConsoleError "Streaming endpoint error:"
            [Effects.LExn Effects.ReadRejected];
          Effects.Write (Server.sse_error "Error en el servidor durante el streaming.");
          Effects.EndResponse ])%list.
Proof. reflexivity. Qed.

(* ===================================================================== *)
(** * The similarity engine *)
(* ===================================================================== *)

Section EngineFacts.
Import Similarity.
Context {T : Type} {num : Num T}.
Local Abbreviation vec := (@vector T).

Lemma fold_left_agree {A B : Type} (f g : A -> B -> A) (l : list B) :
  (forall s i, In i l -> f s i = g s i) ->
  forall s, fold_left f l s = fold_left g l s.
Proof.
  induction l as [|i l IH]; intros H s; [reflexivity|].
  simpl. rewrite (H s i (or_introl eq_refl)). apply IH.
  intros s' i' Hi. apply H. right. exact Hi.
Qed.

(** [dot a b] reads [b] at the indices of [a] only. *)
Lemma dot_reads_first_indices (a b b' : vec) :
  (forall i, i < length a -> at_index b i = at_index b' i) -> dot a b = dot a b'.
Proof.
  intros H. unfold dot. apply fold_left_agree.
  intros s i Hi. apply in_seq in Hi. rewrite (H i) by lia. reflexivity.
Qed.

Lemma at_index_resize (n : nat) (b : vec) (i : nat) :
  i < n -> at_index (resize n b) i = at_index b i.
Proof.
  intros Hi. unfold at_index, resize.
  destruct (Nat.lt_ge_cases i (length b)) as [L|G].
  - rewrite nth_error_app1 by (rewrite length_firstn; lia).
    rewrite nth_error_firstn.
    destruct (Nat.ltb_spec i n); [reflexivity|lia].
  - rewrite nth_error_app2 by (rewrite length_firstn; lia).
    rewrite length_firstn, Nat.min_r by lia.
    rewrite (proj2 (nth_error_None b i) G).
    rewrite nth_error_repeat by lia. reflexivity.
Qed.

(** The second argument counts as cut or padded with absent entries to
    the length of the first. *)
Lemma dot_resize (a b : vec) : dot a b = dot a (resize (length a) b).
Proof.
  apply dot_reads_first_indices. intros i Hi. symmetry. apply at_index_resize. exact Hi.
Qed.

Hypothesis zero_is_falsy : falsy zero = true.

Lemma or0_idempotent (x : option T) : or0 (Some (or0 x)) = or0 x.
Proof.
  destruct x as [f|]; simpl.
  - destruct (falsy f) eqn:F; [rewrite zero_is_falsy; reflexivity|rewrite F; reflexivity].
  - rewrite zero_is_falsy. reflexivity.
Qed.

Lemma at_index_zero_filled (a : vec) (i : nat) :
  or0 (at_index (zero_filled a) i) = or0 (at_index a i).
Proof.
  unfold at_index, zero_filled. rewrite nth_error_map.
  destruct (nth_error a i) as [x|]; simpl; [apply or0_idempotent|reflexivity].
Qed.

(** Every falsy or absent entry counts as zero, in either argument. *)
Lemma dot_zero_filled (a b : vec) : dot a b = dot (zero_filled a) (zero_filled b).
Proof.
  unfold dot. unfold zero_filled at 3. rewrite length_map.
  apply fold_left_agree. intros s i _.
  rewrite !at_index_zero_filled. reflexivity.
Qed.

Lemma cosineSim_value (a b : vec) : cosineSim a b = value_of (cosineSim_outcome a b).
Proof.
  unfold cosineSim, cosineSim_outcome. destruct (is0 _); reflexivity.
Qed.

End EngineFacts.

(* ===================================================================== *)
(** * Binary64 facts the engine relies on *)
(* ===================================================================== *)

Section Binary64Facts.
Local Open Scope float_scope.

Lemma Prim2SF_zero : Prim2SF 0 = S754_zero false.
Proof. reflexivity. Qed.

Lemma Prim2SF_infinity : Prim2SF infinity = S754_infinity false.
Proof. reflexivity. Qed.

(** [x === 0] holds exactly of the two zeros. *)
Lemma is_zero_spec (x : float) :
  PrimFloat.is_zero x = true <-> exists s, Prim2SF x = S754_zero s.
Proof.
  unfold PrimFloat.is_zero. rewrite eqb_spec. change (Prim2SF zero) with (S754_zero false).
  destruct (Prim2SF x) as [s|s| |s m e]; simpl.
  - split; [intros _; exists s; reflexivity|reflexivity].
  - split; [destruct s; discriminate|intros [s' H]; discriminate].
  - split; [discriminate|intros [s' H]; discriminate].
  - split; [destruct s; discriminate|intros [s' H]; discriminate].
Qed.

Lemma is_nan_spec (x : float) : PrimFloat.is_nan x = true <-> Prim2SF x = S754_nan.
Proof.
  unfold PrimFloat.is_nan. rewrite eqb_spec.
  destruct (Prim2SF x) as [s|s| |s m e] eqn:E; unfold SFeqb; simpl.
  - split; discriminate.
  - destruct s; split; discriminate.
  - split; reflexivity.
  - rewrite Z.compare_refl, Pos.compare_cont_refl.
    destruct s; split; discriminate.
Qed.

Lemma is_infinity_spec (x : float) :
  PrimFloat.is_infinity x = true <-> exists s, Prim2SF x = S754_infinity s.
Proof.
  unfold PrimFloat.is_infinity. rewrite eqb_spec, abs_spec, Prim2SF_infinity.
  destruct (Prim2SF x) as [s|s| |s m e]; simpl.
  - split; [discriminate|intros [s' H]; discriminate].
  - split; [intros _; exists s; reflexivity|reflexivity].
  - split; [discriminate|intros [s' H]; discriminate].
  - split; [discriminate|intros [s' H]; discriminate].
Qed.

(** A finite number is a zero or has a mantissa and an exponent. *)
Lemma is_finite_spec (x : float) :
  PrimFloat.is_finite x = true ->
  (exists s, Prim2SF x = S754_zero s) \/ (exists s m e, Prim2SF x = S754_finite s m e).
Proof.
  unfold PrimFloat.is_finite. intros H. apply negb_true_iff, orb_false_iff in H.
  destruct H as [N I].
  destruct (Prim2SF x) as [s|s| |s m e] eqn:E.
  - left. exists s. reflexivity.
  - assert (PrimFloat.is_infinity x = true) by (apply is_infinity_spec; eauto). congruence.
  - assert (PrimFloat.is_nan x = true) by (apply is_nan_spec; assumption). congruence.
  - right. exists s, m, e. reflexivity.
Qed.

(** The product of a zero and a finite number is a zero. *)
Lemma mul_zero_finite (x y : float) :
  PrimFloat.is_zero x = true -> PrimFloat.is_finite y = true ->
  PrimFloat.is_zero (x * y) = true /\ PrimFloat.is_zero (y * x) = true.
Proof.
  intros Zx Fy. apply is_zero_spec in Zx as [sx Ex].
  split; apply is_zero_spec; rewrite mul_spec, Ex; unfold SF64mul;
    destruct (is_finite_spec y Fy) as [[sy ->]|[sy [my [ey ->]]]]; simpl; eauto.
Qed.

End Binary64Facts.

Section EngineOverLists.
Import Similarity.
Local Open Scope list_scope.
Context {T : Type} {num : Num T}.
Local Abbreviation vec := (@vector T).

Lemma at_index_middle (pre : vec) (x : option T) (rest : vec) :
  at_index (pre ++ x :: rest) (length pre) = x.
Proof.
  unfold at_index. rewrite nth_error_app2, Nat.sub_diag by lia. reflexivity.
Qed.

Lemma fold_indices_as_list (g : T -> option T -> T) (a : vec) :
  forall (pre : vec) (s : T),
    fold_left (fun s i => g s (at_index (pre ++ a) i)) (seq (length pre) (length a)) s
    = fold_left g a s.
Proof.
  induction a as [|x a IH]; intros pre s; [reflexivity|].
  cbn [length seq fold_left]. rewrite at_index_middle.
  specialize (IH (pre ++ [x])%list (g s x)).
  rewrite length_app, Nat.add_1_r, <- app_assoc in IH. exact IH.
Qed.

(** [dot a a] is the sum of the squares of the entries as read. *)
Lemma dot_self_as_sum (a : vec) :
  dot a a = fold_left (fun s x => add s (mul (or0 x) (or0 x))) a zero.
Proof.
  unfold dot.
  exact (fold_indices_as_list (fun s x => add s (mul (or0 x) (or0 x))) a [] zero).
Qed.

Lemma dot_zero_vector (z : vec) :
  add zero (mul zero zero) = zero ->
  (forall f : T, is0 f = true -> falsy f = true) ->
  zero_vector z -> dot z z = zero.
Proof.
  intros Hz Hf Z. rewrite dot_self_as_sum.
  induction Z as [|x z [f [-> Hx]] _ IH]; [reflexivity|].
  cbn [fold_left or0]. rewrite (Hf f Hx), Hz. exact IH.
Qed.

End EngineOverLists.

Section EngineOverReals.
Import Similarity.
Local Open Scope R_scope.
Local Abbreviation rvec := (@vector R).

Lemma R_is0_true (x : R) : R_is0 x = true <-> x = 0.
Proof. unfold R_is0. destruct (Req_dec_T x 0); split; congruence. Qed.

Lemma R_is0_false (x : R) : R_is0 x = false <-> x <> 0.
Proof. unfold R_is0. destruct (Req_dec_T x 0); split; congruence. Qed.

Lemma or0_real (x : R) : or0 (Some x) = x.
Proof.
  simpl. destruct (R_is0 x) eqn:E; [|reflexivity].
  apply R_is0_true in E. congruence.
Qed.

Lemma sum_squares_ge (a : rvec) (s : R) :
  s <= fold_left (fun s x => s + or0 x * or0 x) a s.
Proof.
  revert s. induction a as [|x a IH]; intros s; [simpl; lra|].
  cbn [fold_left]. specialize (IH (s + or0 x * or0 x)).
  pose proof (Rle_0_sqr (or0 x)) as Sq. unfold Rsqr in Sq. lra.
Qed.

Lemma sum_squares_gt (a : rvec) (s : R) :
  Exists (fun x => or0 x <> 0) a ->
  s < fold_left (fun s x => s + or0 x * or0 x) a s.
Proof.
  intros E. revert s. induction E as [x a Hx|x a _ IH]; intros s; cbn [fold_left].
  - pose proof (sum_squares_ge a (s + or0 x * or0 x)) as G.
    assert (0 < or0 x * or0 x) by (apply Rsqr_pos_lt; exact Hx). lra.
  - specialize (IH (s + or0 x * or0 x)).
    pose proof (Rle_0_sqr (or0 x)) as Sq. unfold Rsqr in Sq. lra.
Qed.

Lemma real_dot_self_nonneg (a : rvec) : 0 <= dot a a.
Proof. rewrite dot_self_as_sum. apply (sum_squares_ge a 0). Qed.

Lemma real_dot_self_pos (a : rvec) : Exists (fun x => or0 x <> 0) a -> 0 < dot a a.
Proof. intros E. rewrite dot_self_as_sum. apply (sum_squares_gt a 0 E). Qed.

(** In exact arithmetic a vector with a nonzero entry has similarity 1
    with itself. *)
Lemma real_cosineSim_self (a : rvec) :
  Exists (fun x => or0 x <> 0) a -> cosineSim a a = 1.
Proof.
  intros E. pose proof (real_dot_self_pos a E) as Pos.
  unfold cosineSim, norm. cbn [mul sqrt is0 div zero real_num].
  rewrite sqrt_sqrt by lra.
  destruct (R_is0 (dot a a)) eqn:Z.
  - apply R_is0_true in Z. lra.
  - field. lra.
Qed.

(** In exact arithmetic a zero norm on either side gives 0. *)
Lemma real_cosineSim_zero_norm (a b : rvec) :
  norm a = 0 \/ norm b = 0 -> cosineSim a b = 0.
Proof.
  intros H. unfold cosineSim. cbn [mul is0 zero real_num].
  assert (E : norm a * norm b = 0) by (destruct H as [-> | ->]; lra).
  rewrite E. rewrite (proj2 (R_is0_true 0) eq_refl). reflexivity.
Qed.

Lemma real_norm_zero_vector (z : rvec) : zero_vector z -> norm z = 0.
Proof.
  intros Z. unfold norm. rewrite (dot_zero_vector z); [apply sqrt_0| | |exact Z].
  - cbn [add mul zero real_num]. lra.
  - intros f H. exact H.
Qed.

End EngineOverReals.

Section EngineOverBinary64.
Import Similarity.
Local Open Scope float_scope.
Local Abbreviation fvec := (@vector float).

Lemma float_norm_zero_vector (z : fvec) : zero_vector z -> norm z = 0.
Proof.
  intros Z. unfold norm. rewrite (dot_zero_vector z); [reflexivity|reflexivity| |exact Z].
  intros f H. cbn [is0 falsy float_num] in *.
  change (PrimFloat.is_zero f = true) in H. rewrite H. reflexivity.
Qed.

(** When the product of the norms is a zero the guard returns 0. *)
Lemma float_cosineSim_guard (a b : fvec) :
  PrimFloat.is_zero (norm a * norm b) = true -> cosineSim a b = 0.
Proof.
  intros H. unfold cosineSim. cbn [mul is0 zero float_num].
  change (norm a * norm b =? 0) with (PrimFloat.is_zero (norm a * norm b)).
  rewrite H. reflexivity.
Qed.

(** A zero norm on one side and a finite norm on the other give 0. *)
Lemma float_cosineSim_zero_norm (a b : fvec) :
  (PrimFloat.is_zero (norm a) = true /\ PrimFloat.is_finite (norm b) = true)
  \/ (PrimFloat.is_finite (norm a) = true /\ PrimFloat.is_zero (norm b) = true) ->
  cosineSim a b = 0.
Proof.
  intros [[Z F]|[F Z]]; apply float_cosineSim_guard.
  - exact (proj1 (mul_zero_finite _ _ Z F)).
  - exact (proj2 (mul_zero_finite _ _ Z F)).
Qed.

End EngineOverBinary64.

Section NumericArrays.
Import Json Ranking.
Context {rt : Runtime}.

Lemma numeric_never_throws (xs : list jsval) :
  forallb numeric_entry xs = true -> existsb String_throws xs = false.
Proof.
  induction xs as [|x xs IH]; [reflexivity|].
  cbn [forallb existsb]. intros H. apply andb_true_iff in H as [Hx Hxs].
  rewrite (IH Hxs), orb_false_r.
  destruct x; try discriminate Hx; reflexivity.
Qed.

Lemma as_vector_never_throws (v : jsval) (q : @Similarity.vector float) :
  as_vector v = Some q -> existsb String_throws (array_or_empty v) = false.
Proof.
  destruct v as [| | b | f | s | xs | fs]; try discriminate; try reflexivity.
  cbn [as_vector array_or_empty].
  destruct (forallb numeric_entry xs) eqn:N; [|discriminate].
  intros _. apply numeric_never_throws. exact N.
Qed.

Lemma existsb_String_throws (xs : list jsval) :
  String_throws (VArr xs) = existsb String_throws xs.
Proof. induction xs as [|x xs IH]; [reflexivity|]. cbn [existsb]. rewrite <- IH. reflexivity. Qed.

(** On two numeric arrays the similarity is the one of the vectors they
    read as. *)
Lemma cosineSim_js_numeric (xs ys : list jsval) :
  forallb numeric_entry xs = true -> forallb numeric_entry ys = true ->
  cosineSim_js (VArr xs) (VArr ys)
  = Some (Similarity.cosineSim (map as_entry xs) (map as_entry ys)).
Proof.
  intros Nx Ny. unfold cosineSim_js. cbn [nullish orb array_or_empty as_vector].
  rewrite existsb_app, (numeric_never_throws xs Nx), (numeric_never_throws ys Ny).
  cbn [orb]. rewrite Nx, Ny. reflexivity.
Qed.

(** An entry that cannot be converted makes the call throw, whichever
    array holds it. *)
Lemma cosineSim_js_entry_throws (xs ys : list jsval) :
  existsb String_throws (xs ++ ys) = true -> cosineSim_js (VArr xs) (VArr ys) = None.
Proof.
  intros H. unfold cosineSim_js. cbn [nullish orb array_or_empty]. rewrite H. reflexivity.
Qed.

End NumericArrays.

(** C10, as the code has it.  On every pair of numeric arrays (arrays
    whose entries are numbers, booleans, [null], absent or the empty
    string), whatever their lengths, [cosineSim] returns a number, the
    similarity of the vectors the arrays read as.  [dot a b] runs over the
    indices of [a]: it is unchanged when [b] is cut or padded with absent
    entries to the length of [a], and when every entry of either array is
    replaced by the number read at it, zero for a falsy or absent entry.
    The result is 0 when the product of the norms compares equal to zero,
    in particular for an empty array against an array of finite norm,
    where a division would give NaN; it is the quotient otherwise.  On
    other values the call can throw: it throws a TypeError when an
    argument is [undefined] or [null], and when an entry of either array
    is an object with a [toString] property of its own, or an array
    holding one. *)
Theorem C10_dot_and_cosineSim_total_and_zero_padded :
  forall (rt : Json.Runtime) (xs ys : list Json.jsval),
    forallb Ranking.numeric_entry xs = true ->
    forallb Ranking.numeric_entry ys = true ->
    let a := map Ranking.as_entry xs in
    let b := map Ranking.as_entry ys in
    let result := Ranking.cosineSim_js (Json.VArr xs) (Json.VArr ys) in
    result = Some (Similarity.cosineSim a b)
    /\ Similarity.dot a b = Similarity.dot a (Similarity.resize (length xs) b)
    /\ Similarity.dot a b
       = Similarity.dot (Similarity.zero_filled a) (Similarity.zero_filled b)
    /\ (PrimFloat.is_zero (Similarity.norm a * Similarity.norm b)%float = true ->
        result = Some 0%float)
    /\ (PrimFloat.is_zero (Similarity.norm a * Similarity.norm b)%float = false ->
        result
        = Some (Similarity.dot a b / (Similarity.norm a * Similarity.norm b))%float)
    /\ (PrimFloat.is_finite (Similarity.norm b) = true ->
        Ranking.cosineSim_js (Json.VArr []) (Json.VArr ys) = Some 0%float
        /\ Ranking.cosineSim_js (Json.VArr ys) (Json.VArr []) = Some 0%float)
    /\ (forall v, Json.nullish v = true ->
          Ranking.cosineSim_js v (Json.VArr ys) = None
          /\ Ranking.cosineSim_js (Json.VArr xs) v = None)
    /\ (forall zs, existsb Json.String_throws zs = true ->
          Ranking.cosineSim_js (Json.VArr zs) (Json.VArr ys) = None
          /\ Ranking.cosineSim_js (Json.VArr xs) (Json.VArr zs) = None).
Proof.
  intros rt xs ys Nx Ny a b result.
  assert (R : result = Some (Similarity.cosineSim a b))
    by (apply cosineSim_js_numeric; assumption).
  split; [exact R|].
  split; [subst a; rewrite <- (length_map Ranking.as_entry xs); apply dot_resize|].
  split; [apply dot_zero_filled; reflexivity|].
  split; [intros Z; rewrite R, (float_cosineSim_guard a b Z); reflexivity|].
  split.
  { intros Z. rewrite R. unfold Similarity.cosineSim.
    cbn [Similarity.mul Similarity.is0 Similarity.zero Similarity.div Similarity.float_num].
    change ((Similarity.norm a * Similarity.norm b =? 0)%float)
      with (PrimFloat.is_zero (Similarity.norm a * Similarity.norm b)%float).
    rewrite Z. reflexivity. }
  split.
  { intros F. split.
    - rewrite (cosineSim_js_numeric [] ys eq_refl Ny). f_equal.
      apply float_cosineSim_zero_norm. left. split; [reflexivity|exact F].
    - rewrite (cosineSim_js_numeric ys [] Ny eq_refl). f_equal.
      apply float_cosineSim_zero_norm. right. split; [exact F|reflexivity]. }
  split.
  { intros v Hv. unfold Ranking.cosineSim_js. rewrite Hv, orb_true_r. split; reflexivity. }
  intros zs Hz. split; apply cosineSim_js_entry_throws; rewrite existsb_app, Hz;
    [reflexivity|apply orb_true_r].
Qed.

(** Arrays of unequal lengths with an absent entry: (3, null, 4) against
    (3) has the similarity 9 / (5 * 3). *)
Lemma C10_witness_unequal_lengths :
  Ranking.cosineSim_js (rt := Samples.runtime)
    (Json.VArr [Json.VNum 3; Json.VNull; Json.VNum 4]) (Json.VArr [Json.VNum 3])
  = Some 0x1.3333333333333p-1%float
  /\ Similarity.dot [Some 3%float; None; Some 4%float] [Some 3%float] = 9%float
  /\ Similarity.dot [Some 3%float] [Some 3%float; None; Some 4%float] = 9%float.
Proof.
  destruct (C10_dot_and_cosineSim_total_and_zero_padded Samples.runtime
              [Json.VNum 3; Json.VNull; Json.VNum 4] [Json.VNum 3] eq_refl eq_refl)
    as (R & _).
  split; [exact R|]. split; reflexivity.
Defined.

(** C10 as stated fails on an array that holds an object with a
    [toString] property of its own, whatever the other array: converting
    the entry to a number throws a TypeError (the runtime is not
    consulted).  So does the embedding [undefined] of a record loaded
    without one. *)
Lemma C10_counterexample_entry_that_cannot_be_converted :
  Ranking.cosineSim_js (rt := Samples.runtime)
    (Json.VArr [Json.VObj [("toString", Json.VNum 1)]]) (Json.VArr [Json.VNum 1]) = None
  /\ Ranking.cosineSim_js (rt := Samples.runtime)
       (Json.VArr [Json.VNum 1]) (Json.VArr [Json.VObj [("toString", Json.VNum 1)]]) = None
  /\ Ranking.cosineSim_js (rt := Samples.runtime)
       (Json.VArr [Json.VNum 1]) Json.VUndefined = None.
Proof. repeat split. Qed.

(* ===================================================================== *)
(** * Binary64 order and the sign of a difference *)
(* ===================================================================== *)

Section Binary64Order.
Local Open Scope Z_scope.

Lemma digits2_pos_bounds (m : positive) :
  2 ^ (Zpos (digits2_pos m) - 1) <= Zpos m < 2 ^ Zpos (digits2_pos m).
Proof.
  induction m as [p IH|p IH|]; cbn [digits2_pos].
  - rewrite Pos2Z.inj_succ.
    replace (Z.succ (Zpos (digits2_pos p)) - 1) with (Z.succ (Zpos (digits2_pos p) - 1)) by lia.
    rewrite !Z.pow_succ_r by lia. lia.
  - rewrite Pos2Z.inj_succ.
    replace (Z.succ (Zpos (digits2_pos p)) - 1) with (Z.succ (Zpos (digits2_pos p) - 1)) by lia.
    rewrite !Z.pow_succ_r by lia. lia.
  - simpl. lia.
Qed.

Lemma digits2_pos_le (a : positive) (k : Z) :
  0 <= k -> Zpos a < 2 ^ k -> Zpos (digits2_pos a) <= k.
Proof.
  intros Hk H. destruct (digits2_pos_bounds a) as [L _].
  destruct (Z.le_gt_cases (Zpos (digits2_pos a)) k) as [|G]; [assumption|].
  assert (2 ^ k <= 2 ^ (Zpos (digits2_pos a) - 1)) by (apply Z.pow_le_mono_r; lia).
  lia.
Qed.

Lemma digits2_pos_gt (a : positive) (k : Z) :
  2 ^ k <= Zpos a -> k < Zpos (digits2_pos a).
Proof.
  intros H. destruct (digits2_pos_bounds a) as [_ U].
  destruct (Z.lt_ge_cases k (Zpos (digits2_pos a))) as [|G]; [assumption|].
  assert (2 ^ Zpos (digits2_pos a) <= 2 ^ k) by (apply Z.pow_le_mono_r; lia).
  lia.
Qed.

Lemma iter_pos_nat {A : Type} (f : A -> A) (n : positive) (x : A) :
  SpecFloat.iter_pos f n x = Nat.iter (Pos.to_nat n) f x.
Proof.
  revert x. induction n as [n IH|n IH|]; intros x; cbn [SpecFloat.iter_pos].
  - rewrite !IH, Pos2Nat.inj_xI.
    replace (S (2 * Pos.to_nat n)) with (Pos.to_nat n + (Pos.to_nat n + 1))%nat by lia.
    rewrite !Nat.iter_add. simpl. reflexivity.
  - rewrite !IH, Pos2Nat.inj_xO.
    replace (2 * Pos.to_nat n)%nat with (Pos.to_nat n + Pos.to_nat n)%nat by lia.
    rewrite Nat.iter_add. reflexivity.
  - reflexivity.
Qed.

Lemma shr_keeps_top_digits (k : nat) :
  forall (p : positive) (r s : bool),
    Z.of_nat k < Zpos (digits2_pos p) ->
    exists q r' s',
      Nat.iter k shr_1 (Build_shr_record (Zpos p) r s) = Build_shr_record (Zpos q) r' s'
      /\ Zpos (digits2_pos q) = Zpos (digits2_pos p) - Z.of_nat k.
Proof.
  induction k as [|k IH]; intros p r s H.
  - exists p, r, s. split; [reflexivity|]. simpl. lia.
  - rewrite Nat.iter_succ_r.
    destruct p as [p|p|]; cbn [shr_1 digits2_pos] in *.
    + rewrite Pos2Z.inj_succ in H.
      destruct (IH p true (r || s)%bool) as [q [r' [s' [E D]]]]; [lia|].
      exists q, r', s'. split; [exact E|]. rewrite Pos2Z.inj_succ. lia.
    + rewrite Pos2Z.inj_succ in H.
      destruct (IH p false (r || s)%bool) as [q [r' [s' [E D]]]]; [lia|].
      exists q, r', s'. split; [exact E|]. rewrite Pos2Z.inj_succ. lia.
    + simpl in H. lia.
Qed.

Lemma round_nearest_even_pos (q : positive) (l : location) :
  exists q', round_nearest_even (Zpos q) l = Zpos q'
             /\ Zpos q <= Zpos q' <= Zpos q + 1.
Proof.
  destruct l as [|[| |]]; cbn [round_nearest_even].
  - exists q. lia.
  - destruct (Z.even (Zpos q)).
    + exists q. lia.
    + exists (q + 1)%positive. lia.
  - exists q. lia.
  - exists (q + 1)%positive. lia.
Qed.

Lemma fexp64 (z : Z) : fexp prec emax z = Z.max (z - 53) (-1074).
Proof. reflexivity. Qed.

Lemma binary_round_aux_sign (sx : bool) (m : positive) (e : Z) :
  -1074 <= e ->
  signed_result sx (binary_round_aux prec emax sx (Zpos m) e loc_Exact).
Proof.
  intros He. unfold binary_round_aux, shr_fexp.
  cbn [Zdigits2 shr_record_of_loc]. rewrite fexp64.
  set (d := Zpos (digits2_pos m)).
  destruct (Z.max (d + e - 53) (-1074) - e) as [|n|n] eqn:N; cbn [shr].
  - cbn [shr_m loc_of_shr_record round_nearest_even Zdigits2 shr_record_of_loc].
    rewrite fexp64. fold d. rewrite N. cbn [shr shr_m].
    unfold signed_result. destruct (e <=? emax - prec); eauto.
  - assert (Hn : Zpos n = d - 53) by lia.
    rewrite iter_pos_nat.
    destruct (shr_keeps_top_digits (Pos.to_nat n) m false false) as [q [r' [s' [E D]]]].
    { rewrite positive_nat_Z. fold d. lia. }
    rewrite E. cbn [shr_m]. rewrite positive_nat_Z in D. fold d in D.
    destruct (round_nearest_even_pos q (loc_of_shr_record (Build_shr_record (Zpos q) r' s')))
      as [q' [R B]].
    rewrite R. cbn [Zdigits2 shr_record_of_loc]. rewrite fexp64.
    assert (Dq : Zpos (digits2_pos q) = 53) by lia.
    assert (Lq' : 53 <= Zpos (digits2_pos q')).
    { pose proof (digits2_pos_bounds q) as Bq. rewrite Dq in Bq.
      assert (52 < Zpos (digits2_pos q')) by (apply digits2_pos_gt; simpl in Bq |- *; lia).
      lia. }
    assert (Uq' : Zpos (digits2_pos q') <= 54).
    { pose proof (digits2_pos_bounds q) as Bq. rewrite Dq in Bq.
      apply digits2_pos_le; [lia|].
      change (2 ^ 54) with (2 * 2 ^ 53). lia. }
    destruct (Z.max (Zpos (digits2_pos q') + (e + Zpos n) - 53) (-1074) - (e + Zpos n))
      as [|n'|n'] eqn:N'; cbn [shr shr_m].
    + unfold signed_result. destruct (_ <=? _); eauto.
    + assert (n' = 1%positive) by lia. subst n'. cbn [SpecFloat.iter_pos].
      destruct q' as [q'|q'|]; cbn [shr_1 shr_m].
      * unfold signed_result. destruct (_ <=? _); eauto.
      * unfold signed_result. destruct (_ <=? _); eauto.
      * simpl in Lq'. lia.
    + unfold signed_result. destruct (_ <=? _); eauto.
  - cbn [shr_m loc_of_shr_record round_nearest_even Zdigits2 shr_record_of_loc].
    rewrite fexp64. fold d. rewrite N. cbn [shr shr_m].
    unfold signed_result. destruct (e <=? emax - prec); eauto.
Qed.

Lemma shl_align_exponent (m : positive) (e e' : Z) :
  -1074 <= e -> -1074 <= e' -> -1074 <= snd (shl_align m e e').
Proof.
  intros He He'. unfold shl_align. destruct (e' - e); simpl; lia.
Qed.

Lemma binary_round_sign (sx : bool) (m : positive) (e : Z) :
  -1074 <= e -> signed_result sx (binary_round prec emax sx m e).
Proof.
  intros He. unfold binary_round.
  pose proof (shl_align_exponent m e (fexp prec emax (Zpos (digits2_pos m) + e)) He) as S.
  destruct (shl_align m e _) as [mz ez]. simpl in S.
  apply binary_round_aux_sign. apply S. rewrite fexp64. lia.
Qed.

(** The sign of a sum computed at an exponent that is not below the
    least one. *)
Lemma binary_normalize_sign (D e : Z) :
  -1074 <= e ->
  match D with
  | Z0 => binary_normalize prec emax D e false = S754_zero false
  | Zpos _ => signed_result false (binary_normalize prec emax D e false)
  | Zneg _ => signed_result true (binary_normalize prec emax D e false)
  end.
Proof.
  intros He. destruct D; cbn [binary_normalize]; [reflexivity| |];
    apply binary_round_sign; exact He.
Qed.

Lemma pos_iter_xO (m d : positive) : Zpos (Pos.iter xO m d) = Zpos m * 2 ^ Zpos d.
Proof.
  induction d as [|d IH] using Pos.peano_ind.
  - simpl. lia.
  - rewrite Pos.iter_succ, Pos2Z.inj_succ, Z.pow_succ_r by lia.
    rewrite Pos2Z.inj_xO, IH. lia.
Qed.

Lemma shl_align_value (m : positive) (e ez : Z) :
  ez <= e -> Zpos (fst (shl_align m e ez)) = Zpos m * 2 ^ (e - ez).
Proof.
  intros H. unfold shl_align.
  destruct (ez - e) as [|d|d] eqn:E; cbn [fst].
  - replace (e - ez) with 0 by lia. simpl. lia.
  - lia.
  - rewrite pos_iter_xO. f_equal. f_equal. lia.
Qed.

Lemma valid_finite (m : positive) (e : Z) :
  SpecFloat.bounded prec emax m e = true ->
  -1074 <= e <= 971
  /\ Zpos (digits2_pos m) <= 53
  /\ (-1074 < e -> Zpos (digits2_pos m) = 53).
Proof.
  unfold SpecFloat.bounded, canonical_mantissa. rewrite fexp64.
  intros H. apply andb_prop in H as [C B].
  apply Z.eqb_eq in C. apply Z.leb_le in B. change (emax - prec) with 971 in B. lia.
Qed.

Lemma finite_key_bounds (m : positive) (e : Z) :
  SpecFloat.bounded prec emax m e = true -> 0 < Zpos m * 2 ^ (e + 1074) < 2 ^ 2100.
Proof.
  intros V. destruct (valid_finite m e V) as [E [D _]].
  pose proof (digits2_pos_bounds m) as [_ U].
  assert (Zpos m < 2 ^ 53).
  { eapply Z.lt_le_trans; [exact U|]. apply Z.pow_le_mono_r; lia. }
  assert (0 < 2 ^ (e + 1074)) by (apply Z.pow_pos_nonneg; lia).
  assert (2 ^ (e + 1074) <= 2 ^ 2045) by (apply Z.pow_le_mono_r; lia).
  split; [apply Z.mul_pos_pos; lia|].
  assert (T : 2 ^ 2100 = 2 ^ 53 * 2 ^ 2045 * 4)
    by (rewrite <- Z.pow_add_r by lia; reflexivity).
  rewrite T.
  assert (Zpos m * 2 ^ (e + 1074) <= 2 ^ 53 * 2 ^ 2045).
  { apply Z.mul_le_mono_nonneg; lia. }
  assert (0 < 2 ^ 53 * 2 ^ 2045) by (apply Z.mul_pos_pos; apply Z.pow_pos_nonneg; lia).
  generalize dependent (2 ^ 53 * 2 ^ 2045). intros; lia.
Qed.

(** Two valid numbers of the same sign: the one with the larger
    exponent is the larger. *)
Lemma finite_exponent_order (m1 m2 : positive) (e1 e2 : Z) :
  SpecFloat.bounded prec emax m1 e1 = true -> SpecFloat.bounded prec emax m2 e2 = true ->
  e1 < e2 -> Zpos m1 * 2 ^ (e1 + 1074) < Zpos m2 * 2 ^ (e2 + 1074).
Proof.
  intros V1 V2 L.
  destruct (valid_finite m1 e1 V1) as [E1 [D1 _]].
  destruct (valid_finite m2 e2 V2) as [E2 [_ D2]].
  specialize (D2 ltac:(lia)).
  pose proof (digits2_pos_bounds m1) as [_ U1].
  pose proof (digits2_pos_bounds m2) as [L2 _]. rewrite D2 in L2.
  assert (M1 : Zpos m1 < 2 ^ 53).
  { eapply Z.lt_le_trans; [exact U1|]. apply Z.pow_le_mono_r; lia. }
  replace (e2 + 1074) with ((e1 + 1074) + (e2 - e1)) by lia.
  rewrite (Z.pow_add_r 2 (e1 + 1074) (e2 - e1)) by lia.
  assert (P : 0 < 2 ^ (e1 + 1074)) by (apply Z.pow_pos_nonneg; lia).
  assert (K : 2 <= 2 ^ (e2 - e1)).
  { change 2 with (2 ^ 1) at 1. apply Z.pow_le_mono_r; lia. }
  change (2 ^ 53) with (2 * 2 ^ (53 - 1)) in M1.
  assert (Zpos m1 < Zpos m2 * 2 ^ (e2 - e1)) by nia.
  nia.
Qed.

Lemma compare_lt (a b : Z) : a < b -> Some Lt = Some (a ?= b).
Proof. intros H. apply Z.compare_lt_iff in H. rewrite H. reflexivity. Qed.

Lemma compare_gt (a b : Z) : b < a -> Some Gt = Some (a ?= b).
Proof. intros H. apply Z.compare_gt_iff in H. rewrite H. reflexivity. Qed.

Lemma scaled_compare (m1 m2 : positive) (P : Z) :
  0 < P -> (Zpos m1 * P ?= Zpos m2 * P) = (m1 ?= m2)%positive.
Proof.
  intros HP. destruct (Pos.compare_spec m1 m2) as [E|L|G].
  - subst. apply Z.compare_refl.
  - apply Z.compare_lt_iff. apply Z.mul_lt_mono_pos_r; lia.
  - apply Z.compare_gt_iff. apply Z.mul_lt_mono_pos_r; lia.
Qed.

Lemma big_pos : 0 < 2 ^ 2100.
Proof. apply Z.pow_pos_nonneg; lia. Qed.

Lemma SFcompare_key (x y : spec_float) :
  valid_binary x = true -> valid_binary y = true ->
  x <> S754_nan -> y <> S754_nan ->
  SFcompare x y = Some (key x ?= key y).
Proof.
  intros Vx Vy Nx Ny. pose proof big_pos as B.
  destruct x as [sx|sx| |sx mx ex]; [| |congruence|];
    (destruct y as [sy|sy| |sy my ey]; [| |congruence|]);
    cbn [SFcompare key valid_binary] in *;
    try pose proof (finite_key_bounds _ _ Vx) as Kx;
    try pose proof (finite_key_bounds _ _ Vy) as Ky.
  - reflexivity.
  - destruct sy; cbn [cond_Zopp]; [apply compare_gt|apply compare_lt]; lia.
  - destruct sy; cbn [cond_Zopp]; [apply compare_gt|apply compare_lt]; lia.
  - destruct sx; cbn [cond_Zopp]; [apply compare_lt|apply compare_gt]; lia.
  - destruct sx, sy; cbn [cond_Zopp];
      [rewrite Z.compare_refl; reflexivity|apply compare_lt|apply compare_gt
      |rewrite Z.compare_refl; reflexivity]; lia.
  - destruct sx; cbn [cond_Zopp]; destruct sy; cbn [cond_Zopp];
      [apply compare_lt|apply compare_lt|apply compare_gt|apply compare_gt]; lia.
  - destruct sx; cbn [cond_Zopp]; [apply compare_lt|apply compare_gt]; lia.
  - destruct sx; cbn [cond_Zopp]; destruct sy; cbn [cond_Zopp];
      [apply compare_gt|apply compare_lt|apply compare_gt|apply compare_lt]; lia.
  - destruct sx, sy; cbn [cond_Zopp].
    + rewrite Z.compare_opp.
      destruct (Z.compare_spec ex ey) as [E|L|G].
      * subst ey. rewrite Pos.compare_cont_spec. cbn [Pos.switch_Eq].
        rewrite scaled_compare by (apply Z.pow_pos_nonneg; destruct (valid_finite _ _ Vx); lia).
        rewrite (Pos.compare_antisym mx my).
        destruct (mx ?= my)%positive; reflexivity.
      * apply compare_gt. apply finite_exponent_order; assumption.
      * apply compare_lt. apply finite_exponent_order; assumption.
    + apply compare_lt. lia.
    + apply compare_gt. lia.
    + destruct (Z.compare_spec ex ey) as [E|L|G].
      * subst ey. rewrite Pos.compare_cont_spec. cbn [Pos.switch_Eq].
        rewrite scaled_compare by (apply Z.pow_pos_nonneg; destruct (valid_finite _ _ Vx); lia).
        destruct (mx ?= my)%positive; reflexivity.
      * apply compare_lt. apply finite_exponent_order; assumption.
      * apply compare_gt. apply finite_exponent_order; assumption.
Qed.

Lemma aligned_key (s : bool) (m : positive) (e ez : Z) :
  -1074 <= ez -> ez <= e ->
  cond_Zopp s (Zpos (fst (shl_align m e ez))) * 2 ^ (ez + 1074)
  = key (S754_finite s m e).
Proof.
  intros L H. rewrite shl_align_value by exact H. cbn [key].
  replace (e + 1074) with ((e - ez) + (ez + 1074)) by lia.
  rewrite (Z.pow_add_r 2 (e - ez) (ez + 1074)) by lia.
  destruct s; cbn [cond_Zopp]; ring.
Qed.

Lemma SFltb_zero_signed (r : spec_float) (s : bool) :
  signed_result s r -> SFltb (S754_zero false) r = negb s.
Proof.
  intros [->|[m [e ->]]]; destruct s; reflexivity.
Qed.

(** The comparator of the ranking, on specifications: the difference
    [y - x] is positive exactly when [x] is below [y]. *)
Lemma SFsub_positive_iff_lt (x y : spec_float) :
  valid_binary x = true -> valid_binary y = true ->
  SFltb (S754_zero false) (SFsub prec emax y x) = SFltb x y.
Proof.
  intros Vx Vy.
  destruct x as [sx|sx| |sx mx ex]; destruct y as [sy|sy| |sy my ey];
    try reflexivity;
    try (destruct sx; reflexivity); try (destruct sy; reflexivity);
    try (destruct sx, sy; reflexivity).
  unfold SFltb at 2. rewrite (SFcompare_key _ _ Vx Vy) by discriminate.
  cbn [SFsub valid_binary] in *.
  destruct (valid_finite _ _ Vx) as [Ex _]. destruct (valid_finite _ _ Vy) as [Ey _].
  set (ez := Z.min ey ex).
  assert (Lz : -1074 <= ez) by (unfold ez; lia).
  pose proof (aligned_key sy my ey ez Lz ltac:(unfold ez; lia)) as Ky.
  pose proof (aligned_key sx mx ex ez Lz ltac:(unfold ez; lia)) as Kx.
  set (Y := cond_Zopp sy (Zpos (fst (shl_align my ey ez)))) in *.
  set (X := cond_Zopp sx (Zpos (fst (shl_align mx ex ez)))) in *.
  rewrite <- Kx, <- Ky.
  assert (P : 0 < 2 ^ (ez + 1074)) by (apply Z.pow_pos_nonneg; lia).
  pose proof (binary_normalize_sign (Y - X) ez Lz) as S.
  destruct (Y - X) as [|d|d] eqn:D.
  - rewrite S. assert (X = Y) by lia. subst X. rewrite H, Z.compare_refl. reflexivity.
  - rewrite (SFltb_zero_signed _ false S).
    assert (X * 2 ^ (ez + 1074) < Y * 2 ^ (ez + 1074)) as L
      by (apply Z.mul_lt_mono_pos_r; lia).
    apply Z.compare_lt_iff in L. rewrite L. reflexivity.
  - rewrite (SFltb_zero_signed _ true S).
    assert (Y * 2 ^ (ez + 1074) < X * 2 ^ (ez + 1074)) as L
      by (apply Z.mul_lt_mono_pos_r; lia).
    apply Z.compare_gt_iff in L. rewrite L. reflexivity.
Qed.

(** The same on primitive numbers, for every pair of them. *)
Lemma sub_positive_iff_lt (x y : float) : (0 <? y - x)%float = (x <? y)%float.
Proof.
  rewrite !ltb_spec, sub_spec.
  change (Prim2SF 0) with (S754_zero false).
  apply SFsub_positive_iff_lt; apply Prim2SF_valid.
Qed.

End Binary64Order.

Section Binary64Keys.
Local Open Scope float_scope.

Lemma not_nan_spec (x : float) : PrimFloat.is_nan x = false -> Prim2SF x <> S754_nan.
Proof.
  intros H E. apply is_nan_spec in E. congruence.
Qed.

Lemma ltb_key (x y : float) :
  PrimFloat.is_nan x = false -> PrimFloat.is_nan y = false ->
  (x <? y) = (fkey x <? fkey y)%Z.
Proof.
  intros Nx Ny. rewrite ltb_spec. unfold SFltb, fkey, Z.ltb.
  rewrite (SFcompare_key _ _ (Prim2SF_valid x) (Prim2SF_valid y)
             (not_nan_spec x Nx) (not_nan_spec y Ny)).
  reflexivity.
Qed.

Lemma leb_key (x y : float) :
  PrimFloat.is_nan x = false -> PrimFloat.is_nan y = false ->
  (x <=? y) = (fkey x <=? fkey y)%Z.
Proof.
  intros Nx Ny. rewrite leb_spec. unfold SFleb, fkey, Z.leb.
  rewrite (SFcompare_key _ _ (Prim2SF_valid x) (Prim2SF_valid y)
             (not_nan_spec x Nx) (not_nan_spec y Ny)).
  destruct (_ ?= _)%Z; reflexivity.
Qed.

Lemma eqb_key (x y : float) :
  PrimFloat.is_nan x = false -> PrimFloat.is_nan y = false ->
  (x =? y) = (fkey x =? fkey y)%Z.
Proof.
  intros Nx Ny. rewrite eqb_spec. unfold SFeqb, fkey.
  rewrite (SFcompare_key _ _ (Prim2SF_valid x) (Prim2SF_valid y)
             (not_nan_spec x Nx) (not_nan_spec y Ny)).
  rewrite Z.eqb_compare. reflexivity.
Qed.

Lemma nan_or_not (x : float) : {PrimFloat.is_nan x = true} + {PrimFloat.is_nan x = false}.
Proof. destruct (PrimFloat.is_nan x); auto. Qed.

(** A comparison that holds involves no NaN. *)
Lemma ltb_true_not_nan (x y : float) :
  (x <? y) = true -> PrimFloat.is_nan x = false /\ PrimFloat.is_nan y = false.
Proof.
  rewrite ltb_spec. intros H.
  destruct (nan_or_not x) as [Nx|Nx]; [apply is_nan_spec in Nx; rewrite Nx in H; discriminate|].
  destruct (nan_or_not y) as [Ny|Ny]; [|auto].
  apply is_nan_spec in Ny. rewrite Ny in H.
  destruct (Prim2SF x); discriminate.
Qed.

Lemma eqb_true_not_nan (x y : float) :
  (x =? y) = true -> PrimFloat.is_nan x = false /\ PrimFloat.is_nan y = false.
Proof.
  rewrite eqb_spec. intros H.
  destruct (nan_or_not x) as [Nx|Nx]; [apply is_nan_spec in Nx; rewrite Nx in H; discriminate|].
  destruct (nan_or_not y) as [Ny|Ny]; [|auto].
  apply is_nan_spec in Ny. rewrite Ny in H.
  destruct (Prim2SF x); discriminate.
Qed.

End Binary64Keys.

(* ===================================================================== *)
(** * Rounding to nearest in binary64 *)
(* ===================================================================== *)

Section PowersOfTwo.
Local Open Scope R_scope.

Lemma pow2_pos (e : Z) : 0 < powerRZ 2 e.
Proof. apply powerRZ_lt. lra. Qed.

Lemma pow2_add (a b : Z) : powerRZ 2 (a + b) = powerRZ 2 a * powerRZ 2 b.
Proof. apply powerRZ_add. lra. Qed.

Lemma pow2_succ (e : Z) : powerRZ 2 (e + 1) = 2 * powerRZ 2 e.
Proof. rewrite pow2_add. change (powerRZ 2 1) with (2 * 1). lra. Qed.

Lemma pow2_pred (e : Z) : powerRZ 2 (e - 1) = / 2 * powerRZ 2 e.
Proof.
  replace e with ((e - 1) + 1)%Z at 2 by lia. rewrite pow2_succ. lra.
Qed.

Lemma pow2_IZR (k : Z) : (0 <= k)%Z -> IZR (2 ^ k) = powerRZ 2 k.
Proof.
  intros H. destruct k as [|p|p]; [reflexivity| |lia].
  rewrite <- Zpower_pos_powerRZ. reflexivity.
Qed.

Lemma pow2_le (a b : Z) : (a <= b)%Z -> powerRZ 2 a <= powerRZ 2 b.
Proof.
  intros H. replace b with (a + (b - a))%Z by lia. rewrite pow2_add.
  assert (1 <= powerRZ 2 (b - a)).
  { rewrite <- pow2_IZR by lia. apply IZR_le.
    assert (0 < 2 ^ (b - a))%Z by (apply Z.pow_pos_nonneg; lia). lia. }
  pose proof (pow2_pos a). nra.
Qed.

Lemma pow2_lt (a b : Z) : (a < b)%Z -> powerRZ 2 a < powerRZ 2 b.
Proof.
  intros H. apply Rlt_le_trans with (powerRZ 2 (a + 1)).
  - rewrite pow2_succ. pose proof (pow2_pos a). lra.
  - apply pow2_le. lia.
Qed.

Lemma pow2_lt_inv (a b : Z) : powerRZ 2 a < powerRZ 2 b -> (a < b)%Z.
Proof.
  intros H. destruct (Z.lt_ge_cases a b) as [L|G]; [exact L|].
  pose proof (pow2_le b a G). lra.
Qed.

Lemma abs_le_inv (x a : R) : Rabs x <= a -> - a <= x <= a.
Proof.
  intros H. pose proof (Rle_abs x). pose proof (Rle_abs (- x)) as N.
  rewrite Rabs_Ropp in N. lra.
Qed.

End PowersOfTwo.

Section ShiftAndRound.
Local Open Scope R_scope.

Lemma offset_bounds (r s : bool) (t : R) : offset_in r s t -> 0 <= t < 1.
Proof. destruct r, s; cbn [offset_in]; lra. Qed.

(** One shift to the right keeps the place of the number. *)
Lemma shr_1_located (x : R) (mrs : shr_record) (e : Z) :
  (0 <= shr_m mrs)%Z -> located x mrs e ->
  located x (shr_1 mrs) (e + 1) /\ (0 <= shr_m (shr_1 mrs))%Z.
Proof.
  destruct mrs as [m r s]. intros P (t & X & O). cbn [shr_m shr_r shr_s] in *.
  pose proof (offset_bounds r s t O) as B.
  assert (F : r || s = false -> t = 0)
    by (destruct r, s; cbn [orb offset_in] in *; try discriminate; intros _; exact O).
  assert (T : r || s = true -> 0 < t)
    by (destruct r, s; cbn [orb offset_in] in O |- *; intros H; try discriminate H; lra).
  unfold located. rewrite pow2_succ.
  destruct m as [|[p|p|]|p]; cbn [shr_1 shr_m shr_r shr_s]; try lia.
  - split; [|lia]. exists (t / 2). split; [rewrite X; field|].
    destruct (r || s) eqn:E; cbn [offset_in]; [specialize (T eq_refl); lra|].
    rewrite (F eq_refl). lra.
  - split; [|lia]. exists ((1 + t) / 2).
    split; [rewrite X; rewrite (Pos2Z.inj_xI p), plus_IZR, mult_IZR; field|].
    destruct (r || s) eqn:E; cbn [offset_in]; [specialize (T eq_refl); lra|].
    rewrite (F eq_refl). lra.
  - split; [|lia]. exists (t / 2).
    split; [rewrite X; rewrite (Pos2Z.inj_xO p), mult_IZR; field|].
    destruct (r || s) eqn:E; cbn [offset_in]; [specialize (T eq_refl); lra|].
    rewrite (F eq_refl). lra.
  - split; [|lia]. exists ((1 + t) / 2). split; [rewrite X; field|].
    destruct (r || s) eqn:E; cbn [offset_in]; [specialize (T eq_refl); lra|].
    rewrite (F eq_refl). lra.
Qed.

Lemma shr_iter_located (x : R) (k : nat) :
  forall (mrs : shr_record) (e : Z),
    (0 <= shr_m mrs)%Z -> located x mrs e ->
    located x (Nat.iter k shr_1 mrs) (e + Z.of_nat k)
    /\ (0 <= shr_m (Nat.iter k shr_1 mrs))%Z.
Proof.
  induction k as [|k IH]; intros mrs e P L.
  - cbn [Nat.iter]. rewrite Z.add_0_r. split; assumption.
  - cbn [Nat.iter]. destruct (IH mrs e P L) as [L' P'].
    destruct (shr_1_located x _ _ P' L') as [L'' P''].
    split; [|exact P''].
    replace (e + Z.of_nat (S k))%Z with (e + Z.of_nat k + 1)%Z by lia. exact L''.
Qed.

(** Rounding to nearest moves the number by half a unit at most. *)
Lemma round_nearest_even_near (x : R) (mrs : shr_record) (e : Z) :
  located x mrs e ->
  Rabs (IZR (round_nearest_even (shr_m mrs) (loc_of_shr_record mrs)) * powerRZ 2 e - x)
  <= / 2 * powerRZ 2 e.
Proof.
  destruct mrs as [m r s]. intros (t & X & O). cbn [shr_m shr_r shr_s] in *.
  pose proof (pow2_pos e) as P.
  assert (D : forall c : R, Rabs c <= / 2 ->
                Rabs (c * powerRZ 2 e) <= / 2 * powerRZ 2 e).
  { intros c Hc. rewrite Rabs_mult, (Rabs_pos_eq (powerRZ 2 e)) by lra.
    apply Rmult_le_compat_r; lra. }
  destruct r, s; cbn [loc_of_shr_record round_nearest_even offset_in] in *.
  - replace (IZR (m + 1) * powerRZ 2 e - x) with ((1 - t) * powerRZ 2 e)
      by (rewrite X, plus_IZR; ring).
    apply D. apply Rabs_le. lra.
  - destruct (Z.even m).
    + replace (IZR m * powerRZ 2 e - x) with ((- t) * powerRZ 2 e) by (rewrite X; ring).
      apply D. apply Rabs_le. lra.
    + replace (IZR (m + 1) * powerRZ 2 e - x) with ((1 - t) * powerRZ 2 e)
        by (rewrite X, plus_IZR; ring).
      apply D. apply Rabs_le. lra.
  - replace (IZR m * powerRZ 2 e - x) with ((- t) * powerRZ 2 e) by (rewrite X; ring).
    apply D. apply Rabs_le. lra.
  - replace (IZR m * powerRZ 2 e - x) with ((- t) * powerRZ 2 e) by (rewrite X; ring).
    apply D. apply Rabs_le. lra.
Qed.

End ShiftAndRound.

Section RoundToNearest.
Local Open Scope R_scope.

(** The first shift of [binary_round_aux]: the mantissa keeps its
    leading digits and the number its place. *)
Lemma shr_first (x : R) (M : positive) (r s : bool) (E n : Z) :
  (0 <= n < Zpos (digits2_pos M))%Z ->
  located x (Build_shr_record (Zpos M) r s) E ->
  exists (q : positive) (r' s' : bool),
    shr (Build_shr_record (Zpos M) r s) E n = (Build_shr_record (Zpos q) r' s', (E + n)%Z)
    /\ (Zpos (digits2_pos q) = Zpos (digits2_pos M) - n)%Z
    /\ located x (Build_shr_record (Zpos q) r' s') (E + n).
Proof.
  intros Hn L. destruct n as [|p|p]; [| |lia].
  - exists M, r, s. cbn [shr]. rewrite !Z.add_0_r, Z.sub_0_r. repeat split. exact L.
  - cbn [shr]. rewrite iter_pos_nat.
    destruct (shr_keeps_top_digits (Pos.to_nat p) M r s) as (q & r' & s' & I & D);
      [rewrite positive_nat_Z; lia|].
    exists q, r', s'. rewrite I. split; [reflexivity|].
    split; [rewrite D, positive_nat_Z; reflexivity|].
    destruct (shr_iter_located x (Pos.to_nat p) (Build_shr_record (Zpos M) r s) E)
      as [L' _]; [cbn; lia|exact L|].
    rewrite I, positive_nat_Z in L'. exact L'.
Qed.

Lemma digits_53 (q : positive) :
  Zpos (digits2_pos q) = 53%Z <-> (2 ^ 52 <= Zpos q < 2 ^ 53)%Z.
Proof.
  split.
  - intros D. pose proof (digits2_pos_bounds q) as B. rewrite D in B. exact B.
  - intros [L U]. pose proof (digits2_pos_gt q 52 L). 
    pose proof (digits2_pos_le q 53 ltac:(lia) U). lia.
Qed.

(** [binary_round_aux] rounds to nearest: on a mantissa of at least 53
    digits, in the normal range and short of overflow, the result is a
    normal number half a unit in the last place away from the number at
    most. *)
Lemma round_aux_near (x : R) (M : positive) (E : Z) (l : location) :
  let d := Zpos (digits2_pos M) in
  (53 <= d)%Z -> (-1074 <= d + E - 53)%Z ->
  located x (shr_record_of_loc (Zpos M) l) E ->
  x * (1 + / IZR (2 ^ 53)) < powerRZ 2 1024 ->
  exists (m' : positive) (e' c : Z),
    binary_round_aux prec emax false (Zpos M) E l = S754_finite false m' e'
    /\ Zpos (digits2_pos m') = 53%Z
    /\ (d + E - 53 <= e')%Z
    /\ IZR (Zpos m') * powerRZ 2 e' = IZR c * powerRZ 2 (d + E - 53)
    /\ (2 ^ 52 <= c <= 2 ^ 53)%Z
    /\ IZR (2 ^ 52) * powerRZ 2 (d + E - 53) <= x
    /\ Rabs (IZR c * powerRZ 2 (d + E - 53) - x) <= / 2 * powerRZ 2 (d + E - 53)
    /\ Rabs (IZR (Zpos m') * powerRZ 2 e' - x) <= x * / IZR (2 ^ 53).
Proof.
  intros d Hd Hn L Ov.
  set (e1 := (d + E - 53)%Z) in *.
  pose proof (pow2_pos e1) as Pe1.
  unfold binary_round_aux, shr_fexp. cbn [Zdigits2]. fold d. rewrite fexp64.
  replace (Z.max (d + E - 53) (-1074) - E)%Z with (d - 53)%Z by lia.
  assert (Rec : shr_record_of_loc (Zpos M) l
                = Build_shr_record (Zpos M) (shr_r (shr_record_of_loc (Zpos M) l))
                                   (shr_s (shr_record_of_loc (Zpos M) l)))
    by (destruct l as [|[| |]]; reflexivity).
  rewrite Rec in L |- *.
  destruct (shr_first x M _ _ E (d - 53) ltac:(unfold d in *; lia) L)
    as (q & r' & s' & Sh & Dq & Lq).
  rewrite Sh. replace (E + (d - 53))%Z with e1 in * by (unfold e1; lia).
  assert (Dq' : Zpos (digits2_pos q) = 53%Z) by (fold d in Dq; lia).
  apply digits_53 in Dq' as Bq.
  cbn [shr_m].
  pose proof (round_nearest_even_near x _ e1 Lq) as Near. cbn [shr_m] in Near.
  destruct (round_nearest_even_pos q (loc_of_shr_record (Build_shr_record (Zpos q) r' s')))
    as (q' & Rq & Bq').
  rewrite Rq in Near |- *.
  assert (Low : IZR (2 ^ 52) * powerRZ 2 e1 <= x).
  { destruct Lq as (t & X & O). cbn [shr_m shr_r shr_s] in X, O.
    pose proof (offset_bounds _ _ _ O) as Bt. rewrite X.
    apply Rmult_le_compat_r; [lra|].
    assert (IZR (2 ^ 52) <= IZR (Zpos q)) by (apply IZR_le; lia). lra. }
  assert (Half : / 2 * powerRZ 2 e1 <= x * / IZR (2 ^ 53)).
  { apply Rle_trans with (IZR (2 ^ 52) * powerRZ 2 e1 * / IZR (2 ^ 53)).
    - replace (IZR (2 ^ 53)) with (2 * IZR (2 ^ 52))
        by (rewrite <- mult_IZR; f_equal).
      assert (0 < IZR (2 ^ 52)) by (apply IZR_lt; lia). 
      apply Req_le. field. lra.
    - apply Rmult_le_compat_r; [|exact Low].
      apply Rlt_le, Rinv_0_lt_compat, IZR_lt. lia. }
  assert (Val : IZR (Zpos q') * powerRZ 2 e1 < powerRZ 2 1024).
  { apply abs_le_inv in Near. lra. }
  cbn [Zdigits2 shr_record_of_loc]. rewrite fexp64.
  destruct (Z.eq_dec (Zpos q') (2 ^ 53)) as [Carry|NoCarry].
  - assert (Eq' : q' = Pos.pow 2 53) by lia. subst q'.
    change (Zpos (digits2_pos (2 ^ 53))) with 54%Z.
    replace (Z.max (54 + e1 - 53) (-1074) - e1)%Z with 1%Z by lia.
    cbn [shr SpecFloat.iter_pos]. change (shr_1 _) with (Build_shr_record (2 ^ 52) false false).
    cbn [shr_m]. change (2 ^ 52)%Z with (Zpos (2 ^ 52)).
    assert (Ex : (e1 + 1 <= 971)%Z).
    { change (Zpos (2 ^ 53)) with (2 ^ 53)%Z in Val. rewrite pow2_IZR in Val by lia.
      rewrite <- pow2_add in Val. apply pow2_lt_inv in Val. lia. }
    change (emax - prec)%Z with 971%Z.
    rewrite (proj2 (Z.leb_le _ _) Ex).
    exists (2 ^ 52)%positive, (e1 + 1)%Z, (2 ^ 53)%Z.
    split; [reflexivity|]. split; [reflexivity|]. split; [lia|].
    split.
    { rewrite pow2_succ. change (Zpos (2 ^ 52)) with (2 ^ 52)%Z.
      replace (IZR (2 ^ 53)) with (2 * IZR (2 ^ 52)) by (rewrite <- mult_IZR; f_equal).
      ring. }
    split; [lia|]. split; [exact Low|]. split; [exact Near|].
    rewrite pow2_succ. change (Zpos (2 ^ 52)) with (2 ^ 52)%Z.
    replace (IZR (2 ^ 52) * (2 * powerRZ 2 e1)) with (IZR (2 ^ 53) * powerRZ 2 e1)
      by (replace (IZR (2 ^ 53)) with (2 * IZR (2 ^ 52)) by (rewrite <- mult_IZR; f_equal);
          ring).
    eapply Rle_trans; [exact Near|exact Half].
  - assert (D' : Zpos (digits2_pos q') = 53%Z) by (apply digits_53; lia).
    rewrite D'.
    replace (Z.max (53 + e1 - 53) (-1074) - e1)%Z with 0%Z by lia.
    cbn [shr shr_m].
    assert (Ex : (e1 <= 971)%Z).
    { assert (IZR (2 ^ 52) * powerRZ 2 e1 < powerRZ 2 1024).
      { apply Rle_lt_trans with (IZR (Zpos q') * powerRZ 2 e1); [|exact Val].
        apply Rmult_le_compat_r; [lra|]. apply IZR_le. lia. }
      rewrite pow2_IZR in H by lia. rewrite <- pow2_add in H.
      apply pow2_lt_inv in H. lia. }
    change (emax - prec)%Z with 971%Z.
    rewrite (proj2 (Z.leb_le _ _) Ex).
    exists q', e1, (Zpos q').
    split; [reflexivity|]. split; [exact D'|]. split; [lia|].
    split; [reflexivity|]. split; [lia|]. split; [exact Low|]. split; [exact Near|]. lra.
Qed.

(** [binary_round_aux] in the subnormal range: the result is a multiple
    of 2^-1074, half that unit away from the number at most. *)
Lemma round_aux_tiny (x : R) (M : positive) (E : Z) (l : location) :
  let d := Zpos (digits2_pos M) in
  (d + E - 53 < -1074)%Z -> (-1074 <= d - 1 + E)%Z -> (E <= -1074)%Z ->
  located x (shr_record_of_loc (Zpos M) l) E ->
  exists m' : positive,
    binary_round_aux prec emax false (Zpos M) E l = S754_finite false m' (-1074)
    /\ (Zpos (digits2_pos m') <= 53)%Z
    /\ Rabs (IZR (Zpos m') * powerRZ 2 (-1074) - x) <= / 2 * powerRZ 2 (-1074).
Proof.
  intros d Hs Hl HE L.
  unfold binary_round_aux, shr_fexp. cbn [Zdigits2]. fold d. rewrite fexp64.
  replace (Z.max (d + E - 53) (-1074) - E)%Z with (-1074 - E)%Z by lia.
  assert (Rec : shr_record_of_loc (Zpos M) l
                = Build_shr_record (Zpos M) (shr_r (shr_record_of_loc (Zpos M) l))
                                   (shr_s (shr_record_of_loc (Zpos M) l)))
    by (destruct l as [|[| |]]; reflexivity).
  rewrite Rec in L |- *.
  destruct (shr_first x M _ _ E (-1074 - E) ltac:(unfold d in *; lia) L)
    as (q & r' & s' & Sh & Dq & Lq).
  rewrite Sh. replace (E + (-1074 - E))%Z with (-1074)%Z in * by lia.
  fold d in Dq.
  assert (Uq : (Zpos q < 2 ^ 52)%Z).
  { pose proof (digits2_pos_bounds q) as [_ U].
    eapply Z.lt_le_trans; [exact U|]. apply Z.pow_le_mono_r; lia. }
  cbn [shr_m].
  pose proof (round_nearest_even_near x _ (-1074) Lq) as Near. cbn [shr_m] in Near.
  destruct (round_nearest_even_pos q (loc_of_shr_record (Build_shr_record (Zpos q) r' s')))
    as (q' & Rq & Bq').
  rewrite Rq in Near |- *.
  assert (Dq' : (Zpos (digits2_pos q') <= 53)%Z)
    by (apply digits2_pos_le; lia).
  cbn [Zdigits2 shr_record_of_loc]. rewrite fexp64.
  replace (Z.max (Zpos (digits2_pos q') + -1074 - 53) (-1074) - -1074)%Z with 0%Z by lia.
  cbn [shr shr_m].
  exists q'. split; [reflexivity|]. split; [exact Dq'|exact Near].
Qed.

End RoundToNearest.

Section Operations.
Local Open Scope R_scope.

Lemma square_lt (a b : R) : 0 <= a -> a < b -> a * a < b * b.
Proof. intros Ha H. nra. Qed.

Lemma square_le (a b : R) : 0 <= a -> a <= b -> a * a <= b * b.
Proof. intros Ha H. nra. Qed.

Lemma sqrt_between (y q r : R) :
  0 <= y -> 0 <= q -> y * y = q * q + r -> 0 <= r <= 2 * q ->
  (r = 0 -> y = q)
  /\ (0 < r -> r <= q -> q < y < q + / 2)
  /\ (q + 1 <= r -> q + / 2 < y < q + 1).
Proof.
  intros Hy Hq E Hr.
  assert (U : y < q + 1).
  { destruct (Rlt_le_dec y (q + 1)) as [L|G]; [exact L|].
    pose proof (square_le (q + 1) y ltac:(lra) G). lra. }
  split; [|split].
  - intros R0. destruct (Rtotal_order y q) as [L|[Eq|G]]; [|exact Eq|].
    + pose proof (square_lt y q Hy L). lra.
    + pose proof (square_lt q y Hq G). lra.
  - intros R0 Rq. split.
    + destruct (Rlt_le_dec q y) as [L|G]; [exact L|].
      pose proof (square_le y q Hy G). lra.
    + destruct (Rlt_le_dec y (q + / 2)) as [L|G]; [exact L|].
      pose proof (square_le (q + / 2) y ltac:(lra) G). lra.
  - intros Rq. split; [|exact U].
    destruct (Rlt_le_dec (q + / 2) y) as [L|G]; [exact L|].
    pose proof (square_le y (q + / 2) Hy G). lra.
Qed.

Lemma sqrt_scaled (a : R) (e : Z) :
  0 <= a -> sqrt (a * powerRZ 2 (2 * e)) = sqrt a * powerRZ 2 e.
Proof.
  intros Ha. pose proof (pow2_pos e) as P.
  rewrite sqrt_mult by (try assumption; apply Rlt_le, pow2_pos).
  f_equal. replace (2 * e)%Z with (e + e)%Z by lia. rewrite pow2_add.
  apply sqrt_square. lra.
Qed.

(** The square root of a finite positive number, normal or subnormal,
    is rounded to nearest, to a normal number, without carry. *)
Lemma SFsqrt_nearest (m : positive) (e : Z) :
  (Zpos (digits2_pos m) <= 53)%Z -> (-1074 <= e <= 971)%Z ->
  exists (m' : positive) (e' c : Z),
    SFsqrt prec emax (S754_finite false m e) = S754_finite false m' e'
    /\ Zpos (digits2_pos m') = 53%Z
    /\ (Z.div2 (Zpos (digits2_pos m) + e + 1) - 53 <= e')%Z
    /\ IZR (Zpos m') * powerRZ 2 e'
       = IZR c * powerRZ 2 (Z.div2 (Zpos (digits2_pos m) + e + 1) - 53)
    /\ (2 ^ 52 <= c < 2 ^ 53)%Z
    /\ Rabs (IZR (Zpos m') * powerRZ 2 e' - sqrt (IZR (Zpos m) * powerRZ 2 e))
       <= sqrt (IZR (Zpos m) * powerRZ 2 e) * / IZR (2 ^ 53).
Proof.
  intros D He. pose proof (digits2_pos_bounds m) as Bm.
  set (d := Zpos (digits2_pos m)) in *.
  assert (Hd : (1 <= d)%Z) by (unfold d; lia).
  set (h := Z.div2 (d + e + 1)).
  assert (Eh : (d + e + 1 = 2 * h \/ d + e + 1 = 2 * h + 1)%Z).
  { unfold h. rewrite Z.div2_div. pose proof (Z.div_mod (d + e + 1) 2 ltac:(lia)).
    pose proof (Z.mod_pos_bound (d + e + 1) 2 ltac:(lia)). lia. }
  assert (Ek : (e = 2 * Z.div2 e \/ e = 2 * Z.div2 e + 1)%Z).
  { rewrite Z.div2_div. pose proof (Z.div_mod e 2 ltac:(lia)).
    pose proof (Z.mod_pos_bound e 2 ltac:(lia)). lia. }
  cbn [SFsqrt]. unfold SFsqrt_core_binary. cbn [Zdigits2]. fold d. fold h.
  rewrite fexp64.
  replace (Z.min (Z.max (h - 53) (-1074)) (Z.div2 e)) with (h - 53)%Z by lia.
  set (sh := (e - 2 * (h - 53))%Z).
  assert (Hs : (d + sh = 105 \/ d + sh = 106)%Z) by (unfold sh; lia).
  assert (Hs0 : (52 <= sh)%Z) by lia.
  set (m2 := (Zpos m * 2 ^ sh)%Z).
  assert (Em2 : match sh with
                | Zpos _ => Z.shiftl (Zpos m) sh
                | 0%Z => Zpos m
                | Zneg _ => 0%Z
                end = m2).
  { unfold m2. destruct sh as [|p|p] eqn:S; try lia.
    rewrite Z.shiftl_mul_pow2 by lia. reflexivity. }
  rewrite Em2.
  assert (Bm2 : (2 ^ 104 <= m2 <= 2 ^ 106 - 2 ^ 53)%Z).
  { unfold m2. destruct Bm as [Lm Um].
    assert (P1 : (0 < 2 ^ sh)%Z) by (apply Z.pow_pos_nonneg; lia).
    assert (L : (2 ^ (d - 1) * 2 ^ sh <= Zpos m * 2 ^ sh)%Z)
      by (apply Z.mul_le_mono_nonneg_r; lia).
    assert (U : (Zpos m * 2 ^ sh <= (2 ^ d - 1) * 2 ^ sh)%Z)
      by (apply Z.mul_le_mono_nonneg_r; lia).
    rewrite <- Z.pow_add_r in L by lia.
    rewrite Z.mul_sub_distr_r, <- Z.pow_add_r, Z.mul_1_l in U by lia.
    assert (L2 : (2 ^ 104 <= 2 ^ (d - 1 + sh))%Z) by (apply Z.pow_le_mono_r; lia).
    assert (S53 : (2 ^ 52 <= 2 ^ sh)%Z) by (apply Z.pow_le_mono_r; lia).
    split; [lia|].
    destruct Hs as [H5|H6].
    - rewrite H5 in U. lia.
    - rewrite H6 in U.
      assert (2 ^ 53 <= 2 ^ sh)%Z by (apply Z.pow_le_mono_r; lia). lia. }
  pose proof (Z.sqrtrem_spec m2 ltac:(lia)) as Sp.
  pose proof (Z.sqrtrem_sqrt m2) as Sq.
  destruct (Z.sqrtrem m2) as [q r]. cbn [fst] in Sq. destruct Sp as [Sp Hr].
  assert (Bq : (2 ^ 52 <= q < 2 ^ 53)%Z).
  { subst q. split.
    - change (2 ^ 52)%Z with (Z.sqrt (2 ^ 52 * 2 ^ 52)).
      apply Z.sqrt_le_mono. lia.
    - apply Z.sqrt_lt_square; lia. }
  destruct q as [|q|q]; try lia.
  apply digits_53 in Bq as Dq.
  set (lz := if (r =? 0)%Z then loc_Exact
             else loc_Inexact (if (r <=? Zpos q)%Z then Lt else Gt)).
  set (x := sqrt (IZR (Zpos m) * powerRZ 2 e)).
  assert (Ex : x = sqrt (IZR m2) * powerRZ 2 (h - 53)).
  { unfold x. rewrite <- sqrt_scaled by (apply IZR_le; lia). f_equal.
    unfold m2. rewrite mult_IZR, pow2_IZR by lia. rewrite Rmult_assoc, <- pow2_add.
    f_equal. f_equal. unfold sh. lia. }
  set (y := sqrt (IZR m2)) in *.
  assert (Hy : 0 <= y) by apply sqrt_pos.
  assert (Ey : y * y = IZR (Zpos q) * IZR (Zpos q) + IZR r).
  { unfold y. rewrite sqrt_sqrt by (apply IZR_le; lia).
    rewrite Sp, plus_IZR, mult_IZR. reflexivity. }
  assert (Hq : 0 <= IZR (Zpos q)) by (apply IZR_le; lia).
  assert (Hr' : 0 <= IZR r <= 2 * IZR (Zpos q)).
  { split; [apply IZR_le; lia|]. rewrite <- mult_IZR. apply IZR_le. lia. }
  destruct (sqrt_between y (IZR (Zpos q)) (IZR r) Hy Hq Ey Hr') as (B0 & B1 & B2).
  assert (Loc : located x (shr_record_of_loc (Zpos q) lz) (h - 53)).
  { exists (y - IZR (Zpos q)). split.
    - replace (shr_m (shr_record_of_loc (Zpos q) lz)) with (Zpos q)
        by (destruct lz as [|[| |]]; reflexivity).
      rewrite Ex. ring.
    - unfold lz. destruct (Z.eqb_spec r 0) as [R0|R0].
      + cbn. rewrite (B0 ltac:(rewrite R0; reflexivity)). lra.
      + assert (0 < IZR r) by (apply IZR_lt; lia).
        destruct (Z.leb_spec r (Zpos q)) as [Le|Gt]; cbn.
        * assert (IZR r <= IZR (Zpos q)) by (apply IZR_le; lia).
          specialize (B1 ltac:(assumption) ltac:(assumption)). lra.
        * assert (IZR (Zpos q) + 1 <= IZR r) by (rewrite <- plus_IZR; apply IZR_le; lia).
          specialize (B2 ltac:(assumption)). lra. }
  assert (Xpos : 0 < x).
  { rewrite Ex. apply Rmult_lt_0_compat; [|apply pow2_pos].
    assert (IZR (Zpos q) <= y).
    { destruct (Z.eqb_spec r 0) as [R0|R0].
      - rewrite (B0 ltac:(rewrite R0; reflexivity)). lra.
      - assert (0 < IZR r) by (apply IZR_lt; lia).
        destruct (Z.leb_spec r (Zpos q)) as [Le|Gt].
        + assert (IZR r <= IZR (Zpos q)) by (apply IZR_le; lia).
          specialize (B1 ltac:(assumption) ltac:(assumption)). lra.
        + assert (IZR (Zpos q) + 1 <= IZR r) by (rewrite <- plus_IZR; apply IZR_le; lia).
          specialize (B2 ltac:(assumption)). lra. }
    assert (0 < IZR (Zpos q)) by (apply IZR_lt; lia). lra. }
  assert (Yup : y < IZR (2 ^ 53) - / 2).
  { assert (Hm2 : IZR m2 <= IZR (2 ^ 53) * IZR (2 ^ 53) - IZR (2 ^ 53)).
    { rewrite <- mult_IZR, <- minus_IZR. apply IZR_le. lia. }
    assert (K : 1 <= IZR (2 ^ 53)) by (apply IZR_le; lia).
    unfold y in *. set (K53 := IZR (2 ^ 53)) in *.
    assert (Ey2 : sqrt (IZR m2) * sqrt (IZR m2) = IZR m2)
      by (apply sqrt_sqrt, IZR_le; lia).
    nra. }
  destruct (round_aux_near x q (h - 53) lz) as (m' & e' & c & Rn & Dm' & Le' & Vc & Bc & _ & Near & Rel).
  - rewrite Dq. lia.
  - rewrite Dq. lia.
  - exact Loc.
  - apply Rlt_trans with (powerRZ 2 513).
    + assert (x < powerRZ 2 512).
      { rewrite Ex. apply Rlt_le_trans with (IZR (2 ^ 53) * powerRZ 2 (h - 53)).
        - apply Rmult_lt_compat_r; [apply pow2_pos|lra].
        - rewrite pow2_IZR by lia. rewrite <- pow2_add. apply pow2_le. lia. }
      assert (0 < / IZR (2 ^ 53) <= 1).
      { split; [apply Rinv_0_lt_compat, IZR_lt; lia|].
        rewrite <- Rinv_1. apply Rinv_le_contravar; [lra|apply IZR_le; lia]. }
      replace 513%Z with (512 + 1)%Z by lia. rewrite pow2_succ. nra.
    + apply pow2_lt. lia.
  - rewrite Dq in *. replace (53 + (h - 53) - 53)%Z with (h - 53)%Z in * by lia.
    exists m', e', c. split; [exact Rn|]. split; [exact Dm'|]. split; [exact Le'|].
    split; [exact Vc|]. split; [|exact Rel].
    split; [lia|].
    destruct (Z.eq_dec c (2 ^ 53)) as [C|C]; [|lia]. exfalso.
    rewrite C, Ex in Near. apply abs_le_inv in Near.
    pose proof (pow2_pos (h - 53)) as P. nra.
Qed.

End Operations.

Section MulDiv.
Local Open Scope R_scope.

(** The product of two normal numbers is rounded to nearest when it
    neither underflows nor overflows. *)
Lemma SFmul_near (m1 m2 : positive) (e1 e2 : Z) :
  Zpos (digits2_pos m1) = 53%Z -> Zpos (digits2_pos m2) = 53%Z ->
  (-1126 <= e1 + e2)%Z ->
  IZR (Zpos m1) * powerRZ 2 e1 * (IZR (Zpos m2) * powerRZ 2 e2) * (1 + / IZR (2 ^ 53))
  < powerRZ 2 1024 ->
  exists (m' : positive) (e' : Z),
    SFmul prec emax (S754_finite false m1 e1) (S754_finite false m2 e2)
    = S754_finite false m' e'
    /\ Zpos (digits2_pos m') = 53%Z
    /\ Rabs (IZR (Zpos m') * powerRZ 2 e'
             - IZR (Zpos m1) * powerRZ 2 e1 * (IZR (Zpos m2) * powerRZ 2 e2))
       <= IZR (Zpos m1) * powerRZ 2 e1 * (IZR (Zpos m2) * powerRZ 2 e2) * / IZR (2 ^ 53).
Proof.
  intros D1 D2 He Ov. apply digits_53 in D1 as B1. apply digits_53 in D2 as B2.
  set (x := IZR (Zpos m1) * powerRZ 2 e1 * (IZR (Zpos m2) * powerRZ 2 e2)) in *.
  cbn [SFmul xorb].
  assert (Bp : (2 ^ 104 <= Zpos (m1 * m2))%Z).
  { rewrite Pos2Z.inj_mul. change (2 ^ 104)%Z with (2 ^ 52 * 2 ^ 52)%Z.
    apply Z.mul_le_mono_nonneg; lia. }
  pose proof (digits2_pos_gt (m1 * m2) 104 Bp) as Dp.
  destruct (round_aux_near x (m1 * m2) (e1 + e2) loc_Exact)
    as (m' & e' & c & Rn & Dm' & _ & _ & _ & _ & _ & Rel).
  - lia.
  - lia.
  - exists 0. cbn [shr_record_of_loc shr_m shr_r shr_s offset_in]. split; [|reflexivity].
    unfold x. rewrite Pos2Z.inj_mul, mult_IZR, pow2_add. ring.
  - exact Ov.
  - exists m', e'. split; [exact Rn|]. split; [exact Dm'|exact Rel].
Qed.

(** The quotient of two finite positive numbers of neighbouring
    magnitudes is rounded to nearest. *)
Lemma SFdiv_nearest (m1 m2 : positive) (e1 e2 : Z) :
  (Zpos (digits2_pos m1) <= 53)%Z -> (Zpos (digits2_pos m2) <= 53)%Z ->
  (-1 <= Zpos (digits2_pos m1) + e1 - (Zpos (digits2_pos m2) + e2) <= 1)%Z ->
  exists (m' : positive) (e' : Z),
    SFdiv prec emax (S754_finite false m1 e1) (S754_finite false m2 e2)
    = S754_finite false m' e'
    /\ Rabs (IZR (Zpos m') * powerRZ 2 e'
             - IZR (Zpos m1) * powerRZ 2 e1 / (IZR (Zpos m2) * powerRZ 2 e2))
       <= IZR (Zpos m1) * powerRZ 2 e1 / (IZR (Zpos m2) * powerRZ 2 e2) * / IZR (2 ^ 53).
Proof.
  intros D1 D2 He.
  pose proof (digits2_pos_bounds m1) as B1. pose proof (digits2_pos_bounds m2) as B2.
  set (d1 := Zpos (digits2_pos m1)) in *. set (d2 := Zpos (digits2_pos m2)) in *.
  assert (Hd1 : (1 <= d1)%Z) by (unfold d1; lia).
  assert (Hd2 : (1 <= d2)%Z) by (unfold d2; lia).
  set (x := IZR (Zpos m1) * powerRZ 2 e1 / (IZR (Zpos m2) * powerRZ 2 e2)).
  cbn [SFdiv xorb]. unfold SFdiv_core_binary. cbn [Zdigits2]. fold d1 d2. rewrite fexp64.
  replace (Z.min (Z.max (d1 + e1 - (d2 + e2) - 53) (-1074)) (e1 - e2))
    with (d1 + e1 - (d2 + e2) - 53)%Z by lia.
  set (E := (d1 + e1 - (d2 + e2) - 53)%Z).
  set (s := (e1 - e2 - E)%Z).
  assert (Hs : (s = 53 - d1 + d2)%Z) by (unfold s, E; lia).
  assert (Hs0 : (1 <= s)%Z) by lia.
  set (n := (Zpos m1 * 2 ^ s)%Z).
  assert (En : match s with
               | Zpos _ => Z.shiftl (Zpos m1) s
               | 0%Z => Zpos m1
               | Zneg _ => 0%Z
               end = n).
  { unfold n. destruct s as [|p|p] eqn:S; try lia.
    rewrite Z.shiftl_mul_pow2 by lia. reflexivity. }
  rewrite En.
  set (A := (2 ^ (d2 - 1))%Z) in *.
  assert (PA : (0 < A)%Z) by (apply Z.pow_pos_nonneg; lia).
  assert (B2' : (A <= Zpos m2 < 2 * A)%Z).
  { destruct B2 as [L U]. split; [exact L|].
    replace d2 with (Z.succ (d2 - 1)) in U by lia.
    rewrite Z.pow_succ_r in U by lia. exact U. }
  assert (Bn : (2 ^ 53 * A <= n < 2 ^ 54 * A)%Z).
  { unfold n, A. destruct B1 as [L U].
    assert (P1 : (0 < 2 ^ s)%Z) by (apply Z.pow_pos_nonneg; lia).
    assert (L' : (2 ^ (d1 - 1) * 2 ^ s <= Zpos m1 * 2 ^ s)%Z)
      by (apply Z.mul_le_mono_nonneg_r; lia).
    assert (U' : (Zpos m1 * 2 ^ s < 2 ^ d1 * 2 ^ s)%Z)
      by (apply Z.mul_lt_mono_pos_r; lia).
    rewrite <- Z.pow_add_r in L', U' by lia.
    rewrite <- !Z.pow_add_r by lia.
    replace (d1 - 1 + s)%Z with (53 + (d2 - 1))%Z in L' by lia.
    replace (d1 + s)%Z with (54 + (d2 - 1))%Z in U' by lia.
    lia. }
  pose proof (Z_div_mod n (Zpos m2) ltac:(lia)) as Sp.
  destruct (Z.div_eucl n (Zpos m2)) as [q r]. destruct Sp as [Sp Hr].
  assert (Bq : (2 ^ 52 <= q < 2 ^ 54)%Z).
  { split.
    - destruct (Z.lt_ge_cases q (2 ^ 52)) as [Lt|Ge]; [exfalso|lia].
      assert (Zpos m2 * q + r < Zpos m2 * 2 ^ 52)%Z by nia.
      assert (Zpos m2 * 2 ^ 52 < 2 * A * 2 ^ 52)%Z by nia.
      lia.
    - destruct (Z.lt_ge_cases q (2 ^ 54)) as [Lt|Ge]; [lia|exfalso].
      assert (A * 2 ^ 54 <= Zpos m2 * q)%Z by nia.
      lia. }
  destruct q as [|q|q]; try lia.
  assert (P1 : 0 < IZR (Zpos m1)) by (apply IZR_lt; lia).
  assert (P2 : 0 < IZR (Zpos m2)) by (apply IZR_lt; lia).
  pose proof (pow2_pos e1) as Pe1. pose proof (pow2_pos e2) as Pe2.
  assert (Ex : x = (IZR (Zpos q) + IZR r / IZR (Zpos m2)) * powerRZ 2 E).
  { unfold x. replace e1 with (e2 + E + s)%Z at 1 by (unfold s; lia).
    rewrite !pow2_add. rewrite <- (pow2_IZR s) by lia.
    assert (En' : IZR (Zpos m1) * IZR (2 ^ s) = IZR (Zpos m2) * IZR (Zpos q) + IZR r)
      by (rewrite <- !mult_IZR, <- plus_IZR; f_equal; exact Sp).
    field_simplify; try lra.
    replace (IZR (Zpos m1) * powerRZ 2 E * IZR (2 ^ s))
      with ((IZR (Zpos m1) * IZR (2 ^ s)) * powerRZ 2 E) by ring.
    rewrite En'. field. lra. }
  set (t := IZR r / IZR (Zpos m2)) in *.
  assert (At : IZR r = t * IZR (Zpos m2)) by (unfold t; field; lra).
  assert (Hr' : 0 <= IZR r < IZR (Zpos m2)) by (split; [apply IZR_le|apply IZR_lt]; lia).
  assert (Bt : 0 <= t < 1) by (split; nra).
  assert (Loc : located x (shr_record_of_loc (Zpos q) (new_location (Zpos m2) r)) E).
  { exists t. split.
    - replace (shr_m (shr_record_of_loc (Zpos q) (new_location (Zpos m2) r))) with (Zpos q)
        by (destruct (new_location (Zpos m2) r) as [|[| |]]; reflexivity).
      exact Ex.
    - unfold new_location, new_location_even, new_location_odd.
      assert (Twice : IZR (2 * r) = 2 * t * IZR (Zpos m2)) by (rewrite mult_IZR, At; ring).
      destruct (Z.even (Zpos m2)) eqn:Ev; destruct (Z.eqb_spec r 0) as [R0|R0].
      + cbn. unfold t. rewrite R0. field. lra.
      + assert (0 < IZR r) by (apply IZR_lt; lia).
        destruct (Z.compare_spec (2 * r) (Zpos m2)) as [C|C|C]; cbn.
        * assert (IZR (2 * r) = IZR (Zpos m2)) by (f_equal; exact C). nra.
        * assert (IZR (2 * r) < IZR (Zpos m2)) by (apply IZR_lt; exact C). split; nra.
        * assert (IZR (Zpos m2) < IZR (2 * r)) by (apply IZR_lt; exact C). split; nra.
      + cbn. unfold t. rewrite R0. field. lra.
      + assert (0 < IZR r) by (apply IZR_lt; lia).
        assert (Odd : (2 * r <> Zpos m2)%Z).
        { intros C. rewrite <- C, Z.even_mul in Ev. discriminate Ev. }
        destruct (Z.compare_spec (2 * r + 1) (Zpos m2)) as [C|C|C]; cbn.
        * assert (IZR (2 * r) < IZR (Zpos m2)) by (apply IZR_lt; lia). split; nra.
        * assert (IZR (2 * r) < IZR (Zpos m2)) by (apply IZR_lt; lia). split; nra.
        * assert (IZR (Zpos m2) < IZR (2 * r)) by (apply IZR_lt; lia). split; nra. }
  assert (Dq : (53 <= Zpos (digits2_pos q) <= 54)%Z).
  { pose proof (digits2_pos_gt q 52 ltac:(lia)).
    pose proof (digits2_pos_le q 54 ltac:(lia) ltac:(lia)). lia. }
  assert (Xup : x < 4).
  { rewrite Ex.
    assert (powerRZ 2 E <= powerRZ 2 (-52)) by (apply pow2_le; unfold E; lia).
    pose proof (pow2_pos E) as PE.
    assert (Hq : IZR (Zpos q) + t < IZR (2 ^ 54)).
    { assert (Lq : (Zpos q + 1 <= 2 ^ 54)%Z) by lia.
      apply IZR_le in Lq. rewrite plus_IZR in Lq. lra. }
    apply Rlt_le_trans with (IZR (2 ^ 54) * powerRZ 2 (-52)).
    - apply Rle_lt_trans with ((IZR (Zpos q) + t) * powerRZ 2 (-52)).
      + apply Rmult_le_compat_l; [|assumption].
        assert (0 <= IZR (Zpos q)) by (apply IZR_le; lia). lra.
      + apply Rmult_lt_compat_r; [apply pow2_pos|exact Hq].
    - rewrite pow2_IZR by lia. rewrite <- pow2_add. change (54 + -52)%Z with 2%Z.
      change (powerRZ 2 2) with (2 * (2 * 1)). lra. }
  assert (Xpos : 0 < x).
  { rewrite Ex. apply Rmult_lt_0_compat; [|apply pow2_pos].
    assert (0 < IZR (Zpos q)) by (apply IZR_lt; lia). lra. }
  destruct (round_aux_near x q E (new_location (Zpos m2) r))
    as (m' & e' & c & Rn & _ & _ & _ & _ & _ & _ & Rel).
  - lia.
  - unfold E. lia.
  - exact Loc.
  - apply Rlt_trans with 8.
    + assert (0 < / IZR (2 ^ 53) <= 1).
      { split; [apply Rinv_0_lt_compat, IZR_lt; lia|].
        rewrite <- Rinv_1. apply Rinv_le_contravar; [lra|apply IZR_le; lia]. }
      nra.
    + change 8 with (IZR 8). replace 8%Z with (2 ^ 3)%Z by reflexivity.
      rewrite pow2_IZR by lia. apply pow2_lt. lia.
  - exists m', e'. split; [exact Rn|exact Rel].
Qed.

End MulDiv.

Section RoundingChain.
Local Open Scope R_scope.

(** A positive normal number has a mantissa of 53 digits. *)
Lemma normal_spec (s : float) :
  PrimFloat.classify s = PNormal ->
  exists (m : positive) (e : Z),
    Prim2SF s = S754_finite false m e
    /\ Zpos (digits2_pos m) = 53%Z /\ (-1074 <= e <= 971)%Z.
Proof.
  rewrite classify_spec. unfold SF64classify. intros C.
  pose proof (Prim2SF_valid s) as V.
  destruct (Prim2SF s) as [[|]|[|]| |[|] m e]; cbn [SFclassify] in C; try discriminate C.
  - destruct (Z.eqb_spec (Zpos (digits2_pos m)) prec); discriminate C.
  - destruct (Z.eqb_spec (Zpos (digits2_pos m)) prec) as [D|D]; [|discriminate C].
    exists m, e. split; [reflexivity|]. split; [exact D|].
    cbn [SpecFloat.valid_binary] in V. destruct (valid_finite m e V) as [B _]. exact B.
Qed.

(** A positive subnormal number has a mantissa of 52 digits at most at
    the least exponent. *)
Lemma subnormal_spec (s : float) :
  PrimFloat.classify s = PSubn ->
  exists m : positive,
    Prim2SF s = S754_finite false m (-1074) /\ (Zpos (digits2_pos m) <= 52)%Z.
Proof.
  rewrite classify_spec. unfold SF64classify. intros C.
  pose proof (Prim2SF_valid s) as V.
  destruct (Prim2SF s) as [[|]|[|]| |[|] m e]; cbn [SFclassify] in C; try discriminate C.
  - destruct (Z.eqb_spec (Zpos (digits2_pos m)) prec); discriminate C.
  - destruct (Z.eqb_spec (Zpos (digits2_pos m)) prec) as [D|D]; [discriminate C|].
    change prec with 53%Z in D.
    cbn [SpecFloat.valid_binary] in V. destruct (valid_finite m e V) as (B & L & N).
    assert (e = (-1074)%Z) by lia. subst e.
    exists m. split; [reflexivity|lia].
Qed.

(** The square of a rounded square root. *)
Lemma square_of_rounded_root (u S rs N1 : R) :
  0 < u <= / 100 -> 0 < rs -> rs * rs = S ->
  Rabs (N1 - rs) <= rs * u ->
  S * ((1 - u) * (1 - u)) <= N1 * N1 <= S * ((1 + u) * (1 + u)).
Proof.
  intros Hu Hrs Es A1. apply abs_le_inv in A1.
  assert (L1 : rs * (1 - u) <= N1) by lra.
  assert (U1 : N1 <= rs * (1 + u)) by lra.
  assert (P1 : 0 <= rs * (1 - u)) by (apply Rmult_le_pos; lra).
  assert (Q1 : 0 <= N1) by lra.
  pose proof (square_le _ _ P1 L1) as L2.
  pose proof (square_le _ _ Q1 U1) as U2.
  replace (rs * (1 - u) * (rs * (1 - u))) with (S * ((1 - u) * (1 - u))) in L2
    by (rewrite <- Es; ring).
  replace (rs * (1 + u) * (rs * (1 + u))) with (S * ((1 + u) * (1 + u))) in U2
    by (rewrite <- Es; ring).
  split; assumption.
Qed.

(** Three roundings in a row: the square root, its square, and the
    quotient by that square. *)
Lemma three_roundings (u S rs N1 N : R) :
  0 < u <= / 100 -> 0 < rs -> rs * rs = S ->
  Rabs (N1 - rs) <= rs * u ->
  Rabs (N - N1 * N1) <= N1 * N1 * u ->
  S * ((1 - u) * (1 - u) * (1 - u)) <= N <= S * ((1 + u) * (1 + u) * (1 + u)).
Proof.
  intros Hu Hrs Es A1 A2. apply abs_le_inv in A2.
  destruct (square_of_rounded_root u S rs N1 Hu Hrs Es A1) as [L2 U2].
  apply abs_le_inv in A1.
  assert (Q1 : 0 <= N1) by nra.
  assert (Q2 : 0 <= N1 * N1) by (apply Rmult_le_pos; assumption).
  split.
  - apply Rle_trans with (N1 * N1 * (1 - u)); [|lra].
    replace (S * ((1 - u) * (1 - u) * (1 - u))) with (S * ((1 - u) * (1 - u)) * (1 - u)) by ring.
    apply Rmult_le_compat_r; [lra|exact L2].
  - apply Rle_trans with (N1 * N1 * (1 + u)); [lra|].
    replace (S * ((1 + u) * (1 + u) * (1 + u))) with (S * ((1 + u) * (1 + u)) * (1 + u)) by ring.
    apply Rmult_le_compat_r; [lra|exact U2].
Qed.

Lemma quotient_near_one (u S N X R : R) :
  0 < u <= / 100 -> 0 < S ->
  S * ((1 - u) * (1 - u) * (1 - u)) <= N <= S * ((1 + u) * (1 + u) * (1 + u)) ->
  X * N = S -> Rabs (R - X) <= X * u ->
  Rabs (R - 1) <= 8 * u.
Proof.
  intros Hu HS [LN UN] EX A. apply abs_le_inv in A.
  set (a := (1 - u) * (1 - u) * (1 - u)) in *.
  set (b := (1 + u) * (1 + u) * (1 + u)) in *.
  assert (Ha : 0 < a) by (unfold a; repeat apply Rmult_lt_0_compat; lra).
  assert (Hb : 0 < b) by (unfold b; repeat apply Rmult_lt_0_compat; lra).
  assert (HN : 0 < N) by (apply Rlt_le_trans with (S * a); [apply Rmult_lt_0_compat|]; assumption).
  assert (HX : 0 < X).
  { destruct (Rlt_le_dec 0 X) as [P|Q]; [exact P|].
    assert (X * N <= 0) by (rewrite <- (Rmult_0_l N); apply Rmult_le_compat_r; lra). lra. }
  assert (Xa : X * a <= 1).
  { apply Rmult_le_reg_l with S; [exact HS|]. rewrite Rmult_1_r.
    rewrite <- EX at 2. replace (S * (X * a)) with (X * (S * a)) by ring.
    apply Rmult_le_compat_l; lra. }
  assert (Xb : 1 <= X * b).
  { apply Rmult_le_reg_l with S; [exact HS|]. rewrite Rmult_1_r.
    rewrite <- EX at 1. replace (S * (X * b)) with (X * (S * b)) by ring.
    apply Rmult_le_compat_l; lra. }
  assert (Ca : 1 + u <= (1 + 8 * u) * a) by (unfold a; nra).
  assert (Cb : (1 - 8 * u) * b <= 1 - u) by (unfold b; nra).
  apply Rabs_le. split.
  - assert (H1 : (1 - 8 * u) * b <= R * b).
    { apply Rle_trans with (1 - u); [exact Cb|].
      apply Rle_trans with (X * b * (1 - u)).
      - rewrite <- (Rmult_1_l (1 - u)) at 1. apply Rmult_le_compat_r; lra.
      - replace (X * b * (1 - u)) with (X * (1 - u) * b) by ring.
        apply Rmult_le_compat_r; lra. }
    apply Rmult_le_reg_r in H1; lra.
  - assert (H1 : R * a <= (1 + 8 * u) * a).
    { apply Rle_trans with (1 + u); [|exact Ca].
      apply Rle_trans with (X * a * (1 + u)).
      - replace (X * a * (1 + u)) with (X * (1 + u) * a) by ring.
        apply Rmult_le_compat_r; lra.
      - rewrite <- (Rmult_1_l (1 + u)) at 2. apply Rmult_le_compat_r; lra. }
    apply Rmult_le_reg_r in H1; lra.
Qed.

End RoundingChain.

Section SelfQuotient.
Local Open Scope R_scope.

Lemma unit_roundoff_small : 0 < / IZR (2 ^ 53) <= / 100.
Proof. change (2 ^ 53)%Z with 9007199254740992%Z. lra. Qed.

Lemma cube_near_one (u : R) :
  0 < u <= / 100 ->
  / 2 < (1 - u) * (1 - u) * (1 - u) /\ (1 + u) * (1 + u) * (1 + u) < 2.
Proof.
  intros Hu.
  assert (L2 : 99 / 100 * (99 / 100) <= (1 - u) * (1 - u)) by (apply square_le; lra).
  assert (U2 : (1 + u) * (1 + u) <= 101 / 100 * (101 / 100)) by (apply square_le; lra).
  split.
  - apply Rlt_le_trans with (99 / 100 * (99 / 100) * (99 / 100)); [lra|].
    apply Rmult_le_compat; lra.
  - apply Rle_lt_trans with (101 / 100 * (101 / 100) * (101 / 100)); [|lra].
    apply Rmult_le_compat; lra.
Qed.

Lemma overflow_margin (K c P : R) :
  1 <= K -> 0 < c <= K - 1 -> 0 < P ->
  c * P * (c * P) * (1 + / K) < K * K * (P * P).
Proof.
  intros HK Hc HP.
  assert (I : 0 < / K <= 1).
  { split; [apply Rinv_0_lt_compat; lra|].
    rewrite <- Rinv_1. apply Rinv_le_contravar; lra. }
  assert (Q : c * c * (1 + / K) < K * K).
  { apply Rle_lt_trans with ((K - 1) * (K - 1) * (1 + / K)).
    - apply Rmult_le_compat_r; [lra|]. apply square_le; lra.
    - replace ((K - 1) * (K - 1) * (1 + / K)) with (K * K - K - 1 + / K) by (field; lra).
      lra. }
  replace (c * P * (c * P) * (1 + / K)) with (c * c * (1 + / K) * (P * P)) by ring.
  apply Rmult_lt_compat_r; [apply Rmult_lt_0_compat; assumption|exact Q].
Qed.

Lemma mantissa_value_bounds (m : positive) (e : Z) :
  Zpos (digits2_pos m) = 53%Z ->
  powerRZ 2 (52 + e) <= IZR (Zpos m) * powerRZ 2 e < powerRZ 2 (53 + e).
Proof.
  intros D. apply digits_53 in D as [L U].
  apply IZR_le in L. apply IZR_lt in U.
  rewrite pow2_IZR in L by lia. rewrite pow2_IZR in U by lia.
  pose proof (pow2_pos e) as P. rewrite !pow2_add. split.
  - apply Rmult_le_compat_r; lra.
  - apply Rmult_lt_compat_r; lra.
Qed.

(** A normal number divided by the rounded square of its rounded square
    root is within 2^-50 of 1. *)
Lemma self_quotient_normal (s : float) :
  PrimFloat.classify s = PNormal ->
  PrimFloat.eqb (PrimFloat.sqrt s * PrimFloat.sqrt s) 0 = false
  /\ exists (m : positive) (e : Z),
       Prim2SF (s / (PrimFloat.sqrt s * PrimFloat.sqrt s)) = S754_finite false m e
       /\ Rabs (IZR (Zpos m) * powerRZ 2 e - 1) <= / IZR (2 ^ 50).
Proof.
  intros C. destruct (normal_spec s C) as (m & e & Es & D & He).
  destruct (SFsqrt_nearest m e ltac:(lia) He) as (m1 & e1 & c & E1 & D1 & Le1 & V1 & Bc & Rel1).
  rewrite D in Le1, V1. set (g := (Z.div2 (53 + e + 1) - 53)%Z) in *.
  assert (Hg : (-563 <= g <= 459)%Z).
  { unfold g. rewrite Z.div2_div. pose proof (Z.div_mod (53 + e + 1) 2 ltac:(lia)).
    pose proof (Z.mod_pos_bound (53 + e + 1) 2 ltac:(lia)). lia. }
  set (S := IZR (Zpos m) * powerRZ 2 e) in *.
  set (N1 := IZR (Zpos m1) * powerRZ 2 e1) in *.
  pose proof unit_roundoff_small as Hu. set (u := / IZR (2 ^ 53)) in *.
  pose proof (mantissa_value_bounds m e D) as BS. fold S in BS.
  assert (PS : 0 < S) by (pose proof (pow2_pos (52 + e)); lra).
  assert (Sq : Prim2SF (PrimFloat.sqrt s) = S754_finite false m1 e1).
  { rewrite sqrt_spec, Es. exact E1. }
  destruct (SFmul_near m1 m1 e1 e1 D1 D1) as (m2 & e2 & E2 & D2 & Rel2).
  { lia. }
  { fold N1. rewrite V1.
    apply Rlt_le_trans with (IZR (2 ^ 53) * IZR (2 ^ 53) * (powerRZ 2 g * powerRZ 2 g)).
    - apply overflow_margin.
      + change (2 ^ 53)%Z with 9007199254740992%Z. lra.
      + destruct Bc as [Lc Uc]. split.
        * apply IZR_lt. lia.
        * rewrite <- minus_IZR. apply IZR_le. lia.
      + apply pow2_pos.
    - rewrite pow2_IZR by lia. rewrite <- !pow2_add. apply pow2_le. lia. }
  fold N1 in Rel2. set (N := IZR (Zpos m2) * powerRZ 2 e2) in *.
  assert (Mu : Prim2SF (PrimFloat.sqrt s * PrimFloat.sqrt s) = S754_finite false m2 e2).
  { rewrite mul_spec, Sq. exact E2. }
  split.
  { rewrite eqb_spec, Mu. reflexivity. }
  assert (Prs : 0 < R_sqrt.sqrt S) by (apply sqrt_lt_R0; exact PS).
  assert (Ers : R_sqrt.sqrt S * R_sqrt.sqrt S = S) by (apply sqrt_sqrt; lra).
  pose proof (three_roundings u S (R_sqrt.sqrt S) N1 N Hu Prs Ers Rel1 Rel2) as BN.
  pose proof (mantissa_value_bounds m2 e2 D2) as BN2. fold N in BN2.
  destruct (cube_near_one u Hu) as [Lo Hi].
  assert (N2S : N < 2 * S).
  { destruct BN as [_ U]. eapply Rle_lt_trans; [exact U|].
    rewrite (Rmult_comm 2 S). apply Rmult_lt_compat_l; assumption. }
  assert (S2N : S < 2 * N).
  { destruct BN as [L _].
    assert (S * / 2 < N).
    { eapply Rlt_le_trans; [|exact L]. apply Rmult_lt_compat_l; assumption. }
    lra. }
  assert (Hee : (-1 <= e - e2 <= 1)%Z).
  { split.
    - assert (T : powerRZ 2 (52 + e2) < powerRZ 2 (54 + e)).
      { replace (54 + e)%Z with (53 + e + 1)%Z by lia. rewrite pow2_succ. lra. }
      apply pow2_lt_inv in T. lia.
    - assert (T : powerRZ 2 (52 + e) < powerRZ 2 (54 + e2)).
      { replace (54 + e2)%Z with (53 + e2 + 1)%Z by lia. rewrite pow2_succ. lra. }
      apply pow2_lt_inv in T. lia. }
  destruct (SFdiv_nearest m m2 e e2 ltac:(lia) ltac:(lia) ltac:(lia)) as (m3 & e3 & E3 & Rel3).
  fold S N in Rel3. fold u in Rel3.
  exists m3, e3. split.
  { rewrite div_spec, Es, Mu. exact E3. }
  assert (PN : 0 < N) by lra.
  assert (EX : S / N * N = S) by (field; lra).
  pose proof (quotient_near_one u S N (S / N) _ Hu PS BN EX Rel3) as Fin.
  eapply Rle_trans; [exact Fin|].
  unfold u. change (2 ^ 53)%Z with 9007199254740992%Z.
  change (2 ^ 50)%Z with 1125899906842624%Z. lra.
Qed.

Lemma digits_of_successor (a b : positive) :
  (Zpos a <= Zpos b + 1)%Z -> (Zpos (digits2_pos a) <= Zpos (digits2_pos b) + 1)%Z.
Proof.
  intros H. pose proof (digits2_pos_bounds b) as [_ U].
  apply digits2_pos_le; [lia|].
  rewrite Z.pow_add_r by lia. lia.
Qed.

(** A subnormal number divided by the rounded square of its rounded
    square root is within 2^-50 of 1. *)
Lemma self_quotient_subnormal (s : float) :
  PrimFloat.classify s = PSubn ->
  PrimFloat.eqb (PrimFloat.sqrt s * PrimFloat.sqrt s) 0 = false
  /\ exists (m : positive) (e : Z),
       Prim2SF (s / (PrimFloat.sqrt s * PrimFloat.sqrt s)) = S754_finite false m e
       /\ Rabs (IZR (Zpos m) * powerRZ 2 e - 1) <= / IZR (2 ^ 50).
Proof.
  intros C. destruct (subnormal_spec s C) as (m & Es & D).
  pose proof (digits2_pos_bounds m) as Bm.
  set (d := Zpos (digits2_pos m)) in *.
  assert (Hd : (1 <= d)%Z) by (unfold d; lia).
  assert (Um : (Zpos m <= 2 ^ 52 - 1)%Z).
  { destruct Bm as [_ U]. assert (2 ^ d <= 2 ^ 52)%Z by (apply Z.pow_le_mono_r; lia). lia. }
  destruct (SFsqrt_nearest m (-1074) ltac:(fold d; lia) ltac:(lia))
    as (m1 & e1 & c & E1 & D1 & Le1 & V1 & Bc & Rel1).
  fold d in Le1, V1.
  set (g := (Z.div2 (d + -1074 + 1) - 53)%Z) in *.
  assert (Hg : (-589 <= g <= -564)%Z).
  { unfold g. rewrite Z.div2_div. pose proof (Z.div_mod (d + -1074 + 1) 2 ltac:(lia)).
    pose proof (Z.mod_pos_bound (d + -1074 + 1) 2 ltac:(lia)). lia. }
  set (U := powerRZ 2 (-1074)) in *.
  assert (PU : 0 < U) by apply pow2_pos.
  set (a := IZR (Zpos m)) in *.
  assert (Ha : 1 <= a <= IZR (2 ^ 52) - 1).
  { unfold a. split; [apply IZR_le; lia|]. rewrite <- minus_IZR. apply IZR_le. exact Um. }
  set (S := a * U) in *.
  assert (PS : 0 < S) by (apply Rmult_lt_0_compat; lra).
  set (N1 := IZR (Zpos m1) * powerRZ 2 e1) in *.
  pose proof unit_roundoff_small as Hu. set (u := / IZR (2 ^ 53)) in *.
  assert (Prs : 0 < R_sqrt.sqrt S) by (apply sqrt_lt_R0; exact PS).
  assert (Ers : R_sqrt.sqrt S * R_sqrt.sqrt S = S) by (apply sqrt_sqrt; lra).
  pose proof (square_of_rounded_root u S (R_sqrt.sqrt S) N1 Hu Prs Ers Rel1) as [Lx Ux].
  set (x := N1 * N1) in *.
  assert (Eu : u = / 9007199254740992) by reflexivity.
  assert (E52 : IZR (2 ^ 52) = 4503599627370496) by reflexivity.
  (* the square stays below the least normal number *)
  assert (Xsmall : x < IZR (2 ^ 52) * U).
  { eapply Rle_lt_trans; [exact Ux|]. unfold S.
    replace (a * U * ((1 + u) * (1 + u))) with (a * ((1 + u) * (1 + u)) * U) by ring.
    apply Rmult_lt_compat_r; [exact PU|].
    apply Rle_lt_trans with ((IZR (2 ^ 52) - 1) * ((1 + u) * (1 + u))).
    - apply Rmult_le_compat_r; [|lra]. apply Rmult_le_pos; lra.
    - rewrite E52, Eu. lra. }
  assert (Sq : Prim2SF (PrimFloat.sqrt s) = S754_finite false m1 e1).
  { rewrite sqrt_spec, Es. exact E1. }
  apply digits_53 in D1 as B1.
  assert (Bp : (2 ^ 104 <= Zpos (m1 * m1))%Z).
  { rewrite Pos2Z.inj_mul. change (2 ^ 104)%Z with (2 ^ 52 * 2 ^ 52)%Z.
    apply Z.mul_le_mono_nonneg; lia. }
  pose proof (digits2_pos_gt (m1 * m1) 104 Bp) as Dp.
  pose proof (digits2_pos_bounds (m1 * m1)) as [Lp _].
  set (dp := Zpos (digits2_pos (m1 * m1))) in *.
  assert (Xv : x = IZR (Zpos (m1 * m1)) * powerRZ 2 (e1 + e1)).
  { unfold x, N1. rewrite Pos2Z.inj_mul, mult_IZR, pow2_add. ring. }
  assert (Hp : (dp - 1 + (e1 + e1) < -1022)%Z).
  { apply pow2_lt_inv. apply Rle_lt_trans with x.
    - rewrite Xv, pow2_add. apply Rmult_le_compat_r; [apply Rlt_le, pow2_pos|].
      rewrite <- pow2_IZR by lia. apply IZR_le. exact Lp.
    - eapply Rlt_le_trans; [exact Xsmall|]. unfold U.
      rewrite pow2_IZR by lia. rewrite <- pow2_add. apply pow2_le. lia. }
  destruct (round_aux_tiny x (m1 * m1) (e1 + e1) loc_Exact) as (m2 & E2 & D2 & Near).
  { fold dp. lia. }
  { fold dp. lia. }
  { lia. }
  { exists 0. cbn [shr_record_of_loc shr_m shr_r shr_s offset_in]. split; [|reflexivity].
    rewrite Xv. ring. }
  fold U in Near.
  assert (Mu : Prim2SF (PrimFloat.sqrt s * PrimFloat.sqrt s) = S754_finite false m2 (-1074)).
  { rewrite mul_spec, Sq. exact E2. }
  split.
  { rewrite eqb_spec, Mu. reflexivity. }
  set (a2 := IZR (Zpos m2)) in *.
  apply abs_le_inv in Near.
  (* the rounded square is the number itself or one of its neighbours *)
  assert (Gap : a2 - a <= / 2 + a * (2 * u + u * u)
                /\ a - a2 <= / 2 + a * (2 * u + u * u)).
  { split; apply Rmult_le_reg_r with U; try exact PU; unfold S in *; nra. }
  assert (Close : (Zpos m - 1 <= Zpos m2 <= Zpos m + 1)%Z
                  /\ (Zpos m2 = Zpos m \/ 2 ^ 51 <= Zpos m)%Z).
  { destruct (Z.lt_ge_cases (Zpos m) (2 ^ 51)) as [Small|Large].
    - assert (Ha' : a <= IZR (2 ^ 51) - 1)
        by (unfold a; rewrite <- minus_IZR; apply IZR_le; lia).
      assert (E51 : IZR (2 ^ 51) = 2251799813685248) by reflexivity.
      assert (W : a * (2 * u + u * u) < / 2).
      { apply Rle_lt_trans with ((IZR (2 ^ 51) - 1) * (2 * u + u * u)).
        - apply Rmult_le_compat_r; [nra|exact Ha'].
        - rewrite E51, Eu. lra. }
      assert (Eq : Zpos m2 = Zpos m).
      { assert (L : (Zpos m2 < Zpos m + 1)%Z)
          by (apply lt_IZR; rewrite plus_IZR; fold a a2; lra).
        assert (G : (Zpos m < Zpos m2 + 1)%Z)
          by (apply lt_IZR; rewrite plus_IZR; fold a a2; lra).
        lia. }
      split; [lia|left; exact Eq].
    - assert (W : a * (2 * u + u * u) < 1).
      { apply Rle_lt_trans with ((IZR (2 ^ 52) - 1) * (2 * u + u * u)).
        - apply Rmult_le_compat_r; [nra|lra].
        - rewrite E52, Eu. lra. }
      assert (L : (Zpos m2 < Zpos m + 2)%Z)
        by (apply lt_IZR; rewrite plus_IZR; fold a a2; lra).
      assert (G : (Zpos m < Zpos m2 + 2)%Z)
        by (apply lt_IZR; rewrite plus_IZR; fold a a2; lra).
      split; [lia|right; lia]. }
  destruct Close as [Nb Big].
  assert (Dd : (-1 <= d - Zpos (digits2_pos m2) <= 1)%Z).
  { pose proof (digits_of_successor m m2 ltac:(lia)).
    pose proof (digits_of_successor m2 m ltac:(lia)). unfold d. lia. }
  destruct (SFdiv_nearest m m2 (-1074) (-1074)) as (m3 & e3 & E3 & Rel3).
  { fold d. lia. }
  { exact D2. }
  { fold d. lia. }
  fold a a2 U in Rel3.
  exists m3, e3. split.
  { rewrite div_spec, Es, Mu. exact E3. }
  assert (Pa2 : 0 < a2) by (unfold a2; apply IZR_lt; lia).
  set (X := a * U / (a2 * U)) in *.
  assert (EX : X * a2 = a) by (unfold X; field; lra).
  assert (E51 : IZR (2 ^ 51) = 2251799813685248) by reflexivity.
  assert (BX : 1 - / (IZR (2 ^ 51) - 1) <= X <= 1 + / (IZR (2 ^ 51) - 1)).
  { destruct Big as [Same|Large].
    - assert (a2 = a) by (unfold a, a2; f_equal; exact Same).
      assert (X = 1) by (apply Rmult_eq_reg_r with a2; lra).
      rewrite E51. lra.
    - assert (La : IZR (2 ^ 51) <= a) by (unfold a; apply IZR_le; exact Large).
      assert (Na : a - 1 <= a2 <= a + 1).
      { unfold a, a2. rewrite <- minus_IZR, <- plus_IZR. split; apply IZR_le; lia. }
      set (k := IZR (2 ^ 51) - 1) in *.
      assert (Pk : 0 < k) by (unfold k; rewrite E51; lra).
      assert (Ik : k * / k = 1) by (apply Rinv_r; lra).
      assert (0 < / k) by (apply Rinv_0_lt_compat; exact Pk).
      assert (k <= a2) by (unfold k; lra).
      split.
      + apply Rmult_le_reg_r with a2; [exact Pa2|]. rewrite EX. nra.
      + apply Rmult_le_reg_r with a2; [exact Pa2|]. rewrite EX. nra. }
  fold u in Rel3. apply abs_le_inv in Rel3.
  rewrite E51 in BX.
  assert (PX : 0 < X) by lra.
  change (2 ^ 50)%Z with 1125899906842624%Z.
  apply Rabs_le. rewrite Eu in Rel3. 
  assert (Xu : X * / 9007199254740992 <= (1 + / (2251799813685248 - 1)) * / 9007199254740992)
    by (apply Rmult_le_compat_r; lra).
  lra.
Qed.

(** A positive number, normal or subnormal, divided by the rounded
    square of its rounded square root is within 2^-50 of 1. *)
Lemma self_quotient (s : float) :
  PrimFloat.classify s = PNormal \/ PrimFloat.classify s = PSubn ->
  PrimFloat.eqb (PrimFloat.sqrt s * PrimFloat.sqrt s) 0 = false
  /\ exists (m : positive) (e : Z),
       Prim2SF (s / (PrimFloat.sqrt s * PrimFloat.sqrt s)) = S754_finite false m e
       /\ Rabs (IZR (Zpos m) * powerRZ 2 e - 1) <= / IZR (2 ^ 50).
Proof.
  intros [C|C]; [apply self_quotient_normal|apply self_quotient_subnormal]; exact C.
Qed.

End SelfQuotient.

Section SquaredNormSign.
Local Open Scope Z_scope.

Lemma shr_1_not_negative (mrs : shr_record) : 0 <= shr_m mrs -> 0 <= shr_m (shr_1 mrs).
Proof.
  destruct mrs as [m r s]. cbn [shr_m]. intros H.
  destruct m as [|[p|p|]|p]; cbn [shr_1 shr_m]; lia.
Qed.

Lemma shr_not_negative (mrs : shr_record) (e n : Z) :
  0 <= shr_m mrs -> 0 <= shr_m (fst (shr mrs e n)).
Proof.
  intros H. destruct n as [|p|p]; cbn [shr fst]; try exact H.
  rewrite iter_pos_nat. induction (Pos.to_nat p) as [|k IH]; [exact H|].
  cbn [Nat.iter]. apply shr_1_not_negative. exact IH.
Qed.

Lemma round_nearest_even_not_negative (m : Z) (l : location) :
  0 <= m -> 0 <= round_nearest_even m l.
Proof.
  intros H. destruct l as [|[| |]]; cbn [round_nearest_even]; try lia.
  destruct (Z.even m); lia.
Qed.

(** Rounding a number that is not negative gives +0, a positive number
    or +Infinity. *)
Lemma binary_round_aux_not_negative (M E : Z) (l : location) :
  0 <= M -> not_negative (binary_round_aux prec emax false M E l).
Proof.
  intros H. unfold binary_round_aux, shr_fexp.
  pose proof (shr_not_negative (shr_record_of_loc M l) E
                (fexp prec emax (Zdigits2 M + E) - E)) as P1.
  destruct (shr (shr_record_of_loc M l) E _) as [mrs' e'].
  cbn [fst] in P1.
  assert (H1 : 0 <= shr_m mrs') by (apply P1; destruct l as [|[| |]]; exact H).
  pose proof (round_nearest_even_not_negative (shr_m mrs') (loc_of_shr_record mrs') H1) as H2.
  set (q := round_nearest_even (shr_m mrs') (loc_of_shr_record mrs')) in *.
  pose proof (shr_not_negative (shr_record_of_loc q loc_Exact) e'
                (fexp prec emax (Zdigits2 q + e') - e') H2) as P2.
  destruct (shr (shr_record_of_loc q loc_Exact) e' _) as [mrs'' e''].
  cbn [fst] in P2.
  destruct (shr_m mrs'') as [|p|p]; [reflexivity| |lia].
  destruct (e'' <=? emax - prec); reflexivity.
Qed.

(** The square of a number that is not NaN is not negative. *)
Lemma SFmul_self_not_negative (x : spec_float) :
  x <> S754_nan -> not_negative (SFmul prec emax x x).
Proof.
  intros N. destruct x as [s|s| |s m e]; [| |congruence|]; cbn [SFmul not_negative].
  - apply xorb_nilpotent.
  - apply xorb_nilpotent.
  - rewrite xorb_nilpotent. apply binary_round_aux_not_negative. lia.
Qed.

(** The sum of two numbers that are not negative is not negative. *)
Lemma SFadd_not_negative (x y : spec_float) :
  valid_binary x = true -> valid_binary y = true ->
  not_negative x -> not_negative y -> not_negative (SFadd prec emax x y).
Proof.
  intros Vx Vy Nx Ny.
  destruct x as [sx|sx| |sx mx ex]; destruct y as [sy|sy| |sy my ey];
    cbn [not_negative] in Nx, Ny; try contradiction; subst; cbn [SFadd not_negative];
    try reflexivity.
  cbn [valid_binary] in Vx, Vy.
  destruct (valid_finite mx ex Vx) as [Bx _]. destruct (valid_finite my ey Vy) as [By _].
  cbn [cond_Zopp].
  pose proof (binary_normalize_sign
                (Zpos (fst (shl_align mx ex (Z.min ex ey)))
                 + Zpos (fst (shl_align my ey (Z.min ex ey))))
                (Z.min ex ey) ltac:(lia)) as S.
  cbn [Z.add] in S |- *.
  destruct S as [->|[m [e ->]]]; reflexivity.
Qed.

End SquaredNormSign.

Section SquaredNorm.
Import Similarity.

Lemma or0_not_nan (x : option float) : Prim2SF (or0 x) <> S754_nan.
Proof.
  destruct x as [f|]; cbn [or0 falsy zero float_num]; [|discriminate].
  destruct (PrimFloat.is_zero f); cbn [orb]; [discriminate|].
  destruct (PrimFloat.is_nan f) eqn:N; [discriminate|].
  apply not_nan_spec. exact N.
Qed.

(** The squared norm, as computed, is never NaN and never negative. *)
Lemma float_dot_self_not_negative (a : @vector float) :
  not_negative (Prim2SF (dot a a)).
Proof.
  rewrite dot_self_as_sum.
  assert (G : forall s : float,
             not_negative (Prim2SF s) ->
             not_negative
               (Prim2SF (fold_left (fun s x => add s (mul (or0 x) (or0 x))) a s))).
  { induction a as [|x a IH]; intros s Hs; [exact Hs|].
    cbn [fold_left]. apply IH. cbn [add mul float_num].
    rewrite add_spec. apply SFadd_not_negative.
    - apply Prim2SF_valid.
    - apply Prim2SF_valid.
    - exact Hs.
    - rewrite mul_spec. apply SFmul_self_not_negative. apply or0_not_nan. }
  apply G. reflexivity.
Qed.

(** A squared norm that is finite and not zero is a positive normal or
    subnormal number. *)
Lemma finite_squared_norm (a : @vector float) :
  PrimFloat.is_finite (dot a a) = true -> PrimFloat.is_zero (dot a a) = false ->
  PrimFloat.classify (dot a a) = PNormal \/ PrimFloat.classify (dot a a) = PSubn.
Proof.
  intros F Z. pose proof (float_dot_self_not_negative a) as N.
  rewrite classify_spec. unfold SF64classify.
  destruct (is_finite_spec _ F) as [[s E]|[s [m [e E]]]].
  - assert (PrimFloat.is_zero (dot a a) = true) by (apply is_zero_spec; eauto). congruence.
  - rewrite E in N |- *. cbn [not_negative] in N. subst s. cbn [SFclassify].
    destruct (Z.eqb (Zpos (digits2_pos m)) prec); auto.
Qed.

End SquaredNorm.

Section NearOne.
Local Open Scope R_scope.

Lemma pow2_opp (k : Z) : (0 <= k)%Z -> powerRZ 2 (- k) = / IZR (2 ^ k).
Proof.
  intros Hk. pose proof (pow2_pos k) as P.
  apply Rmult_eq_reg_r with (powerRZ 2 k); [|lra].
  rewrite <- pow2_add, Z.add_opp_diag_l, pow2_IZR by lia.
  rewrite Rinv_l by lra. reflexivity.
Qed.

(** The order of the values of two positive numbers is the order of
    their keys. *)
Lemma value_le_key (m1 m2 : positive) (e1 e2 : Z) :
  (-1074 <= e1)%Z -> (-1074 <= e2)%Z ->
  IZR (Zpos m1) * powerRZ 2 e1 <= IZR (Zpos m2) * powerRZ 2 e2 ->
  (Zpos m1 * 2 ^ (e1 + 1074) <= Zpos m2 * 2 ^ (e2 + 1074))%Z.
Proof.
  intros H1 H2 L. apply le_IZR. rewrite !mult_IZR, !pow2_IZR by lia.
  rewrite !pow2_add, <- !Rmult_assoc.
  apply Rmult_le_compat_r; [pose proof (pow2_pos 1074); lra|exact L].
Qed.

Lemma finite_is_not_nan (x : float) (s : bool) (m : positive) (e : Z) :
  Prim2SF x = S754_finite s m e -> PrimFloat.is_nan x = false.
Proof.
  intros E. destruct (PrimFloat.is_nan x) eqn:N; [|reflexivity].
  apply is_nan_spec in N. congruence.
Qed.

(** A positive number whose value is within 2^-50 of 1 passes the two
    comparisons. *)
Lemma near_one_of_value (x : float) (m : positive) (e : Z) :
  Prim2SF x = S754_finite false m e ->
  Rabs (IZR (Zpos m) * powerRZ 2 e - 1) <= / IZR (2 ^ 50) ->
  near_one x = true.
Proof.
  intros E A. apply abs_le_inv in A.
  pose proof (Prim2SF_valid x) as V. rewrite E in V. cbn [valid_binary] in V.
  destruct (valid_finite m e V) as [He _].
  pose proof (finite_is_not_nan x _ _ _ E) as Nx.
  unfold near_one. apply andb_true_iff. split.
  - change (1 - 0x1p-50)%float with 0x1.ffffffffffff8p-1%float.
    rewrite leb_key by (exact Nx || reflexivity).
    apply Z.leb_le. unfold fkey. rewrite E.
    change (Prim2SF 0x1.ffffffffffff8p-1) with (S754_finite false 9007199254740984 (-53)).
    cbn [key cond_Zopp]. apply value_le_key; [lia|lia|].
    change (powerRZ 2 (-53)) with (powerRZ 2 (Z.opp 53)). rewrite (pow2_opp 53) by lia.
    change (2 ^ 53)%Z with 9007199254740992%Z.
    change (2 ^ 50)%Z with 1125899906842624%Z in A. lra.
  - change (1 + 0x1p-50)%float with 0x1.0000000000004p0%float.
    rewrite leb_key by (exact Nx || reflexivity).
    apply Z.leb_le. unfold fkey. rewrite E.
    change (Prim2SF 0x1.0000000000004p0) with (S754_finite false 4503599627370500 (-52)).
    cbn [key cond_Zopp]. apply value_le_key; [lia|lia|].
    change (powerRZ 2 (-52)) with (powerRZ 2 (Z.opp 52)). rewrite (pow2_opp 52) by lia.
    change (2 ^ 52)%Z with 4503599627370496%Z.
    change (2 ^ 50)%Z with 1125899906842624%Z in A. lra.
Qed.

End NearOne.

Section SelfSimilarity.
Import Similarity.
Local Open Scope R_scope.

(** In binary64 the similarity of a vector with itself is within 2^-50
    of 1 when its squared norm, as computed, is finite and not zero. *)
Lemma float_cosineSim_self (a : @vector float) :
  PrimFloat.is_finite (dot a a) = true -> PrimFloat.is_zero (dot a a) = false ->
  near_one (cosineSim a a) = true
  /\ Rabs (float_value (cosineSim a a) - 1) <= / IZR (2 ^ 50).
Proof.
  intros F Z.
  destruct (self_quotient (dot a a) (finite_squared_norm a F Z)) as (G & m & e & E & A).
  assert (Q : cosineSim a a
              = PrimFloat.div (dot a a)
                  (PrimFloat.mul (PrimFloat.sqrt (dot a a)) (PrimFloat.sqrt (dot a a)))).
  { unfold cosineSim, norm. cbn [mul sqrt is0 div zero float_num].
    rewrite G. reflexivity. }
  rewrite Q. split.
  - exact (near_one_of_value _ m e E A).
  - unfold float_value. rewrite E. cbn [SF2R].
    replace (1 * IZR (Zpos m) * powerRZ 2 e) with (IZR (Zpos m) * powerRZ 2 e) by ring.
    exact A.
Qed.

(** When the squared norm overflows it is +Infinity, and the similarity
    of the vector with itself is NaN. *)
Lemma float_cosineSim_self_overflow (a : @vector float) :
  PrimFloat.is_finite (dot a a) = false ->
  dot a a = infinity /\ cosineSim a a = nan.
Proof.
  intros F. pose proof (float_dot_self_not_negative a) as N.
  assert (E : dot a a = infinity).
  { rewrite <- (SF2Prim_Prim2SF (dot a a)).
    destruct (Prim2SF (dot a a)) as [s|s| |s m e] eqn:P; cbn [not_negative] in N.
    - assert (PrimFloat.is_finite (dot a a) = true).
      { unfold PrimFloat.is_finite.
        destruct (PrimFloat.is_nan (dot a a)) eqn:Na;
          [apply is_nan_spec in Na; congruence|].
        destruct (PrimFloat.is_infinity (dot a a)) eqn:I; [|reflexivity].
        apply is_infinity_spec in I as [s' I]. congruence. }
      congruence.
    - subst s. reflexivity.
    - contradiction.
    - assert (PrimFloat.is_finite (dot a a) = true).
      { unfold PrimFloat.is_finite.
        destruct (PrimFloat.is_nan (dot a a)) eqn:Na;
          [apply is_nan_spec in Na; congruence|].
        destruct (PrimFloat.is_infinity (dot a a)) eqn:I; [|reflexivity].
        apply is_infinity_spec in I as [s' I]. congruence. }
      congruence. }
  split; [exact E|]. unfold cosineSim, norm. rewrite E. reflexivity.
Qed.

(** When the squared norm is zero it is +0, and the similarity of the
    vector with itself is 0. *)
Lemma float_cosineSim_self_zero (a : @vector float) :
  PrimFloat.is_zero (dot a a) = true ->
  dot a a = 0%float /\ cosineSim a a = 0%float.
Proof.
  intros Z. pose proof (float_dot_self_not_negative a) as N.
  assert (E : dot a a = 0%float).
  { rewrite <- (SF2Prim_Prim2SF (dot a a)).
    apply is_zero_spec in Z as [s P]. rewrite P in N |- *.
    cbn [not_negative] in N. subst s. reflexivity. }
  split; [exact E|]. unfold cosineSim, norm. rewrite E. reflexivity.
Qed.

End SelfSimilarity.

Section CosineFormulaFacts.
Import Similarity.
Local Open Scope R_scope.
Local Abbreviation rvec := (@vector R).

Lemma real_fold_shift (f : nat -> R) (l : list nat) (s : R) :
  fold_left (fun s i => s + f i) l s = s + fold_left (fun s i => s + f i) l 0.
Proof.
  revert s. induction l as [|i l IH]; intros s; cbn [fold_left]; [lra|].
  rewrite (IH (s + f i)), (IH (0 + f i)). lra.
Qed.

Lemma fold_left_over_map {A B C : Type} (f : A -> C -> A) (g : B -> C) (l : list B) :
  forall s, fold_left f (map g l) s = fold_left (fun s i => f s (g i)) l s.
Proof. induction l as [|i l IH]; intros s; [reflexivity|apply IH]. Qed.

Lemma real_dot_cons (p q : option R) (a b : rvec) :
  dot (p :: a) (q :: b) = or0 p * or0 q + dot a b.
Proof.
  unfold dot. cbn [length]. rewrite <- cons_seq, <- seq_shift.
  cbn [fold_left add mul zero real_num at_index nth_error].
  rewrite fold_left_over_map.
  rewrite (real_fold_shift (fun i => or0 (at_index (p :: a) (S i)) * or0 (at_index (q :: b) (S i)))).
  cbn [add mul zero real_num]. rewrite Rplus_0_l. reflexivity.
Qed.

(** Over the real numbers [dot] is the dot product of the two vectors. *)
Lemma real_dot_is_dot_product (x y : list R) :
  length x = length y -> dot (map Some x) (map Some y) = dot_product x y.
Proof.
  revert y. induction x as [|p x IH]; intros [|q y] L; try discriminate L.
  - reflexivity.
  - cbn [map dot_product]. rewrite real_dot_cons, !or0_real, IH by (injection L; auto).
    reflexivity.
Qed.

Lemma real_norm_is_euclidean_norm (x : list R) : norm (map Some x) = euclidean_norm x.
Proof.
  unfold norm, euclidean_norm. cbn [sqrt real_num].
  rewrite real_dot_is_dot_product by reflexivity. reflexivity.
Qed.

Lemma nonzero_vector_entries (x : list R) :
  nonzero_vector x -> Exists (fun e => or0 e <> 0) (map Some x).
Proof.
  intros E. induction E as [r x H|r x _ IH]; cbn [map].
  - apply Exists_cons_hd. rewrite or0_real. exact H.
  - apply Exists_cons_tl. exact IH.
Qed.

End CosineFormulaFacts.




(** The similarity of a vector with itself in binary64: exactly 1 for
    (3, 4), two units in the last place below 1 for (1, 1), one unit
    above 1 for (1, 1, 1), and exactly 1 for (3 * 2^-520), whose squared
    norm 9 * 2^-1040 is a subnormal number. *)
Example cosineSim_self_in_binary64 :
  Similarity.cosineSim [Some 3%float; Some 4%float] [Some 3%float; Some 4%float] = 1%float
  /\ Similarity.cosineSim [Some 1%float; Some 1%float] [Some 1%float; Some 1%float]
     = 0x1.ffffffffffffep-1%float
  /\ Similarity.cosineSim [Some 1%float; Some 1%float; Some 1%float]
                          [Some 1%float; Some 1%float; Some 1%float]
     = 0x1.0000000000001p0%float
  /\ PrimFloat.classify (Similarity.dot [Some 0x1.8p-519%float] [Some 0x1.8p-519%float])
     = PSubn
  /\ Similarity.cosineSim [Some 0x1.8p-519%float] [Some 0x1.8p-519%float] = 1%float.
Proof. repeat split; reflexivity. Qed.

(* ===================================================================== *)
(** * The ranking step *)
(* ===================================================================== *)

Section RankingFacts.
Import Json Store Ranking.
Local Open Scope list_scope.
Context {rt : Runtime}.

(** The comparator is positive exactly when the first entry is less
    similar than the second. *)
Lemma comes_after_ltb (a b : ranked) : comes_after a b = (sim a <? sim b)%float.
Proof. unfold comes_after, comparator. apply sub_positive_iff_lt. Qed.

Lemma insert_permutation (x : ranked) (l : list ranked) :
  Permutation (insert x l) (x :: l).
Proof.
  induction l as [|y l IH]; [apply Permutation_refl|].
  cbn [insert]. destruct (comes_after x y); [|apply Permutation_refl].
  eapply Permutation_trans; [apply perm_skip, IH|apply perm_swap].
Qed.

Lemma sort_permutation (l : list ranked) : Permutation (sort l) l.
Proof.
  induction l as [|x l IH]; [apply Permutation_refl|].
  cbn [sort]. eapply Permutation_trans; [apply insert_permutation|].
  apply perm_skip, IH.
Qed.

Lemma insert_keeps_ties (s : float) (x : ranked) (l : list ranked) :
  filter (fun r => (sim r =? s)%float) (insert x l)
  = filter (fun r => (sim r =? s)%float) (x :: l).
Proof.
  induction l as [|y l IH]; [reflexivity|].
  cbn [insert]. destruct (comes_after x y) eqn:C; [|reflexivity].
  cbn [filter] in *. rewrite IH.
  destruct (sim x =? s)%float eqn:Ex; [|reflexivity].
  destruct (sim y =? s)%float eqn:Ey; [|reflexivity].
  exfalso. rewrite comes_after_ltb in C.
  destruct (eqb_true_not_nan _ _ Ex) as [Nx Ns].
  destruct (eqb_true_not_nan _ _ Ey) as [Ny _].
  rewrite ltb_key in C by assumption.
  rewrite eqb_key in Ex, Ey by assumption.
  apply Z.ltb_lt in C. apply Z.eqb_eq in Ex, Ey. lia.
Qed.

Lemma sort_keeps_ties (l : list ranked) : same_ties (sort l) l.
Proof.
  intros s. induction l as [|x l IH]; [reflexivity|].
  cbn [sort]. rewrite insert_keeps_ties. cbn [filter]. rewrite IH. reflexivity.
Qed.

Lemma insert_head (y x : ranked) (l : list ranked) :
  key_desc y x -> HdRel key_desc y l -> HdRel key_desc y (insert x l).
Proof.
  intros Hx Hl. destruct l as [|z l]; cbn [insert]; [constructor; exact Hx|].
  destruct (comes_after x z); constructor; [|exact Hx].
  inversion Hl; assumption.
Qed.

Lemma insert_sorted (x : ranked) (l : list ranked) :
  PrimFloat.is_nan (sim x) = false -> no_nan l ->
  Sorted key_desc l -> Sorted key_desc (insert x l).
Proof.
  intros Nx Nl S. induction l as [|y l IH]; [repeat constructor|].
  inversion Nl as [|? ? Ny Nl']; subst. inversion S as [|? ? S' H]; subst.
  cbn [insert]. rewrite comes_after_ltb, ltb_key by assumption.
  destruct (Z.ltb_spec (fkey (sim x)) (fkey (sim y))) as [L|G].
  - constructor; [apply IH; assumption|].
    apply insert_head; [|exact H]. repeat split; try assumption. lia.
  - constructor; [exact S|]. constructor. repeat split; assumption.
Qed.

Lemma sort_no_nan (l : list ranked) : no_nan l -> no_nan (sort l).
Proof.
  intros N. unfold no_nan in *. rewrite Forall_forall in *.
  intros r Hr. apply N. eapply Permutation_in; [apply sort_permutation|exact Hr].
Qed.

Lemma sort_sorted (l : list ranked) : no_nan l -> Sorted key_desc (sort l).
Proof.
  intros N. induction N as [|x l Nx Nl IH]; [constructor|].
  cbn [sort]. apply insert_sorted; [exact Nx|apply sort_no_nan; exact Nl|exact IH].
Qed.

Lemma key_desc_transitive : Relations_1.Transitive key_desc.
Proof.
  intros a b c (Na & Nb & L1) (_ & Nc & L2). repeat split; try assumption. lia.
Qed.

Lemma strongly_sorted_weaken {A : Type} (R R' : A -> A -> Prop) (l : list A) :
  (forall a b, R a b -> R' a b) -> StronglySorted R l -> StronglySorted R' l.
Proof.
  intros H S. induction S as [|a l S IH F]; constructor; [exact IH|].
  rewrite Forall_forall in *. auto.
Qed.

(** Without NaN among the similarities the sorted array is
    non-increasing. *)
Lemma sort_non_increasing (l : list ranked) : no_nan l -> non_increasing (sort l).
Proof.
  intros N. unfold non_increasing.
  apply (strongly_sorted_weaken key_desc).
  - intros a b (Na & Nb & L). rewrite leb_key by assumption. apply Z.leb_le. exact L.
  - apply Sorted_StronglySorted; [exact key_desc_transitive|apply sort_sorted; exact N].
Qed.

Lemma is_vector_not_nullish (v : jsval) : is_vector v -> nullish v = false.
Proof. intros [q Hq]. destruct v; try discriminate Hq; reflexivity. Qed.

Lemma cosineSim_js_vectors (a b : jsval) (va vb : @Similarity.vector float) :
  as_vector a = Some va -> as_vector b = Some vb ->
  cosineSim_js a b = Some (Similarity.cosineSim va vb).
Proof.
  intros Ha Hb. unfold cosineSim_js.
  rewrite (is_vector_not_nullish a (ex_intro _ va Ha)).
  rewrite (is_vector_not_nullish b (ex_intro _ vb Hb)).
  cbn [orb]. rewrite existsb_app, (as_vector_never_throws a va Ha),
    (as_vector_never_throws b vb Hb).
  cbn [orb]. rewrite Ha, Hb. reflexivity.
Qed.

Lemma similarities_run (qemb : jsval) (vs : list rag_record) :
  is_vector qemb -> Forall (fun v => is_vector (embedding v)) vs ->
  exists sims,
    similarities qemb vs = Some sims
    /\ map doc sims = vs
    /\ Forall (fun r => cosineSim_js qemb (embedding (doc r)) = Some (sim r)) sims.
Proof.
  intros [q Hq] F. induction F as [|v vs [b Hb] _ IH].
  - exists []. repeat split. constructor.
  - destruct IH as [sims [E [M A]]].
    assert (C : cosineSim_js qemb (embedding v) = Some (Similarity.cosineSim q b))
      by (apply cosineSim_js_vectors; assumption).
    exists ({| doc := v; sim := Similarity.cosineSim q b |} :: sims).
    cbn [similarities]. rewrite C, E. repeat split.
    + cbn [map doc]. rewrite M. reflexivity.
    + constructor; [exact C|exact A].
Qed.

Lemma slice0_prefix {A : Type} (k : Z) (l : list A) :
  exists rest, l = slice0 k l ++ rest.
Proof.
  unfold slice0. destruct (k <? 0)%Z;
    eexists; symmetry; apply firstn_skipn.
Qed.

End RankingFacts.

(** C4, as the code has it.  For every query that is a numeric array and
    every corpus whose records each hold a numeric array, the ranking
    step computes one similarity per corpus entry, in corpus order, and
    sorts them: the sorted array is a rearrangement of the similarities
    and, when no similarity is NaN, the entries of any one similarity keep
    their corpus order in it and every entry is at least as similar as
    every entry after it.  The retrieved documents are a prefix of the sorted
    array: its first [RAG_TOP_K] entries when [RAG_TOP_K] is not
    negative. *)
Theorem C4_rank_is_stable_descending_sort_and_top_k_is_its_prefix :
  forall (rt : Json.Runtime) (RAG_TOP_K : Z) (qemb : Json.jsval)
         (vs : list Store.rag_record),
    is_vector qemb ->
    Forall (fun v => is_vector (Store.embedding v)) vs ->
    exists sims,
      Ranking.similarities qemb vs = Some sims
      /\ map Ranking.doc sims = vs
      /\ Forall (fun r => Ranking.cosineSim_js qemb (Store.embedding (Ranking.doc r))
                          = Some (Ranking.sim r)) sims
      /\ Ranking.rank qemb vs = Some (Ranking.sort sims)
      /\ Permutation (Ranking.sort sims) sims
      /\ (no_nan sims ->
          same_ties (Ranking.sort sims) sims /\ non_increasing (Ranking.sort sims))
      /\ Ranking.top_docs RAG_TOP_K qemb vs
         = Some (Ranking.slice0 RAG_TOP_K (Ranking.sort sims))
      /\ (exists rest,
            Ranking.sort sims
            = (Ranking.slice0 RAG_TOP_K (Ranking.sort sims) ++ rest)%list)
      /\ ((0 <= RAG_TOP_K)%Z ->
          Ranking.slice0 RAG_TOP_K (Ranking.sort sims)
          = firstn (Z.to_nat RAG_TOP_K) (Ranking.sort sims)).
Proof.
  intros rt K qemb vs Hq Hvs.
  destruct (similarities_run qemb vs Hq Hvs) as [sims [E [M A]]].
  exists sims. split; [exact E|]. split; [exact M|]. split; [exact A|].
  split; [unfold Ranking.rank; rewrite E; reflexivity|].
  split; [apply sort_permutation|].
  split; [intros N; split; [apply sort_keeps_ties|apply sort_non_increasing; exact N]|].
  split; [unfold Ranking.top_docs, Ranking.rank; rewrite E; reflexivity|].
  split; [apply slice0_prefix|].
  intros HK. unfold Ranking.slice0.
  destruct (Z.ltb_spec K 0); [lia|reflexivity].
Qed.

(** A corpus of four directions ranked against the first of them. *)
Lemma C4_witness_four_directions :
  exists sims,
    Ranking.similarities (rt := Samples.runtime) RankingSamples.query_east
      [RankingSamples.north; RankingSamples.east; RankingSamples.north_east;
       RankingSamples.east_again] = Some sims
    /\ Ranking.top_docs (rt := Samples.runtime) 2 RankingSamples.query_east
         [RankingSamples.north; RankingSamples.east; RankingSamples.north_east;
          RankingSamples.east_again]
       = Some (firstn 2 (Ranking.sort sims))
    /\ map Ranking.doc (firstn 2 (Ranking.sort sims))
       = [RankingSamples.east; RankingSamples.east_again].
Proof.
  destruct (C4_rank_is_stable_descending_sort_and_top_k_is_its_prefix
              Samples.runtime 2 RankingSamples.query_east
              [RankingSamples.north; RankingSamples.east; RankingSamples.north_east;
               RankingSamples.east_again])
    as [sims (E & _ & _ & _ & _ & _ & T & _ & F)].
  - eexists. reflexivity.
  - repeat constructor; eexists; reflexivity.
  - exists sims. split; [exact E|].
    specialize (F ltac:(lia)). change (Z.to_nat 2) with 2%nat in F.
    rewrite F in T. split; [exact T|].
    vm_compute in E. injection E as <-. reflexivity.
Defined.

(** C4 as stated fails when a similarity is NaN.  Against the query
    (2^500), the record (2^530) has similarity NaN (its dot product with
    the query and its norm are both infinite) and the record (0) has
    similarity 0; the comparator is NaN on the pair in either order, which
    the sort reads as a tie, so the stable sort leaves the pair as it is;
    and NaN is not at least 0: the result is not non-increasing. *)
Lemma C4_counterexample_nan_similarity :
  Ranking.rank (rt := Samples.runtime) RankingSamples.query_large
    [RankingSamples.huge_doc; RankingSamples.null_doc]
  = Some [ {| Ranking.doc := RankingSamples.huge_doc; Ranking.sim := nan |};
           {| Ranking.doc := RankingSamples.null_doc; Ranking.sim := 0%float |} ]
  /\ (0 <=? nan)%float = false.
Proof. split; reflexivity. Qed.

(** With a third record equal to the query, NaN ties with 0 and with 1
    while 0 and 1 do not tie: the comparator is not consistent.  This sort
    then leaves the similarities 0, NaN and 1 in corpus order, the best
    match last. *)
Example rank_with_nan_leaves_best_match_last :
  option_map (map Ranking.sim)
    (Ranking.rank (rt := Samples.runtime) RankingSamples.query_large
       [RankingSamples.null_doc; RankingSamples.huge_doc; RankingSamples.same_doc])
  = Some [0%float; nan; 1%float].
Proof. reflexivity. Qed.

(* ===================================================================== *)
(** * The gates of the two Express handlers, stage by stage *)
(* ===================================================================== *)

Section GateFacts.
Import Json Store Ranking Prompt Effects.
Local Open Scope js_scope.
Context {rt : Runtime} (w : Server.world).

(** The run of the common stages, once the outcome of each stage is
    known. *)
Lemma pipeline_steps (relay : list message -> M unit) (req_body : jsval)
    (v : Server.verdict) (tr1 : list event) (docs : list ranked) (tr2 : list event) :
  Server.validateMessageText (VStr (Server.user_message req_body)) = None ->
  Server.runModerationCheck w (Server.user_message req_body) [] = (Ok v, tr1) ->
  Server.flagged v = false ->
  Server.retrieval_stage w (Server.user_message req_body) [] = (Ok docs, tr2) ->
  pipeline w relay req_body []
  = match fst (Server.read_history (Server.client_history 20 req_body) []) with
    | Ok es =>
        if Server.key_missing w
        then (Ok tt, (Respond 500 key_not_configured :: tr2 ++ tr1)%list)
        else relay (buildMessagesWithRAG (Server.SYSTEM_PROMPT w) es
                      (Server.user_message req_body) docs) (tr2 ++ tr1)%list
    | Throw e => (Throw e, (tr2 ++ tr1)%list)
    end.
Proof.
  intros V R1 Fl R2. unfold pipeline. rewrite V.
  unfold bind at 1. unfold Server.moderation_stage, try_catch. unfold bind at 1.
  rewrite R1, Fl. unfold ret at 1.
  rewrite (bind_framed_run _ _ docs (framed_retrieval_stage w _)) by (rewrite R2; reflexivity).
  rewrite R2. cbn [snd].
  unfold Server.assemble, bind. rewrite read_history_run.
  destruct (Server.read_history _ []) as [[es|e] tr0]; cbn [fst]; [|reflexivity].
  unfold ret. destruct (Server.key_missing w); reflexivity.
Qed.

Lemma runModerationCheck_no_key (content : string) (tr : list event) :
  Server.key_missing w = true ->
  Server.runModerationCheck w content tr = (Ok Server.not_flagged, tr).
Proof. intros K. unfold Server.runModerationCheck. rewrite K. reflexivity. Qed.

(** The retrieval stage always returns, and emits nothing but its call
    and its log line. *)
Lemma retrieval_stage_returns (userMessage : string) :
  exists docs tr,
    Server.retrieval_stage w userMessage [] = (Ok docs, tr)
    /\ forallb is_retrieval_event tr = true.
Proof.
  destruct (retrieval_stage_emits w is_retrieval_event userMessage
              (fun _ => eq_refl) (fun _ _ => eq_refl) []) as [evs [E F]].
  rewrite app_nil_r in E.
  destruct (retrieval_stage_run w userMessage) as [docs [tr [R _]]].
  rewrite R in E. cbn [snd] in E. subst tr. exists docs, evs. auto.
Qed.

Lemma retrieval_events_hold (q : event -> bool) (tr : list event) :
  (forall e, is_retrieval_event e = true -> q e = false) ->
  forallb is_retrieval_event tr = true -> filter q (rev tr) = [].
Proof.
  intros Hq F. apply (forallb_filter_nil is_retrieval_event); [exact Hq|].
  rewrite forallb_rev. exact F.
Qed.

End GateFacts.



(* ===================================================================== *)
(** * The retrieval stage and what reaches the prompt *)
(* ===================================================================== *)

Section RetrievalFacts.
Import Json Store Ranking Prompt Effects.
Local Open Scope js_scope.
Context {rt : Runtime} (w : Server.world).

Lemma cosineSim_js_nullish (a b : jsval) :
  nullish a || nullish b = true -> cosineSim_js a b = None.
Proof. intros H. unfold cosineSim_js. rewrite H. reflexivity. Qed.

Lemma similarities_none (qemb : jsval) (vs : list rag_record) :
  vs <> [] ->
  nullish qemb = true \/ Exists (fun v => nullish (embedding v) = true) vs ->
  similarities qemb vs = None.
Proof.
  intros N [Q|E].
  - destruct vs as [|v vs]; [congruence|]. cbn [similarities].
    rewrite (cosineSim_js_nullish qemb (embedding v)); [reflexivity|].
    rewrite Q. reflexivity.
  - clear N. induction E as [v vs Hv|v vs _ IH]; cbn [similarities].
    + rewrite (cosineSim_js_nullish qemb (embedding v)); [reflexivity|].
      rewrite Hv. apply orb_true_r.
    + rewrite IH. destruct (cosineSim_js qemb (embedding v)); reflexivity.
Qed.

Lemma retrieval_on_test :
  retrieval_on w ->
  Server.RAG_ENABLED w && (0 <? length (Server.RAG_VECTORS w))%nat = true.
Proof.
  intros [-> N]. destruct (Server.RAG_VECTORS w); [congruence|reflexivity].
Qed.

(** A failed retrieval is caught: one call, one log line, no document. *)
Lemma retrieval_stage_fails (userMessage : string) (e : exn) :
  retrieval_on w -> retrieval_failure w e ->
  Server.retrieval_stage w userMessage []
  = (Ok [], [ConsoleError "RAG embedding error:" [LExn e];
             Fetch (EmbeddingsReq userMessage)]).
Proof.
  intros On F. unfold Server.retrieval_stage. rewrite (retrieval_on_test On).
  unfold Server.getEmbedding, Server.fetch, Server.res_json, try_catch, bind, emit, ret, throw.
  destruct F as [C|r C O|r C O J|r j C O J N]; rewrite C; cbn.
  - reflexivity.
  - rewrite O. reflexivity.
  - rewrite O, J. reflexivity.
  - rewrite O, J. cbn.
    change (opt_key (opt_first (opt_key j "data")) "embedding") with (embedding_of j).
    unfold top_docs, rank.
    rewrite (similarities_none _ _ (proj2 On) N). reflexivity.
Qed.

(** A retrieval that succeeds: one call, no log line, the first
    [RAG_TOP_K] records of the ranking. *)
Lemma retrieval_stage_succeeds (userMessage : string) (r : response) (j : jsval)
    (sims : list ranked) :
  retrieval_on w ->
  Server.embeddings w = Resolves r -> ok r = true -> json r = Some j ->
  similarities (embedding_of j) (Server.RAG_VECTORS w) = Some sims ->
  Server.retrieval_stage w userMessage []
  = (Ok (slice0 (Server.RAG_TOP_K w) (sort sims)), [Fetch (EmbeddingsReq userMessage)]).
Proof.
  intros On C O J S. unfold Server.retrieval_stage. rewrite (retrieval_on_test On).
  unfold Server.getEmbedding, Server.fetch, Server.res_json, try_catch, bind, emit, ret, throw.
  rewrite C. cbn. rewrite O, J. cbn.
  change (opt_key (opt_first (opt_key j "data")) "embedding") with (embedding_of j).
  unfold top_docs, rank. rewrite S. reflexivity.
Qed.

(** Past the gates, [POST /api/chat] is its three stages in a row. *)
Lemma chat_run (req_body : jsval) (history : list hentry)
    (docs : list ranked) (tr2 : list event) :
  passes_gates w req_body history ->
  Server.retrieval_stage w (Server.user_message req_body) [] = (Ok docs, tr2) ->
  events (Server.chat w req_body)
  = (events (Server.runModerationCheck w (Server.user_message req_body))
     ++ rev tr2
     ++ events (Server.buffered_relay w
                  (buildMessagesWithRAG (Server.SYSTEM_PROMPT w) history
                     (Server.user_message req_body) docs)))%list.
Proof.
  intros (V & (v & Mo & Fl) & H & K) R2.
  unfold completion in Mo, H.
  destruct (Server.runModerationCheck w (Server.user_message req_body) []) as [res tr1] eqn:R1.
  cbn [fst] in Mo. subst res.
  rewrite chat_is_pipeline. unfold events at 1.
  rewrite (pipeline_steps w _ req_body v tr1 docs tr2 V R1 Fl R2), H, K.
  rewrite (framed_buffered_relay w _ (tr2 ++ tr1)%list). cbn [snd].
  unfold events. rewrite R1. cbn [snd]. rewrite !rev_app_distr, app_assoc. reflexivity.
Qed.

(** Past the gates, [POST /api/chat/stream] is the same stages, the
    header events, and the streaming relay. *)
Lemma chat_stream_run (req_body : jsval) (history : list hentry)
    (docs : list ranked) (tr2 : list event) :
  passes_gates w req_body history ->
  Server.retrieval_stage w (Server.user_message req_body) [] = (Ok docs, tr2) ->
  exists post,
    forallb is_stream_event post = true
    /\ events (Server.chat_stream w req_body)
       = (events (Server.runModerationCheck w (Server.user_message req_body))
          ++ rev tr2
          ++ sse_header_events
          ++ Fetch (CompletionsReq
                      (buildMessagesWithRAG (Server.SYSTEM_PROMPT w) history
                         (Server.user_message req_body) docs) true)
             :: post)%list.
Proof.
  intros (V & (v & Mo & Fl) & H & K) R2.
  unfold completion in Mo, H.
  destruct (Server.runModerationCheck w (Server.user_message req_body) []) as [res tr1] eqn:R1.
  cbn [fst] in Mo. subst res.
  rewrite chat_stream_is_pipeline. unfold events at 1.
  rewrite (pipeline_steps w _ req_body v tr1 docs tr2 V R1 Fl R2), H, K.
  set (ms := buildMessagesWithRAG _ _ _ _).
  destruct (streaming_relay_shape w ms (rev sse_header_events ++ tr2 ++ tr1)%list)
    as [post [F R]].
  exists (rev post). split; [rewrite forallb_rev; exact F|].
  change (bind Server.sse_headers (fun _ => Server.streaming_relay w ms) (tr2 ++ tr1)%list)
    with (Server.streaming_relay w ms (rev sse_header_events ++ tr2 ++ tr1)%list).
  rewrite R. cbn [snd]. unfold events. rewrite R1. cbn [snd].
  rewrite rev_app_distr. cbn [rev]. rewrite !rev_app_distr, rev_involutive, <- !app_assoc.
  reflexivity.
Qed.

(** The assembler returns when the texts of the documents convert and
    the history can be read. *)
Lemma buildMessagesWithRAG_returns (systemPrompt : string) (hs : list jsval)
    (history : list hentry) (userMessage : string) (docs : list ranked) :
  Forall (fun d => String_throws (Store.text (doc d)) = false) docs ->
  completion (Server.read_history hs) = Ok history ->
  Server.buildMessagesWithRAG systemPrompt hs userMessage docs
  = Some (buildMessagesWithRAG systemPrompt history userMessage docs).
Proof.
  intros T H. unfold Server.buildMessagesWithRAG.
  replace (existsb (fun d => String_throws (Store.text (doc d))) docs) with false.
  - unfold completion in H. rewrite read_history_is_entries_of in H. cbn [fst] in H.
    destruct (Server.entries_of hs) as [es|]; [|discriminate H].
    injection H as ->. reflexivity.
  - symmetry. apply not_true_is_false. intros E. apply existsb_exists in E as [d [Hd E]].
    rewrite Forall_forall in T. rewrite (T d Hd) in E. discriminate E.
Qed.

End RetrievalFacts.



Section RankedDocuments.
Import Json Store Ranking.

Lemma slice0_length {A : Type} (k : Z) (l : list A) :
  (0 <= k)%Z -> length (slice0 k l) = Nat.min (Z.to_nat k) (length l).
Proof.
  intros H. unfold slice0. destruct (Z.ltb_spec k 0); [lia|]. apply length_firstn.
Qed.

Lemma slice0_incl {A : Type} (k : Z) (l : list A) : incl (slice0 k l) l.
Proof.
  destruct (slice0_prefix k l) as [rest E]. intros x Hx.
  rewrite E. apply in_or_app. left. exact Hx.
Qed.

End RankedDocuments.



(* ===================================================================== *)
(** * What the upstream services see *)
(* ===================================================================== *)

Section UpstreamFacts.
Import Json Store Ranking Prompt Effects.
Local Open Scope js_scope.
Context {rt : Runtime} (w : Server.world).

Lemma runModerationCheck_carries (content : string) :
  emits_only (carries content) (Server.runModerationCheck w content).
Proof.
  unfold Server.runModerationCheck, Server.fetch, Server.res_json.
  destruct (Server.key_missing w); [apply emits_only_ret|].
  apply emits_only_try_catch; [|intros e; repeat emits_step].
  apply emits_only_bind; [|intros r; repeat emits_step].
  apply emits_only_bind; [|intros _; repeat emits_step].
  apply emits_only_emit. apply String.eqb_refl.
Qed.

Lemma retrieval_stage_carries (userMessage : string) :
  emits_only (carries userMessage) (Server.retrieval_stage w userMessage).
Proof.
  unfold Server.retrieval_stage, Server.getEmbedding, Server.fetch, Server.res_json.
  destruct (_ && _); [|apply emits_only_ret].
  apply emits_only_try_catch; [|intros e; repeat emits_step].
  apply emits_only_bind; [|intros q; repeat emits_step].
  apply emits_only_bind; [|intros r; repeat emits_step].
  apply emits_only_bind; [|intros _; repeat emits_step].
  apply emits_only_emit. apply String.eqb_refl.
Qed.

Lemma emits_only_run (P : event -> bool) {A : Type} (c : M A) (res : result A)
    (tr : list event) :
  emits_only P c -> c [] = (res, tr) -> forallb P tr = true.
Proof.
  intros H R. destruct (H []) as [evs [E F]]. rewrite R, app_nil_r in E.
  cbn [snd] in E. subst tr. exact F.
Qed.

Lemma read_history_length (hs : list jsval) (es : list hentry) :
  fst (Server.read_history hs []) = Ok es -> length es = length hs.
Proof.
  revert es. induction hs as [|h hs IH]; intros es.
  - intros H. injection H as <-. reflexivity.
  - cbn [Server.read_history]. destruct (Server.entry_of h) as [e|]; [|discriminate].
    unfold bind. destruct (Server.read_history hs []) as [[es'|x] tr0]; [|discriminate].
    intros H. injection H as <-. cbn [length]. rewrite (IH es' eq_refl). reflexivity.
Qed.

Lemma last_n_length {A : Type} (n : nat) (xs : list A) : length (Server.last_n n xs) <= n.
Proof. unfold Server.last_n. rewrite length_skipn. lia. Qed.

(** How the common stages end: with events of the gates only, or in
    the relay, entered with the messages assembled from the history. *)
Lemma pipeline_outcomes (relay : list message -> M unit) (req_body : jsval) :
  let userMessage := Server.user_message req_body in
  (exists res evs,
      pipeline w relay req_body [] = (res, evs)
      /\ forallb is_gate_event evs = true
      /\ forallb (carries userMessage) evs = true
      /\ (Server.validateMessageText (VStr userMessage) <> None -> filter is_fetch evs = []))
  \/ (exists history docs pre,
        Server.validateMessageText (VStr userMessage) = None
        /\ fst (Server.read_history (Server.client_history 20 req_body) []) = Ok history
        /\ forallb is_prelude_event pre = true
        /\ forallb (carries userMessage) pre = true
        /\ pipeline w relay req_body []
           = relay (buildMessagesWithRAG (Server.SYSTEM_PROMPT w) history userMessage docs) pre).
Proof.
  intros userMessage. subst userMessage.
  destruct (Server.validateMessageText (VStr (Server.user_message req_body))) as [v|] eqn:V.
  - left. unfold pipeline. rewrite V. eexists _, _. split; [reflexivity|].
    split; [reflexivity|]. split; [reflexivity|]. intros _. reflexivity.
  - destruct (moderation_stage_run w (Server.user_message req_body))
      as [v [tr1 [R1 [F1 S1]]]].
    pose proof (emits_only_run _ _ _ _ (runModerationCheck_carries _) R1) as C1.
    apply moderation_is_prelude in F1.
    destruct (Server.flagged v) eqn:Fl.
    + left. unfold pipeline. rewrite V. unfold bind at 1. rewrite S1.
      eexists _, _. split; [reflexivity|].
      assert (G : forallb is_gate_event tr1 = true).
      { rewrite forallb_forall in *. intros e He. unfold is_gate_event.
        rewrite (F1 e He). reflexivity. }
      split; [cbn [forallb]; rewrite G; reflexivity|].
      split; [cbn [forallb]; rewrite C1; reflexivity|]. intros N. congruence.
    + destruct (retrieval_stage_run w (Server.user_message req_body))
        as [docs [tr2 [R2 F2]]].
      pose proof (emits_only_run _ _ _ _ (retrieval_stage_carries _) R2) as C2.
      rewrite (pipeline_steps w relay req_body v tr1 docs tr2 V R1 Fl R2).
      assert (F : forallb is_prelude_event (tr2 ++ tr1) = true)
        by (rewrite forallb_app, F1, F2; reflexivity).
      assert (C : forallb (carries (Server.user_message req_body)) (tr2 ++ tr1) = true)
        by (rewrite forallb_app, C1, C2; reflexivity).
      assert (G : forallb is_gate_event (tr2 ++ tr1) = true).
      { rewrite forallb_forall in *. intros e He. unfold is_gate_event.
        rewrite (F e He). reflexivity. }
      destruct (fst (Server.read_history (Server.client_history 20 req_body) []))
        as [es|e] eqn:H.
      * destruct (Server.key_missing w).
        -- left. eexists _, _. split; [reflexivity|].
           split; [cbn [forallb]; rewrite G; reflexivity|].
           split; [cbn [forallb]; rewrite C; reflexivity|]. intros N. congruence.
        -- right. exists es, docs, (tr2 ++ tr1)%list. auto.
      * left. eexists _, _. split; [reflexivity|]. split; [exact G|].
        split; [exact C|]. intros N. congruence.
Qed.

Lemma gate_events_hold_no_completions (evs : list event) (ms : list message) (st : bool) :
  forallb is_gate_event evs = true -> ~ In (Fetch (CompletionsReq ms st)) evs.
Proof.
  intros F H. rewrite forallb_forall in F. specialize (F _ H). discriminate F.
Qed.

Lemma prelude_is_gate (evs : list event) :
  forallb is_prelude_event evs = true -> forallb is_gate_event evs = true.
Proof.
  rewrite !forallb_forall. intros F e He. unfold is_gate_event. rewrite (F e He). reflexivity.
Qed.

Lemma assembled_messages (n : nat) (prompt : string) (history : list hentry)
    (userMessage : string) (docs : list ranked) (req_body : jsval) :
  fst (Server.read_history (Server.client_history n req_body) []) = Ok history ->
  let messages := buildMessagesWithRAG prompt history userMessage docs in
  length history <= n
  /\ length messages <= n + 2
  /\ last messages {| role := ""; content := "" |}
     = {| role := "user"; content := userMessage |}.
Proof.
  intros H messages.
  assert (L : length history <= n).
  { rewrite (read_history_length _ _ H). apply last_n_length. }
  split; [exact L|]. subst messages. unfold buildMessagesWithRAG. split.
  - cbn [length]. rewrite length_app, length_map. cbn [length]. lia.
  - rewrite app_comm_cons. apply last_last.
Qed.

End UpstreamFacts.

Section UpstreamProof.
Import Json Store Ranking Prompt Effects.
Local Open Scope js_scope.
Context {rt : Runtime} (w : Server.world).

Lemma filter_of_rev {A : Type} (p : A -> bool) (l : list A) :
  filter p (rev l) = rev (filter p l).
Proof.
  induction l as [|x l IH]; [reflexivity|].
  cbn [rev filter]. rewrite filter_app, IH. cbn [filter].
  destruct (p x); [reflexivity|apply app_nil_r].
Qed.

Lemma gates_only_view (n : nat) (req_body : jsval) (evs : list event) :
  forallb is_gate_event evs = true ->
  forallb (carries (Server.user_message req_body)) evs = true ->
  (Server.validateMessageText (VStr (Server.user_message req_body)) <> None ->
   filter is_fetch evs = []) ->
  sends_validated_text w n req_body (rev evs).
Proof.
  intros G C N. unfold sends_validated_text. split; [|split].
  - intros H.
    destruct (Server.validateMessageText (VStr (Server.user_message req_body))) as [v|];
      [|reflexivity].
    exfalso. apply H. rewrite filter_of_rev, N; [reflexivity|discriminate].
  - rewrite forallb_rev. exact C.
  - intros ms st H. apply in_rev in H.
    destruct (gate_events_hold_no_completions evs ms st G H).
Qed.

Lemma stream_event_carries (userMessage : string) (post : list event) :
  forallb is_stream_event post = true -> forallb (carries userMessage) post = true.
Proof.
  rewrite !forallb_forall. intros F e He. specialize (F e He).
  destruct e as [ [ | | ] | | | | | | | ]; simpl in *; congruence.
Qed.

Lemma stream_event_not_completions (post : list event) (ms : list message) (st : bool) :
  forallb is_stream_event post = true -> ~ In (Fetch (CompletionsReq ms st)) post.
Proof.
  intros F H. rewrite forallb_forall in F. specialize (F _ H). discriminate F.
Qed.

Lemma buffered_relay_carries (userMessage : string) (messages : list message) :
  emits_only (carries userMessage) (Server.buffered_relay w messages).
Proof.
  unfold Server.buffered_relay, Server.callOpenAIChat, Server.fetch, Server.res_json.
  repeat emits_step.
Qed.

(** What a relay run adds to the view, when it calls the completions
    service once, with the assembled messages. *)
Lemma relayed_view (req_body : jsval) (history : list hentry) (docs : list ranked)
    (pre run : list event) :
  let userMessage := Server.user_message req_body in
  let messages := buildMessagesWithRAG (Server.SYSTEM_PROMPT w) history userMessage docs in
  Server.validateMessageText (VStr userMessage) = None ->
  fst (Server.read_history (Server.client_history 20 req_body) []) = Ok history ->
  forallb is_prelude_event pre = true ->
  forallb (carries userMessage) pre = true ->
  forallb (carries userMessage) run = true ->
  (forall ms' st', In (Fetch (CompletionsReq ms' st')) run -> ms' = messages) ->
  sends_validated_text w 20 req_body (rev pre ++ run)%list.
Proof.
  intros userMessage messages V H F C Cr One. unfold sends_validated_text.
  fold userMessage. split; [intros _; exact V|]. split.
  - rewrite forallb_app, forallb_rev, C, Cr. reflexivity.
  - intros ms st Hin. apply in_app_or in Hin as [Hin|Hin].
    + apply in_rev in Hin.
      destruct (gate_events_hold_no_completions pre ms st (prelude_is_gate pre F) Hin).
    + rewrite (One ms st Hin). exists history, docs.
      split; [exact H|]. split; [reflexivity|].
      exact (assembled_messages 20 _ history userMessage docs req_body H).
Qed.

End UpstreamProof.

(** No upstream service is called for a message that did not pass
    validation.  Whatever either Express handler sends to the moderation
    and embeddings services is the message text, as validated; and a
    completions request is made of the system message, at most 20 history
    entries (the last ones the caller sent) and, last, the user message
    with that same text: at most 22 messages. *)
Theorem express_upstream_sees_the_validated_text :
  forall (rt : Json.Runtime) (w : Server.world) (req_body : Json.jsval),
    sends_validated_text w 20 req_body (Effects.events (Server.chat w req_body))
    /\ sends_validated_text w 20 req_body (Effects.events (Server.chat_stream w req_body)).
Proof.
  intros rt w req_body. split.
  - rewrite chat_is_pipeline. unfold Effects.events.
    destruct (pipeline_outcomes w (Server.buffered_relay w) req_body)
      as [(res & evs & R & G & C & N)|(history & docs & pre & V & H & F & C & R)];
      rewrite R; cbn [snd].
    + apply gates_only_view; assumption.
    + rewrite (framed_buffered_relay w _ pre). cbn [snd]. rewrite rev_app_distr.
      apply (relayed_view w req_body history docs); try assumption.
      * apply (emits_only_events _ _ (buffered_relay_carries w _ _)).
      * intros ms' st' Hin.
        destruct (buffered_relay_contract w
                    (Prompt.buildMessagesWithRAG (Server.SYSTEM_PROMPT w) history
                       (Server.user_message req_body) docs)) as (_ & Hf & _).
        assert (Hin' : In (Effects.Fetch (Effects.CompletionsReq ms' st'))
                          (filter is_fetch
                             (Effects.events (Server.buffered_relay w
                                (Prompt.buildMessagesWithRAG (Server.SYSTEM_PROMPT w) history
                                   (Server.user_message req_body) docs)))))
          by (apply filter_In; split; [exact Hin|reflexivity]).
        rewrite Hf in Hin'. destruct Hin' as [E|[]]. injection E as <- _. reflexivity.
  - rewrite chat_stream_is_pipeline. unfold Effects.events.
    destruct (pipeline_outcomes w
                (fun ms => Effects.bind Server.sse_headers
                             (fun _ => Server.streaming_relay w ms)) req_body)
      as [(res & evs & R & G & C & N)|(history & docs & pre & V & H & F & C & R)];
      rewrite R; cbn [snd].
    + apply gates_only_view; assumption.
    + set (ms := Prompt.buildMessagesWithRAG _ _ _ _).
      destruct (streaming_relay_shape w ms (rev sse_header_events ++ pre)%list)
        as [post [Fp Rs]].
      change (Effects.bind Server.sse_headers (fun _ => Server.streaming_relay w ms) pre)
        with (Server.streaming_relay w ms (rev sse_header_events ++ pre)%list).
      rewrite Rs. cbn [snd].
      rewrite rev_app_distr. cbn [rev]. rewrite rev_app_distr, rev_involutive, <- !app_assoc.
      apply (relayed_view w req_body history docs); try assumption.
      * rewrite forallb_app. cbn [app forallb carries sse_header_events andb].
        rewrite (stream_event_carries _ (rev post)) by (rewrite forallb_rev; exact Fp).
        reflexivity.
      * intros ms' st' Hin. apply in_app_or in Hin as [Hin|Hin].
        -- cbn in Hin. repeat (destruct Hin as [Hin|Hin]; [discriminate Hin|]).
           destruct Hin.
        -- cbn [app] in Hin. destruct Hin as [E|Hin]; [injection E as <- _; reflexivity|].
           destruct (stream_event_not_completions (rev post) ms' st'
                       ltac:(rewrite forallb_rev; exact Fp) Hin).
Qed.

(* ===================================================================== *)
(** * The streaming handler before its stream *)
(* ===================================================================== *)

Section StreamGateFacts.
Import Json Store Ranking Prompt Effects.
Local Open Scope js_scope.
Context {rt : Runtime} (w : Server.world).

Lemma prelude_holds (q : event -> bool) (pre : list event) :
  (forall e, is_prelude_event e = true -> q e = false) ->
  forallb is_prelude_event pre = true -> filter q (rev pre) = [].
Proof.
  intros Hq F. apply (forallb_filter_nil is_prelude_event); [exact Hq|].
  rewrite forallb_rev. exact F.
Qed.

Lemma prelude_no_stream_output (e : event) :
  is_prelude_event e = true -> is_stream_output e = false.
Proof. destruct e as [ [ | | ] | | | | | | | ]; simpl; congruence. Qed.

Lemma prelude_not_completions (e : event) :
  is_prelude_event e = true -> is_completions_fetch e = false.
Proof. destruct e as [ [ | | ] | | | | | | | ]; simpl; congruence. Qed.

Lemma prelude_in_no_respond (pre : list event) (code : nat) (b : json_body) :
  forallb is_prelude_event pre = true -> ~ In (Respond code b) (rev pre).
Proof.
  intros F H. apply in_rev in H. rewrite forallb_forall in F.
  specialize (F _ H). discriminate F.
Qed.

(** A flagged verdict ends the common stages at once, whatever the
    relay. *)
Lemma pipeline_flagged (relay : list message -> M unit) (req_body : jsval)
    (v : Server.verdict) :
  Server.validateMessageText (VStr (Server.user_message req_body)) = None ->
  fst (Server.runModerationCheck w (Server.user_message req_body) []) = Ok v ->
  Server.flagged v = true ->
  pipeline w relay req_body []
  = (Ok tt, Respond 400 (ErrorBody Server.policy_message)
            :: snd (Server.runModerationCheck w (Server.user_message req_body) [])).
Proof.
  intros V R Fl. unfold pipeline. rewrite V.
  unfold bind at 1. unfold Server.moderation_stage, try_catch. unfold bind at 1.
  destruct (Server.runModerationCheck w (Server.user_message req_body) [])
    as [[v'|e] tr]; simpl in R; [|discriminate].
  injection R as ->. rewrite Fl. reflexivity.
Qed.

End StreamGateFacts.

(** [POST /api/chat/stream] answers a request either by a status or by
    a stream, never by both.  Either it sets no stream header and writes
    nothing, answers at most once, with status 400 or 500, and never calls
    the completions service; or it sends no status response at all: after
    calls to the moderation and embeddings services and log lines it sets
    and flushes the stream headers, calls the completions service, and
    from then on only logs, writes and ends the response. *)
Theorem stream_answers_by_status_or_by_stream :
  forall (rt : Json.Runtime) (w : Server.world) (req_body : Json.jsval),
    let evs := Effects.events (Server.chat_stream w req_body) in
    (filter is_stream_output evs = []
     /\ length (filter is_respond evs) <= 1
     /\ (forall code b, In (Effects.Respond code b) evs -> code = 400 \/ code = 500)
     /\ filter is_completions_fetch evs = [])
    \/ (filter is_respond evs = []
        /\ exists pre messages post,
             forallb is_prelude_event pre = true
             /\ forallb is_stream_event post = true
             /\ evs = (pre ++ sse_header_events
                           ++ Effects.Fetch (Effects.CompletionsReq messages true)
                              :: post)%list).
Proof.
  intros rt w req_body evs. subst evs.
  rewrite chat_stream_is_pipeline. unfold Effects.events.
  destruct (pipeline_cases w
              (fun ms => Effects.bind Server.sse_headers
                           (fun _ => Server.streaming_relay w ms)) req_body)
    as [v Hv|pre F|pre F|pre F|pre messages F K].
  - left. cbn. split; [reflexivity|]. split; [lia|]. split; [|reflexivity].
    intros code b [E|[]]. injection E as <- _. left. reflexivity.
  - left. cbn [snd rev]. rewrite !filter_app.
    rewrite (prelude_holds is_stream_output pre prelude_no_stream_output F).
    rewrite (prelude_holds is_completions_fetch pre prelude_not_completions F).
    rewrite (prelude_has_no_respond pre F). cbn.
    split; [reflexivity|]. split; [lia|]. split; [|reflexivity].
    intros code b H. apply in_app_or in H as [H|[E|[]]].
    + destruct (prelude_in_no_respond pre code b F H).
    + injection E as <- _. left. reflexivity.
  - left. cbn [snd].
    rewrite (prelude_holds is_stream_output pre prelude_no_stream_output F).
    rewrite (prelude_holds is_completions_fetch pre prelude_not_completions F).
    rewrite (prelude_has_no_respond pre F). cbn.
    split; [reflexivity|]. split; [lia|]. split; [|reflexivity].
    intros code b H. destruct (prelude_in_no_respond pre code b F H).
  - left. cbn [snd rev]. rewrite !filter_app.
    rewrite (prelude_holds is_stream_output pre prelude_no_stream_output F).
    rewrite (prelude_holds is_completions_fetch pre prelude_not_completions F).
    rewrite (prelude_has_no_respond pre F). cbn.
    split; [reflexivity|]. split; [lia|]. split; [|reflexivity].
    intros code b H. apply in_app_or in H as [H|[E|[]]].
    + destruct (prelude_in_no_respond pre code b F H).
    + injection E as <- _. right. reflexivity.
  - right.
    destruct (streaming_relay_shape w messages (rev sse_header_events ++ pre)%list)
      as [post [Fp Rs]].
    change (Effects.bind Server.sse_headers (fun _ => Server.streaming_relay w messages) pre)
      with (Server.streaming_relay w messages (rev sse_header_events ++ pre)%list).
    rewrite Rs. cbn [snd].
    assert (E : rev (post ++ Effects.Fetch (Effects.CompletionsReq messages true)
                          :: rev sse_header_events ++ pre)
                = (rev pre ++ sse_header_events
                   ++ Effects.Fetch (Effects.CompletionsReq messages true) :: rev post)%list).
    { rewrite rev_app_distr. cbn [rev]. rewrite rev_app_distr, rev_involutive, <- !app_assoc.
      reflexivity. }
    rewrite E. split.
    + rewrite !filter_app, (prelude_has_no_respond pre F). cbn [filter sse_header_events
        is_respond app].
      apply stream_events_no_respond. rewrite forallb_rev. exact Fp.
    + exists (rev pre), messages, (rev post).
      split; [rewrite forallb_rev; exact F|]. split; [rewrite forallb_rev; exact Fp|].
      reflexivity.
Qed.


(* ===================================================================== *)
(** * The frames of the stream *)
(* ===================================================================== *)

Section FrameFacts.
Import JsString.

Lemma has_LF_app (a b : string) : has_LF (a ++ b) = has_LF a || has_LF b.
Proof.
  induction a as [|c a IH]; [reflexivity|].
  cbn [append has_LF]. rewrite IH. apply orb_assoc.
Qed.

Lemma has_control_app (a b : string) : has_control (a ++ b) = has_control a || has_control b.
Proof.
  induction a as [|c a IH]; [reflexivity|].
  cbn [append has_control]. rewrite IH. apply orb_assoc.
Qed.

Lemma control_free_no_LF (s : string) : has_control s = false -> has_LF s = false.
Proof.
  induction s as [|c s IH]; [reflexivity|].
  cbn [has_control has_LF]. intros H. apply orb_false_iff in H as [Hc Hs].
  rewrite (IH Hs), orb_false_r.
  destruct (Ascii.eqb_spec c LF) as [->|]; [discriminate Hc|reflexivity].
Qed.

(** No piece of a split text holds a line feed. *)
Lemma split_lines_no_LF (s : string) :
  Forall (fun l => has_LF l = false) (split_lines s).
Proof.
  induction s as [|c r IH]; [repeat constructor|].
  cbn [split_lines]. destruct (Ascii.eqb c LF) eqn:E; [constructor; [reflexivity|exact IH]|].
  destruct (Ascii.eqb c CR && startsWith r (String LF EmptyString)); [exact IH|].
  destruct (split_lines r) as [|l ls];
    [constructor; [cbn [has_LF]; rewrite E; reflexivity|constructor]|].
  inversion IH as [|? ? Hl Hls]; subst. constructor; [|exact Hls].
  cbn [has_LF]. rewrite E, Hl. reflexivity.
Qed.

Lemma lines_of_chunk_no_LF (chunk : string) :
  Forall (fun l => has_LF l = false) (Server.lines_of_chunk chunk).
Proof.
  unfold Server.lines_of_chunk, filter_Boolean.
  pose proof (split_lines_no_LF chunk) as F. rewrite Forall_forall in *.
  intros l Hl. apply filter_In in Hl as [Hl _]. exact (F l Hl).
Qed.

Lemma drop_no_LF (n : nat) (s : string) : has_LF s = false -> has_LF (drop n s) = false.
Proof.
  revert s. induction n as [|n IH]; intros s H; [exact H|].
  destruct s as [|c s]; [reflexivity|]. cbn [drop]. apply IH.
  cbn [has_LF] in H. apply orb_false_iff in H as [_ H]. exact H.
Qed.

Lemma trim_start_no_LF (s : string) : has_LF s = false -> has_LF (trim_start s) = false.
Proof.
  induction s as [|c s IH]; [reflexivity|].
  intros H. cbn [trim_start]. destruct (is_ws c); [|exact H].
  apply IH. cbn [has_LF] in H. apply orb_false_iff in H as [_ H]. exact H.
Qed.

(** [JSON.stringify] of a string leaves no control character: each is
    written as an escape. *)
Lemma quote_char_no_control (c : ascii) : has_control (quote_char c) = false.
Proof. destruct c as [[] [] [] [] [] [] [] []]; reflexivity. Qed.

Lemma quote_body_no_control (s : string) : has_control (quote_body s) = false.
Proof.
  induction s as [|c s IH]; [reflexivity|].
  cbn [quote_body]. rewrite has_control_app, quote_char_no_control, IH. reflexivity.
Qed.

Lemma JSON_stringify_no_control (s : string) : has_control (JSON_stringify s) = false.
Proof.
  unfold JSON_stringify. rewrite !has_control_app, quote_body_no_control. reflexivity.
Qed.

Lemma ends_its_only_line_intro (payload : string) :
  has_LF payload = false -> ends_its_only_line (payload ++ Prompt.nl ++ Prompt.nl) = true.
Proof.
  induction payload as [|c p IH]; [reflexivity|].
  cbn [has_LF append ends_its_only_line]. intros H. apply orb_false_iff in H as [Hc Hp].
  rewrite Hc. exact (IH Hp).
Qed.

Lemma ends_its_only_line_elim (s : string) :
  ends_its_only_line s = true ->
  exists payload, s = payload ++ Prompt.nl ++ Prompt.nl /\ has_LF payload = false.
Proof.
  induction s as [|c s IH]; [discriminate|].
  cbn [ends_its_only_line]. destruct (Ascii.eqb_spec c LF) as [->|N].
  - intros H. apply String.eqb_eq in H. subst s. exists EmptyString. split; reflexivity.
  - intros H. destruct (IH H) as [p [-> Hp]]. exists (String c p). split; [reflexivity|].
    cbn [has_LF]. rewrite Hp, orb_false_r. apply Ascii.eqb_neq. exact N.
Qed.

Lemma sse_frame_one_line (payload : string) :
  has_LF payload = false -> one_line_frame (Server.sse_frame payload) = true.
Proof.
  intros H. unfold one_line_frame, Server.sse_frame.
  change (drop 6 ("data: " ++ payload ++ Prompt.nl ++ Prompt.nl))
    with (payload ++ Prompt.nl ++ Prompt.nl).
  rewrite (ends_its_only_line_intro payload H), andb_true_r.
  unfold startsWith. cbn [append prefix].
  repeat (destruct (ascii_dec _ _) as [_|N]; [|congruence]).
  destruct (payload ++ _); reflexivity.
Qed.

Lemma prefix_split (p s : string) : prefix p s = true -> s = p ++ drop (String.length p) s.
Proof.
  revert s. induction p as [|a p IH]; intros s; [reflexivity|].
  destruct s as [|b s]; [discriminate|]. cbn [prefix].
  destruct (ascii_dec a b) as [->|]; [|discriminate].
  intros H. cbn [String.length drop append]. rewrite <- (IH s H). reflexivity.
Qed.

Lemma one_line_frame_elim (data : string) :
  one_line_frame data = true ->
  exists payload, data = Server.sse_frame payload /\ has_LF payload = false.
Proof.
  unfold one_line_frame. intros H. apply andb_prop in H as [P E].
  destruct (ends_its_only_line_elim _ E) as [payload [D N]].
  exists payload. split; [|exact N].
  unfold Server.sse_frame. rewrite <- D. exact (prefix_split "data: " data P).
Qed.

End FrameFacts.

Section FrameEmission.
Import Json Store Ranking Prompt Effects.
Local Open Scope js_scope.
Context {rt : Runtime} (w : Server.world).

Lemma forward_line_writes_frames (line : string) :
  has_LF line = false -> emits_only is_stream_write (Server.forward_line w line).
Proof.
  intros H. unfold Server.forward_line.
  destruct (JsString.is_empty _); [apply emits_only_ret|].
  destruct (JsString.startsWith line "data:") eqn:D; apply res_write_emits;
    unfold is_stream_write; rewrite sse_frame_one_line; try reflexivity.
  - unfold JsString.strip_data_prefix. rewrite D.
    apply trim_start_no_LF, drop_no_LF, H.
  - apply control_free_no_LF, JSON_stringify_no_control.
Qed.

Lemma forward_lines_write_frames (lines : list string) :
  Forall (fun l => has_LF l = false) lines ->
  emits_only is_stream_write (Server.forward_lines w lines).
Proof.
  induction 1 as [|line rest Hl _ IH]; [apply emits_only_ret|].
  cbn [Server.forward_lines].
  apply emits_only_bind; [apply forward_line_writes_frames, Hl|intros _; exact IH].
Qed.

Lemma read_loop_writes_frames (pending : list string) (clean : bool) :
  emits_only is_stream_write (Server.read_loop w pending clean).
Proof.
  induction pending as [|chunk rest IH]; cbn [Server.read_loop].
  - destruct clean; [apply emits_only_ret|apply emits_only_throw].
  - apply emits_only_bind; [|intros _; exact IH].
    apply forward_lines_write_frames, lines_of_chunk_no_LF.
Qed.

Lemma streaming_relay_writes_frames (messages : list message) :
  emits_only is_stream_write (Server.streaming_relay w messages).
Proof.
  unfold Server.streaming_relay, Server.fetch.
  apply emits_only_try_catch.
  - apply emits_only_bind; [repeat emits_step|intros r].
    destruct (ok r); [destruct (body r) as [b|]|].
    + apply emits_only_bind; [apply read_loop_writes_frames|intros _].
      apply emits_only_bind; [apply res_write_emits; reflexivity|intros _].
      apply res_end_emits; reflexivity.
    + apply emits_only_bind; [apply emits_only_emit; reflexivity|intros _].
      apply emits_only_bind; [apply res_write_emits; reflexivity|intros _].
      apply res_end_emits; reflexivity.
    + apply emits_only_bind; [apply emits_only_emit; reflexivity|intros _].
      apply emits_only_bind; [apply res_write_emits; reflexivity|intros _].
      apply res_end_emits; reflexivity.
  - intros e.
    apply emits_only_bind; [apply emits_only_emit; reflexivity|intros _].
    apply emits_only_try_catch; [|intros _; apply emits_only_ret].
    apply emits_only_bind; [apply res_write_emits; reflexivity|intros _].
    apply res_end_emits; reflexivity.
Qed.

End FrameEmission.

(** Whatever the upstream sends and whenever the connection to the
    caller breaks, every write of [POST /api/chat/stream] is one of three
    things: a data frame made of "data: ", a payload that holds no line
    feed, and the blank line that ends the event; the done event; an
    error event.  A line that is not a data line is written as a JSON
    string, which holds no control character at all. *)
Theorem stream_writes_are_single_line_frames :
  forall (rt : Json.Runtime) (w : Server.world) (req_body : Json.jsval),
    Forall (fun e =>
              match e with
              | Effects.Write data =>
                  (exists payload,
                      data = ("data: " ++ payload ++ Prompt.nl ++ Prompt.nl)%string
                      /\ has_LF payload = false)
                  \/ data = Server.sse_done
                  \/ is_error_event (Effects.Write data) = true
              | _ => True
              end)
           (Effects.events (Server.chat_stream w req_body))
    /\ (forall line,
          JsString.startsWith line "data:" = false ->
          frame_of line = Server.sse_frame (JsString.JSON_stringify line)
          /\ has_control (JsString.JSON_stringify line) = false).
Proof.
  intros rt w req_body. split.
  - assert (E : emits_only is_stream_write (Server.chat_stream w req_body)).
    { rewrite chat_stream_is_pipeline.
      apply pipeline_emits; try (intros; reflexivity).
      - apply retrieval_stage_emits; intros; reflexivity.
      - intros ms. apply emits_only_bind.
        + unfold Server.sse_headers. repeat emits_step.
        + intros _. apply streaming_relay_writes_frames. }
    apply emits_only_events in E. rewrite forallb_forall in E.
    apply Forall_forall. intros e He. specialize (E e He).
    destruct e as [ | | | | | |data| ]; try exact I.
    unfold is_stream_write in E.
    apply orb_prop in E as [E|E]; [apply orb_prop in E as [E|E]|].
    + left. destruct (one_line_frame_elim data E) as [payload [D N]].
      exists payload. split; [exact D|exact N].
    + right. left. apply String.eqb_eq. exact E.
    + right. right. exact E.
  - intros line D. unfold frame_of. rewrite D. split; [reflexivity|].
    apply JSON_stringify_no_control.
Qed.

(* ===================================================================== *)
(** * The Next.js route *)
(* ===================================================================== *)

Section NextFacts.
Import Json Store Ranking Prompt Effects.
Local Open Scope js_scope.
Context {rt : Runtime} (w : Server.world).

(** The checks the route writes in line accept the messages
    [validateMessageText] accepts. *)
Lemma next_validation (userMessage : string) :
  (JsString.is_empty userMessage
   || Nat.eqb (String.length (JsString.trim userMessage)) 0 = false
   /\ (8000 <? Z.of_nat (String.length userMessage))%Z = false)
  <-> Server.validateMessageText (VStr userMessage) = None.
Proof.
  unfold Server.validateMessageText.
  destruct (JsString.is_empty userMessage); cbn [orb];
    [split; [intros [H _]; discriminate H|discriminate]|].
  destruct (Nat.eqb _ 0); [split; [intros [H _]; discriminate H|discriminate]|].
  destruct (_ <? _)%Z; [split; [intros [_ H]; discriminate H|discriminate]|].
  split; auto.
Qed.

Lemma messages_of_plain (history : list hentry) (userMessage : string) :
  NextApi.messages_of w history userMessage
  = buildMessagesWithRAG (NextApi.systemPrompt w) history userMessage [].
Proof. reflexivity. Qed.

(** The run of the route on a POST with a key and a valid message. *)
Lemma next_handler_run (req_body : jsval) :
  Server.key_missing w = false ->
  Server.validateMessageText (VStr (Server.user_message req_body)) = None ->
  NextApi.handler w "POST" req_body []
  = match fst (Server.read_history (Server.client_history 10 req_body) []) with
    | Ok history =>
        NextApi.relay w (NextApi.messages_of w history (Server.user_message req_body)) []
    | Throw e => (Throw e, [])
    end.
Proof.
  intros K V. apply next_validation in V as [V1 V2].
  unfold NextApi.handler. cbn [String.eqb Ascii.eqb Bool.eqb negb].
  rewrite K, V1, V2. unfold bind.
  destruct (read_history_cases (Server.client_history 10 req_body)) as [[es ->]| ->];
    reflexivity.
Qed.

Lemma next_handler_other_method (method : string) (req_body : jsval) :
  method <> "POST" ->
  NextApi.handler w method req_body []
  = (Ok tt, [Respond 405 (ErrorBody "Método no permitido"); SetHeader "Allow" "POST"]).
Proof.
  intros N. unfold NextApi.handler.
  destruct (String.eqb_spec method "POST"); [congruence|reflexivity].
Qed.

Lemma next_handler_no_key (req_body : jsval) :
  Server.key_missing w = true ->
  NextApi.handler w "POST" req_body []
  = (Ok tt, [Respond 500 (ErrorBody "OpenAI API key no configurada.")]).
Proof.
  intros K. unfold NextApi.handler. cbn [String.eqb Ascii.eqb Bool.eqb negb].
  rewrite K. reflexivity.
Qed.

(** The run of the route on a POST with a key and an invalid message. *)
Lemma next_route_invalid_run (req_body : jsval) (v : string) :
  Server.key_missing w = false ->
  Server.validateMessageText (VStr (Server.user_message req_body)) = Some v ->
  exists v', NextApi.handler w "POST" req_body []
             = (Ok tt, [Respond 400 (ErrorBody v')])
             /\ In v' next_validation_errors.
Proof.
  intros K V. unfold NextApi.handler. cbn [String.eqb Ascii.eqb Bool.eqb negb]. rewrite K.
  destruct (JsString.is_empty (Server.user_message req_body)
            || Nat.eqb (String.length (JsString.trim (Server.user_message req_body))) 0)
    eqn:E1; [eexists; split; [reflexivity|simpl; auto]|].
  destruct (8000 <? Z.of_nat (String.length (Server.user_message req_body)))%Z eqn:E2;
    [eexists; split; [reflexivity|simpl; auto]|].
  rewrite (proj1 (next_validation (Server.user_message req_body)) (conj E1 E2)) in V.
  discriminate V.
Qed.

Lemma filter_among_fetches (q : event -> bool) (l : list event) :
  (forall e, q e = true -> is_fetch e = true) ->
  filter q l = filter q (filter is_fetch l).
Proof.
  intros H. induction l as [|e l IH]; [reflexivity|].
  cbn [filter]. destruct (is_fetch e) eqn:F; cbn [filter]; rewrite <- IH; [reflexivity|].
  destruct (q e) eqn:Q; [|reflexivity]. rewrite (H e Q) in F. discriminate F.
Qed.

Lemma next_relay_only_completions (messages : list message) :
  filter is_fetch (events (NextApi.relay w messages))
  = [Fetch (CompletionsReq messages false)].
Proof. destruct (next_relay_contract w messages) as (_ & H & _). exact H. Qed.

End NextFacts.


(** The Next.js route never calls the moderation or the embeddings
    service.  A completions request it makes is never a streaming one and
    carries the system prompt (the configured one, or the built-in one
    when none is configured) without any document, at most 10 history
    entries, the last ones the caller sent, and the message text as the
    last, user, message: at most 12 messages. *)
Theorem next_route_sends_prompt_history_and_message :
  forall (rt : Json.Runtime) (w : Server.world) (method : string) (req_body : Json.jsval),
    let evs := Effects.events (NextApi.handler w method req_body) in
    let userMessage := Server.user_message req_body in
    filter is_moderation_fetch evs = []
    /\ filter is_embeddings_fetch evs = []
    /\ (forall messages stream,
          In (Effects.Fetch (Effects.CompletionsReq messages stream)) evs ->
          stream = false
          /\ exists history,
               Effects.completion (Server.read_history (Server.client_history 10 req_body))
                 = Effects.Ok history
               /\ messages = Prompt.buildMessagesWithRAG (NextApi.systemPrompt w) history
                               userMessage []
               /\ hd_error messages
                  = Some {| Prompt.role := "system";
                            Prompt.content := NextApi.systemPrompt w |}
               /\ length history <= 10
               /\ length messages <= 10 + 2
               /\ last messages {| Prompt.role := ""; Prompt.content := "" |}
                  = {| Prompt.role := "user"; Prompt.content := userMessage |})
    /\ (Server.SYSTEM_PROMPT w = EmptyString ->
        NextApi.systemPrompt w = NextApi.default_system_prompt)
    /\ (Server.SYSTEM_PROMPT w <> EmptyString ->
        NextApi.systemPrompt w = Server.SYSTEM_PROMPT w).
Proof.
  intros rt w method req_body evs userMessage. subst evs userMessage.
  assert (Gates : forall evs,
            (forall e, In e evs -> is_fetch e = false) ->
            filter is_moderation_fetch evs = [] /\ filter is_embeddings_fetch evs = []
            /\ (forall messages stream,
                  ~ In (Effects.Fetch (Effects.CompletionsReq messages stream)) evs)).
  { intros evs H. split; [|split].
    - apply (forallb_filter_nil (fun e => negb (is_fetch e))).
      + intros [ [ | | ] | | | | | | | ]; simpl; congruence.
      + apply forallb_forall. intros e He. rewrite (H e He). reflexivity.
    - apply (forallb_filter_nil (fun e => negb (is_fetch e))).
      + intros [ [ | | ] | | | | | | | ]; simpl; congruence.
      + apply forallb_forall. intros e He. rewrite (H e He). reflexivity.
    - intros ms st Hin. specialize (H _ Hin). discriminate H. }
  split; [|split; [|split; [|split]]].
  4: { intros E. unfold NextApi.systemPrompt. rewrite E. reflexivity. }
  4: { intros N. unfold NextApi.systemPrompt.
       destruct (Server.SYSTEM_PROMPT w); [congruence|reflexivity]. }
  all: unfold Effects.events.
  all: destruct (String.eqb_spec method "POST") as [->|N];
    [|rewrite (next_handler_other_method w method req_body N);
      first [reflexivity | intros ms st [H|[H|[]]]; discriminate H]].
  all: destruct (Server.key_missing w) eqn:K;
    [rewrite (next_handler_no_key w req_body K);
     first [reflexivity | intros ms st [H|[]]; discriminate H]|].
  all: destruct (Server.validateMessageText (Json.VStr (Server.user_message req_body)))
         as [v|] eqn:V.
  all: try (destruct (next_route_invalid_run w req_body v K V) as [v' [Hv _]];
            rewrite Hv;
            first [reflexivity | intros ms st [H|[]]; discriminate H]).
  all: rewrite (next_handler_run w req_body K V).
  all: destruct (fst (Server.read_history (Server.client_history 10 req_body) []))
         as [history|e] eqn:H; cbn [snd rev].
  all: try first [reflexivity | intros ms st []].
  all: pose proof (next_relay_only_completions w
                     (NextApi.messages_of w history (Server.user_message req_body))) as Hf;
       unfold Effects.events in Hf.
  - rewrite (filter_among_fetches is_moderation_fetch), Hf; [reflexivity|].
    intros [ [ | | ] | | | | | | | ]; simpl; congruence.
  - rewrite (filter_among_fetches is_embeddings_fetch), Hf; [reflexivity|].
    intros [ [ | | ] | | | | | | | ]; simpl; congruence.
  - intros ms st Hin.
    assert (Hin' : In (Effects.Fetch (Effects.CompletionsReq ms st))
                      (filter is_fetch
                         (rev (snd (NextApi.relay w
                                      (NextApi.messages_of w history
                                         (Server.user_message req_body)) [])))))
      by (apply filter_In; split; [exact Hin|reflexivity]).
    rewrite Hf in Hin'. destruct Hin' as [E|[]]. injection E as <- <-.
    split; [reflexivity|]. exists history.
    split; [unfold Effects.completion; exact H|]. split; [reflexivity|].
    split; [reflexivity|].
    exact (assembled_messages 10 _ history (Server.user_message req_body) [] req_body H).
Qed.

(* ===================================================================== *)
(** * The two buffered routes side by side *)
(* ===================================================================== *)

Section RouteAgreement.
Import Json Store Ranking Prompt Effects.
Local Open Scope js_scope.
Context {rt : Runtime} (w : Server.world).

(** The relay of the Next.js route is the relay of [POST /api/chat]
    with other log labels. *)
Lemma next_relay_is_relabelled (messages : list message) :
  NextApi.relay w messages []
  = (fst (Server.buffered_relay w messages []),
     map relabel (snd (Server.buffered_relay w messages []))).
Proof.
  unfold NextApi.relay, Server.buffered_relay, Server.callOpenAIChat, Server.fetch,
    Server.res_json, try_catch, bind, emit, ret, throw.
  destruct (Server.completions w) as [|r]; [reflexivity|]. cbn.
  destruct (ok r); cbn; [|reflexivity].
  destruct (json r) as [data|]; cbn; [|reflexivity].
  destruct (truthy _); cbn; [|reflexivity].
  destruct (opt_key _ "content"); reflexivity.
Qed.

Lemma relabel_keeps (q : event -> bool) (l : list event) :
  (forall e, q (relabel e) = q e) -> filter q (map relabel l) = map relabel (filter q l).
Proof.
  intros H. induction l as [|e l IH]; [reflexivity|].
  cbn [map filter]. rewrite H, IH. destruct (q e); reflexivity.
Qed.

Lemma relabel_responses (l : list event) :
  filter is_respond (map relabel l) = filter is_respond l.
Proof.
  induction l as [|e l IH]; [reflexivity|].
  destruct e; cbn; rewrite ?IH; reflexivity.
Qed.

Lemma relabel_fetches (l : list event) :
  filter is_fetch (map relabel l) = filter is_fetch l.
Proof.
  induction l as [|e l IH]; [reflexivity|].
  destruct e; cbn; rewrite ?IH; reflexivity.
Qed.

Lemma last_n_all {A : Type} (n : nat) (xs : list A) :
  length xs <= n -> Server.last_n n xs = xs.
Proof.
  intros H. unfold Server.last_n. replace (length xs - n) with 0 by lia. reflexivity.
Qed.

Lemma retrieval_stage_off (userMessage : string) (tr : list event) :
  Server.RAG_ENABLED w = false -> Server.retrieval_stage w userMessage tr = (Ok [], tr).
Proof. intros E. unfold Server.retrieval_stage. rewrite E. reflexivity. Qed.

Lemma moderation_events_no_respond (content : string) :
  filter is_respond (events (Server.runModerationCheck w content)) = [].
Proof.
  apply (forallb_filter_nil is_moderation_event).
  - intros [ [ | | ] | | | | | | | ]; simpl; intros H; try discriminate H; reflexivity.
  - apply emits_only_events, runModerationCheck_emits.
Qed.

Lemma moderation_events_no_completions (content : string) :
  filter is_completions_fetch (events (Server.runModerationCheck w content)) = [].
Proof.
  apply (forallb_filter_nil is_moderation_event).
  - intros [ [ | | ] | | | | | | | ]; simpl; intros H; try discriminate H; reflexivity.
  - apply emits_only_events, runModerationCheck_emits.
Qed.

End RouteAgreement.

(** The buffered relay of the Next.js route and that of [POST /api/chat]
    are the same up to the labels of their log lines: a call with the same
    messages (the sampling parameters, which the Express payload has more
    of, are configuration), the same answer, the same completion.  And for
    a request that passes the gates of [POST /api/chat], with retrieval
    disabled, a system prompt configured and at most 10 history entries,
    the two routes call the completions service with the same messages
    and give the same answer. *)
Theorem express_and_next_routes_agree :
  forall (rt : Json.Runtime) (w : Server.world),
    (forall messages,
        Effects.events (NextApi.relay w messages)
        = map relabel (Effects.events (Server.buffered_relay w messages))
        /\ Effects.completion (NextApi.relay w messages)
           = Effects.completion (Server.buffered_relay w messages)
        /\ filter is_respond (Effects.events (NextApi.relay w messages))
           = filter is_respond (Effects.events (Server.buffered_relay w messages))
        /\ filter is_fetch (Effects.events (NextApi.relay w messages))
           = filter is_fetch (Effects.events (Server.buffered_relay w messages)))
    /\ (forall req_body history,
          passes_gates w req_body history ->
          Server.RAG_ENABLED w = false ->
          Server.SYSTEM_PROMPT w <> EmptyString ->
          length (history_of req_body) <= 10 ->
          filter is_respond (Effects.events (NextApi.handler w "POST" req_body))
          = filter is_respond (Effects.events (Server.chat w req_body))
          /\ filter is_completions_fetch
               (Effects.events (NextApi.handler w "POST" req_body))
             = filter is_completions_fetch (Effects.events (Server.chat w req_body))).
Proof.
  intros rt w.
  assert (Relay : forall messages,
            Effects.events (NextApi.relay w messages)
            = map relabel (Effects.events (Server.buffered_relay w messages))
            /\ Effects.completion (NextApi.relay w messages)
               = Effects.completion (Server.buffered_relay w messages)).
  { intros messages. unfold Effects.events, Effects.completion.
    rewrite (next_relay_is_relabelled w messages). cbn [fst snd].
    split; [rewrite map_rev; reflexivity|reflexivity]. }
  split.
  - intros messages. destruct (Relay messages) as [E C].
    split; [exact E|]. split; [exact C|].
    rewrite E, relabel_responses, relabel_fetches. split; reflexivity.
  - intros req_body history G Off Sp Len.
    pose proof G as (V & _ & H & K).
    assert (H10 : Server.client_history 10 req_body = Server.client_history 20 req_body).
    { unfold Server.client_history. fold (history_of req_body).
      rewrite !last_n_all by lia. reflexivity. }
    assert (Ms : NextApi.messages_of w history (Server.user_message req_body)
                 = Prompt.buildMessagesWithRAG (Server.SYSTEM_PROMPT w) history
                     (Server.user_message req_body) []).
    { rewrite messages_of_plain. unfold NextApi.systemPrompt.
      destruct (Server.SYSTEM_PROMPT w); [congruence|reflexivity]. }
    set (ms := Prompt.buildMessagesWithRAG (Server.SYSTEM_PROMPT w) history
                 (Server.user_message req_body) []) in *.
    assert (EvN : Effects.events (NextApi.handler w "POST" req_body)
                  = map relabel (Effects.events (Server.buffered_relay w ms))).
    { unfold Effects.events at 1. rewrite (next_handler_run w req_body K V).
      unfold Effects.completion in H. rewrite H10, H, Ms.
      exact (proj1 (Relay ms)). }
    rewrite EvN, (chat_run w req_body history [] [] G (retrieval_stage_off w _ [] Off)).
    fold ms. cbn [rev app]. rewrite !filter_app.
    rewrite moderation_events_no_respond, moderation_events_no_completions.
    cbn [app]. rewrite relabel_responses.
    split; [reflexivity|].
    rewrite (filter_among_fetches is_completions_fetch (map relabel _)),
      (filter_among_fetches is_completions_fetch
         (Effects.events (Server.buffered_relay w ms))), relabel_fetches;
      [reflexivity| |];
      intros [ [ | | ] | | | | | | | ]; simpl; congruence.
Qed.

(* ===================================================================== *)
(** * The chat page *)
(* ===================================================================== *)

Section ClientFacts.
Import Json.

Lemma shift_while_longer_skipn {A : Type} (limit : nat) (l : list A) :
  Client.shift_while_longer limit l = skipn (length l - limit) l.
Proof.
  induction l as [|x l IH]; [reflexivity|].
  cbn [Client.shift_while_longer]. destruct (Nat.ltb_spec limit (length (x :: l))) as [L|L].
  - rewrite IH. cbn [length] in *.
    replace (S (length l) - limit) with (S (length l - limit)) by lia. reflexivity.
  - replace (length (x :: l) - limit) with 0 by lia. reflexivity.
Qed.

End ClientFacts.

(** [pushHistory] appends the new entry and keeps the last 200 entries:
    whatever the length of the state before, the next state has at most
    200 entries, it ends with the new entry, it is what remains of the old
    entries followed by the new one once the oldest are dropped, and
    nothing is dropped while fewer than 200 entries were there.  A state
    that is neither an array nor a string cannot be spread: the updater
    throws. *)
Theorem pushHistory_keeps_the_last_200 :
  forall (role : string) (content : Json.jsval) (now : float) (prev : Json.jsval),
    let new := Client.entry role content now in
    (forall entries,
        Client.spread prev = Some entries ->
        exists next dropped,
          Client.pushHistory role content now prev = Some next
          /\ length next <= 200
          /\ (entries ++ [new])%list = (dropped ++ next)%list
          /\ length dropped = length entries + 1 - 200
          /\ last next Json.VNull = new
          /\ (length entries < 200 -> next = (entries ++ [new])%list))
    /\ (Client.spread prev = None -> Client.pushHistory role content now prev = None).
Proof.
  intros role content now prev new. split.
  - intros entries S.
    exists (skipn (length (entries ++ [new]) - 200) (entries ++ [new])),
           (firstn (length (entries ++ [new]) - 200) (entries ++ [new])).
    unfold Client.pushHistory. rewrite S, shift_while_longer_skipn. fold new.
    split; [reflexivity|].
    rewrite length_skipn, length_firstn, length_app. cbn [length].
    split; [lia|]. split; [symmetry; apply firstn_skipn|]. split; [lia|]. split.
    + destruct (Nat.le_gt_cases (length entries + 1 - 200) (length entries)) as [L|L];
        [|lia].
      rewrite skipn_app.
      replace (length entries + 1 - 200 - length entries) with 0 by lia.
      cbn [skipn]. apply last_last.
    + intros L. replace (length entries + 1 - 200) with 0 by lia. reflexivity.
  - intros S. unfold Client.pushHistory. rewrite S. reflexivity.
Qed.

Section SendFacts.
Import Json JsString.
Context {rt : Runtime}.

Lemma trim_end_idempotent (s : string) : trim_end (trim_end s) = trim_end s.
Proof.
  induction s as [|c s IH]; [reflexivity|].
  cbn [trim_end]. destruct (is_ws c && is_empty (trim_end s)) eqn:E; [reflexivity|].
  cbn [trim_end]. rewrite IH, E. reflexivity.
Qed.

(** What [trimStart] leaves is empty or starts with a character that
    is not white space. *)
Lemma trim_start_head (s : string) :
  trim_start s = EmptyString
  \/ exists c r, trim_start s = String c r /\ is_ws c = false.
Proof.
  induction s as [|c s IH]; [left; reflexivity|].
  cbn [trim_start]. destruct (is_ws c) eqn:W; [exact IH|].
  right. exists c, s. split; [reflexivity|exact W].
Qed.

Lemma trim_start_of_trimmed (s : string) : trim_start (trim s) = trim s.
Proof.
  unfold trim. destruct (trim_start_head s) as [->|[c [r [-> W]]]]; [reflexivity|].
  cbn [trim_end]. rewrite W. cbn [andb trim_start]. rewrite W. reflexivity.
Qed.

Lemma trim_idempotent (s : string) : trim (trim s) = trim s.
Proof.
  unfold trim at 1. rewrite trim_start_of_trimmed. unfold trim.
  apply trim_end_idempotent.
Qed.

Lemma outgoing_entries_shape (hs es : list jsval) :
  Client.outgoing_entries hs = Some es ->
  length es = length hs /\ Forall role_and_content es.
Proof.
  revert es. induction hs as [|h hs IH]; intros es.
  - intros H. injection H as <-. split; [reflexivity|constructor].
  - cbn [Client.outgoing_entries].
    destruct (Client.outgoing_entry h) as [e|] eqn:E; [|discriminate].
    destruct (Client.outgoing_entries hs) as [es'|]; [|discriminate].
    intros H. injection H as <-. destruct (IH es' eq_refl) as [L F].
    split; [cbn [length]; rewrite L; reflexivity|]. constructor; [|exact F].
    unfold Client.outgoing_entry in E.
    destruct h; try discriminate E; injection E as <-; eexists _, _; reflexivity.
Qed.

Lemma last_entries_shape (stored : Client.storage) (last : list jsval) :
  Client.last_entries stored = Some last ->
  length last <= 10 /\ Forall role_and_content last.
Proof.
  destruct stored as [| |[| | | | |xs|]]; cbn [Client.last_entries]; try discriminate.
  - intros H. injection H as <-. split; [cbn; lia|constructor].
  - intros H. destruct (outgoing_entries_shape _ _ H) as [L F].
    split; [rewrite L; apply last_n_length|exact F].
Qed.

(** The calls of [send] after the request, for each way the request
    can end. *)
Lemma receive_settles (server : Client.answer) :
  length (filter is_assistant_push (Client.receive server)) = 1
  /\ last (Client.receive server) Client.LogError = Client.SetIsWaiting false
  /\ filter is_post (Client.receive server) = []
  /\ ~ In (Client.SetIsWaiting true) (Client.receive server).
Proof.
  unfold Client.receive.
  destruct server as [|r]; [|destruct (negb (Client.ok r)); [|destruct (Client.json r)]];
    cbn; (split; [reflexivity|]; split; [reflexivity|]; split; [reflexivity|]);
    intuition discriminate.
Qed.

End SendFacts.

(** [send] does nothing when the input is blank or a request is
    pending.  Otherwise it shows the trimmed text as the user's message,
    clears the input, raises the waiting flag and posts the text, which is
    trimmed and not empty, with at most 10 history entries, each reduced
    to its role and content.  Then, whatever the server does (no answer,
    an error status, a body that is not JSON, a reply or none), it shows
    exactly one assistant message, posts nothing more, and its last call
    clears the waiting flag.  When the stored history cannot be read as an
    array of entries, it stops after raising the flag: nothing is posted
    and the flag stays raised. *)
Theorem send_posts_once_and_always_settles :
  forall (rt : Json.Runtime) (input : string) (isWaiting : bool)
         (stored : Client.storage) (server : Client.answer),
    let text := JsString.trim input in
    let started := [Client.PushHistory "user" (Json.VStr text);
                    Client.SetInput EmptyString; Client.SetIsWaiting true] in
    (JsString.is_empty text || isWaiting = true ->
     Client.send input isWaiting stored server = ([], true))
    /\ (JsString.is_empty text || isWaiting = false ->
        (forall history,
            Client.last_entries stored = Some history ->
            exists settled,
              Client.send input isWaiting stored server
              = ((started ++ Client.PostChat text history :: settled)%list, true)
              /\ text <> EmptyString /\ JsString.trim text = text
              /\ length history <= 10 /\ Forall role_and_content history
              /\ length (filter is_assistant_push settled) = 1
              /\ filter is_post settled = []
              /\ last settled Client.LogError = Client.SetIsWaiting false
              /\ ~ In (Client.SetIsWaiting true) settled)
        /\ (Client.last_entries stored = None ->
            Client.send input isWaiting stored server = (started, false))).
Proof.
  intros rt input isWaiting stored server text started. split.
  - intros G. unfold Client.send. fold text. rewrite G. reflexivity.
  - intros G. split.
    + intros history L. exists (Client.receive server).
      unfold Client.send. fold text. rewrite G, L.
      split; [reflexivity|].
      apply orb_false_iff in G as [E _].
      split; [intros T; rewrite T in E; discriminate E|].
      split; [apply trim_idempotent|].
      destruct (last_entries_shape stored history L) as [Len F].
      split; [exact Len|]. split; [exact F|].
      destruct (receive_settles server) as (A & B & C & D). auto.
    + intros L. unfold Client.send. fold text. rewrite G, L. reflexivity.
Qed.

(* ===================================================================== *)
(** * The chat page and its route, end to end *)
(* ===================================================================== *)

Section EndToEndFacts.
Import Json Prompt Effects.
Local Open Scope js_scope.
Context {rt : Runtime} (w : Server.world).

Lemma sent_array (xs : list jsval) : Wire.sent (VArr xs) = VArr (map Wire.sent xs).
Proof. reflexivity. Qed.

Lemma sent_object (fields : list (string * jsval)) :
  exists fields', Wire.sent (VObj fields) = VObj fields'.
Proof. cbn [Wire.sent]. eexists. reflexivity. Qed.

Lemma request_body_fields (message : string) (history : list jsval) :
  Client.request_body message history
  = VObj [("message", VStr message); ("history", VArr (map Wire.sent history))].
Proof.
  unfold Client.request_body. rewrite <- sent_array. reflexivity.
Qed.

Lemma request_body_message (message : string) (history : list jsval) :
  message <> EmptyString ->
  Server.user_message (Client.request_body message history) = message.
Proof.
  intros N. rewrite request_body_fields. unfold Server.user_message.
  cbn. destruct message; [congruence|reflexivity].
Qed.

Lemma request_body_history (message : string) (history : list jsval) :
  length history <= 10 ->
  Server.client_history 10 (Client.request_body message history) = map Wire.sent history.
Proof.
  intros L. rewrite request_body_fields. unfold Server.client_history. cbn.
  apply last_n_all. rewrite length_map. exact L.
Qed.

(** A value that converts to a string still does once it has
    travelled as JSON. *)
Lemma sent_keeps_convertible :
  forall v : jsval, String_throws v = false -> String_throws (Wire.sent v) = false.
Proof.
  fix IH 1. intros [| | b | f | s | xs | fields]; try (intros _; reflexivity).
  - intros _. cbn [Wire.sent].
    destruct (PrimFloat.is_finite f); [destruct (PrimFloat.is_zero f)|]; reflexivity.
  - rewrite sent_array, !existsb_String_throws.
    induction xs as [|x xs IHxs]; [reflexivity|].
    cbn [map existsb]. intros H. apply orb_false_iff in H as [Hx Hxs].
    rewrite (IH x Hx). exact (IHxs Hxs).
  - cbn [Wire.sent String_throws]. unfold has_own.
    induction fields as [|[k x] fields IHf]; [reflexivity|].
    cbn [existsb fst]. intros H. apply orb_false_iff in H as [Hk Hf].
    destruct x; cbn [existsb fst]; rewrite ?Hk; exact (IHf Hf).
Qed.

(** What the route reads as the content of an entry the page posted. *)
Lemma sent_entry_content (r c : jsval) :
  get_key (Wire.sent (VObj [("role", r); ("content", c)])) "content"
  = match c with VUndefined => VUndefined | _ => Wire.sent c end.
Proof. destruct r, c; reflexivity. Qed.

(** Entries that are objects with a content that converts are read
    without exception. *)
Lemma read_history_objects (hs : list jsval) :
  Forall (fun h => (exists fields, h = VObj fields)
                   /\ String_throws (get_key h "content") = false) hs ->
  exists es, Server.read_history hs [] = (Ok es, []).
Proof.
  induction 1 as [|h hs [[fields ->] C] _ [es IH]]; [eexists; reflexivity|].
  cbn [Server.read_history]. unfold Server.entry_of. rewrite C.
  unfold bind. rewrite IH. eexists. reflexivity.
Qed.

Lemma posted_history_is_read (history : list jsval) :
  Forall role_and_content history ->
  Forall (fun h => String_throws (get_key h "content") = false) history ->
  exists es, Server.read_history (map Wire.sent history) [] = (Ok es, []).
Proof.
  intros F T. apply read_history_objects. apply Forall_forall. intros h Hh.
  apply in_map_iff in Hh as [e [<- He]]. rewrite Forall_forall in F, T.
  specialize (T e He). destruct (F e He) as [r [c ->]].
  split; [apply sent_object|].
  rewrite sent_entry_content. cbn in T.
  destruct c; try reflexivity; apply sent_keeps_convertible; exact T.
Qed.

(** A text that is trimmed and not empty passes every check of the
    validation but that of the length. *)
Lemma trimmed_text_validation (text : string) :
  text <> EmptyString -> JsString.trim text = text ->
  Server.validateMessageText (VStr text)
  = if (8000 <? Z.of_nat (String.length text))%Z then Some "Mensaje demasiado largo."
    else None.
Proof.
  intros N T. unfold Server.validateMessageText. rewrite T.
  destruct text; [congruence|]. reflexivity.
Qed.

Lemma next_relay_answers (messages : list message) :
  emits_only is_answer (NextApi.relay w messages).
Proof.
  unfold NextApi.relay, Server.fetch, Server.res_json.
  repeat emits_step.
Qed.

Lemma next_handler_answers (method : string) (req_body : jsval) :
  emits_only is_answer (NextApi.handler w method req_body).
Proof.
  unfold NextApi.handler.
  destruct (negb _); [repeat emits_step|].
  destruct (Server.key_missing w); [repeat emits_step|].
  destruct (_ || _); [repeat emits_step|].
  destruct (_ <? _)%Z; [repeat emits_step|].
  apply emits_only_bind; [apply read_history_emits|intros es].
  apply next_relay_answers.
Qed.

Lemma next_handler_too_long (req_body : jsval) :
  Server.key_missing w = false ->
  JsString.is_empty (Server.user_message req_body)
  || Nat.eqb (String.length (JsString.trim (Server.user_message req_body))) 0 = false ->
  (8000 <? Z.of_nat (String.length (Server.user_message req_body)))%Z = true ->
  NextApi.handler w "POST" req_body []
  = (Ok tt, [Respond 400 (ErrorBody "Mensaje demasiado largo.")]).
Proof.
  intros K B L. unfold NextApi.handler. cbn [String.eqb Ascii.eqb Bool.eqb negb].
  rewrite K, B, L. reflexivity.
Qed.

Lemma next_relay_not_empty (messages : list message) :
  emits_only not_empty_message_answer (NextApi.relay w messages).
Proof.
  unfold NextApi.relay, Server.fetch, Server.res_json.
  repeat emits_step.
Qed.

(** What the page shows for an answer of the route. *)
Lemma receive_shows (code : nat) (b : json_body) (status_text : string) :
  is_answer (Respond code b) = true ->
  filter is_assistant_push
    (Client.receive (Client.Answered (Client.received code b status_text)))
  = [Client.PushHistory "assistant" (shown b)].
Proof.
  unfold is_answer, Client.receive, Client.received. cbn [Client.ok Client.json].
  destruct b as [m|r].
  - intros H. apply andb_prop in H as [H1 H2]. rewrite H1.
    unfold Client.server_error. cbn [Client.json Client.body_value Client.statusText].
    cbn. destruct m; [discriminate H2|reflexivity].
  - intros H. apply Nat.eqb_eq in H. subst code. cbn.
    destruct r; reflexivity.
Qed.

End EndToEndFacts.

(** The page and its route, put together.  Whatever text the page posts
    arrives as the message the route validates; being trimmed and not
    empty, it can only be turned down for its length.  When the content of
    every entry the page posts can be converted to a string (it can when
    the page made the entry for a text), the route reads the history
    without an exception, returns and answers exactly once, with 200 and a
    reply or with another status and an error message; and the page then
    shows exactly one assistant message: the reply (a fixed sentence when
    the reply is empty), or the error message after "⚠️ Error del
    servidor: ". *)
Theorem page_request_is_always_answered_and_shown :
  forall (rt : Json.Runtime) (w : Server.world) (input : string)
         (stored : Client.storage) (history : list Json.jsval),
    JsString.is_empty (JsString.trim input) = false ->
    Client.last_entries stored = Some history ->
    Forall (fun h => Json.String_throws (Json.get_key h "content") = false) history ->
    let text := JsString.trim input in
    let body := Client.request_body text history in
    Server.user_message body = text
    /\ Json.String_throws (message_of body) = false
    /\ Server.validateMessageText (Json.VStr text)
       = (if (8000 <? Z.of_nat (String.length text))%Z
          then Some "Mensaje demasiado largo." else None)
    /\ (exists entries,
          Effects.completion (Server.read_history (Server.client_history 10 body))
          = Effects.Ok entries
          /\ length entries = length history)
    /\ Effects.completion (NextApi.handler w "POST" body) = Effects.Ok tt
    /\ exists code b,
         filter is_respond (Effects.events (NextApi.handler w "POST" body))
         = [Effects.Respond code b]
         /\ is_answer (Effects.Respond code b) = true
         /\ b <> Effects.ErrorBody "El mensaje está vacío."
         /\ forall status_text,
              filter is_assistant_push
                (Client.receive (Client.Answered (Client.received code b status_text)))
              = [Client.PushHistory "assistant" (shown b)].
Proof.
  intros rt w input stored history E L Conv text body.
  assert (N : text <> EmptyString) by (intros T; subst text; rewrite T in E; discriminate E).
  assert (T : JsString.trim text = text) by apply trim_idempotent.
  destruct (last_entries_shape stored history L) as [Len F].
  pose proof (request_body_message text history N) as Um. fold body in Um.
  pose proof (trimmed_text_validation text N T) as Va.
  pose proof (request_body_history text history Len) as Hi. fold body in Hi.
  destruct (posted_history_is_read history F Conv) as [es Rh].
  split; [exact Um|].
  split; [subst body; rewrite request_body_fields; reflexivity|].
  split; [exact Va|].
  split.
  { exists es. unfold Effects.completion. rewrite Hi, Rh. split; [reflexivity|].
    pose proof (read_history_length (map Wire.sent history) es) as Le.
    unfold Effects.completion in Le. rewrite Rh in Le.
    rewrite (Le eq_refl), length_map. reflexivity. }
  assert (Shown : forall code b,
            In (Effects.Respond code b) (Effects.events (NextApi.handler w "POST" body)) ->
            is_answer (Effects.Respond code b) = true).
  { intros code b Hin.
    pose proof (emits_only_events _ _ (next_handler_answers w "POST" body)) as A.
    rewrite forallb_forall in A. exact (A _ Hin). }
  assert (Run : exists code b,
            filter is_respond (Effects.events (NextApi.handler w "POST" body))
            = [Effects.Respond code b]
            /\ Effects.completion (NextApi.handler w "POST" body) = Effects.Ok tt
            /\ b <> Effects.ErrorBody "El mensaje está vacío.").
  { unfold Effects.events, Effects.completion.
    destruct (Server.key_missing w) eqn:K.
    - rewrite (next_handler_no_key w body K). cbn.
      eexists _, _. split; [reflexivity|]. split; [reflexivity|discriminate].
    - destruct (8000 <? Z.of_nat (String.length text))%Z eqn:Long.
      + assert (B : JsString.is_empty (Server.user_message body)
                    || Nat.eqb (String.length (JsString.trim (Server.user_message body))) 0
                    = false).
        { rewrite Um, T. destruct text; [congruence|reflexivity]. }
        rewrite (next_handler_too_long w body K B) by (rewrite Um; exact Long). cbn.
        eexists _, _. split; [reflexivity|]. split; [reflexivity|discriminate].
      + rewrite (next_handler_run w body K) by (rewrite Um; exact Va).
        rewrite Hi, Rh. cbn [fst].
        set (ms := NextApi.messages_of w es (Server.user_message body)).
        destruct (next_relay_contract w ms) as (C & _ & One & _).
        unfold Effects.events, Effects.completion in C, One.
        destruct (filter is_respond (rev (snd (NextApi.relay w ms [])))) as [|e [|e' l]] eqn:R;
          try discriminate One.
        assert (He : In e (filter is_respond (rev (snd (NextApi.relay w ms [])))))
          by (rewrite R; left; reflexivity).
        apply filter_In in He as [Hin Hr].
        destruct e as [ | | |code b| | | | ]; try discriminate Hr.
        exists code, b. split; [reflexivity|]. split; [exact C|].
        pose proof (emits_only_events not_empty_message_answer _
                      (next_relay_not_empty w ms)) as A.
        rewrite forallb_forall in A. specialize (A _ Hin).
        intros ->. discriminate A. }
  destruct Run as [code [b [R [C Nb]]]].
  split; [exact C|]. exists code, b. split; [exact R|].
  assert (A : is_answer (Effects.Respond code b) = true).
  { apply Shown.
    assert (Hin : In (Effects.Respond code b)
                     (filter is_respond (Effects.events (NextApi.handler w "POST" body))))
      by (rewrite R; left; reflexivity).
    apply filter_In in Hin as [Hin _]. exact Hin. }
  split; [exact A|]. split; [exact Nb|].
  intros status_text. apply receive_shows. exact A.
Qed.

(** The page posts "hola" after one exchange: the route reads the two
    stored entries and returns. *)
Lemma page_request_is_always_answered_and_shown_witness :
  Client.last_entries
    (Client.Item (Json.VArr [Client.entry "user" (Json.VStr "buenas") 1%float;
                             Client.entry "assistant" (Json.VStr "hola, soy Atenea") 2%float]))
  = Some [Json.VObj [("role", Json.VStr "user"); ("content", Json.VStr "buenas")];
          Json.VObj [("role", Json.VStr "assistant");
                     ("content", Json.VStr "hola, soy Atenea")]]
  /\ Effects.completion
       (Server.read_history
          (Server.client_history 10
             (Client.request_body "hola"
                [Json.VObj [("role", Json.VStr "user"); ("content", Json.VStr "buenas")];
                 Json.VObj [("role", Json.VStr "assistant");
                            ("content", Json.VStr "hola, soy Atenea")]])))
     = Effects.Ok [ {| Prompt.h_role := Json.VStr "user";
                       Prompt.h_content := Json.VStr "buenas" |};
                    {| Prompt.h_role := Json.VStr "assistant";
                       Prompt.h_content := Json.VStr "hola, soy Atenea" |} ]
  /\ Effects.completion
       (NextApi.handler (rt := Samples.runtime) Samples.world "POST"
          (Client.request_body "hola"
             [Json.VObj [("role", Json.VStr "user"); ("content", Json.VStr "buenas")];
              Json.VObj [("role", Json.VStr "assistant");
                         ("content", Json.VStr "hola, soy Atenea")]]))
     = Effects.Ok tt.
Proof.
  destruct (page_request_is_always_answered_and_shown Samples.runtime Samples.world
              "  hola  "
              (Client.Item (Json.VArr
                 [Client.entry "user" (Json.VStr "buenas") 1%float;
                  Client.entry "assistant" (Json.VStr "hola, soy Atenea") 2%float]))
              [Json.VObj [("role", Json.VStr "user"); ("content", Json.VStr "buenas")];
               Json.VObj [("role", Json.VStr "assistant");
                          ("content", Json.VStr "hola, soy Atenea")]]
              eq_refl eq_refl)
    as (_ & _ & _ & _ & C & _).
  - repeat constructor.
  - split; [reflexivity|]. split; [reflexivity|exact C].
Defined.

(* ===================================================================== *)
(** * The embedding script *)
(* ===================================================================== *)

Section EmbedFacts.
Import Json EmbedDocs.
Context (w : EmbedDocs.world).

Lemma embedded_texts_app (a b : list event) :
  embedded_texts (a ++ b) = (embedded_texts a ++ embedded_texts b)%list.
Proof.
  induction a as [|e a IH]; [reflexivity|].
  destruct e; cbn [app embedded_texts]; rewrite IH; reflexivity.
Qed.

(** The loop over the files: it emits loop events only; when it ends
    without exception it has added one record per file, in order, made of
    the file's name, the first 10000 code units of its text and an
    embedding, and it has sent the whole text of each file, in order. *)
Lemma embed_files_spec (files : list dir_entry) :
  forall (n : nat) (out : list jsval),
    let run := embed_files w files n out in
    forallb is_loop_event (fst run) = true
    /\ (forall final,
          snd run = inr final ->
          exists added,
            final = (out ++ added)%list
            /\ map (fun v => get_key v "id") added
               = map (fun f => VStr (fst f)) (regular_files files)
            /\ map (fun v => get_key v "text") added
               = map (fun f => VStr (take 10000 (snd f))) (regular_files files)
            /\ embedded_texts (fst run) = map snd (regular_files files)
            /\ Forall (fun v => exists f text e, v = record f text e) added).
Proof.
  induction files as [|f files IH]; intros n out run; subst run.
  - cbn. split; [reflexivity|]. intros final H. injection H as <-.
    exists []. rewrite app_nil_r. repeat split. constructor.
  - cbn [embed_files regular_files]. destruct (at_path f) as [| | |text].
    + cbn. split; [reflexivity|]. discriminate.
    + apply IH.
    + cbn. split; [reflexivity|]. discriminate.
    + destruct (embedText w n) as [err|embedding].
      * cbn. split; [reflexivity|]. discriminate.
      * specialize (IH (S n) (out ++ [record (name f) text embedding])%list).
        destruct (embed_files w files (S n) (out ++ [record (name f) text embedding])%list)
          as [evs r].
        cbn [fst snd] in *. destruct IH as [L S]. split; [cbn; exact L|].
        intros final H. destruct (S final H) as (added & E & I & T & X & R).
        exists (record (name f) text embedding :: added).
        split; [rewrite E, <- app_assoc; reflexivity|].
        cbn [map fst snd embedded_texts]. rewrite I, T, X.
        split; [reflexivity|]. split; [reflexivity|]. split; [reflexivity|].
        constructor; [eexists _, _, _; reflexivity|exact R].
Qed.

Lemma loop_events_hold (q : event -> bool) (evs : list event) :
  (forall e, is_loop_event e = true -> q e = false) ->
  forallb is_loop_event evs = true -> filter q evs = [].
Proof.
  intros Hq. induction evs as [|e evs IH]; [reflexivity|].
  cbn [forallb filter]. intros H. apply andb_prop in H as [He Hs].
  rewrite (Hq e He). exact (IH Hs).
Qed.

Lemma loop_no_write (e : event) : is_loop_event e = true -> is_write e = false.
Proof. destruct e; simpl; congruence. Qed.

Lemma loop_no_exit (e : event) : is_loop_event e = true -> is_exit e = false.
Proof. destruct e; simpl; congruence. Qed.

Lemma loop_no_failure (e : event) : is_loop_event e = true -> is_failure e = false.
Proof. destruct e; simpl; congruence. Qed.

(** The runs of the script, by how it ends. *)
Lemma run_cases :
  (exists pre cause,
      run w = (pre ++ [cause; Exit 1])%list
      /\ forallb is_loop_event pre = true /\ is_failure cause = true)
  \/ (exists entries out,
        listing w = Some entries
        /\ run w = (fst (embed_files w (visible entries) 0 []) ++ [WriteVectors out; Wrote])%list
        /\ snd (embed_files w (visible entries) 0 []) = inr out).
Proof.
  unfold run. destruct (key_missing w).
  - left. exists [], KeyNotSet. split; [reflexivity|]. split; reflexivity.
  - destruct (listing w) as [entries|].
    + destruct (embed_files_spec (visible entries) 0 []) as [L _].
      destruct (embed_files w (visible entries) 0 []) as [evs [err|out]] eqn:EF;
        cbn [fst] in L.
      * left. exists evs, (Failed err). split; [reflexivity|]. split; [exact L|reflexivity].
      * destruct (write_throws w).
        -- left. exists evs, (Failed WriteFailed).
           split; [reflexivity|]. split; [exact L|reflexivity].
        -- right. exists entries, out. rewrite EF. split; [reflexivity|]. split; reflexivity.
    + left. exists [], (Failed ReaddirFailed). split; [reflexivity|]. split; reflexivity.
Qed.

End EmbedFacts.

(** The script writes [vectors.json] once, as its last action but the
    final log line, or not at all: either every step succeeded, the file
    holds one record per call of the embeddings service, and the script
    ends without [process.exit] and without having logged a failure; or
    nothing is written, and the script ends by logging the failure (the
    missing key, or what was thrown) and exiting with code 1. *)
Theorem embed_docs_writes_all_or_nothing :
  forall (w : EmbedDocs.world),
    let evs := EmbedDocs.run w in
    (exists pre out,
        evs = (pre ++ [EmbedDocs.WriteVectors out; EmbedDocs.Wrote])%list
        /\ forallb is_loop_event pre = true
        /\ filter is_write evs = [EmbedDocs.WriteVectors out]
        /\ filter is_exit evs = [] /\ filter is_failure evs = []
        /\ length out = length (embedded_texts evs))
    \/ (exists pre cause,
          evs = (pre ++ [cause; EmbedDocs.Exit 1])%list
          /\ forallb is_loop_event pre = true
          /\ is_failure cause = true
          /\ filter is_write evs = []
          /\ filter is_exit evs = [EmbedDocs.Exit 1]).
Proof.
  intros w evs. subst evs.
  destruct (run_cases w) as [(pre & cause & R & L & C)|(entries & out & Li & R & S)].
  - right. exists pre, cause. rewrite R. split; [reflexivity|]. split; [exact L|].
    split; [exact C|]. rewrite !filter_app.
    rewrite (loop_events_hold is_write pre loop_no_write L).
    rewrite (loop_events_hold is_exit pre loop_no_exit L).
    destruct cause; try discriminate C; split; reflexivity.
  - left. destruct (embed_files_spec w (EmbedDocs.visible entries) 0 []) as [L Sp].
    destruct (Sp out S) as (added & E & I & _ & X & _). cbn [app] in E. subst added.
    exists (fst (EmbedDocs.embed_files w (EmbedDocs.visible entries) 0 [])), out.
    rewrite R. split; [reflexivity|]. split; [exact L|]. rewrite !filter_app.
    rewrite (loop_events_hold is_write _ loop_no_write L).
    rewrite (loop_events_hold is_exit _ loop_no_exit L).
    rewrite (loop_events_hold is_failure _ loop_no_failure L).
    split; [reflexivity|]. split; [reflexivity|]. split; [reflexivity|].
    rewrite embedded_texts_app, X. cbn [embedded_texts]. rewrite app_nil_r, length_map.
    rewrite <- (length_map (fun v => Json.get_key v "id") out), I, length_map. reflexivity.
Qed.

(** What the script writes is what the directory holds.  When
    [vectors.json] is written, its records are, in the order of the
    directory listing, those of the entries that are files and whose name
    does not start with a dot: the identifier of a record is the name of
    the file and its text the first 10000 code units of the file's text,
    while the text sent to the embeddings service is the whole text. *)
Theorem embed_docs_records_follow_the_directory :
  forall (w : EmbedDocs.world) (out : list Json.jsval),
    In (EmbedDocs.WriteVectors out) (EmbedDocs.run w) ->
    exists entries,
      EmbedDocs.listing w = Some entries
      /\ let files := regular_files (EmbedDocs.visible entries) in
         map (fun v => Json.get_key v "id") out = map (fun f => Json.VStr (fst f)) files
         /\ map (fun v => Json.get_key v "text") out
            = map (fun f => Json.VStr (EmbedDocs.take 10000 (snd f))) files
         /\ embedded_texts (EmbedDocs.run w) = map snd files
         /\ length out = length files
         /\ Forall (fun f => JsString.startsWith (fst f) "." = false) files.
Proof.
  intros w out Hin.
  destruct (run_cases w) as [(pre & cause & R & L & C)|(entries & out' & Li & R & S)].
  - exfalso. rewrite R in Hin. apply in_app_or in Hin as [Hin|[Hin|[Hin|[]]]].
    + rewrite forallb_forall in L. specialize (L _ Hin). discriminate L.
    + subst cause. discriminate C.
    + discriminate Hin.
  - destruct (embed_files_spec w (EmbedDocs.visible entries) 0 []) as [L Sp].
    assert (out' = out).
    { rewrite R in Hin. apply in_app_or in Hin as [Hin|[Hin|[Hin|[]]]].
      - rewrite forallb_forall in L. specialize (L _ Hin). discriminate L.
      - injection Hin as ->. reflexivity.
      - discriminate Hin. }
    subst out'. destruct (Sp out S) as (added & E & I & T & X & _).
    cbn [app] in E. subst added.
    exists entries. split; [exact Li|]. cbn zeta.
    split; [exact I|]. split; [exact T|].
    split; [rewrite R, embedded_texts_app, X; cbn [embedded_texts]; apply app_nil_r|].
    split; [rewrite <- (length_map (fun v => Json.get_key v "id") out), I, length_map;
            reflexivity|].
    apply Forall_forall. intros [f text] Hf. cbn [fst].
    assert (V : forall es, In (f, text) (regular_files es) ->
                exists e, In e es /\ EmbedDocs.name e = f).
    { induction es as [|e es IH]; [intros []|].
      cbn [regular_files]. destruct (EmbedDocs.at_path e) eqn:A;
        try (intros H; destruct (IH H) as [e' [He' N]]; exists e'; split;
             [right; exact He'|exact N]).
      intros [H|H].
      - injection H as <- _. exists e. split; [left; reflexivity|reflexivity].
      - destruct (IH H) as [e' [He' N]]. exists e'. split; [right; exact He'|exact N]. }
    destruct (V _ Hf) as [e [He <-]].
    unfold EmbedDocs.visible in He. apply filter_In in He as [_ He].
    apply negb_true_iff in He. exact He.
Qed.

(** The two files of the sample directory, the hidden file and the
    sub-directory left out. *)
Lemma embed_docs_records_follow_the_directory_witness :
  exists entries,
    EmbedDocs.listing EmbedSamples.world = Some entries
    /\ embedded_texts (EmbedDocs.run EmbedSamples.world) = ["uno"; "dos"].
Proof.
  destruct (embed_docs_records_follow_the_directory EmbedSamples.world
              [ EmbedDocs.record "a.txt" "uno" RankingSamples.query_east;
                EmbedDocs.record "b.txt" "dos"
                  (Json.VArr [Json.VNum 0%float; Json.VNum 1%float]) ])
    as [entries (Li & _ & _ & X & _)].
  - vm_compute. repeat (first [left; reflexivity | right]).
  - exists entries. split; [exact Li|]. rewrite X. injection Li as <-. reflexivity.
Defined.

Section EmbedThenLoad.
Import Json EmbedDocs.

Lemma record_is_loaded (f text : string) (e : jsval) :
  Store.record_of (Wire.sent (record f text e)) = Some (loaded (record f text e)).
Proof. unfold record. destruct e; reflexivity. Qed.

Lemma records_are_loaded (out : list jsval) :
  Forall (fun v => exists f text e, v = record f text e) out ->
  Store.map_records (map Wire.sent out) = Some (map loaded out).
Proof.
  induction 1 as [|v out [f [text [e ->]]] _ IH]; [reflexivity|].
  cbn [map Store.map_records]. rewrite record_is_loaded, IH. reflexivity.
Qed.

Lemma loaded_id (f text : string) (e : jsval) :
  Store.id (loaded (record f text e)) = VStr f
  /\ Store.text (loaded (record f text e)) = VStr (take 10000 text).
Proof. split; reflexivity. Qed.

End EmbedThenLoad.

(** The script and the server, put together.  The file the script
    writes is never turned down by the server's startup block: it is
    loaded whole, one record per record written, with the identifier and
    the text the script gave it, hence one record per file of the
    directory whose name does not start with a dot.  An embedding the
    service left out is absent from the loaded record. *)
Theorem written_vectors_are_loaded_whole :
  forall (w : EmbedDocs.world) (out : list Json.jsval),
    In (EmbedDocs.WriteVectors out) (EmbedDocs.run w) ->
    Store.load true (EmbedDocs.vectors_file out)
    = (map loaded out, [Store.LogLoaded (length out)])
    /\ exists entries,
         EmbedDocs.listing w = Some entries
         /\ let files := regular_files (EmbedDocs.visible entries) in
            map Store.id (map loaded out) = map (fun f => Json.VStr (fst f)) files
            /\ map Store.text (map loaded out)
               = map (fun f => Json.VStr (EmbedDocs.take 10000 (snd f))) files
            /\ Forall2 (fun v r =>
                          Json.get_key v "embedding" = Json.VUndefined ->
                          Store.embedding r = Json.VUndefined)
                       out (map loaded out).
Proof.
  intros w out Hin.
  destruct (run_cases w) as [(pre & cause & R & L & C)|(entries & out' & Li & R & S)].
  - exfalso. rewrite R in Hin. apply in_app_or in Hin as [Hin|[Hin|[Hin|[]]]].
    + rewrite forallb_forall in L. specialize (L _ Hin). discriminate L.
    + subst cause. discriminate C.
    + discriminate Hin.
  - destruct (embed_files_spec w (EmbedDocs.visible entries) 0 []) as [L Sp].
    assert (out' = out).
    { rewrite R in Hin. apply in_app_or in Hin as [Hin|[Hin|[Hin|[]]]].
      - rewrite forallb_forall in L. specialize (L _ Hin). discriminate L.
      - injection Hin as ->. reflexivity.
      - discriminate Hin. }
    subst out'. destruct (Sp out S) as (added & E & I & T & _ & Rec).
    cbn [app] in E. subst added.
    split.
    + unfold EmbedDocs.vectors_file, Store.load. rewrite sent_array.
      rewrite (records_are_loaded out Rec), length_map. reflexivity.
    + exists entries. split; [exact Li|]. cbn zeta.
      rewrite <- I, <- T, !map_map.
      split; [|split].
      * apply map_ext_in. intros v Hv. rewrite Forall_forall in Rec.
        destruct (Rec v Hv) as [f [text [e ->]]]. reflexivity.
      * apply map_ext_in. intros v Hv. rewrite Forall_forall in Rec.
        destruct (Rec v Hv) as [f [text [e ->]]]. reflexivity.
      * clear -Rec. induction Rec as [|v out [f [text [e ->]]] _ IH]; [constructor|].
        cbn [map]. constructor; [|exact IH].
        unfold loaded. cbn [Store.embedding]. intros ->. reflexivity.
Qed.

(** The file written for the sample directory is loaded as two records. *)
Lemma written_vectors_are_loaded_whole_witness :
  map Store.id
    (fst (Store.load true
            (EmbedDocs.vectors_file
               [ EmbedDocs.record "a.txt" "uno" RankingSamples.query_east;
                 EmbedDocs.record "b.txt" "dos"
                   (Json.VArr [Json.VNum 0%float; Json.VNum 1%float]) ])))
  = [Json.VStr "a.txt"; Json.VStr "b.txt"].
Proof.
  destruct (written_vectors_are_loaded_whole EmbedSamples.world
              [ EmbedDocs.record "a.txt" "uno" RankingSamples.query_east;
                EmbedDocs.record "b.txt" "dos"
                  (Json.VArr [Json.VNum 0%float; Json.VNum 1%float]) ])
    as [E _].
  - vm_compute. repeat (first [left; reflexivity | right]).
  - rewrite E. reflexivity.
Defined.

(* ===================================================================== *)
(** * When a request is blocked *)
(* ===================================================================== *)

Section BlockingFacts.
Import Json Store Ranking Prompt Effects.
Local Open Scope js_scope.
Context {rt : Runtime} (w : Server.world).

(** The moderation service flags the message, or the call fails in one
    of the ways that leave the request through. *)
Lemma flags_or_fails : moderation_flags w \/ moderation_failure w.
Proof.
  unfold moderation_flags.
  destruct (Server.key_missing w) eqn:K; [right; apply mf_no_api_key; exact K|].
  destruct (Server.moderations w) as [|r] eqn:Mo; [right; apply mf_network_error; exact Mo|].
  destruct (ok r) eqn:O; [|right; exact (mf_status w r Mo O)].
  destruct (json r) as [j|] eqn:J; [|right; exact (mf_unparsable w r Mo J)].
  destruct (truthy (opt_key (opt_first (opt_key j "results")) "flagged")) eqn:T;
    [|right; exact (mf_malformed w r j Mo J T)].
  left. split; [reflexivity|]. exists r, j. auto.
Qed.

Lemma flagged_verdict (content : string) :
  moderation_flags w ->
  exists v, fst (Server.runModerationCheck w content []) = Ok v /\ Server.flagged v = true.
Proof.
  intros (K & r & j & Mo & O & J & T).
  unfold Server.runModerationCheck, Server.fetch, Server.res_json,
    try_catch, bind, emit, ret, throw.
  rewrite K, Mo. cbn. rewrite O, J. cbn. eexists. split; [reflexivity|]. exact T.
Qed.

(** With a failed moderation call the common stages never answer with
    the policy message, whatever relay never does. *)
Lemma pipeline_never_blocks_on_failure (relay : list message -> M unit) (req_body : jsval) :
  moderation_failure w ->
  (forall messages, emits_only not_policy_block (relay messages)) ->
  emits_only not_policy_block (pipeline w relay req_body).
Proof.
  intros F Hrelay. unfold pipeline.
  destruct (Server.validateMessageText _) as [v|] eqn:V.
  - apply emits_only_emit. unfold not_policy_block. simpl.
    rewrite (validation_error_not_policy v (validate_is_validation_error _ _ V)).
    reflexivity.
  - apply emits_only_bind.
    + unfold Server.moderation_stage.
      apply emits_only_try_catch; [|intros e; repeat emits_step].
      apply emits_only_bind_value with (Q := fun v => Server.flagged v = false).
      * apply emits_only_weaken with (P := is_moderation_event);
          [|apply runModerationCheck_emits].
        intros [ [ | | ] | | | | | | | ]; simpl; intros H; try discriminate H; reflexivity.
      * intros tr v. apply moderation_failure_not_flagged. exact F.
      * intros v ->. apply emits_only_ret.
    + intros [|]; [apply emits_only_ret|].
      apply emits_only_bind; [apply retrieval_stage_emits; reflexivity|intros docs].
      apply emits_only_bind; [apply assemble_emits|intros ms].
      destruct (Server.key_missing w); [apply emits_only_emit; reflexivity|].
      apply Hrelay.
Qed.

Lemma stream_never_blocks (messages : list message) :
  emits_only not_policy_block
    (Server.sse_headers ;;; Server.streaming_relay w messages).
Proof.
  apply emits_only_bind.
  - unfold Server.sse_headers. repeat emits_step.
  - intros _. apply streaming_relay_emits; reflexivity.
Qed.

End BlockingFacts.



(* ===================================================================== *)
(** * The stored conversation *)
(* ===================================================================== *)

Section StorageFacts.
Import Json.

Lemma sent_page_entry (v : jsval) : page_entry v -> Wire.sent v = v.
Proof.
  intros (role & text & now & -> & F & Z). unfold Client.entry. cbn [Wire.sent].
  rewrite F, Z. reflexivity.
Qed.

Lemma sent_page_entries (history : list jsval) :
  Forall page_entry history -> map Wire.sent history = history.
Proof.
  induction 1 as [|v history Hv _ IH]; [reflexivity|].
  cbn [map]. rewrite (sent_page_entry v Hv), IH. reflexivity.
Qed.

Lemma outgoing_entries_objects (hs : list jsval) :
  Forall (fun h => exists fields, h = VObj fields) hs ->
  exists es, Client.outgoing_entries hs = Some es.
Proof.
  induction 1 as [|h hs [fields ->] _ [es IH]]; [eexists; reflexivity|].
  cbn [Client.outgoing_entries Client.outgoing_entry]. rewrite IH. eexists. reflexivity.
Qed.

Lemma last_n_in {A : Type} (n : nat) (xs : list A) (x : A) :
  In x (Server.last_n n xs) -> In x xs.
Proof.
  unfold Server.last_n. intros H.
  rewrite <- (firstn_skipn (length xs - n) xs). apply in_or_app. right. exact H.
Qed.

End StorageFacts.

(** What the page stores is what it restores.  The history read back
    after a reload is the stored state as JSON carries it, and it is the
    state itself when every entry was made by the page for a text: the
    conversation survives a reload unchanged.  A stored text that is not
    JSON, or no stored text, restores the empty history.  And a history
    the page stored, whose entries are objects, can always be read by
    [send]: it never stops for that reason. *)
Theorem stored_conversation_survives_reload :
  forall (history : list Json.jsval),
    Client.restore (Client.persist history) = Json.VArr (map Wire.sent history)
    /\ Client.spread (Client.restore (Client.persist history)) = Some (map Wire.sent history)
    /\ (Forall page_entry history ->
        Client.restore (Client.persist history) = Json.VArr history)
    /\ Client.restore Client.BadItem = Json.VArr []
    /\ Client.restore Client.NoItem = Json.VArr []
    /\ (Forall (fun h => exists fields, h = Json.VObj fields) history ->
        exists posted,
          Client.last_entries (Client.persist history) = Some posted
          /\ length posted = Nat.min 10 (length history)).
Proof.
  intros history.
  assert (E : Client.restore (Client.persist history) = Json.VArr (map Wire.sent history))
    by reflexivity.
  split; [exact E|]. split; [rewrite E; reflexivity|].
  split; [intros F; rewrite E, (sent_page_entries history F); reflexivity|].
  split; [reflexivity|]. split; [reflexivity|].
  intros F. unfold Client.persist. rewrite sent_array. cbn [Client.last_entries].
  destruct (outgoing_entries_objects (Server.last_n 10 (map Wire.sent history)))
    as [posted P].
  { apply Forall_forall. intros h Hh. apply last_n_in in Hh.
    apply in_map_iff in Hh as [e [<- He]]. rewrite Forall_forall in F.
    destruct (F e He) as [fields ->]. apply sent_object. }
  exists posted. split; [exact P|].
  destruct (outgoing_entries_shape _ _ P) as [L _]. rewrite L.
  unfold Server.last_n. rewrite length_skipn, length_map. lia.
Qed.

(* ===================================================================== *)
(** * Symmetry of the similarity *)
(* ===================================================================== *)

Section SymmetryFacts.
Import Similarity.
Local Open Scope float_scope.

Lemma SFmul_comm (prec emax : Z) (x y : spec_float) :
  SFmul prec emax x y = SFmul prec emax y x.
Proof.
  destruct x as [sx|sx| |sx mx ex], y as [sy|sy| |sy my ey]; cbn [SFmul];
    rewrite ?(xorb_comm sx sy); try reflexivity.
  rewrite (Pos.mul_comm mx my), (Z.add_comm ex ey). reflexivity.
Qed.

Lemma float_mul_comm (x y : float) : x * y = y * x.
Proof. apply Prim2SF_inj. rewrite !mul_spec. apply SFmul_comm. Qed.

Lemma float_dot_comm (a b : @vector float) : length a = length b -> dot a b = dot b a.
Proof.
  intros L. unfold dot. rewrite <- L. apply fold_left_agree.
  intros s i _. cbn [add mul float_num]. rewrite float_mul_comm. reflexivity.
Qed.

End SymmetryFacts.

(** On two vectors of the same length the similarity does not depend on
    the order of its arguments, in binary64 arithmetic: the dot product
    and the product of the norms are the same either way, whatever the
    entries (absent, zero, infinite or NaN). *)
Theorem cosineSim_is_symmetric_on_equal_lengths :
  forall a b : @Similarity.vector float,
    length a = length b ->
    Similarity.dot a b = Similarity.dot b a
    /\ Similarity.cosineSim a b = Similarity.cosineSim b a.
Proof.
  intros a b L. pose proof (float_dot_comm a b L) as D.
  split; [exact D|]. unfold Similarity.cosineSim. rewrite D.
  cbn [Similarity.mul Similarity.float_num].
  rewrite (float_mul_comm (Similarity.norm a) (Similarity.norm b)). reflexivity.
Qed.

(** The vectors (3, 4) and (1, 0). *)
Lemma cosineSim_is_symmetric_on_equal_lengths_witness :
  Similarity.cosineSim [Some 3%float; Some 4%float] [Some 1%float; Some 0%float]
  = Similarity.cosineSim [Some 1%float; Some 0%float] [Some 3%float; Some 4%float].
Proof.
  exact (proj2 (cosineSim_is_symmetric_on_equal_lengths
                  [Some 3%float; Some 4%float] [Some 1%float; Some 0%float] eq_refl)).
Defined.

(* ===================================================================== *)
(** * When a handler returns *)
(* ===================================================================== *)

Section ReturnFacts.
Import Json Store Ranking Prompt Effects.
Local Open Scope js_scope.
Context {rt : Runtime} (w : Server.world).

Lemma read_history_throws (hs : list jsval) :
  Exists (fun h => readable_entry h = false) hs ->
  Server.read_history hs [] = (Throw TypeError, []).
Proof.
  induction 1 as [h hs Hh|h hs _ IH]; cbn [Server.read_history].
  - destruct (Server.entry_of h) as [e|] eqn:E; [|reflexivity].
    rewrite (proj2 (entry_of_readable h) (ex_intro _ e E)) in Hh. discriminate Hh.
  - destruct (Server.entry_of h); [|reflexivity]. unfold bind. rewrite IH. reflexivity.
Qed.

Lemma read_history_returns (hs : list jsval) :
  Forall (fun h => readable_entry h = true) hs ->
  exists es, Server.read_history hs [] = (Ok es, []).
Proof.
  induction 1 as [|h hs Hh _ [es IH]]; [eexists; reflexivity|].
  cbn [Server.read_history].
  apply entry_of_readable in Hh as [e ->]. unfold bind. rewrite IH.
  eexists. reflexivity.
Qed.

Lemma buffered_relay_returns (messages : list message) (tr : list event) :
  fst (Server.buffered_relay w messages tr) = Ok tt.
Proof.
  rewrite (framed_buffered_relay w messages tr). cbn [fst].
  destruct (buffered_relay_contract w messages) as [C _]. exact C.
Qed.

Lemma stream_returns (messages : list message) (tr : list event) :
  fst ((Server.sse_headers ;;; Server.streaming_relay w messages) tr) = Ok tt.
Proof.
  change ((Server.sse_headers ;;; Server.streaming_relay w messages) tr)
    with (Server.streaming_relay w messages (rev sse_header_events ++ tr)%list).
  destruct (streaming_relay_shape w messages (rev sse_header_events ++ tr)%list)
    as [post [_ R]].
  rewrite R. reflexivity.
Qed.

Lemma not_flagged_verdict (content : string) :
  ~ moderation_flags w ->
  exists v tr, Server.runModerationCheck w content [] = (Ok v, tr)
               /\ Server.flagged v = false.
Proof.
  intros N. destruct (flags_or_fails w) as [F|F]; [contradiction|].
  destruct (runModerationCheck_returns w content []) as [v Hv].
  destruct (Server.runModerationCheck w content []) as [res tr] eqn:R.
  cbn [fst] in Hv. subst res. exists v, tr. split; [reflexivity|].
  apply (moderation_failure_not_flagged w F content [] v). rewrite R. reflexivity.
Qed.

(** How the common stages end, for a relay that always returns. *)
Lemma pipeline_completion (relay : list message -> M unit) (req_body : jsval) :
  (forall messages tr, fst (relay messages tr) = Ok tt) ->
  (Server.validateMessageText (VStr (Server.user_message req_body)) <> None
   \/ moderation_flags w
   \/ Forall (fun h => readable_entry h = true) (Server.client_history 20 req_body) ->
   fst (pipeline w relay req_body []) = Ok tt)
  /\ (Server.validateMessageText (VStr (Server.user_message req_body)) = None ->
      ~ moderation_flags w ->
      Exists (fun h => readable_entry h = false) (Server.client_history 20 req_body) ->
      exists pre,
        pipeline w relay req_body [] = (Throw TypeError, pre)
        /\ forallb is_prelude_event pre = true).
Proof.
  intros Hrelay.
  destruct (Server.validateMessageText (VStr (Server.user_message req_body)))
    as [v0|] eqn:V.
  - split; [|discriminate]. intros _. unfold pipeline. rewrite V. reflexivity.
  - destruct (flags_or_fails w) as [Fl|Fa].
    + split; [|intros _ N; contradiction]. intros _.
      destruct (flagged_verdict w (Server.user_message req_body) Fl) as [v [R T]].
      rewrite (pipeline_flagged w relay req_body v V R T). reflexivity.
    + assert (N : ~ moderation_flags w).
      { intros (K & r & j & Mo & O & J & T).
        destruct Fa as [F|F|r' F1 F2|r' F1 F2|r' j' F1 F2 F3]; congruence. }
      destruct (not_flagged_verdict (Server.user_message req_body) N)
        as [v [tr1 [R1 Fl]]].
      destruct (retrieval_stage_run w (Server.user_message req_body))
        as [docs [tr2 [R2 F2]]].
      pose proof (emits_only_run _ _ _ _ (runModerationCheck_emits w _) R1) as F1.
      apply moderation_is_prelude in F1.
      rewrite (pipeline_steps w relay req_body v tr1 docs tr2 V R1 Fl R2).
      split.
      * intros [H|[H|H]]; [congruence|contradiction|].
        destruct (read_history_returns _ H) as [es ->]. cbn [fst].
        destruct (Server.key_missing w); [reflexivity|apply Hrelay].
      * intros _ _ H. rewrite (read_history_throws _ H). cbn [fst].
        exists (tr2 ++ tr1)%list. split; [reflexivity|].
        rewrite forallb_app, F1, F2. reflexivity.
Qed.

End ReturnFacts.

(** A request whose message converts to a string, served over a store
    whose texts convert, makes the Express handlers return, having
    answered or streamed, in every case but one.  When the message is
    valid and not flagged and one of the last 20 history entries cannot be
    read (it is [null] or [undefined], or its content is an object with a
    [toString] property of its own, or an array that holds one), reading
    that entry throws a TypeError after the moderation and retrieval
    stages: the handler ends with that exception, the completions service
    is not called, no answer is sent and no stream is started.  The
    Next.js route does the same with the last 10 entries, before any
    call. *)
Theorem handlers_return_unless_the_history_cannot_be_read :
  forall (rt : Json.Runtime) (w : Server.world) (req_body : Json.jsval),
    Json.String_throws (message_of req_body) = false ->
    Forall (fun v => Json.String_throws (Store.text v) = false) (Server.RAG_VECTORS w) ->
    let valid := Server.validateMessageText (Json.VStr (Server.user_message req_body)) in
    let unreadable_among n :=
      Exists (fun h => readable_entry h = false) (Server.client_history n req_body) in
    let all_readable n :=
      Forall (fun h => readable_entry h = true) (Server.client_history n req_body) in
    (valid <> None \/ moderation_flags w \/ all_readable 20 ->
     Effects.completion (Server.chat w req_body) = Effects.Ok tt
     /\ Effects.completion (Server.chat_stream w req_body) = Effects.Ok tt)
    /\ (valid = None -> ~ moderation_flags w -> unreadable_among 20 ->
        forall run,
          run = Server.chat w req_body \/ run = Server.chat_stream w req_body ->
          Effects.completion run = Effects.Throw Effects.TypeError
          /\ forallb is_prelude_event (Effects.events run) = true
          /\ filter is_respond (Effects.events run) = []
          /\ filter is_completions_fetch (Effects.events run) = []
          /\ filter is_stream_output (Effects.events run) = [])
    /\ (forall method,
          (method <> "POST" \/ Server.key_missing w = true \/ valid <> None
           \/ all_readable 10 ->
           Effects.completion (NextApi.handler w method req_body) = Effects.Ok tt)
          /\ (method = "POST" -> Server.key_missing w = false -> valid = None ->
              unreadable_among 10 ->
              Effects.completion (NextApi.handler w method req_body)
                = Effects.Throw Effects.TypeError
              /\ Effects.events (NextApi.handler w method req_body) = [])).
Proof.
  intros rt w req_body _ _ valid unreadable_among all_readable.
  subst valid unreadable_among all_readable.
  destruct (pipeline_completion w (Server.buffered_relay w) req_body
              (buffered_relay_returns w)) as [B1 B2].
  destruct (pipeline_completion w
              (fun ms => Effects.bind Server.sse_headers
                           (fun _ => Server.streaming_relay w ms)) req_body
              (stream_returns w)) as [S1 S2].
  split; [|split].
  - intros H. rewrite chat_is_pipeline, chat_stream_is_pipeline. unfold Effects.completion.
    split; [exact (B1 H)|exact (S1 H)].
  - intros V N E run Hrun.
    assert (T : exists pre, run [] = (Effects.Throw Effects.TypeError, pre)
                            /\ forallb is_prelude_event pre = true).
    { destruct Hrun as [->| ->].
      - rewrite chat_is_pipeline. exact (B2 V N E).
      - rewrite chat_stream_is_pipeline. exact (S2 V N E). }
    destruct T as [pre [R F]]. unfold Effects.completion, Effects.events. rewrite R.
    cbn [fst snd].
    split; [reflexivity|]. split; [rewrite forallb_rev; exact F|].
    split; [exact (prelude_has_no_respond pre F)|].
    split; [exact (prelude_holds is_completions_fetch pre prelude_not_completions F)|].
    exact (prelude_holds is_stream_output pre prelude_no_stream_output F).
  - intros method. unfold Effects.completion, Effects.events. split.
    + intros H.
      destruct (String.eqb_spec method "POST") as [->|Nm];
        [|rewrite (next_handler_other_method w method req_body Nm); reflexivity].
      destruct (Server.key_missing w) eqn:K;
        [rewrite (next_handler_no_key w req_body K); reflexivity|].
      destruct (Server.validateMessageText (Json.VStr (Server.user_message req_body)))
        as [v|] eqn:V.
      * destruct (next_route_invalid_run w req_body v K V) as [v' [Hv _]].
        rewrite Hv. reflexivity.
      * destruct H as [H|[H|[H|H]]]; try congruence.
        rewrite (next_handler_run w req_body K V).
        destruct (read_history_returns _ H) as [es ->]. cbn [fst].
        destruct (next_relay_contract w
                    (NextApi.messages_of w es (Server.user_message req_body))) as [C _].
        exact C.
    + intros -> K V E. rewrite (next_handler_run w req_body K V).
      rewrite (read_history_throws _ E). split; reflexivity.
Qed.

(** A valid message with a history whose only entry is [null], and one
    whose only entry has a content with a [toString] property: both
    Express handlers end with a TypeError after the moderation call. *)
Lemma handlers_return_unless_the_history_cannot_be_read_witness :
  (forall run,
      run = Server.chat (rt := Samples.runtime) Samples.world
              (Json.VObj [("message", Json.VStr "hola");
                          ("history", Json.VArr [Json.VNull])])
      \/ run = Server.chat_stream (rt := Samples.runtime) Samples.world
                 (Json.VObj [("message", Json.VStr "hola");
                             ("history", Json.VArr [Json.VNull])]) ->
      Effects.completion run = Effects.Throw Effects.TypeError
      /\ filter is_respond (Effects.events run) = [])
  /\ Effects.events
       (Server.chat (rt := Samples.runtime) Samples.world
          (Json.VObj [("message", Json.VStr "hola");
                      ("history",
                       Json.VArr [Json.VObj [("role", Json.VStr "user");
                                             ("content",
                                              Json.VObj [("toString", Json.VNum 1)])]])]))
     = [Effects.Fetch (Effects.ModerationsReq "hola")]
  /\ Effects.completion
       (Server.chat (rt := Samples.runtime) Samples.world
          (Json.VObj [("message", Json.VStr "hola");
                      ("history",
                       Json.VArr [Json.VObj [("role", Json.VStr "user");
                                             ("content",
                                              Json.VObj [("toString", Json.VNum 1)])]])]))
     = Effects.Throw Effects.TypeError.
Proof.
  assert (N : ~ moderation_flags Samples.world).
  { intros (_ & r & j & Mo & _ & J & T). injection Mo as <-. injection J as <-.
    discriminate T. }
  split.
  - intros run Hrun.
    destruct (handlers_return_unless_the_history_cannot_be_read Samples.runtime Samples.world
                (Json.VObj [("message", Json.VStr "hola");
                            ("history", Json.VArr [Json.VNull])])
                eq_refl (Forall_nil _)) as (_ & T & _).
    assert (E : Exists (fun h => readable_entry h = false)
                  (Server.client_history 20
                     (Json.VObj [("message", Json.VStr "hola");
                                 ("history", Json.VArr [Json.VNull])])))
      by (apply Exists_cons_hd; reflexivity).
    destruct (T eq_refl N E run Hrun) as (C & _ & R & _).
    split; [exact C|exact R].
  - split; [reflexivity|].
    destruct (handlers_return_unless_the_history_cannot_be_read Samples.runtime Samples.world
                (Json.VObj [("message", Json.VStr "hola");
                            ("history",
                             Json.VArr [Json.VObj [("role", Json.VStr "user");
                                                   ("content",
                                                    Json.VObj [("toString", Json.VNum 1)])]])])
                eq_refl (Forall_nil _)) as (_ & T & _).
    assert (E : Exists (fun h => readable_entry h = false)
                  (Server.client_history 20
                     (Json.VObj [("message", Json.VStr "hola");
                                 ("history",
                                  Json.VArr [Json.VObj [("role", Json.VStr "user");
                                                        ("content",
                                                         Json.VObj [("toString",
                                                                     Json.VNum 1)])]])])))
      by (apply Exists_cons_hd; reflexivity).
    destruct (T eq_refl N E _ (or_introl eq_refl)) as (C & _).
    exact C.
Defined.

